(** * gradon: the incremental aggregation engine and its snapshot store

    A shallow embedding of [gradon/stats.py], [gradon/stats_fs_adapter.py],
    [gradon/file_system.py] and the replay / delta parts of [gradon/core.py].

    - Paths are Python [str] values, kept as [string]; the [os.path] helpers
      and the two regular-expression substitutions of [_normalize_path] are
      written out on strings.
    - A pandas [Series] is a finite map from (category, metric) to a number;
      the number type has a [NaN], which is what pandas puts where the
      operand indexes do not line up.
    - The destination file system is the plain [FileSystem] class: a disk
      keyed by resolved path components, holding files and directories.
    - Python exceptions that are not caught become [Raise]. *)

From stdpp Require Import gmap strings list fin_maps.
From Stdlib Require Import ZArith Ascii.

(** ** Python [str] helpers *)

Module PyStr.

(** [s.startswith(p)] *)
Definition startswith (s p : string) : bool := String.prefix p s.

(** [s.endswith(suf)]: some tail of [s] is [suf]. *)
Fixpoint endswith (s suf : string) : bool :=
  if String.eqb s suf then true
  else match s with
       | EmptyString => false
       | String _ s' => endswith s' suf
       end.

(** [s[n:]] *)
Fixpoint drop (n : nat) (s : string) : string :=
  match n, s with
  | O, _ => s
  | S n', String _ s' => drop n' s'
  | S _, EmptyString => EmptyString
  end.

(** [s.replace(old, new)] for a non-empty [old]: occurrences are found
    left to right and do not overlap. [skip] counts the characters of a
    match that are still to be passed over. *)
Fixpoint replace_go (old new : string) (skip : nat) (s : string) : string :=
  match s with
  | EmptyString => EmptyString
  | String c s' =>
      match skip with
      | S k => replace_go old new k s'
      | O =>
          if String.prefix old s
          then new +:+ replace_go old new (String.length old - 1) s'
          else String c (replace_go old new 0 s')
      end
  end.

Definition replace (s old new : string) : string := replace_go old new 0 s.

Fixpoint contains (c : ascii) (s : string) : bool :=
  match s with
  | EmptyString => false
  | String c' s' => if Ascii.eqb c c' then true else contains c s'
  end.

(** [s.rstrip(c)] *)
Fixpoint rstrip (c : ascii) (s : string) : string :=
  match s with
  | EmptyString => EmptyString
  | String c' s' =>
      match rstrip c s' with
      | EmptyString => if Ascii.eqb c c' then EmptyString else String c' EmptyString
      | r => String c' r
      end
  end.

(** [s.split(c)] *)
Fixpoint split (c : ascii) (s : string) : list string :=
  match s with
  | EmptyString => [EmptyString]
  | String c' s' =>
      if Ascii.eqb c c' then EmptyString :: split c s'
      else match split c s' with
           | w :: ws => String c' w :: ws
           | [] => [String c' EmptyString]
           end
  end.

Fixpoint all_char (c : ascii) (s : string) : bool :=
  match s with
  | EmptyString => true
  | String c' s' => Ascii.eqb c c' && all_char c s'
  end.

End PyStr.

(** ** [os.path] (posixpath) *)

Module OsPath.

Definition sep : ascii := "/"%char.

(** [head] is [p[:i]] and [basename] is [p[i:]] for [i = p.rfind('/') + 1]. *)
Fixpoint head (p : string) : string :=
  match p with
  | EmptyString => EmptyString
  | String c p' =>
      if PyStr.contains sep p' then String c (head p')
      else if Ascii.eqb c sep then String c EmptyString
      else EmptyString
  end.

Fixpoint basename (p : string) : string :=
  match p with
  | EmptyString => EmptyString
  | String c p' =>
      if PyStr.contains sep p' then basename p'
      else if Ascii.eqb c sep then p'
      else p
  end.

Definition dirname (p : string) : string :=
  let h := head p in
  if negb (String.eqb h "") && negb (PyStr.all_char sep h)
  then PyStr.rstrip sep h else h.

Definition join2 (a b : string) : string :=
  if PyStr.startswith b "/" then b
  else if String.eqb a "" || PyStr.endswith a "/" then a +:+ b
  else a +:+ "/" +:+ b.

(** [os.path.join(a, *ps)] *)
Definition join (a : string) (ps : list string) : string := fold_left join2 ps a.

(** What the operating system makes of a relative path: its components,
    without the empty ones and without ["."]. (The paths of this program
    come from [scandir] and from git; they are relative and have no
    [".."]. An absolute path is not told apart from a relative one here,
    and [".."] is kept as a name.) *)
Definition resolve (p : string) : list string :=
  List.filter (fun w => negb (String.eqb w "") && negb (String.eqb w "."))
              (PyStr.split sep p).

End OsPath.

(** [re.sub(r'^\./', '', re.sub(r'/\./', '/', path))], shared by
    [FileSystem._normalize_path] and
    [CachedStatsFSAdapterMixin._normalize_path]. *)
Definition _normalize_path (path : string) : string :=
  let p1 := PyStr.replace path "/./" "/" in
  if PyStr.startswith p1 "./" then PyStr.drop 2 p1 else p1.

(** ** Exceptions *)

Inductive exn :=
| OSError | ValueError | AttributeError | TypeError
| StopIteration | GitCommandError
| AnalysisFailed    (* [class AnalysisFailed(Exception)] of stats.py *)
| OutOfFuel.        (* no Python exception: the bound of a model loop was hit *)

Inductive res (A : Type) : Type :=
| Ok (a : A)
| Raise (e : exn).
Arguments Ok {A} a.
Arguments Raise {A} e.

#[global] Instance res_ret : MRet res := fun _ a => Ok a.
#[global] Instance res_bind : MBind res := fun _ _ f m =>
  match m with Ok a => f a | Raise e => Raise e end.
#[global] Instance res_fmap : FMap res := fun _ _ f m =>
  match m with Ok a => Ok (f a) | Raise e => Raise e end.

Definition is_ok {A} (r : res A) : bool :=
  match r with Ok _ => true | Raise _ => false end.

(** A Python [for] loop whose body may raise, threading the state. *)
Fixpoint for_each {A S : Type} (body : A -> S -> res S) (l : list A) (s : S) : res S :=
  match l with
  | [] => Ok s
  | x :: l' => s' ← body x s; for_each body l' s'
  end.

(** ** StatValue: a pandas Series keyed by (category, metric) *)

(** The values of a Series: the integers, and the [NaN] that pandas puts
    where indexes do not line up. The program also stores floats (the
    Halstead metrics, which [_preserve_integers] keeps when they are no
    whole numbers); they are not in this type, so what is proved of sums
    holds of Series of integers. *)
Inductive num := Num (z : Z) | NaN.

#[global] Instance num_eq_dec : EqDecision num.
Proof. solve_decision. Defined.

Abbreviation series := (gmap (string * string) num).

(** [series.apply(lambda v: 0)] *)
Definition zero_series (s : series) : series := (fun _ => Num 0) <$> s.

(** One aligned position of [a.add(b, fill_value=0)]: the indexes are
    aligned on their union, then a position missing on exactly one side is
    filled with [0]; a position missing on both sides stays missing. *)
Definition fill_add (x y : option num) : option num :=
  match x, y with
  | None, None => None
  | _, _ =>
      match default NaN x, default NaN y with
      | NaN, NaN => Some NaN
      | NaN, Num b => Some (Num (0 + b))
      | Num a, NaN => Some (Num (a + 0))
      | Num a, Num b => Some (Num (a + b))
      end
  end.

Definition series_add_fill0 (a b : series) : series := merge fill_add a b.

(** One aligned position of the operators [a + b] and [a - b]: a label
    missing on either side gives [NaN]. *)
Definition align_op (f : Z -> Z -> Z) (x y : option num) : option num :=
  match x, y with
  | None, None => None
  | Some (Num a), Some (Num b) => Some (Num (f a b))
  | _, _ => Some NaN
  end.

Definition series_plus (a b : series) : series := merge (align_op Z.add) a b.
Definition series_minus (a b : series) : series := merge (align_op Z.sub) a b.

(** [s.mul(k)] for a scalar [k] *)
Definition series_mul (s : series) (k : Z) : series :=
  (fun v => match v with Num a => Num (a * k) | NaN => NaN end) <$> s.

(** [0 + s], the first step of the builtin [sum] *)
Definition int_plus_series (k : Z) (s : series) : series :=
  (fun v => match v with Num a => Num (k + a) | NaN => NaN end) <$> s.

(** The builtin [sum(list_of_series)]: it starts from the integer [0], so
    the sum of an empty list is that integer and not a Series. *)
Inductive pysum := SumInt0 | SumSeries (s : series).

Definition py_sum (l : list series) : pysum :=
  fold_left (fun acc s =>
               match acc with
               | SumInt0 => SumSeries (int_plus_series 0 s)
               | SumSeries t => SumSeries (series_plus t s)
               end) l SumInt0.

Definition has_nan (s : series) : bool :=
  bool_decide (Exists (fun kv => kv.2 = NaN) (map_to_list s)).

(** [series_to_dict]: [int(value)] raises [ValueError] on a NaN. The YAML
    dump and load of the nested dict are taken as inverse to each other, so
    the content of a stats file is the Series itself. *)
Definition series_to_dict (s : series) : res series :=
  if has_nan s then Raise ValueError else Ok s.

(** ** The destination file system: class [FileSystem] *)

(** An entry of [*.methods.yaml]: [{name: {grade: lloc}}]. *)
Definition method : Type := string * (string * Z).

(** The line counts git gives for a path: (lines, insertions, deletions). *)
Definition line_change : Type := Z * Z * Z.

Inductive content :=
| CStats (s : series)                              (* a [*.stats.yaml] file *)
| CMethods (ms : list method)                      (* a [*.methods.yaml] file *)
| CChanges (files : list (string * line_change))   (* [LATEST_CHANGES.yaml] *)
| CChangesTotal (total : line_change)              (* [LATEST_CHANGES_TOTAL.yaml] *)
| CText (t : string).                              (* anything else *)

Inductive entry := EFile (c : content) | EDir.

#[global] Instance content_eq_dec : EqDecision content.
Proof. solve_decision. Defined.
#[global] Instance entry_eq_dec : EqDecision entry.
Proof. solve_decision. Defined.

(** The disk under the work root, keyed by resolved components. The root
    itself, [[]], always is a directory. *)
Abbreviation disk := (gmap (list string) entry).

Module FileSystem.

Definition lookup_entry (d : disk) (k : list string) : option entry :=
  match k with [] => Some EDir | _ => d !! k end.

(** [os.path.join] of the parts *)
Definition join_parts (parts : list string) : string :=
  match parts with [] => "" | a :: ps => OsPath.join a ps end.

(** [os.path.exists] *)
Definition exists_ (d : disk) (p : string) : bool :=
  bool_decide (is_Some (lookup_entry d (OsPath.resolve p))).

(** The name of [k'] when it is an immediate child of [k]. *)
Fixpoint child_name (k k' : list string) : option string :=
  match k, k' with
  | [], [n] => Some n
  | x :: k1, y :: k1' => if decide (x = y) then child_name k1 k1' else None
  | _, _ => None
  end.

(** The entries of [scandir] on the directory at [k]; the order of
    [scandir] is not specified, here it is the order of the map. *)
Definition children {V} (d : gmap (list string) V) (k : list string) : list (string * V) :=
  omap (fun ke => n ← child_name k ke.1; Some (n, ke.2)) (map_to_list d).

Definition scandir (d : disk) (p : string) : res (list (string * entry)) :=
  match lookup_entry d (OsPath.resolve p) with
  | Some EDir => Ok (children d (OsPath.resolve p))
  | _ => Raise OSError
  end.

(** The proper, non-root ancestors of [k], outermost first. *)
Definition ancestors (k : list string) : list (list string) :=
  List.map (fun n => take n k) (seq 1 (length k - 1)).

(** [os.makedirs] of the ancestors: a file in the way raises. *)
Definition makedirs (k : list string) (d : disk) : res disk :=
  for_each (fun a d =>
              match d !! a with
              | None => Ok (<[a := EDir]> d)
              | Some EDir => Ok d
              | Some (EFile _) => Raise OSError
              end) (ancestors k) d.

(** [add_file] on the joined parts; [body] is what the caller does inside
    the [with] block to produce the text it writes. *)
Definition add_file (parts : list string) (body : res content) (d : disk) : res disk :=
  let k := OsPath.resolve (_normalize_path (join_parts parts)) in
  d1 ← makedirs k d;
  match lookup_entry d1 k with
  | Some EDir => Raise OSError
  | _ => c ← body; Ok (<[k := EFile c]> d1)
  end.

(** [read] on the joined parts *)
Definition read (parts : list string) (d : disk) : res (option content) :=
  match lookup_entry d (OsPath.resolve (join_parts parts)) with
  | Some (EFile c) => Ok (Some c)
  | Some EDir => Raise OSError
  | None => Ok None
  end.

(** [ls_files(path)]: every entry name, files and directories alike. *)
Definition ls_files (path : string) (d : disk) : res (list string) :=
  if exists_ d path then es ← scandir d path; Ok (List.map fst es) else Ok [].

(** [ls_dirs(path)] *)
Definition ls_dirs (path : string) (d : disk) : res (list string) :=
  es ← scandir d path;
  Ok (List.map fst
        (List.filter (fun ne => bool_decide (ne.2 = EDir)
                                && negb (PyStr.startswith ne.1 ".")) es)).

(** [rm(path)]: [os.remove] raises on a directory. *)
Definition rm (path : string) (d : disk) : res disk :=
  match lookup_entry d (OsPath.resolve path) with
  | Some (EFile _) => Ok (delete (OsPath.resolve path) d)
  | Some EDir => Raise OSError
  | None => Ok d
  end.

(** [rmdir(path)]: the [OSError] of [os.rmdir] (directory not empty, or
    not a directory) is swallowed. *)
Definition rmdir (path : string) (d : disk) : disk :=
  let k := OsPath.resolve path in
  match k, d !! k with
  | _ :: _, Some EDir =>
      match children d k with
      | [] => delete k d
      | _ => d
      end
  | _, _ => d
  end.

End FileSystem.

(** ** stats_fs_adapter.py *)

(** [if data:] on the text of a file *)
Definition content_truthy (c : content) : bool :=
  match c with CText "" => false | _ => true end.

(** [read_stats_file]: only the dump of a Series loads back as one. The
    load of the YAML text and [dict_to_series] are taken as the inverse of
    the dump; for the dump of the empty Series, on which
    [dict_to_series] raises, this gives the empty Series. *)
Definition read_stats_file (c : content) : res series :=
  match c with CStats s => Ok s | _ => Raise AttributeError end.

Module StatsFSAdapter.

Definition set (path : string) (s : series) (d : disk) : res disk :=
  FileSystem.add_file [path +:+ ".stats.yaml"] (CStats <$> series_to_dict s) d.

Definition get (path : string) (default : option series) (d : disk) : res (option series) :=
  data ← FileSystem.read [path +:+ ".stats.yaml"] d;
  match data with
  | Some c => if content_truthy c then Some <$> read_stats_file c else Ok default
  | None => Ok default
  end.

Definition rm (path : string) (d : disk) : res disk :=
  FileSystem.rm (path +:+ ".stats.yaml") d.

Definition ls (path : string) (d : disk) : res (list string) :=
  fs ← FileSystem.ls_files path d;
  Ok (List.map (fun f => PyStr.replace f ".stats.yaml" "")
               (List.filter (fun f => PyStr.endswith f ".stats.yaml") fs)).

End StatsFSAdapter.

(** A slot of [CachedStatsFSAdapterMixin._cache]: the [None] that [rm]
    stores, or the pickle of what [get] and [set] saw (which itself may be
    the pickle of [None]). *)
Inductive cache_val := CacheNone | Pickled (v : option series).

(** The destination as the updater holds it: [_dest_fs] and the cache of
    [_dest_stats], which wraps the same file system. *)
Record store := mkStore {
  st_disk : disk;
  st_cache : gmap string cache_val
}.

(** [CachedStatsFSAdapter(CachedStatsFSAdapterMixin, StatsFSAdapter)] *)
Module CachedStatsFSAdapter.

Definition get (path : string) (default : option series) (st : store)
  : res (option series * store) :=
  let path := _normalize_path path in
  match st_cache st !! path with
  | Some (Pickled v) => Ok (v, st)        (* [pickle.loads(data)] *)
  | Some CacheNone => Ok (None, st)
  | None =>
      v ← StatsFSAdapter.get path default (st_disk st);
      Ok (v, mkStore (st_disk st) (<[path := Pickled v]> (st_cache st)))
  end.

Definition set (path : string) (s : series) (st : store) : res store :=
  let path := _normalize_path path in
  let cache := <[path := Pickled (Some s)]> (st_cache st) in
  d ← StatsFSAdapter.set path s (st_disk st);
  Ok (mkStore d cache).

Definition rm (path : string) (st : store) : res store :=
  let cache := <[path := CacheNone]> (st_cache st) in
  d ← StatsFSAdapter.rm path (st_disk st);
  Ok (mkStore d cache).

Definition ls (path : string) (st : store) : res (list string) :=
  StatsFSAdapter.ls path (st_disk st).

End CachedStatsFSAdapter.

(** ** stats.py *)

(** The source tree under [source_root]: files with their text, and
    directories. *)
Inductive sentry := SFile (text : string) | SDir.

#[global] Instance sentry_eq_dec : EqDecision sentry.
Proof. solve_decision. Defined.

Abbreviation source_tree := (gmap (list string) sentry).

(** A regular expression, as the predicate [re.search(pattern, s)]. *)
Definition pattern : Type := string -> bool.

(** The fields of a [StatsUpdater]. [radon] stands for the analysis done
    by the radon library on the text of a file; it gives [None] where
    [_analyze_file_internal] raises [AnalysisFailed]. *)
Record updater := mkUpdater {
  _source_root : source_tree;
  _test_patterns : list pattern;
  radon : string -> option (series * list method)
}.

Definition src_lookup (src : source_tree) (k : list string) : option sentry :=
  match k with [] => Some SDir | _ => src !! k end.

(** [scandir.scandir(self._source_path(path))] *)
Definition src_scandir (src : source_tree) (path : string) : res (list (string * sentry)) :=
  match src_lookup src (OsPath.resolve path) with
  | Some SDir => Ok (FileSystem.children src (OsPath.resolve path))
  | _ => Raise OSError
  end.

(** [scandirs_depth_first(root)]; the recursion is as deep as the tree. *)
Fixpoint scandirs_depth_first (depth : nat) (src : source_tree) (root : string)
  : res (list string) :=
  match depth with
  | O => Raise OutOfFuel
  | S depth' =>
      es ← src_scandir src root;
      for_each (fun dir_name acc =>
                  subs ← scandirs_depth_first depth' src (OsPath.join2 root dir_name);
                  Ok (acc ++ List.map (OsPath.join2 dir_name) subs ++ [dir_name]))
               (List.map fst
                  (List.filter (fun ne => bool_decide (ne.2 = SDir)
                                          && negb (PyStr.startswith ne.1 ".")) es))
               []
  end.

Definition _analyze_file_internal (u : updater) (path : string)
  : res (series * list method) :=
  match src_lookup (_source_root u) (OsPath.resolve path) with
  | Some (SFile text) =>
      match radon u text with
      | Some r => Ok r
      | None => Raise AnalysisFailed
      end
  | _ => Raise OSError       (* [open(path)] *)
  end.

Definition _analyze_file (u : updater) (path : string)
  : res (option (series * list method)) :=
  match _analyze_file_internal u path with
  | Ok r => Ok (Some r)
  | Raise AnalysisFailed => Ok None
  | Raise e => Raise e
  end.

(** [sorted(methods, key=lambda m: next(iter(m)))]: stable, by name. A
    method is put in front of the later methods whose names are not
    smaller, so methods of one name keep their order. *)
Fixpoint insert_method (m : method) (l : list method) : list method :=
  match l with
  | [] => [m]
  | m' :: l' => if String.ltb m'.1 m.1 then m' :: insert_method m l' else m :: l
  end.

Definition sorted_methods (ms : list method) : list method :=
  fold_right insert_method [] ms.

(** [re.sub(r'.stats.yaml$', '', s)]: the dots match any character but a
    newline. *)
Definition newline : ascii := Ascii.ascii_of_nat 10.

Definition match_any_stats_any_yaml (s : string) : bool :=
  match s with
  | String c0 (String "s" (String "t" (String "a" (String "t" (String "s"
      (String c6 (String "y" (String "a" (String "m" (String "l" EmptyString)))))))))) =>
      negb (Ascii.eqb c0 newline) && negb (Ascii.eqb c6 newline)
  | _ => false
  end.

Fixpoint re_sub_stats_yaml (s : string) : string :=
  if match_any_stats_any_yaml s then EmptyString
  else match s with
       | EmptyString => EmptyString
       | String c s' => String c (re_sub_stats_yaml s')
       end.

Module StatsUpdater.

Definition _source_exists (u : updater) (parts : list string) : bool :=
  bool_decide (is_Some (src_lookup (_source_root u)
                          (OsPath.resolve (FileSystem.join_parts parts)))).

Definition _store_stats (s : series) (path : list string) (st : store) : res store :=
  CachedStatsFSAdapter.set (FileSystem.join_parts path) s st.

Definition _load_stats (path : list string) (st : store) : res (option series * store) :=
  CachedStatsFSAdapter.get (FileSystem.join_parts path) None st.

Definition _remove_stats_file (path : list string) (st : store) : res store :=
  CachedStatsFSAdapter.rm (FileSystem.join_parts path) st.

Definition _remove_stats_dir (path : list string) (st : store) : store :=
  mkStore (FileSystem.rmdir (FileSystem.join_parts path) (st_disk st)) (st_cache st).

Definition _stats_dirs (path : list string) (st : store) : res (list string) :=
  FileSystem.ls_dirs (FileSystem.join_parts path) (st_disk st).

Definition _py_stats_files (path : list string) (st : store) : res (list string) :=
  fs ← CachedStatsFSAdapter.ls (FileSystem.join_parts path) st;
  Ok (List.filter (fun f => PyStr.endswith f ".py") fs).

Definition _py_method_files (path : list string) (st : store) : res (list string) :=
  fs ← FileSystem.ls_files (FileSystem.join_parts path) (st_disk st);
  Ok (List.filter (fun f => PyStr.endswith f ".py") fs).

Definition _non_py_stats_files (path : list string) (st : store) : res (list string) :=
  fs ← CachedStatsFSAdapter.ls (FileSystem.join_parts path) st;
  Ok (List.filter (fun f => negb (PyStr.endswith f ".py")) fs).

Definition any_pattern (pats : list pattern) (s : string) : bool :=
  existsb (fun pat => pat s) pats.

(** The candidates of [_visit_files_in_dir]: [files_to_analyze_iter]. *)
Definition files_to_analyze (u : updater) (dir_path : string)
    (changed_files : option (list string)) (paths : option (list string))
    (ignore_patterns : list pattern) : res (list string) :=
  changed_files_iter ←
    match changed_files with
    | None => es ← src_scandir (_source_root u) dir_path; Ok (List.map fst es)
    | Some fs => Ok (List.filter (fun f => _source_exists u [dir_path; f]) fs)
    end;
  Ok (List.filter
        (fun f =>
           PyStr.endswith f ".py"
           && match paths with
              | None => true
              | Some ps => negb (existsb (PyStr.startswith (OsPath.join dir_path [f])) ps)
              end
           && negb (any_pattern ignore_patterns (OsPath.join dir_path [f])))
        changed_files_iter).

(** One turn of the loop over [zip(result_dicts, file_names_iter)]. *)
Definition visit_one (u : updater) (dir_path file_name : string)
    (acc : bool * store) : res (bool * store) :=
  result_dict ← _analyze_file u (FileSystem.join_parts [dir_path; file_name]);
  match result_dict with
  | Some (s, methods) =>
      st1 ← _store_stats s [dir_path; file_name] acc.2;
      d ← FileSystem.add_file [dir_path; file_name +:+ ".methods.yaml"]
            (Ok (CMethods (sorted_methods methods))) (st_disk st1);
      Ok (true, mkStore d (st_cache st1))
  | None => Ok acc
  end.

Definition in_changed (changed_files : option (list string)) (f : string) : bool :=
  match changed_files with
  | None => true
  | Some fs => bool_decide (f ∈ fs)
  end.

Definition stale_stats_files (u : updater) (dir_path : string)
    (changed_files : option (list string)) (st : store) : res (list string) :=
  stats_files ← _py_stats_files [dir_path] st;
  method_files ← _py_method_files [dir_path] st;
  Ok (List.filter (fun f => in_changed changed_files f
                            && negb (_source_exists u [dir_path; f]))
                  (stats_files ++ method_files)).

Definition _visit_files_in_dir (u : updater) (dir_path : string)
    (changed_files : option (list string)) (paths : option (list string))
    (ignore_patterns : list pattern) (st : store) : res (bool * store) :=
  files ← files_to_analyze u dir_path changed_files paths ignore_patterns;
  '(has_changes, st1) ← for_each (visit_one u dir_path) files (false, st);
  stale ← stale_stats_files u dir_path changed_files st1;
  st2 ← for_each (fun stale_file => _remove_stats_file [dir_path; stale_file]) stale st1;
  Ok (has_changes || negb (bool_decide (stale = [])), st2).

(** The dict [totals] of [_aggregate_dir]: its three values are [None]
    together, before the first file, and Series together after it. *)
Record totals := mkTotals {
  TOTAL : series;
  TOTAL_TEST : series;
  TOTAL_NON_TEST : series
}.

Definition is_test (u : updater) (stats_file : string) : bool :=
  any_pattern (_test_patterns u) (re_sub_stats_yaml stats_file).

(** One turn of the loop of [_aggregate_dir] over the stats files. *)
Definition aggregate_one (u : updater) (dir_path stats_file : string)
    (acc : option totals * store) : res (option totals * store) :=
  '(loaded, st1) ← _load_stats [dir_path; stats_file] acc.2;
  t0 ← match acc.1, loaded with
       | Some t, _ => Ok t
       | None, Some s => Ok (mkTotals (zero_series s) (zero_series s) (zero_series s))
       | None, None => Raise AttributeError      (* [zero_series(None)] *)
       end;
  s ← match loaded with
      | Some s => Ok s
      | None => Raise TypeError                   (* [.add(None, fill_value=0)] *)
      end;
  let total := series_add_fill0 (TOTAL t0) s in
  if is_test u stats_file
  then Ok (Some (mkTotals total (series_add_fill0 (TOTAL_TEST t0) s) (TOTAL_NON_TEST t0)), st1)
  else Ok (Some (mkTotals total (TOTAL_TEST t0) (series_add_fill0 (TOTAL_NON_TEST t0) s)), st1).

Definition total_names : list string := ["TOTAL"; "TOTAL_TEST"; "TOTAL_NON_TEST"].

Definition _aggregate_dir (u : updater) (dir_path : string) (st : store) : res store :=
  individual_stats_files ← _py_stats_files [dir_path] st;
  '(tot, st1) ← for_each (aggregate_one u dir_path) individual_stats_files (None, st);
  match individual_stats_files with
  | _ :: _ =>
      match tot with
      | Some t =>
          st2 ← _store_stats (TOTAL t) [dir_path; "TOTAL"] st1;
          st3 ← _store_stats (TOTAL_TEST t) [dir_path; "TOTAL_TEST"] st2;
          _store_stats (TOTAL_NON_TEST t) [dir_path; "TOTAL_NON_TEST"] st3
      | None => Raise AttributeError
      end
  | [] =>
      for_each (fun name => _remove_stats_file [dir_path; name]) total_names st1
  end.

(** [subtotal_path[1:-1]] *)
Definition middle (path : list string) : list string :=
  match path with
  | [] => []
  | _ :: rest => removelast rest
  end.

(** The inner loop of [_aggregate_subtree] over [subtotal_paths]; the
    accumulator is [subtotal_stats], [found_stats] and the store. *)
Definition load_subtotal (subtotal_path : list string)
    (acc : list series * list (list string) * store)
  : res (list series * list (list string) * store) :=
  '(stats, st1) ← _load_stats subtotal_path acc.2;
  match stats with
  | Some s => Ok (acc.1.1 ++ [s], middle subtotal_path :: acc.1.2, st1)
  | None => Ok (acc.1.1, acc.1.2, st1)
  end.

(** One turn of the loop over [('TOTAL', 'TOTAL_TEST', 'TOTAL_NON_TEST')]. *)
Definition aggregate_subtree_name (dir_path : string) (subdirs existing_totals : list string)
    (name : string) (acc : list (list string) * store)
  : res (list (list string) * store) :=
  let subtree_name := "SUBTREE_" +:+ name in
  let subtotal_paths :=
    List.map (fun d => [dir_path; d; subtree_name]) subdirs ++ [[dir_path; name]] in
  '(subtotal_stats, found_stats, st1) ←
    for_each load_subtotal subtotal_paths ([], acc.1, acc.2);
  match py_sum subtotal_stats with
  | SumInt0 =>                                     (* [total is 0] *)
      if bool_decide (subtree_name ∈ existing_totals)
      then (st2 ← _remove_stats_file [dir_path; subtree_name] st1; Ok (found_stats, st2))
      else Ok (found_stats, st1)
  | SumSeries total =>
      st2 ← _store_stats total [dir_path; subtree_name] st1; Ok (found_stats, st2)
  end.

Definition prune_subdirs (dir_path : string) (found_stats : list (list string))
    (subdirs : list string) (st : store) : store :=
  fold_left (fun st subdir =>
               if bool_decide ([subdir] ∈ found_stats) then st
               else _remove_stats_dir [dir_path; subdir] st)
            subdirs st.

Definition _aggregate_subtree (dir_path : string) (st : store) : res store :=
  subdirs ← _stats_dirs [dir_path] st;
  existing_totals ← _non_py_stats_files [dir_path] st;
  '(found_stats, st1) ←
    for_each (aggregate_subtree_name dir_path subdirs existing_totals)
             total_names ([], st);
  Ok (prune_subdirs dir_path found_stats subdirs st1).

(** The heap of [heapq], holding [(-len(path), path)]: a priority queue,
    kept here as a sorted list. Tuples compare component by component,
    strings by code point. *)
Definition heap_item : Type := Z * string.

Definition item_ltb (a b : heap_item) : bool :=
  (a.1 <? b.1)%Z || ((a.1 =? b.1)%Z && String.ltb a.2 b.2).

Fixpoint heappush (h : list heap_item) (x : heap_item) : list heap_item :=
  match h with
  | [] => [x]
  | y :: h' => if item_ltb y x then y :: heappush h' x else x :: h
  end.

Definition heap_key (path : string) : heap_item :=
  ((- Z.of_nat (String.length path))%Z, path).

(** [os.path.dirname(dir_path) or '.'] *)
Definition parent_path (dir_path : string) : string :=
  match OsPath.dirname dir_path with
  | EmptyString => "."
  | d => d
  end.

(** The [while remaining_path_heap:] loop. [finished_paths] is kept in
    the order in which the directories were aggregated. *)
Fixpoint subtrees_loop (fuel : nat) (remaining_path_heap : list heap_item)
    (finished_paths : list string) (st : store) : res (list string * store) :=
  match remaining_path_heap with
  | [] => Ok (finished_paths, st)
  | (_, dir_path) :: rest =>
      match fuel with
      | O => Raise OutOfFuel
      | S fuel' =>
          if bool_decide (dir_path ∈ finished_paths)
          then subtrees_loop fuel' rest finished_paths st
          else
            st1 ← _aggregate_subtree dir_path st;
            subtrees_loop fuel' (heappush rest (heap_key (parent_path dir_path)))
                          (finished_paths ++ [dir_path]) st1
      end
  end.

(** How far a path is from the end of its chain of parents. *)
Definition rank (path : string) : nat :=
  if String.eqb path "." then 0 else String.length path + 2.

Definition loop_bound (dir_paths : list string) : nat :=
  S (list_sum (List.map (fun p => 2 * rank p + 2) dir_paths)).

Definition _aggregate_subtrees (dir_paths : list string) (st : store)
  : res (list string * store) :=
  subtrees_loop (loop_bound dir_paths)
                (fold_left heappush (List.map heap_key dir_paths) [])
                [] st.

(** [files_by_dir[os.path.dirname(f) or '.'].add(os.path.basename(f))] *)
Fixpoint add_to_dir (dir_name base : string) (files_by_dir : list (string * list string))
  : list (string * list string) :=
  match files_by_dir with
  | [] => [(dir_name, [base])]
  | (d, fs) :: rest =>
      if String.eqb d dir_name
      then (d, if bool_decide (base ∈ fs) then fs else fs ++ [base]) :: rest
      else (d, fs) :: add_to_dir dir_name base rest
  end.

Definition _generate_dirs_and_files (u : updater) (changed_files : option (list string))
  : res (list (string * option (list string))) :=
  match changed_files with
  | None =>
      dirs ← scandirs_depth_first (S (size (_source_root u))) (_source_root u) "";
      Ok (List.map (fun d => (d, None)) dirs ++ [(".", None)])
  | Some fs =>
      Ok (List.map (fun df => (df.1, Some df.2))
            (fold_left (fun acc f => add_to_dir (parent_path f) (OsPath.basename f) acc)
                       fs []))
  end.

Definition set_add (x : string) (l : list string) : list string :=
  if bool_decide (x ∈ l) then l else l ++ [x].

(** One turn of the loop of [update] over [dir_files_iter]. *)
Definition update_dir (u : updater) (paths : option (list string))
    (ignore_patterns : list pattern) (df : string * option (list string))
    (acc : list string * store) : res (list string * store) :=
  visited ← _visit_files_in_dir u df.1 df.2 paths ignore_patterns acc.2;
  let has_changes : bool := visited.1 in
  if has_changes
  then (st2 ← _aggregate_dir u df.1 visited.2; Ok (set_add df.1 acc.1, st2))
  else Ok (acc.1, visited.2).

Definition update (u : updater) (changed_files : option (list string))
    (paths : option (list string)) (ignore_patterns : list pattern) (st : store)
  : res (list string * store) :=
  dir_files ← _generate_dirs_and_files u changed_files;
  '(dirty_dirs, st1) ← for_each (update_dir u paths ignore_patterns) dir_files ([], st);
  match dirty_dirs with
  | [] => Ok (dirty_dirs, st1)
  | _ =>
      '(finished_paths, st2) ← _aggregate_subtrees dirty_dirs st1;
      Ok (fold_left (fun acc p => set_add p acc) finished_paths dirty_dirs, st2)
  end.

End StatsUpdater.

(** ** core.py and the git side of file_system.py *)

Definition nl : string := String newline EmptyString.

(** A commit of the source repository, with what GitPython gives for it:
    [tree] is the working tree that [head.reset(commit, working_tree=True)]
    materialises, [stats_files] and [stats_total] are [commit.stats]. *)
Record git_commit := mkCommit {
  hexsha : string;
  message : string;
  parents : list string;
  tree : source_tree;
  stats_files : list (string * line_change);
  stats_total : line_change
}.

(** The private clone of the source repository. *)
Record git_repo := mkRepo {
  objects : list git_commit;
  head : string;
  working_tree : source_tree
}.

(** [git hash-object -t tree /dev/null] *)
Definition empty_sha : string := "4b825dc642cb6eb9a060e54bf8d69288fbee4904".

Definition repo_commit (r : git_repo) (sha : string) : res git_commit :=
  match List.find (fun c => String.eqb (hexsha c) sha) (objects r) with
  | Some c => Ok c
  | None => Raise ValueError
  end.

Definition tree_at (r : git_repo) (sha : string) : res source_tree :=
  if String.eqb sha empty_sha then Ok ∅ else tree <$> repo_commit r sha.

(** [_get_parent_sha(repo, sha, default)] *)
Definition _get_parent_sha (r : git_repo) (sha : string) (default : option string)
  : res (option string) :=
  c ← repo_commit r sha;
  match parents c with
  | p :: _ => Ok (Some p)
  | [] => Ok default
  end.

(** [repo.head.reset(commit=sha, index=True, working_tree=True)]; a [None]
    argument is dropped from the git command line, which then resets to
    the current head. *)
Definition head_reset (sha : option string) (r : git_repo) : res git_repo :=
  let target := default (head r) sha in
  t ← tree_at r target;
  Ok (mkRepo (objects r) target t).

(** The paths of [commit.diff(prev_sha)], both sides: the files that are
    not the same in the two trees. *)
Definition changed_paths (t1 t2 : source_tree) : list string :=
  List.map (fun ke => String.concat "/" ke.1)
    (map_to_list
       (merge (fun x y : option sentry =>
                 if decide (x = y) then None
                 else match x, y with
                      | Some (SFile _), _ | _, Some (SFile _) => Some ()
                      | _, _ => None
                      end) t1 t2)).

(** A commit of the snapshot store. *)
Record snapshot := mkSnapshot {
  sc_message : string;
  sc_tree : disk
}.

(** A git-backed stats file system: the store and its history, newest
    commit first. A commit is named by its position from the root. *)
Record stats_fs := mkStatsFs {
  fs_store : store;
  fs_log : list snapshot
}.

Module GitStatsFileSystem.

Definition head_message (fs : stats_fs) : option string :=
  sc_message <$> List.head (fs_log fs).

(** [commit(message)]: stage everything and commit. *)
Definition commit (msg : string) (fs : stats_fs) : nat * stats_fs :=
  (List.length (fs_log fs),
   mkStatsFs (fs_store fs) (mkSnapshot msg (st_disk (fs_store fs)) :: fs_log fs)).

Definition add_file (parts : list string) (c : content) (fs : stats_fs) : res stats_fs :=
  d ← FileSystem.add_file parts (Ok c) (st_disk (fs_store fs));
  Ok (mkStatsFs (mkStore d (st_cache (fs_store fs))) (fs_log fs)).

(** The lines of a commit message. *)
Definition lines (msg : string) : list string := PyStr.split newline msg.

(** [git log --grep=^hexsha]: the pattern is matched line by line, and
    for an id made of word characters it is a literal. *)
Definition grep_anchored (hexsha msg : string) : bool :=
  existsb (fun l => PyStr.startswith l hexsha) (lines msg).

(** [get_rev_for_sha(hexsha)]: the first word of the [--oneline] output,
    the name of the newest matching commit; [None] when nothing matches
    and when git fails because there is no commit yet. *)
Fixpoint get_rev_for_sha_in (log : list snapshot) (hexsha : string) : option nat :=
  match log with
  | [] => None
  | c :: older =>
      if grep_anchored hexsha (sc_message c) then Some (List.length older)
      else get_rev_for_sha_in older hexsha
  end.

Definition get_rev_for_sha (fs : stats_fs) (hexsha : string) : option nat :=
  get_rev_for_sha_in (fs_log fs) hexsha.

(** The commit named [id]. *)
Definition lookup_commit (fs : stats_fs) (id : nat) : option snapshot :=
  List.nth_error (List.rev (fs_log fs)) id.

End GitStatsFileSystem.

(** The options of a replay. *)
Record replay_options := mkOptions {
  test_patterns : list pattern;
  exclude_patterns : list pattern;
  paths : option (list string);
  incremental : bool;
  reversed : bool;
  analyzer : string -> option (series * list method)
}.

Definition stats_updater (o : replay_options) (r : git_repo) : updater :=
  mkUpdater (working_tree r) (test_patterns o) (analyzer o).

(** [stats_updater.update(...)] against the stats file system, which is
    the plain [FileSystem] store here as everywhere in the updater; the
    replay of core.py is given a git file system. *)
Definition run_update (o : replay_options) (r : git_repo)
    (changed_files : option (list string)) (paths : option (list string))
    (fs : stats_fs) : res (list string * stats_fs) :=
  '(dirty_dirs, st) ← StatsUpdater.update (stats_updater o r) changed_files paths
                         (exclude_patterns o) (fs_store fs);
  Ok (dirty_dirs, mkStatsFs st (fs_log fs)).

Definition ignore_message (current_sha : string) : string :=
  "[ignore] " +:+ current_sha +:+ nl.

Definition visible_message (c : git_commit) : string :=
  hexsha c +:+ nl +:+ message c.

(** The catch-up part of the loop body: [if incremental: ...]. *)
Definition catch_up (o : replay_options) (current_sha prev_sha : string)
    (changed_files : list string) (rf : git_repo * stats_fs) : res (git_repo * stats_fs) :=
  if incremental o then
    '(r1, fs1) ←
      (if negb (String.eqb prev_sha empty_sha) then
         r1 ← head_reset (Some prev_sha) rf.1;
         '(_, fs1) ← run_update o r1 (Some changed_files) (paths o) rf.2;
         Ok (r1, fs1)
       else
         '(_, fs1) ← run_update o rf.1 (Some []) (paths o) rf.2;
         Ok (rf.1, fs1));
    Ok (r1, (GitStatsFileSystem.commit (ignore_message current_sha) fs1).2)
  else Ok rf.

(** One turn of the loop over [zip(source_shas, prev_shas)]; the result is
    the commit that is yielded. The bookkeeping of [update_times] is left
    out: it does not touch the store, and its
    [log.info(..., file=sys.stderr)] raises [TypeError] at the hundredth
    dirty update when the logger lets INFO through. *)
Definition replay_pair (o : replay_options) (sha_pair : string * option string)
    (rf : git_repo * stats_fs) : res (nat * (git_repo * stats_fs)) :=
  let current_sha := sha_pair.1 in
  prev ← match sha_pair.2 with
         | Some p => Ok (Some p)
         | None => _get_parent_sha rf.1 current_sha (Some empty_sha)
         end;
  let prev_sha := default empty_sha prev in
  commit ← repo_commit rf.1 current_sha;
  prev_tree ← tree_at rf.1 prev_sha;
  let changed_files := changed_paths (tree commit) prev_tree in
  '(r1, fs1) ← catch_up o current_sha prev_sha changed_files rf;
  r2 ← head_reset (Some current_sha) r1;
  '(_, fs2) ← run_update o r2 (Some changed_files) (paths o) fs1;
  fs3 ← GitStatsFileSystem.add_file ["LATEST_CHANGES.yaml"]
          (CChanges (stats_files commit)) fs2;
  fs4 ← GitStatsFileSystem.add_file ["LATEST_CHANGES_TOTAL.yaml"]
          (CChangesTotal (stats_total commit)) fs3;
  let '(id, fs5) := GitStatsFileSystem.commit (visible_message commit) fs4 in
  Ok (id, (r2, fs5)).

Fixpoint replay_pairs (o : replay_options) (pairs : list (string * option string))
    (rf : git_repo * stats_fs) : res (list nat * (git_repo * stats_fs)) :=
  match pairs with
  | [] => Ok ([], rf)
  | sha_pair :: rest =>
      '(id, rf1) ← replay_pair o sha_pair rf;
      '(ids, rf2) ← replay_pairs o rest rf1;
      Ok (id :: ids, rf2)
  end.

(** ['{}'.format(prev_sha)] *)
Definition format_sha (sha : option string) : string := default "None" sha.

(** The seeding of an empty store: [if not incremental and
    stats_fs.head_message is None]. *)
Definition seed (o : replay_options) (source_shas : list string)
    (rf : git_repo * stats_fs) : res (git_repo * stats_fs) :=
  if negb (incremental o) && bool_decide (GitStatsFileSystem.head_message rf.2 = None) then
    match source_shas with
    | [] => Raise StopIteration
    | first_sha :: _ =>
        prev_sha ← _get_parent_sha rf.1 first_sha None;
        r1 ← head_reset prev_sha rf.1;
        '(_, fs1) ← run_update o r1 None None rf.2;
        Ok (r1, (GitStatsFileSystem.commit
                   (format_sha prev_sha +:+ nl +:+ "Initial gradon commit") fs1).2)
    end
  else Ok rf.

(** [zip(source_shas, prev_shas)] *)
Definition sha_pairs (o : replay_options) (r : git_repo) (source_shas : list string)
  : res (list (string * option string)) :=
  if reversed o then
    Ok (zip source_shas (List.map Some (List.tl source_shas) ++ [None]))
  else
    match source_shas with
    | [] => Raise StopIteration
    | first_sha :: rest =>
        first_prev_sha ← _get_parent_sha r first_sha (Some empty_sha);
        Ok (zip source_shas (first_prev_sha :: List.map Some source_shas))
    end.

Definition generate_stats_fs_commits_for_source_commits (o : replay_options)
    (fs : stats_fs) (source_repo : git_repo) (source_shas : list string)
  : res (list nat * (git_repo * stats_fs)) :=
  rf ← seed o source_shas (source_repo, fs);
  pairs ← sha_pairs o rf.1 source_shas;
  replay_pairs o pairs rf.

(** *** The delta reconstructor *)

(** A [git.Diff] between two snapshot trees, as GitPython gives it. *)
Record Diff := mkDiff {
  a_path : option string;
  b_path : option string;
  new_file : bool;
  deleted_file : bool
}.

(** The truth value of an optional [str] *)
Definition str_truthy (s : option string) : bool :=
  match s with
  | None | Some EmptyString => false
  | Some _ => true
  end.

(** [_generate_changed_files]: pairs of source and destination paths. *)
Definition _generate_changed_files (diffs : list Diff)
  : res (list (option string * option string)) :=
  for_each (fun diff acc =>
              match (if str_truthy (a_path diff) then a_path diff else b_path diff) with
              | None => Raise AttributeError
              | Some p =>
                  if PyStr.endswith p ".stats.yaml"
                  then Ok (acc ++ [(if new_file diff then None else a_path diff,
                                    if deleted_file diff then None else b_path diff)])
                  else Ok acc
              end) diffs [].

(** The namedtuple [Stats] *)
Record Stats := mkStats {
  filename : string;
  commit : nat;
  lines : line_change;
  lines_test : line_change;
  lines_non_test : line_change;
  delta : series;
  after : series
}.

(** [git show sha:path] on the tree of a snapshot *)
Definition git_show (t : disk) (path : string) : res content :=
  match t !! OsPath.resolve path with
  | Some (EFile c) => Ok c
  | _ => Raise GitCommandError
  end.

(** [before = after = None], then the two guarded loads *)
Definition load_side (t : disk) (path : option string) : res (option series) :=
  if str_truthy path
  then c ← git_show t (default "" path); Some <$> read_stats_file c
  else Ok None.

Definition tuple_add (x y : line_change) : line_change :=
  (x.1.1 + y.1.1, x.1.2 + y.1.2, x.2 + y.2)%Z.

(** The three running totals over [generate_deltas()] *)
Definition line_totals (test_patterns : list pattern) (prefix : string)
    (line_changes : list (string * line_change))
  : line_change * line_change * line_change :=
  fold_left
    (fun acc ec =>
       if negb (String.eqb prefix "") && negb (PyStr.startswith ec.1 prefix) then acc
       else
         let is_test := StatsUpdater.any_pattern test_patterns (OsPath.basename ec.1) in
         (tuple_add acc.1.1 ec.2,
          if is_test then tuple_add acc.1.2 ec.2 else acc.1.2,
          if is_test then acc.2 else tuple_add acc.2 ec.2))
    line_changes ((0, 0, 0), (0, 0, 0), (0, 0, 0))%Z.

(** The body of [for file in {v for v in [src, dest] if v is not None}];
    [None] is the [continue] of a file that no filter matches. *)
Definition stats_for_file (filters : option (list pattern)) (test_patterns : list pattern)
    (line_changes : list (string * line_change)) (commit : nat)
    (dest : option string) (diff after : series) (file : string) : option Stats :=
  let filename := PyStr.replace file ".stats.yaml" "" in
  let sign := if bool_decide (Some file = dest) then 1%Z else (-1)%Z in
  match filters with
  | Some ps => if negb (StatsUpdater.any_pattern ps file) then None else Some ()
  | None => Some ()
  end ≫= fun _ =>
  let prefix := if PyStr.endswith filename ".py" then filename else OsPath.dirname filename in
  let '(total, total_test, total_non_test) := line_totals test_patterns prefix line_changes in
  Some (mkStats filename commit total total_test total_non_test (series_mul diff sign) after).

(** The body of [for src, dest in changed_files]. *)
Definition stats_for_change (filters : option (list pattern)) (test_patterns : list pattern)
    (line_changes : list (string * line_change)) (commit : nat)
    (prev_tree cur_tree : disk) (sd : option string * option string) : res (list Stats) :=
  before0 ← load_side prev_tree sd.1;
  after0 ← load_side cur_tree sd.2;
  before ← match before0, after0 with
           | Some b, _ => Ok b
           | None, Some a => Ok (zero_series a)
           | None, None => Raise AttributeError
           end;
  let after := default (zero_series before) after0 in
  let diff := series_minus after before in
  Ok (omap (stats_for_file filters test_patterns line_changes commit sd.2 diff after)
           (remove_dups (omap id [sd.1; sd.2]))).

(** The body of [for current_sha in shas]; [git_diff] is git's diff of two
    trees, renames detected. *)
Definition stats_for_commit (git_diff : disk -> disk -> list Diff)
    (filters : option (list pattern)) (test_patterns : list pattern)
    (fs : stats_fs) (current : nat) : res (list Stats) :=
  match GitStatsFileSystem.lookup_commit fs current with
  | None => Raise ValueError
  | Some c =>
      let prev_tree :=
        match current with
        | S prev => default ∅ (sc_tree <$> GitStatsFileSystem.lookup_commit fs prev)
        | O => ∅
        end in
      changes ← git_show (sc_tree c) "LATEST_CHANGES.yaml";
      line_changes ← match changes with
                     | CChanges l => Ok l
                     | _ => Raise AttributeError
                     end;
      changed ← _generate_changed_files (git_diff prev_tree (sc_tree c));
      for_each (fun sd acc =>
                  rows ← stats_for_change filters test_patterns line_changes current
                           prev_tree (sc_tree c) sd;
                  Ok (acc ++ rows))
               (remove_dups changed) []
  end.

Definition generate_stats_for_stats_fs_commits (git_diff : disk -> disk -> list Diff)
    (fs : stats_fs) (shas : list nat) (filters : option (list pattern))
    (test_patterns : list pattern) : res (list Stats) :=
  for_each (fun current acc =>
              rows ← stats_for_commit git_diff filters test_patterns fs current;
              Ok (acc ++ rows)) shas [].

(** ** The invariants of the snapshot store, in the words of the spec

    These definitions are not taken from the code: they say what the
    aggregates should be, and the code is compared with them. A directory
    is given by its components [k]. *)

(** The Series stored under [name] in the directory [k]. *)
Definition stored (d : disk) (k : list string) (name : string) : option series :=
  match d !! (k ++ [name +:+ ".stats.yaml"]) with
  | Some (EFile (CStats s)) => Some s
  | _ => None
  end.

(** The FileRecords of the directory [k]: the records of its [*.py] files. *)
Definition file_records (d : disk) (k : list string) : list (string * series) :=
  omap (fun ne =>
          match ne.2 with
          | EFile (CStats s) =>
              if PyStr.endswith ne.1 ".py.stats.yaml" then Some (ne.1, s) else None
          | _ => None
          end)
       (FileSystem.children d k).

(** The sum of StatValues: over the union of the keys, a missing key
    counting as zero. *)
Definition stat_sum (l : list series) : series :=
  fold_right series_add_fill0 ∅ l.

(** [SUBTREE_name] of the immediate subdirectories that have data. *)
Definition subtree_contributions (d : disk) (k : list string) (name : string)
  : list series :=
  omap (fun ne =>
          match ne.2 with
          | EDir => stored d (k ++ [ne.1]) ("SUBTREE_" +:+ name)
          | _ => None
          end)
       (FileSystem.children d k).

(** [TOTAL == sum(FileRecord in that directory)], for a directory that
    holds a FileRecord. *)
Definition total_holds (d : disk) (k : list string) : bool :=
  match file_records d k with
  | [] => true
  | recs => bool_decide (stored d k "TOTAL" = Some (stat_sum (List.map snd recs)))
  end.

(** [SUBTREE_TOTAL == TOTAL + sum(SUBTREE_TOTAL of child dirs with data)],
    for a directory that holds a FileRecord. *)
Definition subtree_total_holds (d : disk) (k : list string) : bool :=
  match file_records d k, stored d k "TOTAL" with
  | [], _ => true
  | _, Some t =>
      bool_decide (stored d k "SUBTREE_TOTAL"
                   = Some (stat_sum (t :: subtree_contributions d k "TOTAL")))
  | _, None => false
  end.

(** ** Sample inputs *)

(** An analyser that counts the characters of a file and fails on one
    particular text. *)
Definition loc (n : Z) : series := {[ ("stats", "loc") := Num n ]}.

Definition loc_analyzer (text : string) : option (series * list method) :=
  if String.eqb text "syntax error" then None
  else Some (loc (Z.of_nat (String.length text)), [("f", ("A", 1%Z))]).

Definition empty_store : store := mkStore ∅ ∅.

(** A tree with a file at the root and a file in the directory [a]. *)
Definition tree_x_ay : source_tree :=
  <[ ["x.py"] := SFile "xxxxx" ]> (<[ ["a"] := SDir ]> (<[ ["a"; "y.py"] := SFile "yyy" ]> ∅)).

Definition updater_x_ay : updater := mkUpdater tree_x_ay [] loc_analyzer.

(** A tree with the single file [a.py], and the tree after its deletion. *)
Definition tree_a : source_tree := <[ ["a.py"] := SFile "def f(): pass" ]> ∅.
Definition updater_a : updater := mkUpdater tree_a [] loc_analyzer.
Definition updater_nothing : updater := mkUpdater ∅ [] loc_analyzer.

(** A store whose directory [d] holds a file that is no stats file. *)
Definition disk_with_notes : disk :=
  <[ ["d"] := EDir ]> (<[ ["d"; "notes.txt"] := EFile (CText "x") ]> ∅).

(** A history of two commits; the message of the second has a line that
    begins with the id of the first. *)
Definition tree_1 : source_tree := <[ ["x.py"] := SFile "one" ]> ∅.
Definition tree_2 : source_tree :=
  <[ ["x.py"] := SFile "one" ]> (<[ ["y.py"] := SFile "three" ]> ∅).
Definition commit_1 : git_commit :=
  mkCommit "aaa111" "first" [] tree_1 [("x.py", (1, 1, 0)%Z)] (1, 1, 0)%Z.
Definition commit_2 : git_commit :=
  mkCommit "bbb222" ("revert" +:+ nl +:+ "aaa111 was wrong") ["aaa111"] tree_2
           [("y.py", (1, 1, 0)%Z)] (1, 1, 0)%Z.
Definition repo_12 : git_repo := mkRepo [commit_1; commit_2] "bbb222" tree_2.
Definition incremental_options : replay_options :=
  mkOptions [] [] None true false loc_analyzer.
Definition empty_stats_fs : stats_fs := mkStatsFs empty_store [].
(** ** Running the model on sample inputs *)

#[global] Instance exn_eq_dec : EqDecision exn.
Proof. solve_decision. Defined.
#[global] Instance res_eq_dec {A} `{!EqDecision A} : EqDecision (res A).
Proof. solve_decision. Defined.
#[global] Instance cache_val_eq_dec : EqDecision cache_val.
Proof. solve_decision. Defined.

(** [holds_after r P]: the run [r] returns, and [P] holds of what it
    returns. *)
Definition holds_after {A} (r : res A) (P : A -> Prop) : Prop :=
  match r with
  | Ok a => P a
  | Raise _ => False
  end.

#[global] Instance holds_after_dec {A} (r : res A) (P : A -> Prop)
  `{!forall a, Decision (P a)} : Decision (holds_after r P).
Proof. destruct r; simpl; apply _. Defined.

#[global] Typeclasses Opaque holds_after.

(** A closed, decidable statement is settled by running its decision
    procedure. *)
Ltac by_evaluation :=
  lazymatch goal with
  | |- ?P =>
      let d := constr:(ltac:(typeclasses eauto) : Decision P) in
      apply (@bool_decide_unpack P d); vm_compute; exact I
  end.

(** A run of adapter calls, collecting what the [get] calls return. *)
Inductive adapter_op :=
| OpSet (path : string) (s : series)
| OpGet (path : string) (default : option series)
| OpRm (path : string).

Fixpoint run_cached (ops : list adapter_op) (st : store) : res (list (option series)) :=
  match ops with
  | [] => Ok []
  | OpSet p s :: ops' => st' ← CachedStatsFSAdapter.set p s st; run_cached ops' st'
  | OpGet p dflt :: ops' =>
      '(v, st') ← CachedStatsFSAdapter.get p dflt st;
      vs ← run_cached ops' st'; Ok (v :: vs)
  | OpRm p :: ops' => st' ← CachedStatsFSAdapter.rm p st; run_cached ops' st'
  end.

Fixpoint run_plain (ops : list adapter_op) (d : disk) : res (list (option series)) :=
  match ops with
  | [] => Ok []
  | OpSet p s :: ops' => d' ← StatsFSAdapter.set p s d; run_plain ops' d'
  | OpGet p dflt :: ops' =>
      v ← StatsFSAdapter.get p dflt d;
      vs ← run_plain ops' d; Ok (v :: vs)
  | OpRm p :: ops' => d' ← StatsFSAdapter.rm p d; run_plain ops' d'
  end.


(** ** Commit messages *)

(** [\w] on ASCII *)
Definition is_word (c : ascii) : bool :=
  let n := nat_of_ascii c in
  (48 <=? n) && (n <=? 57) || (65 <=? n) && (n <=? 90)
  || (97 <=? n) && (n <=? 122) || (n =? 95).

Fixpoint take_word (s : string) : string :=
  match s with
  | EmptyString => EmptyString
  | String c s' => if is_word c then String c (take_word s') else EmptyString
  end.

(** [_get_sha_from_message]: [re.search(r'^\w+', message).group(0)] *)
Definition _get_sha_from_message (message : string) : res string :=
  match take_word message with
  | EmptyString => Raise AttributeError
  | w => Ok w
  end.

(** Python's whitespace *)
Definition is_space (c : ascii) : bool :=
  let n := nat_of_ascii c in (n =? 32) || (9 <=? n) && (n <=? 13).

Fixpoint take_token (s : string) : string :=
  match s with
  | EmptyString => EmptyString
  | String c s' => if is_space c then EmptyString else String c (take_token s')
  end.

(** The first whitespace-delimited token of a message, [None] when there
    is none. *)
Fixpoint first_token (s : string) : option string :=
  match s with
  | EmptyString => None
  | String c s' => if is_space c then first_token s' else Some (take_token s)
  end.

(** A commit id: a non-empty string of word characters. *)
Fixpoint all_word (s : string) : bool :=
  match s with
  | EmptyString => true
  | String c s' => is_word c && all_word s'
  end.

Definition is_id (s : string) : bool :=
  negb (String.eqb s "") && all_word s.

(** The messages of the history, newest first. *)
Definition messages (fs : stats_fs) : list string :=
  List.map sc_message (fs_log fs).

(** The store's head encodes the source commit [sha]. *)
Definition head_encodes (fs : stats_fs) (sha : string) : Prop :=
  (GitStatsFileSystem.head_message fs ≫= first_token) = Some sha.

(** The messages that a step added in front of the history. *)
Definition new_messages (before after : stats_fs) : list string :=
  take (List.length (messages after) - List.length (messages before)) (messages after).

(** ** Delta records, in the words of the spec

    One record per distinct non-null path among the old and the new path:
    sign [-1] for the removed path, [+1] for the new or kept path. *)
Definition signed_paths (src dest : option string) : list (string * Z) :=
  match src, dest with
  | Some p, Some q => if decide (p = q) then [(q, 1%Z)] else [(p, (-1)%Z); (q, 1%Z)]
  | Some p, None => [(p, (-1)%Z)]
  | None, Some q => [(q, 1%Z)]
  | None, None => []
  end.

(** Sample snapshot trees for a rename from [old.py] to [new.py]. *)
Definition tree_old : disk := <[ ["old.py.stats.yaml"] := EFile (CStats (loc 3)) ]> ∅.
Definition tree_new : disk := <[ ["new.py.stats.yaml"] := EFile (CStats (loc 5)) ]> ∅.

(** What a run returned, or [dflt] if it raised. *)
Definition outcome {A} (dflt : A) (r : res A) : A :=
  match r with
  | Ok a => a
  | Raise _ => dflt
  end.

#[global] Instance head_encodes_dec fs sha : Decision (head_encodes fs sha).
Proof. unfold head_encodes. apply _. Defined.

#[global] Typeclasses Opaque head_encodes.

(** The incremental replay of the two sample commits into an empty store. *)
Definition replayed_12 : res (list nat * (git_repo * stats_fs)) :=
  generate_stats_fs_commits_for_source_commits incremental_options empty_stats_fs
    repo_12 ["aaa111"; "bbb222"].

Definition replayed_fs : stats_fs :=
  (outcome ([], (repo_12, empty_stats_fs)) replayed_12).2.2.

(** Its first turn alone. *)
Definition first_turn : res (nat * (git_repo * stats_fs)) :=
  replay_pair incremental_options ("aaa111", Some empty_sha) (repo_12, empty_stats_fs).

(** The caller's filters: [filters is None or any(re.search(p, file) ...)]. *)
Definition passes (filters : option (list pattern)) (file : string) : bool :=
  match filters with
  | None => true
  | Some ps => StatsUpdater.any_pattern ps file
  end.

(** The records of the sample rename, without filters. *)
Definition rename_rows : list Stats :=
  outcome [] (stats_for_change None [] [] 7 tree_old tree_new
                (Some "old.py.stats.yaml", Some "new.py.stats.yaml")).

(** ** Directories and names as the updater forms them

    [update] names a directory by ["."] or by a relative path
    [a/b/c]; the files in it by a name. *)

(** A name that a directory entry can have. *)
Definition good_name (n : string) : bool :=
  negb (String.eqb n "") && negb (String.eqb n ".") && negb (PyStr.contains OsPath.sep n).

(** The relative path with the components [l]. *)
Definition key_of (l : list string) : string := String.concat "/" l.

(** The path by which [update] names the directory with components [k]. *)
Definition dir_of (k : list string) : string :=
  match k with
  | [] => "."
  | _ => key_of k
  end.

(** Every entry of the disk has a path of names. *)
Definition good_disk {V} (d : gmap (list string) V) : Prop :=
  forall key e, d !! key = Some e -> Forall (fun n => good_name n = true) key.

(** ** Samples for the pruning *)

(** Every component of a list is a good name. *)
Abbreviation good_names := (Forall (fun n => good_name n = true)).

(** A root without records, next to an empty directory [d] and a
    directory [e] that holds a file; and the same root with the totals
    that its last record has left behind. *)
Definition disk_d_e : disk :=
  <[ ["SUBTREE_TOTAL.stats.yaml"] := EFile (CStats (loc 3)) ]>
    (<[ ["d"] := EDir ]> (<[ ["e"] := EDir ]>
       (<[ ["e"; "notes.txt"] := EFile (CText "x") ]> ∅))).

Definition disk_emptied : disk :=
  <[ ["TOTAL.stats.yaml"] := EFile (CStats (loc 3)) ]> disk_d_e.

(** The first turn of the loop of [_aggregate_subtree] at the root of
    [disk_d_e]. *)
Definition root_turn : res (list (list string) * store) :=
  StatsUpdater.aggregate_subtree_name "." ["d"; "e"] ["SUBTREE_TOTAL"] "TOTAL"
    ([], mkStore disk_d_e ∅).

(** ** The cache against the disk *)

(** What a slot of the cache makes [get] return. *)
Definition cached (cv : cache_val) : option series :=
  match cv with CacheNone => None | Pickled v => v end.

(** The cache of the adapter is coherent on the directory [k]: wherever
    the disk holds a record of [k], a slot of the cache under the record's
    path gives what the plain adapter reads from the disk. *)
Definition coherent_dir (k : list string) (st : store) : Prop :=
  forall m c cv,
    good_name m = true ->
    st_disk st !! (k ++ [m +:+ ".stats.yaml"]) = Some (EFile c) ->
    st_cache st !! key_of (k ++ [m]) = Some cv ->
    StatsFSAdapter.get (key_of (k ++ [m])) None (st_disk st) = Ok (cached cv).

(** The visit writes the records of the file [g] of the directory [k]: the
    analysis of [g] gives a result. *)
Definition analysed (u : updater) (k : list string) (g : string) : Prop :=
  is_ok (_analyze_file_internal u (FileSystem.join_parts [dir_of k; g])) = true.

(** The names that [update] hands to [_visit_files_in_dir] are base
    names: they hold no separator. *)
Definition base_names (changed_files : option (list string)) : Prop :=
  match changed_files with
  | None => True
  | Some fs => Forall (fun f => PyStr.contains OsPath.sep f = false) fs
  end.

(** ** The totals of a directory *)

(** The pure part of a turn of the loop of [_aggregate_dir]: the record
    [ms.2] of the file [ms.1] is added to [TOTAL] and, by the kind of the
    file, to [TOTAL_TEST] or to [TOTAL_NON_TEST]. *)
Definition add_record (u : updater) (t : StatsUpdater.totals) (ms : string * series)
  : StatsUpdater.totals :=
  let total := series_add_fill0 (StatsUpdater.TOTAL t) ms.2 in
  if StatsUpdater.is_test u ms.1
  then StatsUpdater.mkTotals total
         (series_add_fill0 (StatsUpdater.TOTAL_TEST t) ms.2) (StatsUpdater.TOTAL_NON_TEST t)
  else StatsUpdater.mkTotals total
         (StatsUpdater.TOTAL_TEST t) (series_add_fill0 (StatsUpdater.TOTAL_NON_TEST t) ms.2).

(** The zeros that the first record [s] of a directory gives to [totals]. *)
Definition first_totals (s : series) : StatsUpdater.totals :=
  StatsUpdater.mkTotals (zero_series s) (zero_series s) (zero_series s).

(** [totals] after the loop has seen the records [recs]. *)
Definition totals_after (u : updater) (acc : option StatsUpdater.totals)
    (recs : list (string * series)) : option StatsUpdater.totals :=
  match recs with
  | [] => acc
  | (_, s) :: _ => Some (fold_left (add_record u) recs (default (first_totals s) acc))
  end.

(** The sum of the records [l] as the code forms it, from the zeros of the
    first record of the directory. *)
Definition sum_from (first : series) (l : list series) : series :=
  fold_left series_add_fill0 l (zero_series first).

(** The records of the test files among [recs], and of the others. *)
Definition test_records (u : updater) (recs : list (string * series)) : list series :=
  (List.filter (fun ms => StatsUpdater.is_test u ms.1) recs).*2.

Definition non_test_records (u : updater) (recs : list (string * series)) : list series :=
  (List.filter (fun ms => negb (StatsUpdater.is_test u ms.1)) recs).*2.

(** ** Samples for a failing analysis *)

(** A tree whose file [bad.py] does not parse, next to [ok.py]; and a
    store that holds a record of [bad.py] from an earlier run. *)
Definition tree_bad : source_tree :=
  <[ ["bad.py"] := SFile "syntax error" ]> (<[ ["ok.py"] := SFile "pass" ]> ∅).

Definition updater_bad : updater := mkUpdater tree_bad [] loc_analyzer.

Definition disk_old_record : disk :=
  <[ ["bad.py.stats.yaml"] := EFile (CStats (loc 12)) ]> ∅.

(** The turn of [update] for the root of [tree_bad], in a full update. *)
Definition root_update : res (list string * store) :=
  StatsUpdater.update_dir updater_bad None [] (".", None) ([], mkStore disk_old_record ∅).

(** ** The components of a path *)

(** The components that [OsPath.resolve] keeps. *)
Abbreviation kept := (fun w : string => negb (String.eqb w "") && negb (String.eqb w ".")).

(** ** Paths without detours *)

(** A path is clean when it is the plain join of its components: it has
    no empty component, no [.] component and no slash at either end, and
    it is not empty. *)
Definition clean_path (p : string) : bool :=
  bool_decide (key_of (OsPath.resolve p) = p) && negb (bool_decide (OsPath.resolve p = [])).

(** The calls of a run of the adapter are over clean paths, and [get] is
    called with the default [None], as the updater calls it. *)
Definition clean_op (op : adapter_op) : Prop :=
  match op with
  | OpSet p _ | OpRm p => clean_path p = true
  | OpGet p dflt => clean_path p = true /\ dflt = None
  end.

(** The cache says nothing wrong about the clean paths: where the plain
    adapter reads a value for a cached path, it is the cached one. *)
Definition cache_agrees (st : store) : Prop :=
  forall q cv v,
    clean_path q = true ->
    st_cache st !! q = Some cv ->
    StatsFSAdapter.get q None (st_disk st) = Ok v ->
    v = cached cv.

(** ** The loop of [_aggregate_subtrees] *)

(** What an item of the heap still costs the loop: one turn if its
    directory is finished, else its own turns and those of the directories
    above it. *)
Definition item_cost (finished_paths : list string) (x : StatsUpdater.heap_item) : nat :=
  if bool_decide (x.2 ∈ finished_paths) then 1 else 2 * StatsUpdater.rank x.2 + 2.

Definition heap_cost (finished_paths : list string) (h : list StatsUpdater.heap_item) : nat :=
  list_sum (List.map (item_cost finished_paths) h).

(** The directories above [p], [p] among them. *)
Definition above (p q : string) : Prop :=
  exists n, q = Nat.iter n StatsUpdater.parent_path p.

(** Every element of the list is related to all the elements after it. *)
Fixpoint ordered {A} (R : A -> A -> Prop) (l : list A) : Prop :=
  match l with
  | [] => True
  | x :: l' => Forall (R x) l' /\ ordered R l'
  end.

(** A store with totals in the directory [a/b] only. *)
Definition store_a_b : store :=
  mkStore (<[ ["a"] := EDir ]> (<[ ["a"; "b"] := EDir ]>
             (<[ ["a"; "b"; "TOTAL.stats.yaml"] := EFile (CStats (loc 3)) ]> ∅))) ∅.

(** The upward propagation from [a/b] in that store. *)
Definition propagated_a_b : list string * store :=
  outcome ([], empty_store) (StatsUpdater._aggregate_subtrees ["a/b"] store_a_b).

(** ** The groups of [_generate_dirs_and_files] *)

(** The base name [b] is in the group of the directory [d]. *)
Definition in_group (d b : string) (files_by_dir : list (string * list string)) : Prop :=
  exists files, (d, files) ∈ files_by_dir /\ b ∈ files.

(** [files_by_dir] after the loop over the changed files. *)
Definition files_by_dir (changed_files : list string) : list (string * list string) :=
  fold_left (fun acc f => StatsUpdater.add_to_dir (StatsUpdater.parent_path f)
                                                   (OsPath.basename f) acc)
            changed_files [].

(** ** Samples for the visit *)

(** A tree with one file in the directory [src], and a store that holds
    an old record of it. *)
Definition tree_src : source_tree :=
  <[ ["src"] := SDir ]> (<[ ["src"; "x.py"] := SFile "xxxxx" ]> ∅).

Definition updater_src : updater := mkUpdater tree_src [] loc_analyzer.

Definition store_src : store :=
  mkStore (<[ ["src"] := EDir ]>
             (<[ ["src"; "x.py.stats.yaml"] := EFile (CStats (loc 9)) ]> ∅)) ∅.

(** The visit of [src] with [paths = ['src']], and the visit of the root
    of the empty tree over the store with the record of [bad.py]. *)
Definition visit_src : res (bool * store) :=
  StatsUpdater._visit_files_in_dir updater_src "src" None (Some ["src"]) [] store_src.

Definition visit_gone : res (bool * store) :=
  StatsUpdater._visit_files_in_dir updater_nothing "." None None []
    (mkStore disk_old_record ∅).

(** ** The snapshot commits of a replay *)

(** What the snapshot commit [snap] says about the source commit [c]. *)
Definition snapshot_of (c : git_commit) (snap : snapshot) : Prop :=
  sc_message snap = visible_message c /\
  git_show (sc_tree snap) "LATEST_CHANGES.yaml" = Ok (CChanges (stats_files c)) /\
  git_show (sc_tree snap) "LATEST_CHANGES_TOTAL.yaml" = Ok (CChangesTotal (stats_total c)).

(** The commit that was yielded under the name [id] for the source id
    [sha]: where it is in the history [log], and what is below it. *)
Definition yielded (o : replay_options) (r : git_repo) (log : list snapshot)
    (id : nat) (sha : string) : Prop :=
  exists c snap newer older,
    repo_commit r sha = Ok c /\
    log = newer ++ snap :: older /\ id = List.length older /\
    snapshot_of c snap /\
    (incremental o = true ->
     exists cu older', older = cu :: older' /\ sc_message cu = ignore_message sha).

(** ** The listing caches: class [CachedFileSystemMixin]

    The mixin keeps two [defaultdict(set)]: [_files_cache] and
    [_dirs_cache], keyed by the normalised path that was passed. This is
    the mixin as [GitCachedStatsFileSystem] composes it: [add_file],
    [rmdir], [ls_files] and [ls_dirs] of the base class are those of
    [FileSystem]; the [rm] of the base class is [GitStatsFileSystem.rm],
    which is a parameter of [rm] here. *)
Record cached_fs := mkCachedFs {
  cf_disk : disk;
  _files_cache : gmap string (gset string);
  _dirs_cache : gmap string (gset string)
}.

Module CachedFileSystemMixin.

(** [os.path.dirname(path) or '.'] *)
Definition dirname_or_dot (path : string) : string :=
  match OsPath.dirname path with
  | EmptyString => "."
  | d => d
  end.

(** [if dirname in cache: cache[dirname].add(basename)] *)
Definition add_if_cached (dirname basename : string) (cache : gmap string (gset string))
  : gmap string (gset string) :=
  match cache !! dirname with
  | Some names => <[dirname := names ∪ {[basename]}]> cache
  | None => cache
  end.

(** The [while path:] loop of [_update_cache_to_contain_file]. *)
Fixpoint update_dirs_cache (fuel : nat) (path : string) (dirs_cache : gmap string (gset string))
  : res (gmap string (gset string)) :=
  if String.eqb path "" then Ok dirs_cache
  else if String.eqb path "." then Ok dirs_cache
  else match fuel with
       | O => Raise OutOfFuel
       | S fuel' =>
           let basename := OsPath.basename path in
           let dirname := dirname_or_dot path in
           update_dirs_cache fuel' dirname (add_if_cached dirname basename dirs_cache)
       end.

(** [_update_cache_to_contain_file(path)]; the loop takes a turn for
    each character of the path at most, unless it never ends. *)
Definition _update_cache_to_contain_file (path : string) (fs : cached_fs) : res cached_fs :=
  let path := _normalize_path path in
  let basename := OsPath.basename path in
  let dirname := dirname_or_dot path in
  let files_cache := add_if_cached dirname basename (_files_cache fs) in
  dirs_cache ← update_dirs_cache (String.length path) path (_dirs_cache fs);
  Ok (mkCachedFs (cf_disk fs) files_cache dirs_cache).

(** [add_file]: the file is written, then the caches are updated. *)
Definition add_file (parts : list string) (body : res content) (fs : cached_fs)
  : res cached_fs :=
  d ← FileSystem.add_file parts body (cf_disk fs);
  _update_cache_to_contain_file (FileSystem.join_parts parts)
    (mkCachedFs d (_files_cache fs) (_dirs_cache fs)).

(** [rm]: the [KeyError] of [set.remove] is caught. *)
Definition rm (super_rm : string -> disk -> res disk) (path : string) (fs : cached_fs)
  : res cached_fs :=
  let path := _normalize_path path in
  let dirname := dirname_or_dot path in
  let basename := OsPath.basename path in
  let files_cache :=
    match _files_cache fs !! dirname with
    | Some names => <[dirname := names ∖ {[basename]}]> (_files_cache fs)
    | None => _files_cache fs
    end in
  d ← super_rm path (cf_disk fs);
  Ok (mkCachedFs d files_cache (_dirs_cache fs)).

(** [rmdir]: [dirname] is taken without [or '.'], and the [KeyError] of
    [set.remove] is not caught: [None] stands for it. *)
Definition rmdir (path : string) (fs : cached_fs) : option cached_fs :=
  let path := _normalize_path path in
  let dirname := OsPath.dirname path in
  dirs_cache ← match _dirs_cache fs !! dirname with
               | Some names =>
                   if decide (OsPath.basename path ∈ names)
                   then Some (<[dirname := names ∖ {[OsPath.basename path]}]> (_dirs_cache fs))
                   else None
               | None => Some (_dirs_cache fs)
               end;
  Some (mkCachedFs (FileSystem.rmdir path (cf_disk fs)) (_files_cache fs) dirs_cache).

(** [ls_files]: [tuple(set)] on a hit, in an order that Python does not
    specify (here the order of [elements]); on a miss the list of the
    base class, which is put in the cache as a set. *)
Definition ls_files (path : string) (fs : cached_fs) : res (list string * cached_fs) :=
  let path := _normalize_path path in
  match _files_cache fs !! path with
  | Some names => Ok (elements names, fs)
  | None =>
      files ← FileSystem.ls_files path (cf_disk fs);
      Ok (files, mkCachedFs (cf_disk fs) (<[path := list_to_set files]> (_files_cache fs))
                   (_dirs_cache fs))
  end.

Definition ls_dirs (path : string) (fs : cached_fs) : res (list string * cached_fs) :=
  let path := _normalize_path path in
  match _dirs_cache fs !! path with
  | Some names => Ok (elements names, fs)
  | None =>
      dirs ← FileSystem.ls_dirs path (cf_disk fs);
      Ok (dirs, mkCachedFs (cf_disk fs) (_files_cache fs)
                  (<[path := list_to_set dirs]> (_dirs_cache fs)))
  end.

End CachedFileSystemMixin.

(** A cache grows: the cached paths stay the same and their sets keep
    their names. *)
Definition grows (cache cache' : gmap string (gset string)) : Prop :=
  forall key,
    match cache !! key with
    | Some names => exists names', cache' !! key = Some names' /\ names ⊆ names'
    | None => cache' !! key = None
    end.

(** A disk as an operating system keeps it: what holds an entry is a
    directory. *)
Definition closed_disk (d : disk) : Prop :=
  forall k n e, d !! (k ++ [n]) = Some e -> FileSystem.lookup_entry d k = Some EDir.

(** The cached file listings miss no file: a file that is in a
    directory is in the cached listing of the directory, when there is
    one. *)
Definition lists_every_file (fs : cached_fs) : Prop :=
  forall k names n c,
    good_names k ->
    _files_cache fs !! dir_of k = Some names ->
    cf_disk fs !! (k ++ [n]) = Some (EFile c) ->
    n ∈ names.

(** One call of [add_file] (on a path that is clean once normalised),
    [ls_files], [ls_dirs] or [rmdir] that returns. *)
Inductive fs_step : cached_fs -> cached_fs -> Prop :=
| step_add_file parts body fs fs' :
    clean_path (_normalize_path (FileSystem.join_parts parts)) = true ->
    CachedFileSystemMixin.add_file parts body fs = Ok fs' ->
    fs_step fs fs'
| step_ls_files path l fs fs' :
    CachedFileSystemMixin.ls_files path fs = Ok (l, fs') ->
    fs_step fs fs'
| step_ls_dirs path l fs fs' :
    CachedFileSystemMixin.ls_dirs path fs = Ok (l, fs') ->
    fs_step fs fs'
| step_rmdir path fs fs' :
    CachedFileSystemMixin.rmdir path fs = Some fs' ->
    fs_step fs fs'.

(** A store with the directory [a], the file [a/x.txt] in it and the
    empty directory [a/b], and nothing cached. *)
Definition disk_a_x_b : disk :=
  <[ ["a"] := EDir ]> (<[ ["a"; "x.txt"] := EFile (CText "x") ]> (<[ ["a"; "b"] := EDir ]> ∅)).
Definition fs_a_x_b : cached_fs := mkCachedFs disk_a_x_b ∅ ∅.

#[global] Instance cached_fs_eq_dec : EqDecision cached_fs.
Proof. solve_decision. Defined.

(** A run from the empty store: a file is written to [a], [a] is listed,
    a second file is written to [a]. *)
Definition fs_empty : cached_fs := mkCachedFs ∅ ∅ ∅.
Definition fs_written : cached_fs :=
  outcome fs_empty
    (CachedFileSystemMixin.add_file ["a"; "x.txt"] (Ok (CText "x")) fs_empty).
Definition fs_listed : cached_fs :=
  (outcome ([], fs_empty) (CachedFileSystemMixin.ls_files "a" fs_written)).2.
Definition fs_written_twice : cached_fs :=
  outcome fs_empty
    (CachedFileSystemMixin.add_file ["a"; "y.txt"] (Ok (CText "y")) fs_listed).

(** The store [fs_a_x_b] after the directories of [a] were listed. *)
Definition fs_a_dirs_listed : cached_fs :=
  (outcome ([], fs_empty) (CachedFileSystemMixin.ls_dirs "a" fs_a_x_b)).2.

(** The store [fs_a_x_b] after the files of [a] were listed. *)
Definition fs_a_files_listed : cached_fs :=
  (outcome ([], fs_empty) (CachedFileSystemMixin.ls_files "a" fs_a_x_b)).2.

(** ** The directories that [scandirs_depth_first] sees *)

(** The directory [k ++ k'] is seen from the directory [k]: every
    directory on the way down is in the tree and has a name that does
    not start with a dot. *)
Fixpoint seen_from (src : source_tree) (k k' : list string) : Prop :=
  match k' with
  | [] => True
  | n :: rest =>
      src !! (k ++ [n]) = Some SDir /\ PyStr.startswith n "." = false /\
      seen_from src (k ++ [n]) rest
  end.

(** In a list of directories, what is below a directory comes before
    it. *)
Definition children_first (ks : list (list string)) : Prop :=
  forall i j k1 k2,
    ks !! i = Some k1 -> ks !! j = Some (k1 ++ k2) -> k2 <> [] -> j < i.

(** A tree with the directories [a], [a/b], [c] and the hidden [.git]. *)
Definition tree_dirs : source_tree :=
  <[ ["a"] := SDir ]> (<[ ["a"; "b"] := SDir ]> (<[ ["c"] := SDir ]>
    (<[ [".git"] := SDir ]> (<[ ["a"; "x.py"] := SFile "x" ]> ∅)))).

(** A tree with [x.py], a file [bad.py] whose analysis fails, and [a/y.py]. *)
Definition tree_x_bad_ay : source_tree :=
  <[ ["x.py"] := SFile "xxxxx" ]> (<[ ["bad.py"] := SFile "syntax error" ]>
    (<[ ["a"] := SDir ]> (<[ ["a"; "y.py"] := SFile "yyy" ]> ∅))).

Definition updater_x_bad_ay : updater := mkUpdater tree_x_bad_ay [] loc_analyzer.

(** The sample replay after its first turn, and the second turn. *)
Definition after_first_turn : git_repo * stats_fs :=
  (outcome (0, (repo_12, empty_stats_fs)) first_turn).2.

Definition second_turn : res (nat * (git_repo * stats_fs)) :=
  replay_pair incremental_options ("bbb222", Some "aaa111") after_first_turn.

(** ** The delta of a change, in the words of the spec *)

(** One position of [sign * (after - before)]: the difference of the two
    numbers times the sign; a key that only one side has gives [NaN]. *)
Definition delta_at (sign : Z) (after before : option num) : option num :=
  match after, before with
  | None, None => None
  | Some (Num a), Some (Num b) => Some (Num ((a - b) * sign))
  | _, _ => Some NaN
  end.

(** What a side of a change is loaded with: the StatValue of the record
    at the path in the tree, and nothing where there is no path. *)
Definition side_of (t : disk) (path : option string) (v : option series) : Prop :=
  match path with
  | None | Some EmptyString => v = None
  | Some p => exists s, t !! OsPath.resolve p = Some (EFile (CStats s)) /\ v = Some s
  end.

(** [z] is the zero StatValue of the key shape of [s]. *)
Definition zero_of (z s : series) : Prop :=
  dom z = dom s /\ forall k v, z !! k = Some v -> v = Num 0.

(** * Properties *)

(** ** The path helpers on sample paths *)

Example normalize_root_name : _normalize_path "./TOTAL" = "TOTAL".
Proof. reflexivity. Qed.
Example normalize_inner_dot : _normalize_path "a/./b" = "a/b".
Proof. reflexivity. Qed.
Example normalize_not_idempotent : _normalize_path "a/././b" = "a/./b".
Proof. reflexivity. Qed.
Example dirname_nested : OsPath.dirname "a/bb/c.py" = "a/bb".
Proof. reflexivity. Qed.
Example dirname_top : OsPath.dirname "c.py" = "".
Proof. reflexivity. Qed.
Example basename_nested : OsPath.basename "a/bb/c.py" = "c.py".
Proof. reflexivity. Qed.
Example join_root : OsPath.join "." ["a"; "SUBTREE_TOTAL"] = "./a/SUBTREE_TOTAL".
Proof. reflexivity. Qed.
Example resolve_root : OsPath.resolve "./a/SUBTREE_TOTAL.stats.yaml" = ["a"; "SUBTREE_TOTAL.stats.yaml"].
Proof. reflexivity. Qed.
Example replace_all : PyStr.replace "x.stats.yaml.py.stats.yaml" ".stats.yaml" "" = "x.py".
Proof. reflexivity. Qed.

(** ** The defect in the order of the upward propagation

    [_aggregate_subtrees] pops the longest path first. The root is ["."],
    one character long, so a top-level directory with a name of one
    character ties with it, and the tie is broken by the path: ["."] sorts
    before every letter and digit. *)

(** C2 (the code fails the claim). With the dirty directories ["a"] and
    ["."], the loop aggregates the root first and its child ["a"] after
    it, although the root is the parent of ["a"]: the root has read
    [a/SUBTREE_TOTAL] before it was written. *)
Theorem C2_root_is_aggregated_before_its_child :
  holds_after
    (for_each (StatsUpdater.update_dir updater_x_ay None [])
              [("a", None); (".", None)] ([], empty_store))
    (fun visited =>
       visited.1 = ["a"; "."] /\
       StatsUpdater.parent_path "a" = "." /\
       stored (st_disk visited.2) ["a"] "SUBTREE_TOTAL" = None /\
       holds_after
         (StatsUpdater._aggregate_subtrees visited.1 visited.2)
         (fun done =>
            done.1 = ["."; "a"] /\
            stored (st_disk done.2) ["a"] "SUBTREE_TOTAL" = Some (loc 3))).
Proof. by_evaluation. Qed.

(** C1 (the code fails the claim). After a full update of the tree with
    [x.py] and [a/y.py] into an empty store, the root holds a FileRecord
    and its subdirectory [a] has data, but the stored [SUBTREE_TOTAL] of
    the root is its own [TOTAL] alone. *)
Theorem C1_root_subtree_total_misses_child :
  holds_after
    (StatsUpdater.update updater_x_ay None None [] empty_store)
    (fun r =>
       file_records (st_disk r.2) [] = [("x.py.stats.yaml", loc 5)] /\
       total_holds (st_disk r.2) [] = true /\
       stored (st_disk r.2) [] "TOTAL" = Some (loc 5) /\
       subtree_contributions (st_disk r.2) [] "TOTAL" = [loc 3] /\
       stored (st_disk r.2) [] "SUBTREE_TOTAL" = Some (loc 5) /\
       stat_sum [loc 5; loc 3] = loc 8 /\
       subtree_total_holds (st_disk r.2) [] = false).
Proof. by_evaluation. Qed.

(** C3 (the code fails the claim). A second full update over the same
    tree changes the store: the root's [SUBTREE_TOTAL] goes from 5 to 8. *)
Theorem C3_second_full_update_changes_the_store :
  holds_after
    (StatsUpdater.update updater_x_ay None None [] empty_store)
    (fun first =>
       holds_after
         (StatsUpdater.update updater_x_ay None None [] first.2)
         (fun second =>
            stored (st_disk first.2) [] "SUBTREE_TOTAL" = Some (loc 5) /\
            stored (st_disk second.2) [] "SUBTREE_TOTAL" = Some (loc 8) /\
            st_disk second.2 <> st_disk first.2)).
Proof. by_evaluation. Qed.

(** ** Removal of the record of a deleted file *)

(** C6 (the code fails the claim). [a.py] is recorded, then deleted from
    the source; the update over the changed file removes its stats record
    and leaves its method list in the store. A full rescan does the same. *)
Theorem C6_method_list_survives_the_deletion :
  holds_after
    (StatsUpdater.update updater_a None None [] empty_store)
    (fun recorded =>
       st_disk recorded.2 !! ["a.py.stats.yaml"] = Some (EFile (CStats (loc 13))) /\
       st_disk recorded.2 !! ["a.py.methods.yaml"]
         = Some (EFile (CMethods [("f", ("A", 1%Z))])) /\
       StatsUpdater._source_exists updater_nothing ["."; "a.py"] = false /\
       holds_after
         (StatsUpdater.update updater_nothing (Some ["a.py"]) None [] recorded.2)
         (fun r =>
            st_disk r.2 !! ["a.py.stats.yaml"] = None /\
            st_disk r.2 !! ["a.py.methods.yaml"]
              = Some (EFile (CMethods [("f", ("A", 1%Z))]))) /\
       holds_after
         (StatsUpdater.update updater_nothing None None [] recorded.2)
         (fun r =>
            st_disk r.2 !! ["a.py.stats.yaml"] = None /\
            st_disk r.2 !! ["a.py.methods.yaml"]
              = Some (EFile (CMethods [("f", ("A", 1%Z))])))).
Proof. by_evaluation. Qed.

(** ** A failing analysis and the aggregates *)

(** C5 (the code fails the claim). A full update of the tree with [x.py],
    [bad.py], whose analysis raises [AnalysisFailed], and [a/y.py] into an
    empty store returns: the failure stops nothing, [bad.py] gets no
    record, and the [TOTAL] of the root is the sum of the records that
    exist. But the aggregation invariant does not hold of the root, the
    directory of [bad.py]: its subdirectory [a] has the [SUBTREE_TOTAL] 3,
    and the stored [SUBTREE_TOTAL] of the root is its own [TOTAL], 5,
    alone. *)
Theorem C5_subtree_total_is_short_after_a_failed_analysis :
  _analyze_file_internal updater_x_bad_ay (FileSystem.join_parts ["."; "bad.py"])
  = Raise AnalysisFailed /\
  holds_after
    (StatsUpdater.update updater_x_bad_ay None None [] empty_store)
    (fun r =>
       stored (st_disk r.2) [] "bad.py" = None /\
       file_records (st_disk r.2) [] = [("x.py.stats.yaml", loc 5)] /\
       total_holds (st_disk r.2) [] = true /\
       stored (st_disk r.2) [] "TOTAL" = Some (loc 5) /\
       subtree_contributions (st_disk r.2) [] "TOTAL" = [loc 3] /\
       stored (st_disk r.2) [] "SUBTREE_TOTAL" = Some (loc 5) /\
       stat_sum [loc 5; loc 3] = loc 8 /\
       subtree_total_holds (st_disk r.2) [] = false).
Proof. by_evaluation. Qed.

(** ** The aggregates of a directory that lost its last record *)

(** C8 (the code fails the claim). [a.py], the only file of the root, is
    recorded and then deleted from the source, and the updater runs the
    update over the changed file. It removes the record of [a.py] and the
    three [TOTAL*] records of the root, which has no FileRecord left. But
    it does not remove the [SUBTREE_*] records of the root: it stores them
    anew with the values of the totals it has just removed.
    [_remove_stats_file] files the removal in the cache of the adapter
    under the path as joined, [./TOTAL], and [_aggregate_subtree] loads
    the total through the normalised path, [TOTAL], where the cache still
    holds the old value, so the list of contributions is not empty. An
    updater with an empty cache removes the [SUBTREE_*] records. *)
Theorem C8_subtree_totals_survive_the_last_record :
  holds_after
    (StatsUpdater.update updater_a None None [] empty_store)
    (fun recorded =>
       file_records (st_disk recorded.2) [] = [("a.py.stats.yaml", loc 13)] /\
       stored (st_disk recorded.2) [] "TOTAL" = Some (loc 13) /\
       stored (st_disk recorded.2) [] "SUBTREE_TOTAL" = Some (loc 13) /\
       StatsUpdater._source_exists updater_nothing ["."; "a.py"] = false /\
       holds_after
         (StatsUpdater.update updater_nothing (Some ["a.py"]) None [] recorded.2)
         (fun r =>
            file_records (st_disk r.2) [] = [] /\
            Forall (fun name => st_disk r.2 !! [name +:+ ".stats.yaml"] = None)
                   StatsUpdater.total_names /\
            subtree_contributions (st_disk r.2) [] "TOTAL" = [] /\
            stored (st_disk r.2) [] "SUBTREE_TOTAL" = Some (loc 13) /\
            stored (st_disk r.2) [] "SUBTREE_TOTAL_TEST" = Some (loc 0) /\
            stored (st_disk r.2) [] "SUBTREE_TOTAL_NON_TEST" = Some (loc 13)) /\
       holds_after
         (StatsUpdater.update updater_nothing (Some ["a.py"]) None []
            (mkStore (st_disk recorded.2) ∅))
         (fun r =>
            Forall (fun name => st_disk r.2 !! [name +:+ ".stats.yaml"] = None)
                   StatsUpdater.total_names /\
            Forall (fun name =>
                      st_disk r.2 !! [("SUBTREE_" +:+ name) +:+ ".stats.yaml"] = None)
                   StatsUpdater.total_names)).
Proof. by_evaluation. Qed.

(** ** The caching adapter against the plain one *)

(** C10 (the code fails the claim). [rm] files its [None] under the path
    as given, while [get] and [set] use the normalised path: after
    [set('./a', s)] and [rm('./a')], [get('./a')] still returns [s] from
    the cache, where the plain adapter returns the default. *)
Theorem C10_cached_get_after_rm_returns_the_removed_value :
  run_cached [OpSet "./a" (loc 1); OpRm "./a"; OpGet "./a" None] empty_store
    = Ok [Some (loc 1)] /\
  run_plain [OpSet "./a" (loc 1); OpRm "./a"; OpGet "./a" None] ∅ = Ok [None].
Proof. by_evaluation. Qed.

(** ** Steps of the error monad *)

Lemma bind_ok {A B} (m : res A) (f : A -> res B) (b : B) :
  (m ≫= f) = Ok b -> exists a, m = Ok a /\ f a = Ok b.
Proof. destruct m as [a|e]; simpl; [eauto | discriminate]. Qed.

Lemma fmap_ok {A B} (g : A -> B) (m : res A) (b : B) :
  g <$> m = Ok b -> exists a, m = Ok a /\ b = g a.
Proof. destruct m as [a|e]; simpl; intros H; [injection H as <-; eauto | discriminate]. Qed.

(** Take apart a hypothesis saying that a sequence of steps returned. *)
Ltac ok_steps H :=
  repeat match type of H with
         | (_ ≫= _) = Ok _ =>
             let a := fresh "r" in
             let Ha := fresh "Hstep" in
             apply bind_ok in H as (a & Ha & H)
         | (let '(_, _) := ?p in _) = Ok _ => destruct p; simpl in H
         | (match ?p with (_, _) => _ end) = Ok _ => destruct p; simpl in H
         end.

(** ** The replay leaves a catch-up commit before every visible commit *)

Lemma run_update_log o r cf ps fs d fs' :
  run_update o r cf ps fs = Ok (d, fs') -> fs_log fs' = fs_log fs.
Proof.
  unfold run_update. intros H. ok_steps H. injection H as _ <-. reflexivity.
Qed.

Lemma add_file_log parts c fs fs' :
  GitStatsFileSystem.add_file parts c fs = Ok fs' -> fs_log fs' = fs_log fs.
Proof.
  unfold GitStatsFileSystem.add_file. intros H. ok_steps H.
  injection H as <-. reflexivity.
Qed.

Lemma catch_up_messages o current_sha prev_sha changed rf r1 fs1 :
  catch_up o current_sha prev_sha changed rf = Ok (r1, fs1) ->
  messages fs1
  = (if incremental o then [ignore_message current_sha] else []) ++ messages rf.2.
Proof.
  unfold catch_up, messages. destruct (incremental o); intros H.
  - ok_steps H. injection H as _ <-. simpl. f_equal.
    destruct (negb _); ok_steps Hstep; injection Hstep as _ <-;
      match goal with
      | Hu : run_update _ _ _ _ _ = Ok _ |- _ => apply run_update_log in Hu; now rewrite Hu
      end.
  - injection H as ->. reflexivity.
Qed.

Lemma head_reset_spec (sha : string) (r r' : git_repo) :
  head_reset (Some sha) r = Ok r' ->
  objects r' = objects r /\ head r' = sha /\ tree_at r sha = Ok (working_tree r').
Proof.
  unfold head_reset. cbn [default]. intros H. apply bind_ok in H as (t & Ht & H).
  injection H as <-. cbn. auto.
Qed.

Lemma tree_at_objects (r r' : git_repo) (sha : string) :
  objects r' = objects r -> tree_at r' sha = tree_at r sha.
Proof. unfold tree_at, repo_commit. now intros ->. Qed.

Lemma catch_up_steps o (current_sha prev_sha : string) (changed : list string)
    (rf : git_repo * stats_fs) (r1 : git_repo) (fs1 : stats_fs) :
  catch_up o current_sha prev_sha changed rf = Ok (r1, fs1) ->
  objects r1 = objects rf.1 /\
  if incremental o then
    exists dirty0 fs0,
      (if String.eqb prev_sha empty_sha
       then r1 = rf.1 /\ run_update o rf.1 (Some []) (paths o) rf.2 = Ok (dirty0, fs0)
       else head_reset (Some prev_sha) rf.1 = Ok r1 /\
            run_update o r1 (Some changed) (paths o) rf.2 = Ok (dirty0, fs0)) /\
      fs_store fs1 = fs_store fs0 /\
      fs_log fs1
      = mkSnapshot (ignore_message current_sha) (st_disk (fs_store fs0)) :: fs_log rf.2
  else r1 = rf.1 /\ fs1 = rf.2.
Proof.
  unfold catch_up. destruct (incremental o).
  - intros H. apply bind_ok in H as ([r1' fs0] & Hstep & H). injection H as <- <-.
    cbn [GitStatsFileSystem.commit snd fs_store fs_log].
    destruct (String.eqb prev_sha empty_sha); cbn [negb] in Hstep.
    + apply bind_ok in Hstep as ([dirty0 fs0'] & Hu & Hstep). injection Hstep as <- <-.
      split; [reflexivity|]. exists dirty0, fs0'. split; [now split|].
      split; [reflexivity|]. now rewrite (run_update_log _ _ _ _ _ _ _ Hu).
    + apply bind_ok in Hstep as (r1'' & Hr & Hstep).
      apply bind_ok in Hstep as ([dirty0 fs0'] & Hu & Hstep). injection Hstep as <- <-.
      split; [exact (proj1 (head_reset_spec _ _ _ Hr))|].
      exists dirty0, fs0'. split; [now split|].
      split; [reflexivity|]. now rewrite (run_update_log _ _ _ _ _ _ _ Hu).
  - intros [= ->]. cbn [fst snd]. auto.
Qed.

(** C4 (as amended). One turn of the replay loop, for the pair of the
    current id and the previous one. In incremental mode, whatever the
    head of the store is, the turn first makes the catch-up commit: it
    resets the working copy to the previous commit (which materialises the
    tree of that commit) and runs the update over the changed paths, or,
    when the previous id is that of the empty tree, runs an update over
    no paths; the store as that update leaves it is committed under
    [[ignore] <current id>]. Then, and without [incremental] at once, it
    resets the working copy to the current commit, runs the update over
    the changed paths, and commits the visible commit on top. So the
    messages that the turn adds are the visible message, and below it the
    catch-up message in incremental mode. *)
Theorem C4_catch_up_commit_for_every_pair o sha_pair rf id rf' :
  replay_pair o sha_pair rf = Ok (id, rf') ->
  exists c prev_sha prev_tree r1 fs1 r2 dirty fs2 visible,
    repo_commit rf.1 sha_pair.1 = Ok c /\
    match sha_pair.2 with
    | Some p => prev_sha = p
    | None =>
        exists prev, _get_parent_sha rf.1 sha_pair.1 (Some empty_sha) = Ok prev /\
                     prev_sha = default empty_sha prev
    end /\
    tree_at rf.1 prev_sha = Ok prev_tree /\
    (if incremental o then
       exists dirty0 fs0,
         (if String.eqb prev_sha empty_sha
          then r1 = rf.1 /\ run_update o rf.1 (Some []) (paths o) rf.2 = Ok (dirty0, fs0)
          else head_reset (Some prev_sha) rf.1 = Ok r1 /\
               head r1 = prev_sha /\ working_tree r1 = prev_tree /\
               run_update o r1 (Some (changed_paths (tree c) prev_tree)) (paths o) rf.2
               = Ok (dirty0, fs0)) /\
         fs_store fs1 = fs_store fs0 /\
         fs_log fs1
         = mkSnapshot (ignore_message sha_pair.1) (st_disk (fs_store fs0)) :: fs_log rf.2
     else r1 = rf.1 /\ fs1 = rf.2) /\
    head_reset (Some sha_pair.1) r1 = Ok r2 /\
    tree_at rf.1 sha_pair.1 = Ok (working_tree r2) /\
    run_update o r2 (Some (changed_paths (tree c) prev_tree)) (paths o) fs1 = Ok (dirty, fs2) /\
    rf'.1 = r2 /\
    fs_log rf'.2 = visible :: fs_log fs1 /\
    sc_message visible = visible_message c /\
    id = List.length (fs_log fs1) /\
    messages rf'.2
    = visible_message c
        :: (if incremental o then [ignore_message sha_pair.1] else [])
        ++ messages rf.2.
Proof.
  unfold replay_pair. intros H.
  apply bind_ok in H as (prev & Hprev & H).
  apply bind_ok in H as (c & Hc & H).
  apply bind_ok in H as (prev_tree & Htree & H).
  apply bind_ok in H as ([r1 fs1] & Hcatch & H).
  apply bind_ok in H as (r2 & Hreset & H).
  apply bind_ok in H as ([dirty fs2] & Hupdate & H).
  apply bind_ok in H as (fs3 & Hadd3 & H).
  apply bind_ok in H as (fs4 & Hadd4 & H).
  cbn [GitStatsFileSystem.commit] in H. injection H as <- <-. cbn [fst snd fs_log].
  pose proof (catch_up_messages _ _ _ _ _ _ _ Hcatch) as Hmsg.
  apply catch_up_steps in Hcatch as [Hobj Hcatch].
  pose proof (head_reset_spec _ _ _ Hreset) as (_ & _ & Hcur).
  rewrite (tree_at_objects _ _ _ Hobj) in Hcur.
  pose proof (run_update_log _ _ _ _ _ _ _ Hupdate) as Hlog2.
  apply add_file_log in Hadd3, Hadd4.
  assert (Hlog : fs_log fs4 = fs_log fs1) by congruence.
  exists c, (default empty_sha prev), prev_tree, r1, fs1, r2, dirty, fs2,
    (mkSnapshot (visible_message c) (st_disk (fs_store fs4))).
  split; [exact Hc|]. split.
  { destruct (sha_pair.2) as [p|]; [now injection Hprev as <- | now exists prev]. }
  split; [exact Htree|]. split.
  { destruct (incremental o); [|exact Hcatch].
    destruct Hcatch as (dirty0 & fs0 & Hsteps & Hstore & Hlog1).
    exists dirty0, fs0. split; [|now split].
    destruct (String.eqb (default empty_sha prev) empty_sha); [exact Hsteps|].
    destruct Hsteps as [Hr Hu].
    pose proof (head_reset_spec _ _ _ Hr) as (_ & Hhead & Ht).
    rewrite Htree in Ht. injection Ht as Ht. now repeat split. }
  split; [exact Hreset|]. split; [exact Hcur|]. split; [exact Hupdate|].
  split; [reflexivity|]. split; [now rewrite Hlog|]. split; [reflexivity|].
  split; [now rewrite Hlog|].
  unfold messages in *. cbn [fs_log List.map sc_message]. f_equal. now rewrite Hlog.
Qed.
(** ** Provenance: commit messages and the lookup by source id *)

Lemma is_word_not_space c : is_word c = true -> is_space c = false.
Proof.
  destruct c as [[] [] [] [] [] [] [] []]; vm_compute; congruence.
Qed.

Lemma is_word_not_newline c : is_word c = true -> Ascii.eqb newline c = false.
Proof.
  destruct c as [[] [] [] [] [] [] [] []]; vm_compute; congruence.
Qed.

Lemma is_word_not_bracket c : is_word c = true -> Ascii.eqb c "["%char = false.
Proof.
  destruct c as [[] [] [] [] [] [] [] []]; vm_compute; congruence.
Qed.

Lemma take_token_word h rest :
  all_word h = true -> take_token (h +:+ nl +:+ rest) = h.
Proof.
  induction h as [|c h IH]; simpl; [reflexivity|].
  intros [Hc Hh]%andb_prop. rewrite (is_word_not_space c Hc). f_equal. auto.
Qed.

Lemma first_token_id h rest :
  is_id h = true -> first_token (h +:+ nl +:+ rest) = Some h.
Proof.
  unfold is_id. destruct h as [|c h]; [discriminate|]. simpl.
  intros [Hc Hh]%andb_prop. rewrite (is_word_not_space c Hc). f_equal.
  f_equal. now apply take_token_word.
Qed.

Lemma all_word_no_newline h : all_word h = true -> PyStr.contains newline h = false.
Proof.
  induction h as [|c h IH]; cbn [PyStr.contains all_word]; [reflexivity|].
  intros [Hc Hh]%andb_prop. rewrite (is_word_not_newline c Hc). auto.
Qed.

(** The first line of [s ++ "\n" ++ t], for [s] without a newline. *)
Lemma lines_app s t :
  PyStr.contains newline s = false ->
  GitStatsFileSystem.lines (s +:+ nl +:+ t) = s :: GitStatsFileSystem.lines t.
Proof.
  unfold GitStatsFileSystem.lines.
  induction s as [|c s IH]; cbn [PyStr.contains PyStr.split String.append].
  - intros _. reflexivity.
  - destruct (Ascii.eqb newline c) eqn:E; [discriminate|].
    intros H. change (String c s +:+ nl +:+ t) with (String c (s +:+ nl +:+ t)).
    cbn [PyStr.split]. rewrite E, (IH H). reflexivity.
Qed.

Lemma startswith_bracket h rest :
  is_id h = true -> PyStr.startswith (String "["%char rest) h = false.
Proof.
  unfold is_id, PyStr.startswith. destruct h as [|c h]; [discriminate|]. simpl.
  intros [Hc _]%andb_prop.
  destruct (ascii_dec c "[") as [->|Hne]; [discriminate|reflexivity].
Qed.

Lemma startswith_empty h : is_id h = true -> PyStr.startswith "" h = false.
Proof. unfold is_id. destruct h; [discriminate | reflexivity]. Qed.

(** No id is matched by a catch-up message. *)
Lemma grep_ignore_message h cur :
  is_id h = true -> is_id cur = true ->
  GitStatsFileSystem.grep_anchored h (ignore_message cur) = false.
Proof.
  intros Hh Hcur. unfold GitStatsFileSystem.grep_anchored, ignore_message.
  assert (Hn : PyStr.contains newline ("[ignore] " +:+ cur) = false).
  { apply andb_prop in Hcur as [_ Hw]. simpl. now apply all_word_no_newline. }
  replace ("[ignore] " +:+ cur +:+ nl) with (("[ignore] " +:+ cur) +:+ nl +:+ "").
  2:{ reflexivity. }
  rewrite (lines_app _ _ Hn).
  change (GitStatsFileSystem.lines "") with [""]. cbn [existsb].
  change ("[ignore] " +:+ cur) with (String "["%char ("ignore] " +:+ cur)).
  rewrite (startswith_bracket h _ Hh), (startswith_empty h Hh). reflexivity.
Qed.

(** A visible message is matched on its first line or in the original
    message. *)
Lemma grep_visible_message h c :
  is_id (hexsha c) = true ->
  GitStatsFileSystem.grep_anchored h (visible_message c)
  = PyStr.startswith (hexsha c) h || GitStatsFileSystem.grep_anchored h (message c).
Proof.
  intros [_ Hw]%andb_prop. unfold GitStatsFileSystem.grep_anchored, visible_message.
  rewrite lines_app by now apply all_word_no_newline. reflexivity.
Qed.

(** What the lookup returns: the newest commit with a matching line. *)
Lemma get_rev_for_sha_in_spec log h id :
  GitStatsFileSystem.get_rev_for_sha_in log h = Some id ->
  exists newer snap older,
    log = newer ++ snap :: older /\ id = List.length older /\
    GitStatsFileSystem.grep_anchored h (sc_message snap) = true /\
    Forall (fun s => GitStatsFileSystem.grep_anchored h (sc_message s) = false) newer.
Proof.
  induction log as [|c log IH]; simpl; [discriminate|].
  destruct (GitStatsFileSystem.grep_anchored h (sc_message c)) eqn:E.
  - intros [= <-]. exists [], c, log. auto.
  - intros (newer & snap & older & -> & -> & Hm & Hn)%IH.
    exists (c :: newer), snap, older. repeat split; auto.
Qed.

Lemma lookup_commit_split fs newer snap older :
  fs_log fs = newer ++ snap :: older ->
  GitStatsFileSystem.lookup_commit fs (List.length older) = Some snap.
Proof.
  unfold GitStatsFileSystem.lookup_commit. intros ->.
  rewrite List.rev_app_distr. simpl. rewrite <- List.app_assoc.
  rewrite List.nth_error_app2; rewrite List.length_rev; [|lia].
  now rewrite Nat.sub_diag.
Qed.

(** What the lookup does. A visible commit's message is the source id, a
    newline and the original message, so its first token is the id. The
    lookup by an id returns the newest snapshot commit that has a message
    line beginning with the id; that commit is never a catch-up commit,
    and when it is the visible commit of a source commit whose original
    message has no such line, its own id begins with the looked-up id. *)
Lemma lookup_by_source_id (c : git_commit) (fs : stats_fs) (h : string) (id : nat) :
  is_id (hexsha c) = true ->
  is_id h = true ->
  GitStatsFileSystem.get_rev_for_sha fs h = Some id ->
  (visible_message c = hexsha c +:+ nl +:+ message c /\
   first_token (visible_message c) = Some (hexsha c)) /\
  exists newer snap older,
    fs_log fs = newer ++ snap :: older /\ id = List.length older /\
    GitStatsFileSystem.lookup_commit fs id = Some snap /\
    GitStatsFileSystem.grep_anchored h (sc_message snap) = true /\
    Forall (fun s => GitStatsFileSystem.grep_anchored h (sc_message s) = false) newer /\
    (forall cur, is_id cur = true -> sc_message snap <> ignore_message cur) /\
    (forall c', sc_message snap = visible_message c' ->
                is_id (hexsha c') = true ->
                GitStatsFileSystem.grep_anchored h (message c') = false ->
                PyStr.startswith (hexsha c') h = true).
Proof.
  intros Hc Hh Hget. split.
  - split; [reflexivity|]. now apply first_token_id.
  - apply get_rev_for_sha_in_spec in Hget as (newer & snap & older & Hlog & -> & Hm & Hn).
    exists newer, snap, older. repeat split; auto.
    + eapply lookup_commit_split; eauto.
    + intros cur Hcur E. rewrite E, grep_ignore_message in Hm by assumption. discriminate.
    + intros c' E Hc' Hbody. rewrite E, grep_visible_message, Hbody in Hm by assumption.
      now rewrite orb_false_r in Hm.
Qed.
Lemma outcome_ok {A} (dflt : A) (r : res A) :
  is_ok r = true -> r = Ok (outcome dflt r).
Proof. destruct r; [reflexivity | discriminate]. Qed.

Lemma outcome_ok_pair {A B} (dflt : A * B) (r : res (A * B)) :
  is_ok r = true -> r = Ok ((outcome dflt r).1, (outcome dflt r).2).
Proof. destruct r as [[a b]|]; [reflexivity | discriminate]. Qed.

(** C4 at the second turn of the sample replay, for the pair of [bbb222]
    and [aaa111]: the working copy is reset to [aaa111], the update runs
    over the changed path [y.py], and the store it leaves is committed
    under [[ignore] bbb222], below the visible commit of [bbb222]. *)
Lemma C4_catch_up_commit_for_every_pair_witness :
  exists r1 dirty0 fs0 visible,
    head_reset (Some "aaa111") after_first_turn.1 = Ok r1 /\
    working_tree r1 = tree_1 /\
    run_update incremental_options r1 (Some ["y.py"]) None after_first_turn.2
    = Ok (dirty0, fs0) /\
    fs_log (outcome (0, after_first_turn) second_turn).2.2
    = visible :: mkSnapshot (ignore_message "bbb222") (st_disk (fs_store fs0))
        :: fs_log after_first_turn.2 /\
    sc_message visible = visible_message commit_2.
Proof.
  destruct (C4_catch_up_commit_for_every_pair incremental_options
              ("bbb222", Some "aaa111") after_first_turn
              (outcome (0, after_first_turn) second_turn).1
              (outcome (0, after_first_turn) second_turn).2)
    as (c & prev_sha & prev_tree & r1 & fs1 & r2 & dirty & fs2 & visible
        & Hc & Hprev & Htree & Hcatch & _ & _ & _ & _ & Hlog & Hmsg & _).
  - apply (outcome_ok_pair (0, after_first_turn) second_turn). vm_compute. reflexivity.
  - cbn [fst snd] in Hc, Hprev, Htree, Hcatch, Hlog. subst prev_sha.
    assert (Ec : c = commit_2).
    { assert (E : repo_commit after_first_turn.1 "bbb222" = Ok commit_2)
        by (vm_compute; reflexivity).
      rewrite E in Hc. now injection Hc. }
    assert (Et : prev_tree = tree_1).
    { assert (E : tree_at after_first_turn.1 "aaa111" = Ok tree_1)
        by (vm_compute; reflexivity).
      rewrite E in Htree. now injection Htree. }
    subst c prev_tree.
    change (incremental incremental_options) with true in Hcatch.
    change (String.eqb "aaa111" empty_sha) with false in Hcatch.
    change (paths incremental_options) with (@None (list string)) in Hcatch.
    destruct Hcatch as (dirty0 & fs0 & (Hr & _ & Hw & Hu) & _ & Hlog1).
    assert (Ech : changed_paths (tree commit_2) tree_1 = ["y.py"])
      by (vm_compute; reflexivity).
    rewrite Ech in Hu.
    exists r1, dirty0, fs0, visible. rewrite Hlog, Hlog1. auto.
Defined.

(** C4 (as stated, refuted). After the first commit is replayed, the head
    of the store encodes [aaa111]; the turn for the pair (previous
    [aaa111], current [bbb222]) still emits the catch-up commit
    [[ignore] bbb222]. *)
Lemma C4_catch_up_although_head_matches :
  holds_after
    (generate_stats_fs_commits_for_source_commits incremental_options empty_stats_fs
       repo_12 ["aaa111"])
    (fun first =>
       head_encodes first.2.2 "aaa111" /\
       holds_after
         (replay_pair incremental_options ("bbb222", Some "aaa111") first.2)
         (fun second =>
            new_messages first.2.2 second.2.2
            = [visible_message commit_2; ignore_message "bbb222"])).
Proof. by_evaluation. Qed.

(** The lookup on the history of the sample replay. *)
Lemma lookup_by_source_id_on_the_sample :
  first_token (visible_message commit_1) = Some "aaa111" /\
  exists snap,
    GitStatsFileSystem.lookup_commit replayed_fs 3 = Some snap /\
    forall cur, is_id cur = true -> sc_message snap <> ignore_message cur.
Proof.
  destruct (lookup_by_source_id commit_1 replayed_fs "bbb222" 3)
    as [[_ Htok] (newer & snap & older & _ & _ & Hl & _ & _ & Hi & _)].
  - reflexivity.
  - reflexivity.
  - vm_compute. reflexivity.
  - split; [exact Htok|]. exists snap. split; [exact Hl | exact Hi].
Defined.

(** C9 (the code fails the claim). The lookup by a source id is a
    [git log --grep=^id], which looks for the id at the start of every
    line of a message, not of the message alone. In the history of the
    sample replay the second source commit, [bbb222], has an original
    message with a line that begins with [aaa111]. The lookup of [aaa111]
    returns commit 3, the visible commit of [bbb222], whose first token
    is [bbb222]; the commit that encodes [aaa111] is commit 1. *)
Theorem C9_lookup_returns_another_commit :
  is_ok replayed_12 = true /\
  GitStatsFileSystem.get_rev_for_sha replayed_fs "aaa111" = Some 3 /\
  (sc_message <$> GitStatsFileSystem.lookup_commit replayed_fs 3)
  = Some (visible_message commit_2) /\
  first_token (visible_message commit_2) = Some "bbb222" /\
  (sc_message <$> GitStatsFileSystem.lookup_commit replayed_fs 1)
  = Some (visible_message commit_1) /\
  first_token (visible_message commit_1) = Some "aaa111".
Proof. by_evaluation. Qed.

(** ** The delta reconstructor *)

(** A zero StatValue has the key shape of the value it is derived from. *)
Lemma zero_series_shape (s : series) :
  dom (zero_series s) = dom s /\
  forall k v, zero_series s !! k = Some v -> v = Num 0.
Proof.
  unfold zero_series. split.
  - apply dom_fmap_L.
  - intros k v. rewrite lookup_fmap. destruct (s !! k); simpl; congruence.
Qed.

Lemma remove_dups_two (p q : string) :
  remove_dups [p; q] = if decide (p = q) then [q] else [p; q].
Proof.
  cbn [remove_dups].
  destruct (decide (p = q)) as [->|Hne];
    destruct (decide_rel elem_of _ [q]);
    destruct (decide_rel elem_of q []);
    try reflexivity; exfalso; set_solver.
Qed.

(** The records of one change, before the caller's filters: one per
    distinct non-null path, with its sign. *)
Lemma changed_paths_signed (src dest : option string) :
  List.map (fun file => (file, if bool_decide (Some file = dest) then 1%Z else (-1)%Z))
           (remove_dups (omap id [src; dest]))
  = signed_paths src dest.
Proof.
  destruct src as [p|], dest as [q|]; unfold signed_paths.
  - change (omap id [Some p; Some q]) with [p; q].
    rewrite remove_dups_two. destruct (decide (p = q)) as [->|Hne]; cbn [List.map].
    + rewrite bool_decide_eq_true_2 by reflexivity. reflexivity.
    + rewrite bool_decide_eq_false_2 by congruence.
      rewrite bool_decide_eq_true_2 by reflexivity. reflexivity.
  - change (omap id [Some p; None]) with [p]. cbn [remove_dups].
    destruct (decide_rel elem_of p []) as [Hin|_]; [exfalso; set_solver|].
    reflexivity.
  - change (omap id [None; Some q]) with [q]. cbn [remove_dups].
    destruct (decide_rel elem_of q []) as [Hin|_]; [exfalso; set_solver|].
    cbn [List.map]. rewrite bool_decide_eq_true_2 by reflexivity. reflexivity.
  - reflexivity.
Qed.

Lemma stats_for_file_passes filters tp lc commit dest diff aft file :
  stats_for_file filters tp lc commit dest diff aft file
  = if passes filters file
    then
      let filename := PyStr.replace file ".stats.yaml" "" in
      let prefix := if PyStr.endswith filename ".py" then filename
                    else OsPath.dirname filename in
      let t := line_totals tp prefix lc in
      Some (mkStats filename commit t.1.1 t.1.2 t.2
              (series_mul diff (if bool_decide (Some file = dest) then 1%Z else (-1)%Z))
              aft)
    else None.
Proof.
  unfold stats_for_file, passes.
  destruct filters as [ps|]; [destruct (StatsUpdater.any_pattern ps file)|]; cbn;
    try reflexivity; destruct (line_totals _ _ _) as [[t tt] tn]; reflexivity.
Qed.

Lemma load_side_spec (t : disk) (path : option string) (v : option series) :
  load_side t path = Ok v -> side_of t path v.
Proof.
  unfold load_side, side_of. destruct path as [[|c p]|]; cbn [str_truthy default].
  - now intros [= <-].
  - intros H. apply bind_ok in H as (content & Hshow & H).
    apply fmap_ok in H as (s & Hread & ->). exists s. split; [|reflexivity].
    unfold git_show in Hshow. change (id (String c p)) with (String c p) in Hshow.
    destruct (t !! OsPath.resolve (String c p)) as [[content'|]|]; try discriminate.
    injection Hshow as ->. unfold read_stats_file in Hread.
    destruct content; try discriminate. now injection Hread as ->.
  - now intros [= <-].
Qed.

Lemma lookup_signed_delta (aft before : series) (sign : Z) (k : string * string) :
  series_mul (series_minus aft before) sign !! k = delta_at sign (aft !! k) (before !! k).
Proof.
  unfold series_mul, series_minus. rewrite lookup_fmap, lookup_merge.
  destruct (aft !! k) as [[a|]|], (before !! k) as [[b|]|]; reflexivity.
Qed.

Lemma signed_rows (filters : option (list pattern)) (tp : list pattern)
    (lc : list (string * line_change)) (commit : nat) (dest : option string)
    (before aft : series) (files : list string) :
  Forall2
    (fun r ps =>
       filename r = PyStr.replace ps.1 ".stats.yaml" "" /\
       after r = aft /\
       forall k, delta r !! k = delta_at ps.2 (aft !! k) (before !! k))
    (omap (stats_for_file filters tp lc commit dest (series_minus aft before) aft) files)
    (List.filter (fun ps => passes filters ps.1)
       (List.map (fun file => (file, if bool_decide (Some file = dest)
                                     then 1%Z else (-1)%Z)) files)).
Proof.
  induction files as [|file files IH]; [constructor|].
  change (omap ?f (file :: files))
    with (match f file with Some y => y :: omap f files | None => omap f files end).
  rewrite stats_for_file_passes. cbn [List.map List.filter fst].
  destruct (passes filters file); [|exact IH].
  constructor; [|exact IH]. cbn [filename after delta fst snd].
  split; [reflexivity|]. split; [reflexivity|].
  intros k. apply lookup_signed_delta.
Qed.



(** The two records of the sample rename: the removed path with the delta
    negated, the new path with the delta. *)
Example rename_rows_values :
  List.map (fun r => (filename r, delta r, after r)) rename_rows
  = [("old.py", loc (-2), loc 5); ("new.py", loc 2, loc 5)].
Proof. by_evaluation. Qed.

(** ** Strings and paths *)

Lemma append_cons c (s t : string) : String c s +:+ t = String c (s +:+ t).
Proof. reflexivity. Qed.

Lemma append_nil_l (s : string) : "" +:+ s = s.
Proof. reflexivity. Qed.

Lemma append_nil_r (s : string) : s +:+ "" = s.
Proof. induction s as [|c s IH]; [reflexivity | now rewrite append_cons, IH]. Qed.

Lemma append_assoc (a b c : string) : (a +:+ b) +:+ c = a +:+ b +:+ c.
Proof. induction a as [|x a IH]; [reflexivity | now rewrite !append_cons, IH]. Qed.

Lemma contains_app c a b :
  PyStr.contains c (a +:+ b) = PyStr.contains c a || PyStr.contains c b.
Proof.
  induction a as [|x a IH]; [reflexivity|].
  rewrite append_cons. cbn [PyStr.contains].
  destruct (Ascii.eqb c x); [reflexivity | exact IH].
Qed.

(** [split] of a string without the separator, and of a string up to its
    first separator. *)
Lemma split_no_sep c s : PyStr.contains c s = false -> PyStr.split c s = [s].
Proof.
  induction s as [|x s IH]; cbn [PyStr.contains PyStr.split]; [reflexivity|].
  destruct (Ascii.eqb c x); [discriminate|]. intros H. now rewrite (IH H).
Qed.

Lemma split_app c a b :
  PyStr.contains c a = false ->
  PyStr.split c (a +:+ String c b) = a :: PyStr.split c b.
Proof.
  induction a as [|x a IH].
  - intros _. rewrite append_nil_l. cbn [PyStr.split]. now rewrite Ascii.eqb_refl.
  - rewrite append_cons. cbn [PyStr.contains PyStr.split].
    destruct (Ascii.eqb c x); [discriminate|]. intros H. now rewrite (IH H).
Qed.

Lemma good_name_parts n :
  good_name n = true -> n <> "" /\ n <> "." /\ PyStr.contains OsPath.sep n = false.
Proof.
  unfold good_name. intros [[H1 H2]%andb_prop H3]%andb_prop.
  apply negb_true_iff in H1, H2, H3.
  apply String.eqb_neq in H1, H2. auto.
Qed.

Lemma key_of_cons x l :
  key_of (x :: l) = match l with [] => x | _ => x +:+ String OsPath.sep (key_of l) end.
Proof. destruct l; reflexivity. Qed.

Lemma key_of_snoc l m :
  key_of (l ++ [m]) = match l with [] => m | _ => key_of l +:+ String OsPath.sep m end.
Proof.
  induction l as [|x l IH]; [reflexivity|].
  change ((x :: l) ++ [m]) with (x :: (l ++ [m])).
  rewrite key_of_cons. destruct l as [|y l].
  - reflexivity.
  - change ((y :: l) ++ [m]) with (y :: (l ++ [m])) in *.
    rewrite IH. rewrite key_of_cons with (l := y :: l).
    now rewrite append_assoc, append_cons.
Qed.

(** The operating system resolves the path of a list of names to that
    list. *)
Lemma resolve_key_of l :
  Forall (fun n => good_name n = true) l -> OsPath.resolve (key_of l) = l.
Proof.
  unfold OsPath.resolve. induction 1 as [|x l Hx Hl IH]; [reflexivity|].
  apply good_name_parts in Hx as (Hx1 & Hx2 & Hx3).
  rewrite key_of_cons. destruct l as [|y l].
  - rewrite split_no_sep by assumption. cbn [List.filter].
    apply String.eqb_neq in Hx1, Hx2. now rewrite Hx1, Hx2.
  - rewrite split_app by assumption. cbn [List.filter].
    apply String.eqb_neq in Hx1, Hx2. rewrite Hx1, Hx2. cbn [negb andb].
    f_equal. exact IH.
Qed.

Lemma resolve_dir_of k :
  Forall (fun n => good_name n = true) k -> OsPath.resolve (dir_of k) = k.
Proof. destruct k; [reflexivity|]. apply resolve_key_of. Qed.

Lemma good_name_first n :
  good_name n = true ->
  exists c n', n = String c n' /\ c <> OsPath.sep /\ PyStr.contains OsPath.sep n' = false.
Proof.
  intros (H1 & _ & H3)%good_name_parts. destruct n as [|c n']; [congruence|].
  exists c, n'. cbn [PyStr.contains] in H3.
  destruct (Ascii.eqb OsPath.sep c) eqn:E; [discriminate|].
  apply Ascii.eqb_neq in E. auto.
Qed.

Lemma startswith_slash_good m : good_name m = true -> PyStr.startswith m "/" = false.
Proof.
  intros (c & m' & -> & Hc & _)%good_name_first.
  unfold PyStr.startswith. cbn [String.prefix].
  destruct (ascii_dec "/" c) as [<-|]; [now destruct Hc | reflexivity].
Qed.

Lemma endswith_app_nonempty a n :
  n <> "" -> PyStr.endswith (a +:+ n) "/" = PyStr.endswith n "/".
Proof.
  intros Hn. induction a as [|c a IH]; [reflexivity|].
  rewrite append_cons. cbn [PyStr.endswith].
  destruct (String.eqb_spec (String c (a +:+ n)) "/") as [E|_]; [|exact IH].
  injection E as _ E. destruct a; [now destruct Hn | discriminate].
Qed.

Lemma endswith_no_sep s :
  PyStr.contains OsPath.sep s = false -> PyStr.endswith s "/" = false.
Proof.
  induction s as [|c s IH]; [reflexivity|].
  cbn [PyStr.contains PyStr.endswith].
  destruct (Ascii.eqb OsPath.sep c) eqn:E; [discriminate|]. intros H.
  destruct (String.eqb_spec (String c s) "/") as [E'|_]; [|exact (IH H)].
  injection E' as -> _. discriminate.
Qed.

Lemma key_of_last k :
  Forall (fun n => good_name n = true) k -> k <> [] ->
  key_of k <> "" /\ PyStr.endswith (key_of k) "/" = false.
Proof.
  intros Hk Hne. destruct (List.exists_last Hne) as (k' & x & ->). clear Hne.
  rename k' into k.
  apply Forall_app in Hk as [_ Hx]. apply Forall_inv in Hx.
  pose proof (good_name_parts x Hx) as (Hx1 & _ & Hx3).
  rewrite key_of_snoc. destruct k as [|y k].
  - split; [assumption | now apply endswith_no_sep].
  - split.
    + destruct (key_of (y :: k)); discriminate.
    + change (String OsPath.sep x) with ("/" +:+ x).
      rewrite <- append_assoc. rewrite endswith_app_nonempty by exact Hx1.
      now apply endswith_no_sep.
Qed.

(** [os.path.join(dir, name)] for a directory as [update] names it. *)
Lemma join2_dir_of k m :
  Forall (fun n => good_name n = true) k -> good_name m = true ->
  OsPath.join2 (dir_of k) m
  = match k with [] => "./" +:+ m | _ => key_of (k ++ [m]) end.
Proof.
  intros Hk Hm. unfold OsPath.join2. rewrite (startswith_slash_good m Hm).
  destruct k as [|x k]; [reflexivity|].
  destruct (key_of_last (x :: k) Hk) as [Hne Hend]; [discriminate|].
  cbn [dir_of]. apply String.eqb_neq in Hne. rewrite Hne, Hend. cbn [orb].
  rewrite key_of_snoc. reflexivity.
Qed.

(** *** The two substitutions of [_normalize_path] *)

Lemma replace_go_id s :
  (forall n, String.prefix "/./" (PyStr.drop n s) = false) ->
  PyStr.replace_go "/./" "/" 0 s = s.
Proof.
  induction s as [|c s IH]; [reflexivity|]. intros H.
  pose proof (H 0) as H0. cbn [PyStr.drop] in H0.
  cbn [PyStr.replace_go]. rewrite H0. f_equal. apply IH.
  intros n. exact (H (S n)).
Qed.

Lemma dot_free_name x rest :
  PyStr.contains OsPath.sep x = false ->
  (forall n, String.prefix "/./" (PyStr.drop n rest) = false) ->
  forall n, String.prefix "/./" (PyStr.drop n (x +:+ rest)) = false.
Proof.
  induction x as [|c x IH]; [intros _ H; exact H|].
  cbn [PyStr.contains]. destruct (Ascii.eqb OsPath.sep c) eqn:E; [discriminate|].
  apply Ascii.eqb_neq in E. intros Hx Hrest [|n]; rewrite append_cons.
  - cbn [PyStr.drop String.prefix]. destruct (ascii_dec "/" c) as [e|]; [exfalso; exact (E e) | reflexivity].
  - cbn [PyStr.drop]. now apply IH.
Qed.

Lemma drop_nil n : PyStr.drop n "" = "".
Proof. destruct n; reflexivity. Qed.

Lemma startswith_dot_slash_name m rest :
  good_name m = true -> (rest = "" \/ exists r, rest = String OsPath.sep r) ->
  PyStr.startswith (m +:+ rest) "./" = false.
Proof.
  intros Hm Hrest. pose proof (good_name_parts m Hm) as (_ & Hdot & _).
  apply good_name_first in Hm as (c & m' & -> & Hc & Hm').
  unfold PyStr.startswith. rewrite append_cons. cbn [String.prefix].
  destruct (ascii_dec "." c) as [<-|]; [|reflexivity].
  destruct m' as [|c2 m'].
  - now destruct Hdot.
  - rewrite append_cons. cbn [String.prefix].
    cbn [PyStr.contains] in Hm'. destruct (Ascii.eqb OsPath.sep c2) eqn:E; [discriminate|].
    apply Ascii.eqb_neq in E. destruct (ascii_dec "/" c2) as [e|]; [exfalso; exact (E e) | reflexivity].
Qed.

Lemma startswith_dot_slash_key l :
  Forall (fun n => good_name n = true) l -> PyStr.startswith (key_of l) "./" = false.
Proof.
  destruct 1 as [|x l Hx Hl]; [reflexivity|].
  rewrite key_of_cons. destruct l.
  - rewrite <- (append_nil_r x). apply startswith_dot_slash_name; auto.
  - apply startswith_dot_slash_name; eauto.
Qed.

Lemma key_of_dot_free l :
  Forall (fun n => good_name n = true) l ->
  forall n, String.prefix "/./" (PyStr.drop n (key_of l)) = false.
Proof.
  induction 1 as [|x l Hx Hl IH]; [intros n; now rewrite drop_nil|].
  pose proof (good_name_parts x Hx) as (_ & _ & Hsep).
  rewrite key_of_cons. destruct l as [|y l].
  - rewrite <- (append_nil_r x). apply dot_free_name; [assumption|].
    intros n. now rewrite drop_nil.
  - apply dot_free_name; [assumption|]. intros [|n].
    + cbn [PyStr.drop String.prefix]. destruct (ascii_dec "/" OsPath.sep); [|reflexivity].
      apply (startswith_dot_slash_key (y :: l) Hl).
    + cbn [PyStr.drop]. apply IH.
Qed.

Lemma normalize_key_of l :
  Forall (fun n => good_name n = true) l -> _normalize_path (key_of l) = key_of l.
Proof.
  intros Hl. unfold _normalize_path, PyStr.replace.
  rewrite replace_go_id by now apply key_of_dot_free.
  now rewrite startswith_dot_slash_key.
Qed.

Lemma normalize_root_name_of m :
  good_name m = true -> _normalize_path ("./" +:+ m) = m.
Proof.
  intros Hm. pose proof (good_name_parts m Hm) as (_ & _ & Hsep).
  unfold _normalize_path, PyStr.replace.
  rewrite replace_go_id.
  { change ("./" +:+ m) with (String "." (String "/" m)). now destruct m. }
  intros [|[|n]].
  - reflexivity.
  - cbn [PyStr.drop String.append String.prefix].
    change ("./" +:+ m) with (String "." (String "/" m)). cbn [PyStr.drop String.prefix].
    destruct (ascii_dec "/" "/"); [|reflexivity].
    rewrite <- (append_nil_r m). apply (startswith_dot_slash_name m ""); auto.
  - change ("./" +:+ m) with (String "." (String "/" m)). cbn [PyStr.drop].
    rewrite <- (append_nil_r m). apply dot_free_name; [assumption|].
    intros k. now rewrite drop_nil.
Qed.

(** The cache key of the file [m] of the directory [k]. *)
Lemma normalize_join k m :
  Forall (fun n => good_name n = true) k -> good_name m = true ->
  _normalize_path (FileSystem.join_parts [dir_of k; m]) = key_of (k ++ [m]).
Proof.
  intros Hk Hm. unfold FileSystem.join_parts, OsPath.join. cbn [fold_left].
  rewrite join2_dir_of by assumption. destruct k as [|x k].
  - now apply normalize_root_name_of.
  - apply normalize_key_of. apply Forall_app. split; [assumption | now constructor].
Qed.

Lemma good_name_app m sfx :
  good_name m = true -> PyStr.contains OsPath.sep sfx = false ->
  good_name (m +:+ sfx) = true.
Proof.
  intros Hm Hs. pose proof (good_name_parts m Hm) as (H1 & H2 & H3).
  unfold good_name. rewrite contains_app, H3, Hs.
  destruct m as [|c m]; [congruence|]. rewrite append_cons.
  destruct (String.eqb_spec (String c (m +:+ sfx)) "") as [E|_]; [discriminate|].
  destruct (String.eqb_spec (String c (m +:+ sfx)) ".") as [E|_]; [|reflexivity].
  injection E as -> E. destruct m; [now destruct H2 | discriminate].
Qed.

Lemma key_of_snoc_app k m sfx : key_of (k ++ [m]) +:+ sfx = key_of (k ++ [m +:+ sfx]).
Proof.
  rewrite !key_of_snoc. destruct k; [reflexivity|].
  now rewrite append_assoc, append_cons.
Qed.

(** The disk key of the file [m ++ sfx] of the directory [k]. *)
Lemma resolve_join k m sfx :
  Forall (fun n => good_name n = true) k -> good_name m = true ->
  PyStr.contains OsPath.sep sfx = false ->
  OsPath.resolve (FileSystem.join_parts [dir_of k; m] +:+ sfx) = k ++ [m +:+ sfx].
Proof.
  intros Hk Hm Hs. unfold FileSystem.join_parts, OsPath.join. cbn [fold_left].
  rewrite join2_dir_of by assumption.
  pose proof (good_name_app m sfx Hm Hs) as Hms. destruct k as [|x k].
  - rewrite append_assoc. change ("./" +:+ m +:+ sfx) with ("." +:+ String OsPath.sep (m +:+ sfx)).
    unfold OsPath.resolve. rewrite split_app by reflexivity. cbn [List.filter].
    change (negb (String.eqb "." "") && negb (String.eqb "." ".")) with false. cbn iota.
    apply (resolve_key_of [m +:+ sfx]). now constructor.
  - rewrite key_of_snoc_app. apply resolve_key_of.
    apply Forall_app. split; [assumption | now constructor].
Qed.

Lemma resolve_key_app k m sfx :
  Forall (fun n => good_name n = true) k -> good_name m = true ->
  PyStr.contains OsPath.sep sfx = false ->
  OsPath.resolve (_normalize_path (key_of (k ++ [m]) +:+ sfx)) = k ++ [m +:+ sfx].
Proof.
  intros Hk Hm Hs. rewrite key_of_snoc_app.
  assert (Hl : Forall (fun n => good_name n = true) (k ++ [m +:+ sfx])).
  { apply Forall_app. split; [assumption|]. constructor; [|constructor].
    now apply good_name_app. }
  rewrite normalize_key_of by assumption. now apply resolve_key_of.
Qed.

(** ** Loops *)

Lemma for_each_inv {A S} (body : A -> S -> res S) (P : S -> Prop) l s s' :
  (forall x s1 s2, x ∈ l -> P s1 -> body x s1 = Ok s2 -> P s2) ->
  P s -> for_each body l s = Ok s' -> P s'.
Proof.
  revert s. induction l as [|x l IH]; intros s Hbody Hs H.
  - injection H as <-. exact Hs.
  - cbn [for_each] in H. apply bind_ok in H as (s1 & H1 & H2).
    apply (IH s1); [|eapply Hbody; eauto; apply list_elem_of_here|exact H2].
    intros y t1 t2 Hy. apply Hbody. now apply list_elem_of_further.
Qed.

Lemma for_each_app {A S} (body : A -> S -> res S) l1 l2 s :
  for_each body (l1 ++ l2) s = (for_each body l1 s ≫= for_each body l2).
Proof.
  revert s. induction l1 as [|x l1 IH]; intros s; [reflexivity|].
  cbn [for_each app]. destruct (body x s) as [s1|e]; [apply IH | reflexivity].
Qed.

(** ** The disk *)

Lemma child_name_spec k k' n :
  FileSystem.child_name k k' = Some n <-> k' = k ++ [n].
Proof.
  revert k'. induction k as [|x k IH]; intros k'.
  - destruct k' as [|y [|z k']]; cbn; split; congruence.
  - destruct k' as [|y k']; cbn; [split; congruence|].
    destruct (decide (x = y)) as [->|Hne].
    + rewrite IH. split; congruence.
    + split; congruence.
Qed.

Lemma elem_of_children {V} (d : gmap (list string) V) k n e :
  (n, e) ∈ FileSystem.children d k <-> d !! (k ++ [n]) = Some e.
Proof.
  unfold FileSystem.children. rewrite list_elem_of_omap. split.
  - intros ([k' e'] & Hin & Hf). apply elem_of_map_to_list in Hin.
    cbn in Hf. destruct (FileSystem.child_name k k') as [n'|] eqn:E; [|discriminate].
    cbn in Hf. injection Hf as -> ->. apply child_name_spec in E as ->. exact Hin.
  - intros H. exists (k ++ [n], e). split; [now apply elem_of_map_to_list|].
    cbn. now rewrite (proj2 (child_name_spec k (k ++ [n]) n) eq_refl).
Qed.

Lemma children_nil {V} (d : gmap (list string) V) k :
  FileSystem.children d k = [] <-> forall n, d !! (k ++ [n]) = None.
Proof.
  split.
  - intros H n. destruct (d !! (k ++ [n])) as [e|] eqn:E; [|reflexivity].
    apply elem_of_children in E. rewrite H in E. now apply not_elem_of_nil in E.
  - intros H. destruct (FileSystem.children d k) as [|[n e] l] eqn:E; [reflexivity|].
    assert (Hin : (n, e) ∈ FileSystem.children d k) by (rewrite E; apply list_elem_of_here).
    apply elem_of_children in Hin. now rewrite H in Hin.
Qed.

Lemma lookup_entry_cons (d : disk) (x : string) (k : list string) :
  FileSystem.lookup_entry d (x :: k) = d !! (x :: k).
Proof. reflexivity. Qed.

Lemma lookup_entry_snoc (d : disk) (k : list string) (n : string) :
  FileSystem.lookup_entry d (k ++ [n]) = d !! (k ++ [n]).
Proof. destruct k; reflexivity. Qed.

Lemma ancestors_shorter (key a : list string) :
  a ∈ FileSystem.ancestors key -> List.length a < List.length key /\ exists n, a = take n key.
Proof.
  unfold FileSystem.ancestors. rewrite list_elem_of_In, List.in_map_iff.
  intros (n & <- & Hn%List.in_seq). split; [|eauto].
  rewrite length_take. lia.
Qed.

Lemma makedirs_lookup (key : list string) (d d1 : disk) :
  FileSystem.makedirs key d = Ok d1 ->
  forall K, List.length key <= List.length K -> d1 !! K = d !! K.
Proof.
  unfold FileSystem.makedirs.
  apply (for_each_inv _ (fun d1 => forall K, List.length key <= List.length K -> d1 !! K = d !! K));
    [|reflexivity].
  intros a s1 s2 [Ha _]%ancestors_shorter Hs1 Hbody K HK.
  destruct (s1 !! a) as [[c|]|]; try discriminate; injection Hbody as <-; auto.
  rewrite lookup_insert_ne; [auto|]. intros ->. lia.
Qed.

Lemma makedirs_good (key : list string) (d d1 : disk) :
  Forall (fun n => good_name n = true) key -> good_disk d ->
  FileSystem.makedirs key d = Ok d1 -> good_disk d1.
Proof.
  intros Hkey. unfold FileSystem.makedirs.
  apply (for_each_inv _ (fun d1 : disk => good_disk d1)).
  intros a s1 s2 [_ (n & ->)]%ancestors_shorter Hs1 Hbody.
  destruct (s1 !! take n key) as [[c|]|]; try discriminate; injection Hbody as <-; auto.
  intros K e. rewrite lookup_insert. case_decide as E.
  - intros _. subst K. now apply Forall_take.
  - apply Hs1.
Qed.

(** What [add_file] does to the disk. *)
Lemma add_file_spec (parts : list string) (body : res content) (d d' : disk) :
  FileSystem.add_file parts body d = Ok d' ->
  exists c, body = Ok c /\
    d' !! OsPath.resolve (_normalize_path (FileSystem.join_parts parts)) = Some (EFile c) /\
    forall K,
      K <> OsPath.resolve (_normalize_path (FileSystem.join_parts parts)) ->
      List.length (OsPath.resolve (_normalize_path (FileSystem.join_parts parts)))
      <= List.length K ->
      d' !! K = d !! K.
Proof.
  unfold FileSystem.add_file.
  set (key := OsPath.resolve (_normalize_path (FileSystem.join_parts parts))).
  intros H. apply bind_ok in H as (d1 & Hmk & H).
  destruct (FileSystem.lookup_entry d1 key) as [[c0|]|]; try discriminate;
    apply bind_ok in H as (c & Hc & H); injection H as <-; exists c;
    (split; [exact Hc|]); (split; [apply lookup_insert_eq|]);
    intros K HK Hlen; rewrite lookup_insert_ne by congruence;
    eapply makedirs_lookup; eauto.
Qed.

Lemma add_file_good (parts : list string) (body : res content) (d d' : disk) :
  Forall (fun n => good_name n = true)
         (OsPath.resolve (_normalize_path (FileSystem.join_parts parts))) ->
  good_disk d -> FileSystem.add_file parts body d = Ok d' -> good_disk d'.
Proof.
  unfold FileSystem.add_file. intros Hkey Hd H.
  apply bind_ok in H as (d1 & Hmk & H).
  pose proof (makedirs_good _ _ _ Hkey Hd Hmk) as Hd1.
  destruct (FileSystem.lookup_entry d1 _) as [[c0|]|]; try discriminate;
    apply bind_ok in H as (c & Hc & H); injection H as <-;
    intros K e; rewrite lookup_insert; case_decide; try (intros _; congruence); apply Hd1.
Qed.

(** What [rm] does to the disk. *)
Lemma rm_spec (path : string) (d d' : disk) :
  FileSystem.rm path d = Ok d' ->
  FileSystem.lookup_entry d (OsPath.resolve path) <> Some EDir /\
  d' = delete (OsPath.resolve path) d.
Proof.
  unfold FileSystem.rm.
  destruct (FileSystem.lookup_entry d (OsPath.resolve path)) as [[c|]|] eqn:E;
    intros H; try discriminate; injection H as <-; (split; [congruence|]); [reflexivity|].
  destruct (OsPath.resolve path); [discriminate|].
  symmetry. now apply delete_id.
Qed.

Lemma rm_ok (path : string) (d : disk) :
  FileSystem.lookup_entry d (OsPath.resolve path) <> Some EDir ->
  FileSystem.rm path d = Ok (delete (OsPath.resolve path) d).
Proof.
  unfold FileSystem.rm. intros H.
  destruct (FileSystem.lookup_entry d (OsPath.resolve path)) as [[c|]|] eqn:E;
    try congruence.
  destruct (OsPath.resolve path); [discriminate|]. f_equal.
  symmetry. now apply delete_id.
Qed.

Lemma good_disk_delete {V} (d : gmap (list string) V) K :
  good_disk d -> good_disk (delete K d).
Proof.
  intros Hd K' e. rewrite lookup_delete. case_decide; [discriminate | apply Hd].
Qed.

(** The names of a listing are names. *)
Lemma children_good {V} (d : gmap (list string) V) k n e :
  good_disk d -> (n, e) ∈ FileSystem.children d k -> good_name n = true.
Proof.
  intros Hd Hin%elem_of_children. apply Hd in Hin.
  apply Forall_app in Hin as [_ Hn]. now apply Forall_inv in Hn.
Qed.

(** ** Removing records and pruning directories *)


Lemma stats_suffix_no_sep : PyStr.contains OsPath.sep ".stats.yaml" = false.
Proof. reflexivity. Qed.

(** The disk key of the stats file of [m] in the directory [k]. *)
Lemma stats_key (k : list string) (m : string) :
  good_names k -> good_name m = true ->
  OsPath.resolve (FileSystem.join_parts [dir_of k; m] +:+ ".stats.yaml")
  = k ++ [m +:+ ".stats.yaml"].
Proof. intros Hk Hm. apply resolve_join; auto using stats_suffix_no_sep. Qed.

(** [_remove_stats_file] deletes the stats file, and files [None] in the
    cache under the path as it was given. *)
Lemma remove_stats_file_ok (k : list string) (m : string) (st : store) :
  good_names k -> good_name m = true ->
  st_disk st !! (k ++ [m +:+ ".stats.yaml"]) <> Some EDir ->
  StatsUpdater._remove_stats_file [dir_of k; m] st
  = Ok (mkStore (delete (k ++ [m +:+ ".stats.yaml"]) (st_disk st))
                (<[FileSystem.join_parts [dir_of k; m] := CacheNone]> (st_cache st))).
Proof.
  intros Hk Hm Hd.
  unfold StatsUpdater._remove_stats_file, CachedStatsFSAdapter.rm, StatsFSAdapter.rm.
  rewrite rm_ok; rewrite stats_key by assumption; [reflexivity|].
  now rewrite lookup_entry_snoc.
Qed.

Lemma remove_stats_file_spec (k : list string) (m : string) (st st' : store) :
  good_names k -> good_name m = true ->
  StatsUpdater._remove_stats_file [dir_of k; m] st = Ok st' ->
  st_disk st' = delete (k ++ [m +:+ ".stats.yaml"]) (st_disk st) /\
  st_cache st' = <[FileSystem.join_parts [dir_of k; m] := CacheNone]> (st_cache st).
Proof.
  intros Hk Hm.
  unfold StatsUpdater._remove_stats_file, CachedStatsFSAdapter.rm, StatsFSAdapter.rm.
  intros H. apply bind_ok in H as (d & Hrm & H). injection H as <-.
  apply rm_spec in Hrm as [_ ->]. rewrite stats_key by assumption. auto.
Qed.

(** (a) A directory without FileRecords loses its three [TOTAL*] records. *)
Lemma aggregate_dir_removes_totals (u : updater) (k : list string) (st : store) :
  good_names k ->
  StatsUpdater._py_stats_files [dir_of k] st = Ok [] ->
  (forall name, name ∈ StatsUpdater.total_names ->
                st_disk st !! (k ++ [name +:+ ".stats.yaml"]) <> Some EDir) ->
  exists st',
    StatsUpdater._aggregate_dir u (dir_of k) st = Ok st' /\
    forall name, name ∈ StatsUpdater.total_names ->
                 st_disk st' !! (k ++ [name +:+ ".stats.yaml"]) = None.
Proof.
  intros Hk Hls Hnd. unfold StatsUpdater._aggregate_dir. rewrite Hls.
  cbn [mbind res_bind for_each]. unfold StatsUpdater.total_names in *.
  cbn [for_each].
  rewrite remove_stats_file_ok; [|assumption|reflexivity|apply Hnd; set_solver].
  cbn [mbind res_bind].
  rewrite remove_stats_file_ok; [|assumption|reflexivity|].
  2:{ cbn [st_disk]. rewrite lookup_delete. case_decide; [discriminate|].
      apply Hnd; set_solver. }
  cbn [mbind res_bind].
  rewrite remove_stats_file_ok; [|assumption|reflexivity|].
  2:{ cbn [st_disk]. rewrite !lookup_delete. repeat case_decide; try discriminate.
      apply Hnd; set_solver. }
  cbn [mbind res_bind]. eexists. split; [reflexivity|].
  intros name Hname. cbn [st_disk]. rewrite !lookup_delete.
  repeat case_decide; try reflexivity.
  exfalso. repeat (apply elem_of_cons in Hname as [->|Hname]; [congruence|]).
  now apply not_elem_of_nil in Hname.
Qed.

(** (b) What the inner loop of [_aggregate_subtree] collects. *)
Lemma load_subtotal_collects (paths : list (list string)) (ss ss' : list series)
    (found found' : list (list string)) (st st' : store) :
  for_each StatsUpdater.load_subtotal paths (ss, found, st) = Ok (ss', found', st') ->
  exists loaded : list (series * list string),
    ss' = ss ++ loaded.*1 /\ found' = rev (loaded.*2) ++ found.
Proof.
  revert ss found st. induction paths as [|p paths IH]; intros ss found st; cbn [for_each].
  - intros [= <- <- <-]. exists []. cbn. now rewrite app_nil_r.
  - intros H. apply bind_ok in H as ([[ss1 found1] st1] & H1 & H).
    apply IH in H as (loaded & -> & ->).
    unfold StatsUpdater.load_subtotal in H1. cbn [fst snd] in H1.
    apply bind_ok in H1 as ([v st2] & _ & H1). destruct v as [s|].
    + injection H1 as <- <- <-. exists ((s, StatsUpdater.middle p) :: loaded).
      cbn. now rewrite <- !app_assoc.
    + injection H1 as <- <- <-. now exists loaded.
Qed.

Lemma load_subtotal_nothing (paths : list (list string)) (ss' : list series)
    (found found' : list (list string)) (st st' : store) :
  for_each StatsUpdater.load_subtotal paths ([], found, st) = Ok (ss', found', st') ->
  ss' = [] -> found' = found.
Proof.
  intros (loaded & -> & ->)%load_subtotal_collects E.
  destruct loaded; [reflexivity | discriminate].
Qed.

(** A turn of the loop of [_aggregate_subtree] in which nothing loads: the
    sum is the integer [0], nothing is stored, and the [SUBTREE_*] record
    is removed if the listing names it. *)
Lemma aggregate_subtree_name_empty (k : list string) (subdirs existing : list string)
    (name : string) (found found' : list (list string)) (st st1 : store)
    (r : list (list string) * store) :
  good_names k -> good_name ("SUBTREE_" +:+ name) = true ->
  for_each StatsUpdater.load_subtotal
    (List.map (fun d => [dir_of k; d; "SUBTREE_" +:+ name]) subdirs ++ [[dir_of k; name]])
    ([], found, st) = Ok ([], found', st1) ->
  StatsUpdater.aggregate_subtree_name (dir_of k) subdirs existing name (found, st) = Ok r ->
  r.1 = found /\
  st_disk r.2
  = (if bool_decide (("SUBTREE_" +:+ name) ∈ existing)
     then delete (k ++ [("SUBTREE_" +:+ name) +:+ ".stats.yaml"]) (st_disk st1)
     else st_disk st1).
Proof.
  intros Hk Hn Hload. unfold StatsUpdater.aggregate_subtree_name.
  cbn [fst snd]. rewrite Hload. cbn [mbind res_bind]. cbn [py_sum fold_left].
  apply load_subtotal_nothing in Hload as ->; [|reflexivity].
  case_bool_decide as Hex.
  - intros Hr. apply bind_ok in Hr as (st2 & Hrm & Hr). injection Hr as <-.
    cbn [fst snd]. apply remove_stats_file_spec in Hrm as [-> _]; auto.
  - intros [= <-]. auto.
Qed.

(** (c) Pruning. *)

Lemma rmdir_spec (k : list string) (s : string) (d : disk) :
  good_names k -> good_name s = true ->
  FileSystem.rmdir (FileSystem.join_parts [dir_of k; s]) d
  = match d !! (k ++ [s]), FileSystem.children d (k ++ [s]) with
    | Some EDir, [] => delete (k ++ [s]) d
    | _, _ => d
    end.
Proof.
  intros Hk Hs. unfold FileSystem.rmdir.
  rewrite <- (append_nil_r (FileSystem.join_parts [dir_of k; s])).
  rewrite resolve_join by (auto; reflexivity). rewrite append_nil_r.
  destruct (k ++ [s]) as [|x l] eqn:E; [now destruct k|].
  destruct (d !! (x :: l)) as [[c|]|]; reflexivity.
Qed.

Lemma snoc_ne_length (k K : list string) (t : string) :
  List.length K <> S (List.length k) -> K <> k ++ [t].
Proof. intros H ->. rewrite length_app in H. cbn in H. lia. Qed.

Lemma children_delete_sibling (d : disk) (k : list string) (s t : string) :
  FileSystem.children (delete (k ++ [t]) d) (k ++ [s]) = []
  <-> FileSystem.children d (k ++ [s]) = [].
Proof.
  rewrite !children_nil. split; intros H n; specialize (H n).
  - rewrite lookup_delete_ne in H; [exact H|].
    apply not_eq_sym, snoc_ne_length. rewrite !length_app. cbn. lia.
  - rewrite lookup_delete_ne; [exact H|].
    apply not_eq_sym, snoc_ne_length. rewrite !length_app. cbn. lia.
Qed.

(** One step of the pruning loop. *)
Lemma prune_step (k : list string) (found : list (list string)) (t : string) (st : store) :
  good_names k -> good_name t = true ->
  st_disk (if bool_decide ([t] ∈ found) then st
           else StatsUpdater._remove_stats_dir [dir_of k; t] st)
  = if bool_decide (([t] ∉ found) /\ st_disk st !! (k ++ [t]) = Some EDir
                    /\ FileSystem.children (st_disk st) (k ++ [t]) = [])
    then delete (k ++ [t]) (st_disk st) else st_disk st.
Proof.
  intros Hk Ht. case_bool_decide as Hf.
  - rewrite bool_decide_eq_false_2; [reflexivity|]. intros [Hn _]. now apply Hn.
  - unfold StatsUpdater._remove_stats_dir. cbn [st_disk].
    rewrite rmdir_spec by assumption.
    destruct (st_disk st !! (k ++ [t])) as [[c|]|] eqn:E.
    + rewrite bool_decide_eq_false_2; [reflexivity|]. intros (_ & ? & _); discriminate.
    + destruct (FileSystem.children (st_disk st) (k ++ [t])) eqn:Ec.
      * rewrite bool_decide_eq_true_2; auto.
      * rewrite bool_decide_eq_false_2; [reflexivity|]. intros (_ & _ & ?); discriminate.
    + rewrite bool_decide_eq_false_2; [reflexivity|]. intros (_ & ? & _); discriminate.
Qed.

(** After the pruning loop: an empty subdirectory that contributed nothing
    is gone, everything else is where it was. *)
Lemma prune_subdirs_spec (k : list string) (found : list (list string))
    (subdirs : list string) (st : store) :
  good_names k -> good_names subdirs ->
  let d := st_disk st in
  let d' := st_disk (StatsUpdater.prune_subdirs (dir_of k) found subdirs st) in
  (forall K, d' !! K = d !! K \/ d' !! K = None /\ exists t, K = k ++ [t]) /\
  (forall s, s ∈ subdirs -> [s] ∉ found -> d !! (k ++ [s]) = Some EDir ->
             FileSystem.children d (k ++ [s]) = [] -> d' !! (k ++ [s]) = None) /\
  (forall s, FileSystem.children d (k ++ [s]) <> [] -> d' !! (k ++ [s]) = d !! (k ++ [s])) /\
  (forall s, [s] ∈ found -> d' !! (k ++ [s]) = d !! (k ++ [s])).
Proof.
  intros Hk Hsub. unfold StatsUpdater.prune_subdirs. revert st.
  induction Hsub as [|t subdirs Ht Hsub IH]; intros st; cbn [fold_left].
  - repeat split; auto. intros s Hs. now apply not_elem_of_nil in Hs.
  - set (st1 := if bool_decide ([t] ∈ found) then st
                else StatsUpdater._remove_stats_dir [dir_of k; t] st).
    destruct (IH st1) as (I1 & I2 & I3 & I4). clear IH.
    pose proof (prune_step k found t st Hk Ht) as Hstep. fold st1 in Hstep.
    set (d1 := st_disk st1) in *. set (d := st_disk st) in *.
    set (d' := st_disk (fold_left _ subdirs st1)) in *.
    assert (Hd1 : forall K, K <> k ++ [t] -> d1 !! K = d !! K).
    { intros K HK. rewrite Hstep. case_bool_decide; [|reflexivity].
      now rewrite lookup_delete_ne. }
    assert (Hc1 : forall s, FileSystem.children d1 (k ++ [s]) = []
                            <-> FileSystem.children d (k ++ [s]) = []).
    { intros s. rewrite Hstep. case_bool_decide; [|reflexivity].
      apply children_delete_sibling. }
    repeat split.
    + intros K. destruct (I1 K) as [E|E]; [|now right]. rewrite E, Hstep.
      case_bool_decide; [|now left]. rewrite lookup_delete. case_decide; eauto.
    + intros s Hs Hf Hdir Hch. destruct (decide (s = t)) as [->|Hne].
      * assert (E : d1 !! (k ++ [t]) = None).
        { rewrite Hstep. rewrite bool_decide_eq_true_2 by auto. apply lookup_delete_eq. }
        destruct (I1 (k ++ [t])) as [E'|[E' _]]; congruence.
      * apply elem_of_cons in Hs as [->|Hs]; [congruence|].
        apply I2; auto.
        -- rewrite Hd1; [exact Hdir|]. intros E%app_inj_tail. now destruct E.
        -- now apply Hc1.
    + intros s Hch. rewrite I3 by (rewrite Hc1; exact Hch).
      rewrite Hstep. case_bool_decide as Hc; [|reflexivity].
      rewrite lookup_delete_ne; [reflexivity|].
      intros E%app_inj_tail. destruct E as [_ <-], Hc as (_ & _ & Hc). contradiction.
    + intros s Hf. rewrite I4 by assumption.
      rewrite Hstep. case_bool_decide as Hc; [|reflexivity].
      rewrite lookup_delete_ne; [reflexivity|].
      intros E%app_inj_tail. destruct E as [_ <-], Hc as (Hc & _). contradiction.
Qed.

(** The listing of the subdirectories of [k]. *)
Lemma ls_dirs_spec (k : list string) (d : disk) (l : list string) (s : string) :
  good_names k ->
  FileSystem.ls_dirs (dir_of k) d = Ok l ->
  s ∈ l <-> d !! (k ++ [s]) = Some EDir /\ PyStr.startswith s "." = false.
Proof.
  intros Hk. unfold FileSystem.ls_dirs, FileSystem.scandir.
  rewrite resolve_dir_of by assumption.
  destruct (FileSystem.lookup_entry d k) as [[c|]|]; try discriminate.
  cbn [mbind res_bind]. intros [= <-].
  rewrite list_elem_of_fmap. split.
  - intros ([n e] & -> & Hin). apply list_elem_of_In, List.filter_In in Hin as [Hin Hf].
    apply list_elem_of_In, elem_of_children in Hin.
    apply andb_prop in Hf as [He Hs]. apply bool_decide_eq_true in He. cbn in *.
    subst e. split; [exact Hin|]. now apply negb_true_iff in Hs.
  - intros [Hd Hs]. exists (s, EDir). split; [reflexivity|].
    apply list_elem_of_In, List.filter_In. split.
    + now apply list_elem_of_In, elem_of_children.
    + cbn [fst snd]. rewrite Hs. now rewrite bool_decide_eq_true_2.
Qed.

Lemma ls_dirs_ok (k : list string) (d : disk) :
  good_names k ->
  is_ok (FileSystem.ls_dirs (dir_of k) d) = bool_decide (FileSystem.lookup_entry d k = Some EDir).
Proof.
  intros Hk. unfold FileSystem.ls_dirs, FileSystem.scandir.
  rewrite resolve_dir_of by assumption.
  destruct (FileSystem.lookup_entry d k) as [[c|]|]; reflexivity.
Qed.

(** The listing after the pruning loop. *)
Lemma prune_listing (k : list string) (found : list (list string))
    (subdirs l : list string) (st : store) :
  good_names k -> good_names subdirs ->
  FileSystem.ls_dirs (dir_of k) (st_disk st) = Ok l ->
  exists l',
    FileSystem.ls_dirs (dir_of k)
      (st_disk (StatsUpdater.prune_subdirs (dir_of k) found subdirs st)) = Ok l' /\
    l' ⊆ l /\
    forall s, s ∈ subdirs -> s ∈ l -> [s] ∉ found ->
              (s ∈ l' <-> FileSystem.children (st_disk st) (k ++ [s]) <> []).
Proof.
  intros Hk Hsub Hl.
  destruct (prune_subdirs_spec k found subdirs st Hk Hsub) as (P1 & P2 & P3 & _).
  set (d' := st_disk (StatsUpdater.prune_subdirs (dir_of k) found subdirs st)) in *.
  assert (Hok : is_ok (FileSystem.ls_dirs (dir_of k) d') = true).
  { rewrite ls_dirs_ok by assumption.
    assert (E : is_ok (FileSystem.ls_dirs (dir_of k) (st_disk st)) = true) by now rewrite Hl.
    rewrite ls_dirs_ok in E by assumption. apply bool_decide_eq_true in E.
    apply bool_decide_eq_true. destruct k as [|x k']; [reflexivity|].
    cbn [FileSystem.lookup_entry] in *. destruct (P1 (x :: k')) as [->|[_ [t Ht]]]; [exact E|].
    exfalso. eapply snoc_ne_length; [|exact Ht]. lia. }
  destruct (FileSystem.ls_dirs (dir_of k) d') as [l'|] eqn:Hl'; [|discriminate].
  exists l'. split; [reflexivity|]. split.
  - intros s Hs. rewrite (ls_dirs_spec k d' l' s Hk Hl') in Hs.
    rewrite (ls_dirs_spec k _ l s Hk Hl). destruct Hs as [Hd Hs]. split; [|exact Hs].
    destruct (P1 (k ++ [s])) as [E|[E _]]; congruence.
  - intros s Hs Hin Hf. rewrite (ls_dirs_spec k d' l' s Hk Hl').
    rewrite (ls_dirs_spec k _ l s Hk Hl) in Hin. destruct Hin as [Hd Hdot].
    split.
    + intros [Hd' _] Hch. rewrite (P2 s) in Hd' by assumption. discriminate.
    + intros Hch. rewrite (P3 s Hch). auto.
Qed.

Lemma load_stats_disk (p : list string) (st st' : store) (v : option series) :
  StatsUpdater._load_stats p st = Ok (v, st') -> st_disk st' = st_disk st.
Proof.
  unfold StatsUpdater._load_stats, CachedStatsFSAdapter.get.
  destruct (st_cache st !! _) as [[|w]|].
  - now intros [= <- <-].
  - now intros [= <- <-].
  - intros H. apply bind_ok in H as (w & _ & H). now injection H as <- <-.
Qed.

Lemma load_subtotal_disk (paths : list (list string)) (ss ss' : list series)
    (found found' : list (list string)) (st st' : store) :
  for_each StatsUpdater.load_subtotal paths (ss, found, st) = Ok (ss', found', st') ->
  st_disk st' = st_disk st.
Proof.
  revert ss found st. induction paths as [|p paths IH]; intros ss found st; cbn [for_each].
  - now intros [= <- <- <-].
  - intros H. apply bind_ok in H as ([[ss1 found1] st1] & H1 & H).
    apply IH in H as ->.
    unfold StatsUpdater.load_subtotal in H1. cbn [fst snd] in H1.
    apply bind_ok in H1 as ([v st2] & Hl & H1). apply load_stats_disk in Hl.
    destruct v; injection H1 as <- <- <-; exact Hl.
Qed.

Lemma good_subtree_name (name : string) :
  name ∈ StatsUpdater.total_names -> good_name ("SUBTREE_" +:+ name) = true.
Proof.
  unfold StatsUpdater.total_names. rewrite !elem_of_cons, elem_of_nil.
  intros [->|[->|[->|[]]]]; reflexivity.
Qed.

(** The steps of the pruning. For a directory [k] of the store:
    - when the listing of [k] has no record of a [*.py] file,
      [_aggregate_dir] returns and leaves none of [TOTAL], [TOTAL_TEST],
      [TOTAL_NON_TEST] on disk;
    - the sum of no contributions is the integer [0], never an error; in a
      turn of [_aggregate_subtree] in which nothing loads, nothing is
      stored, and the [SUBTREE_*] record is removed if the listing named it;
    - the pruning loop removes a listed subdirectory that contributed no
      data exactly when that subdirectory is empty: one that still holds
      an entry stays in the listing, and nothing new is listed. *)
Lemma pruning_of_a_directory_without_records (u : updater) (k : list string) :
  good_names k ->
  (forall st,
     StatsUpdater._py_stats_files [dir_of k] st = Ok [] ->
     Forall (fun name => st_disk st !! (k ++ [name +:+ ".stats.yaml"]) <> Some EDir)
            StatsUpdater.total_names ->
     exists st',
       StatsUpdater._aggregate_dir u (dir_of k) st = Ok st' /\
       Forall (fun name => st_disk st' !! (k ++ [name +:+ ".stats.yaml"]) = None)
              StatsUpdater.total_names) /\
  py_sum [] = SumInt0 /\
  (forall subdirs existing name found found' st st1,
     name ∈ StatsUpdater.total_names ->
     for_each StatsUpdater.load_subtotal
       (List.map (fun d => [dir_of k; d; "SUBTREE_" +:+ name]) subdirs ++ [[dir_of k; name]])
       ([], found, st) = Ok ([], found', st1) ->
     st_disk st !! (k ++ [("SUBTREE_" +:+ name) +:+ ".stats.yaml"]) <> Some EDir ->
     exists r,
       StatsUpdater.aggregate_subtree_name (dir_of k) subdirs existing name (found, st) = Ok r /\
       r.1 = found /\
       st_disk r.2
       = (if bool_decide (("SUBTREE_" +:+ name) ∈ existing)
          then delete (k ++ [("SUBTREE_" +:+ name) +:+ ".stats.yaml"]) (st_disk st)
          else st_disk st)) /\
  (forall found subdirs l st,
     good_names subdirs ->
     FileSystem.ls_dirs (dir_of k) (st_disk st) = Ok l ->
     exists l',
       FileSystem.ls_dirs (dir_of k)
         (st_disk (StatsUpdater.prune_subdirs (dir_of k) found subdirs st)) = Ok l' /\
       l' ⊆ l /\
       forall s, s ∈ subdirs -> s ∈ l -> [s] ∉ found ->
                 (s ∈ l' <-> FileSystem.children (st_disk st) (k ++ [s]) <> [])).
Proof.
  intros Hk. split; [|split; [reflexivity|split]].
  - intros st Hls Hdir. rewrite Forall_forall in Hdir.
    destruct (aggregate_dir_removes_totals u k st Hk Hls Hdir) as (st' & Hrun & Hgone).
    exists st'. split; [exact Hrun|]. now apply Forall_forall.
  - intros subdirs existing name found found' st st1 Hname Hload Hdir.
    pose proof (good_subtree_name name Hname) as Hgood.
    pose proof (load_subtotal_disk _ _ _ _ _ _ _ Hload) as Hdisk.
    assert (Hrun : is_ok (StatsUpdater.aggregate_subtree_name (dir_of k) subdirs existing
                            name (found, st)) = true).
    { unfold StatsUpdater.aggregate_subtree_name. cbn [fst snd]. rewrite Hload.
      cbn [mbind res_bind py_sum fold_left]. case_bool_decide; [|reflexivity].
      rewrite remove_stats_file_ok by (rewrite ?Hdisk; assumption). reflexivity. }
    destruct (StatsUpdater.aggregate_subtree_name _ _ _ _ _) as [r|] eqn:Hr; [|discriminate].
    exists r. split; [reflexivity|].
    rewrite <- Hdisk. eapply aggregate_subtree_name_empty; eauto.
  - intros found subdirs l st Hsub Hl. now apply prune_listing.
Qed.

(** The steps on the sample root: its three totals go, the turn for [TOTAL]
    removes [SUBTREE_TOTAL], and the pruning removes the empty [d] and
    keeps [e]. *)
Lemma pruning_of_a_directory_without_records_on_the_sample :
  (exists st',
     StatsUpdater._aggregate_dir updater_nothing "." (mkStore disk_emptied ∅) = Ok st' /\
     Forall (fun name => st_disk st' !! [name +:+ ".stats.yaml"] = None)
            StatsUpdater.total_names) /\
  (exists r,
     root_turn = Ok r /\ r.1 = [] /\
     st_disk r.2 = delete ["SUBTREE_TOTAL.stats.yaml"] disk_d_e) /\
  (exists l',
     FileSystem.ls_dirs "."
       (st_disk (StatsUpdater.prune_subdirs "." [] ["d"; "e"] (mkStore disk_d_e ∅))) = Ok l' /\
     ("d" ∉ l') /\ "e" ∈ l').
Proof.
  destruct (pruning_of_a_directory_without_records updater_nothing [])
    as (Htotals & _ & Hturn & Hprune); [constructor|].
  split; [|split].
  - apply (Htotals (mkStore disk_emptied ∅)); [vm_compute; reflexivity|].
    by_evaluation.
  - apply (Hturn ["d"; "e"] ["SUBTREE_TOTAL"] "TOTAL" [] []
             (mkStore disk_d_e ∅) (outcome ([], [], empty_store)
                (for_each StatsUpdater.load_subtotal
                   [["."; "d"; "SUBTREE_TOTAL"]; ["."; "e"; "SUBTREE_TOTAL"]; ["."; "TOTAL"]]
                   ([], [], mkStore disk_d_e ∅))).2).
    + by_evaluation.
    + vm_compute. reflexivity.
    + vm_compute. discriminate.
  - destruct (Hprune [] ["d"; "e"] (outcome [] (FileSystem.ls_dirs "." disk_d_e))
                (mkStore disk_d_e ∅)) as (l' & Hl' & _ & Hiff).
    + repeat constructor.
    + vm_compute. reflexivity.
    + exists l'. split; [exact Hl'|]. split.
      * intros Hd. apply Hiff in Hd.
        -- apply Hd. vm_compute. reflexivity.
        -- by_evaluation.
        -- by_evaluation.
        -- apply not_elem_of_nil.
      * apply Hiff.
        -- by_evaluation.
        -- by_evaluation.
        -- apply not_elem_of_nil.
        -- vm_compute. discriminate.
Defined.

(** A directory that is not empty is not pruned ([FileSystem.rmdir]
    ignores the error of [os.rmdir]). The store holds a directory [d] with
    one file that is no stats record. A full update of the tree with the
    single file [a.py] returns; [d] gave no data to any subtree sum, and
    it still is in the listing of the root. *)
Lemma directory_without_data_stays_listed :
  holds_after
    (StatsUpdater.update updater_a None None [] (mkStore disk_with_notes ∅))
    (fun r =>
       Forall (fun name => stored (st_disk r.2) ["d"] ("SUBTREE_" +:+ name) = None)
              StatsUpdater.total_names /\
       stored (st_disk r.2) [] "SUBTREE_TOTAL" = stored (st_disk r.2) [] "TOTAL" /\
       FileSystem.ls_dirs "." (st_disk r.2) = Ok ["d"]).
Proof. by_evaluation. Qed.

(** ** Suffixes of names *)

Lemma length_append (a b : string) :
  String.length (a +:+ b) = String.length a + String.length b.
Proof. induction a as [|c a IH]; [reflexivity|]. rewrite append_cons. cbn. now rewrite IH. Qed.

(** Two names that end alike: the shorter ending is an ending of the
    longer one. *)
Lemma append_suffix_inv (a b s t : string) :
  a +:+ s = b +:+ t -> String.length s <= String.length t ->
  exists c, t = c +:+ s /\ a = b +:+ c.
Proof.
  revert b. induction a as [|x a IH]; intros b E Hlen.
  - rewrite append_nil_l in E. subst s. rewrite length_append in Hlen.
    destruct b; [|cbn in Hlen; lia]. exists "". now rewrite !append_nil_l.
  - destruct b as [|y b].
    + rewrite append_nil_l in E. exists (String x a). now rewrite append_nil_l.
    + rewrite !append_cons in E. injection E as -> E.
      destruct (IH b E Hlen) as (c & -> & ->). exists c. now rewrite append_cons.
Qed.

Lemma append_cancel_r (a b s : string) : a +:+ s = b +:+ s -> a = b.
Proof.
  intros E. destruct (append_suffix_inv a b s s E) as (c & Hc & ->); [lia|].
  apply (f_equal String.length) in Hc. rewrite length_append in Hc.
  destruct c; [now rewrite append_nil_r | cbn in Hc; lia].
Qed.

(** A methods file is no stats file. *)
Lemma methods_is_no_stats (g m : string) :
  g +:+ ".methods.yaml" <> m +:+ ".stats.yaml".
Proof.
  intros E. symmetry in E.
  destruct (append_suffix_inv m g ".stats.yaml" ".methods.yaml" E) as (c & Hc & _);
    [cbn; lia|].
  assert (Hlen : String.length c = 2).
  { apply (f_equal String.length) in Hc. rewrite length_append in Hc. cbn in Hc. lia. }
  destruct c as [|c1 [|c2 [|c3 c]]]; try discriminate Hlen.
  rewrite !append_cons, append_nil_l in Hc. discriminate Hc.
Qed.

Lemma snoc_inj (k : list string) (a b : string) : k ++ [a] = k ++ [b] -> a = b.
Proof. intros E%app_inj_tail. now destruct E. Qed.

Lemma stats_key_inj (k : list string) (m m' : string) :
  k ++ [m +:+ ".stats.yaml"] = k ++ [m' +:+ ".stats.yaml"] -> m = m'.
Proof. intros E%snoc_inj. now apply append_cancel_r in E. Qed.

Lemma methods_key_ne (k : list string) (g m : string) :
  k ++ [(g +:+ ".methods.yaml") +:+ ""] <> k ++ [m +:+ ".stats.yaml"].
Proof. rewrite append_nil_r. intros E%snoc_inj. now apply methods_is_no_stats in E. Qed.

Lemma key_of_inj (l l' : list string) :
  good_names l -> good_names l' -> key_of l = key_of l' -> l = l'.
Proof.
  intros Hl Hl' E. apply (f_equal OsPath.resolve) in E.
  now rewrite !resolve_key_of in E.
Qed.

Lemma good_stats_name (m : string) :
  good_name m = true -> good_name (m +:+ ".stats.yaml") = true.
Proof. intros H. now apply good_name_app. Qed.

Lemma good_methods_name (m : string) :
  good_name m = true -> good_name (m +:+ ".methods.yaml") = true.
Proof. intros H. now apply good_name_app. Qed.

(** ** What [add_file] leaves alone *)

Lemma makedirs_frame (key : list string) (d d1 : disk) :
  FileSystem.makedirs key d = Ok d1 ->
  forall K, d1 !! K = d !! K \/ d !! K = None /\ d1 !! K = Some EDir.
Proof.
  unfold FileSystem.makedirs.
  apply (for_each_inv _ (fun d1 => forall K, d1 !! K = d !! K \/ d !! K = None /\ d1 !! K = Some EDir));
    [|now left].
  intros a s1 s2 _ IH Hstep K.
  destruct (s1 !! a) as [[c|]|] eqn:Ea; try discriminate.
  - injection Hstep as <-. apply IH.
  - injection Hstep as <-. destruct (decide (K = a)) as [->|Hne].
    + rewrite lookup_insert_eq. right. split; [|reflexivity].
      destruct (IH a) as [E|[E _]]; congruence.
    + rewrite lookup_insert_ne by congruence. apply IH.
Qed.

Lemma add_file_frame (parts : list string) (body : res content) (d d' : disk) :
  FileSystem.add_file parts body d = Ok d' ->
  forall K, K <> OsPath.resolve (_normalize_path (FileSystem.join_parts parts)) ->
            d' !! K = d !! K \/ d !! K = None /\ d' !! K = Some EDir.
Proof.
  unfold FileSystem.add_file.
  set (key := OsPath.resolve (_normalize_path (FileSystem.join_parts parts))).
  intros H K HK. apply bind_ok in H as (d1 & Hmk & H).
  assert (E : d' = <[key := match body with Ok c => EFile c | Raise _ => EDir end]> d1).
  { destruct (FileSystem.lookup_entry d1 key) as [[c|]|]; try discriminate;
      destruct body; try discriminate; now injection H as <-. }
  subst d'. rewrite lookup_insert_ne by congruence.
  now apply makedirs_frame with (K := K) in Hmk.
Qed.
(** ** The adapter on the records of a directory *)

Lemma good_names_snoc (k : list string) (m : string) :
  good_names k -> good_name m = true -> good_names (k ++ [m]).
Proof. intros Hk Hm. apply Forall_app. split; [exact Hk | now constructor]. Qed.

Lemma resolve_stats_key (k : list string) (m : string) :
  good_names k -> good_name m = true ->
  OsPath.resolve (key_of (k ++ [m]) +:+ ".stats.yaml") = k ++ [m +:+ ".stats.yaml"].
Proof.
  intros Hk Hm. rewrite key_of_snoc_app. apply resolve_key_of.
  apply good_names_snoc; [exact Hk | now apply good_stats_name].
Qed.

Lemma plain_get_at (k : list string) (m : string) (dflt : option series) (d : disk) :
  good_names k -> good_name m = true ->
  StatsFSAdapter.get (key_of (k ++ [m])) dflt d
  = match d !! (k ++ [m +:+ ".stats.yaml"]) with
    | Some (EFile c) => if content_truthy c then Some <$> read_stats_file c else Ok dflt
    | Some EDir => Raise OSError
    | None => Ok dflt
    end.
Proof.
  intros Hk Hm. unfold StatsFSAdapter.get, FileSystem.read.
  cbn [FileSystem.join_parts OsPath.join fold_left].
  rewrite resolve_stats_key, lookup_entry_snoc by assumption.
  destruct (d !! _) as [[c|]|]; reflexivity.
Qed.

Lemma load_stats_spec (k : list string) (m : string) (st st' : store) (v : option series) :
  good_names k -> good_name m = true ->
  StatsUpdater._load_stats [dir_of k; m] st = Ok (v, st') ->
  st_disk st' = st_disk st /\
  match st_cache st !! key_of (k ++ [m]) with
  | Some cv => v = cached cv /\ st' = st
  | None =>
      StatsFSAdapter.get (key_of (k ++ [m])) None (st_disk st) = Ok v /\
      st_cache st' = <[key_of (k ++ [m]) := Pickled v]> (st_cache st)
  end.
Proof.
  intros Hk Hm. unfold StatsUpdater._load_stats, CachedStatsFSAdapter.get.
  rewrite normalize_join by assumption.
  destruct (st_cache st !! key_of (k ++ [m])) as [[|w]|].
  - intros [= <- <-]. auto.
  - intros [= <- <-]. auto.
  - intros H. apply bind_ok in H as (w & Hget & H). injection H as <- <-. auto.
Qed.

Lemma store_stats_spec (k : list string) (m : string) (s : series) (st st' : store) :
  good_names k -> good_name m = true ->
  StatsUpdater._store_stats s [dir_of k; m] st = Ok st' ->
  st_cache st' = <[key_of (k ++ [m]) := Pickled (Some s)]> (st_cache st) /\
  st_disk st' !! (k ++ [m +:+ ".stats.yaml"]) = Some (EFile (CStats s)) /\
  forall K, K <> k ++ [m +:+ ".stats.yaml"] -> S (List.length k) <= List.length K ->
            st_disk st' !! K = st_disk st !! K.
Proof.
  intros Hk Hm. unfold StatsUpdater._store_stats, CachedStatsFSAdapter.set, StatsFSAdapter.set.
  rewrite normalize_join by assumption.
  intros H. apply bind_ok in H as (d' & Hadd & H). injection H as <-. cbn [st_disk st_cache].
  split; [reflexivity|].
  apply add_file_spec in Hadd as (c & Hc & Hnew & Hframe).
  cbn [FileSystem.join_parts OsPath.join fold_left] in Hnew, Hframe.
  rewrite resolve_key_app in Hnew, Hframe by (auto using stats_suffix_no_sep).
  unfold series_to_dict in Hc. destruct (has_nan s); [discriminate|]. injection Hc as <-.
  split; [exact Hnew|]. intros K HK Hlen. apply Hframe; [exact HK|].
  rewrite length_app. cbn. lia.
Qed.

Lemma store_stats_good (k : list string) (m : string) (s : series) (st st' : store) :
  good_names k -> good_name m = true -> good_disk (st_disk st) ->
  StatsUpdater._store_stats s [dir_of k; m] st = Ok st' -> good_disk (st_disk st').
Proof.
  intros Hk Hm Hd. unfold StatsUpdater._store_stats, CachedStatsFSAdapter.set, StatsFSAdapter.set.
  rewrite normalize_join by assumption.
  intros H. apply bind_ok in H as (d' & Hadd & H). injection H as <-. cbn [st_disk].
  eapply add_file_good; [|exact Hd|exact Hadd].
  cbn [FileSystem.join_parts OsPath.join fold_left].
  rewrite resolve_key_app by (auto using stats_suffix_no_sep).
  apply good_names_snoc; [exact Hk | now apply good_stats_name].
Qed.

Lemma methods_key (k : list string) (g : string) :
  good_names k -> good_name g = true ->
  OsPath.resolve (_normalize_path (FileSystem.join_parts [dir_of k; g +:+ ".methods.yaml"]))
  = k ++ [g +:+ ".methods.yaml"].
Proof.
  intros Hk Hg. pose proof (good_methods_name g Hg) as Hgm.
  rewrite normalize_join by assumption. apply resolve_key_of. now apply good_names_snoc.
Qed.

Lemma add_methods_spec (k : list string) (g : string) (c : content) (d d' : disk) :
  good_names k -> good_name g = true ->
  FileSystem.add_file [dir_of k; g +:+ ".methods.yaml"] (Ok c) d = Ok d' ->
  forall K, K <> k ++ [g +:+ ".methods.yaml"] -> S (List.length k) <= List.length K ->
            d' !! K = d !! K.
Proof.
  intros Hk Hg Hadd. apply add_file_spec in Hadd as (c' & _ & _ & Hframe).
  rewrite methods_key in Hframe by assumption.
  intros K HK Hlen. apply Hframe; [exact HK|]. rewrite length_app. cbn. lia.
Qed.

Lemma add_methods_good (k : list string) (g : string) (c : content) (d d' : disk) :
  good_names k -> good_name g = true -> good_disk d ->
  FileSystem.add_file [dir_of k; g +:+ ".methods.yaml"] (Ok c) d = Ok d' -> good_disk d'.
Proof.
  intros Hk Hg Hd Hadd. eapply add_file_good; [|exact Hd|exact Hadd].
  rewrite methods_key by assumption.
  apply good_names_snoc; [exact Hk | now apply good_methods_name].
Qed.

(** The path that [rm] puts in the cache is the path of the record
    itself only. *)
Lemma raw_path_key (k : list string) (g m : string) :
  good_names k -> good_name g = true -> good_name m = true ->
  FileSystem.join_parts [dir_of k; g] = key_of (k ++ [m]) -> g = m.
Proof.
  intros Hk Hg Hm E. apply (f_equal OsPath.resolve) in E.
  rewrite <- (append_nil_r (FileSystem.join_parts _)) in E.
  rewrite resolve_join in E by (auto; reflexivity).
  rewrite append_nil_r, resolve_key_of in E by now apply good_names_snoc.
  now apply snoc_inj in E.
Qed.

(** ** The directory of the records *)

Lemma store_keeps_dir (k : list string) (m : string) (s : series) (st st' : store) :
  good_names k -> good_name m = true ->
  StatsUpdater._store_stats s [dir_of k; m] st = Ok st' ->
  FileSystem.lookup_entry (st_disk st) k = Some EDir ->
  FileSystem.lookup_entry (st_disk st') k = Some EDir.
Proof.
  intros Hk Hm. unfold StatsUpdater._store_stats, CachedStatsFSAdapter.set, StatsFSAdapter.set.
  rewrite normalize_join by assumption.
  intros H. apply bind_ok in H as (d' & Hadd & H). injection H as <-. cbn [st_disk].
  destruct k as [|x k']; [reflexivity|]. cbn [FileSystem.lookup_entry].
  pose proof (add_file_frame _ _ _ _ Hadd (x :: k')) as Hframe.
  cbn [FileSystem.join_parts OsPath.join fold_left] in Hframe.
  rewrite resolve_key_app in Hframe by (auto using stats_suffix_no_sep).
  intros E. destruct Hframe as [->|[_ ->]]; auto.
  apply snoc_ne_length. lia.
Qed.

Lemma add_methods_keeps_dir (k : list string) (g : string) (c : content) (d d' : disk) :
  good_names k -> good_name g = true ->
  FileSystem.add_file [dir_of k; g +:+ ".methods.yaml"] (Ok c) d = Ok d' ->
  FileSystem.lookup_entry d k = Some EDir -> FileSystem.lookup_entry d' k = Some EDir.
Proof.
  intros Hk Hg Hadd. destruct k as [|x k']; [reflexivity|]. cbn [FileSystem.lookup_entry].
  pose proof (add_file_frame _ _ _ _ Hadd (x :: k')) as Hframe.
  rewrite methods_key in Hframe by assumption.
  intros E. destruct Hframe as [->|[_ ->]]; auto.
  apply snoc_ne_length. lia.
Qed.

Lemma remove_keeps_dir (k : list string) (g : string) (st st' : store) :
  good_names k -> good_name g = true ->
  StatsUpdater._remove_stats_file [dir_of k; g] st = Ok st' ->
  FileSystem.lookup_entry (st_disk st) k = Some EDir ->
  FileSystem.lookup_entry (st_disk st') k = Some EDir.
Proof.
  intros Hk Hg Hrm. apply remove_stats_file_spec in Hrm as [-> _]; [|assumption..].
  destruct k as [|x k']; [reflexivity|]. cbn [FileSystem.lookup_entry].
  intros E. rewrite lookup_delete_ne; [exact E|].
  apply not_eq_sym, snoc_ne_length. lia.
Qed.

(** ** Coherence of the cache is kept *)

Lemma plain_get_ext (k : list string) (m : string) (dflt : option series) (d d' : disk) :
  good_names k -> good_name m = true ->
  d' !! (k ++ [m +:+ ".stats.yaml"]) = d !! (k ++ [m +:+ ".stats.yaml"]) ->
  StatsFSAdapter.get (key_of (k ++ [m])) dflt d' = StatsFSAdapter.get (key_of (k ++ [m])) dflt d.
Proof. intros Hk Hm E. rewrite !plain_get_at by assumption. now rewrite E. Qed.

Lemma key_of_snoc_inj (k : list string) (m m' : string) :
  good_names k -> good_name m = true -> good_name m' = true ->
  key_of (k ++ [m]) = key_of (k ++ [m']) -> m = m'.
Proof.
  intros Hk Hm Hm' E. apply key_of_inj in E; [|now apply good_names_snoc..].
  now apply snoc_inj in E.
Qed.

Lemma coherent_load (k : list string) (m : string) (st st' : store) (v : option series) :
  good_names k -> good_name m = true -> coherent_dir k st ->
  StatsUpdater._load_stats [dir_of k; m] st = Ok (v, st') -> coherent_dir k st'.
Proof.
  intros Hk Hm Hco Hload. apply load_stats_spec in Hload as [Hd Hc]; [|assumption..].
  destruct (st_cache st !! key_of (k ++ [m])) as [cv|] eqn:E.
  - destruct Hc as [_ ->]. exact Hco.
  - destruct Hc as [Hget Hc]. intros m' c cv Hm' Hdisk Hcache.
    rewrite Hd in *. rewrite Hc in Hcache.
    destruct (decide (m' = m)) as [->|Hne].
    + rewrite lookup_insert_eq in Hcache. injection Hcache as <-. exact Hget.
    + rewrite lookup_insert_ne in Hcache; [now apply (Hco m' c)|].
      intros E'. apply key_of_snoc_inj in E'; auto.
Qed.

Lemma coherent_store (k : list string) (m : string) (s : series) (st st' : store) :
  good_names k -> good_name m = true -> coherent_dir k st ->
  StatsUpdater._store_stats s [dir_of k; m] st = Ok st' -> coherent_dir k st'.
Proof.
  intros Hk Hm Hco Hst. apply store_stats_spec in Hst as (Hc & Hnew & Hframe); [|assumption..].
  intros m' c cv Hm' Hdisk Hcache. rewrite Hc in Hcache.
  destruct (decide (m' = m)) as [->|Hne].
  - rewrite lookup_insert_eq in Hcache. injection Hcache as <-.
    rewrite plain_get_at, Hnew by assumption. reflexivity.
  - assert (Hk' : st_disk st' !! (k ++ [m' +:+ ".stats.yaml"])
                  = st_disk st !! (k ++ [m' +:+ ".stats.yaml"])).
    { apply Hframe; [|rewrite length_app; cbn; lia].
      intros E. now apply stats_key_inj in E. }
    rewrite lookup_insert_ne in Hcache.
    + rewrite (plain_get_ext k m' None _ _ Hk Hm' Hk'). rewrite Hk' in Hdisk.
      now apply (Hco m' c).
    + intros E. apply key_of_snoc_inj in E; auto.
Qed.

Lemma coherent_frame (k : list string) (st st' : store) :
  good_names k ->
  (forall m, st_disk st' !! (k ++ [m +:+ ".stats.yaml"])
             = st_disk st !! (k ++ [m +:+ ".stats.yaml"])) ->
  st_cache st' = st_cache st ->
  coherent_dir k st -> coherent_dir k st'.
Proof.
  intros Hk Hd Hc Hco m c cv Hm Hdisk Hcache. rewrite Hc in Hcache. rewrite Hd in Hdisk.
  rewrite (plain_get_ext k m None _ _ Hk Hm (Hd m)). now apply (Hco m c).
Qed.

Lemma coherent_remove (k : list string) (g : string) (st st' : store) :
  good_names k -> good_name g = true -> coherent_dir k st ->
  StatsUpdater._remove_stats_file [dir_of k; g] st = Ok st' -> coherent_dir k st'.
Proof.
  intros Hk Hg Hco Hrm. apply remove_stats_file_spec in Hrm as [Hd Hc]; [|assumption..].
  intros m c cv Hm Hdisk Hcache. rewrite Hd in Hdisk. rewrite Hc in Hcache.
  destruct (decide (m = g)) as [->|Hne]; [now rewrite lookup_delete_eq in Hdisk|].
  assert (Hk' : st_disk st' !! (k ++ [m +:+ ".stats.yaml"])
                = st_disk st !! (k ++ [m +:+ ".stats.yaml"])).
  { rewrite Hd. apply lookup_delete_ne. intros E. apply stats_key_inj in E. congruence. }
  rewrite lookup_delete_ne in Hdisk by (intros E; apply stats_key_inj in E; congruence).
  rewrite lookup_insert_ne in Hcache.
  - rewrite (plain_get_ext k m None _ _ Hk Hm Hk'). now apply (Hco m c).
  - intros E. apply raw_path_key in E; auto.
Qed.

(** ** One file of the visit *)

Lemma analysis_failed_skipped (u : updater) (path : string) :
  _analyze_file_internal u path = Raise AnalysisFailed -> _analyze_file u path = Ok None.
Proof. unfold _analyze_file. now intros ->. Qed.

Lemma visit_one_failed (u : updater) (dir_path f : string) (acc : bool * store) :
  _analyze_file_internal u (FileSystem.join_parts [dir_path; f]) = Raise AnalysisFailed ->
  StatsUpdater.visit_one u dir_path f acc = Ok acc.
Proof.
  intros H. unfold StatsUpdater.visit_one. now rewrite (analysis_failed_skipped _ _ H).
Qed.

Lemma visit_one_spec (u : updater) (k : list string) (g : string)
    (hc hc' : bool) (st st' : store) :
  good_names k -> good_name g = true -> good_disk (st_disk st) ->
  StatsUpdater.visit_one u (dir_of k) g (hc, st) = Ok (hc', st') ->
  good_disk (st_disk st') /\
  (coherent_dir k st -> coherent_dir k st') /\
  (hc' = false -> hc = false /\ st' = st) /\
  (forall K, S (List.length k) <= List.length K ->
             (analysed u k g ->
              K <> k ++ [g +:+ ".stats.yaml"] /\ K <> k ++ [g +:+ ".methods.yaml"]) ->
             st_disk st' !! K = st_disk st !! K) /\
  (FileSystem.lookup_entry (st_disk st) k = Some EDir ->
   FileSystem.lookup_entry (st_disk st') k = Some EDir).
Proof.
  intros Hk Hg Hd. unfold StatsUpdater.visit_one, _analyze_file, analysed.
  destruct (_analyze_file_internal u _) as [[s ms]|e].
  - cbn [mbind res_bind fst snd]. intros H.
    apply bind_ok in H as (st1 & Hst & H). apply bind_ok in H as (d & Hadd & H).
    injection H as <- <-. cbn [st_disk].
    pose proof (store_stats_good _ _ _ _ _ Hk Hg Hd Hst) as Hd1.
    pose proof (add_methods_spec _ _ _ _ _ Hk Hg Hadd) as Hframe.
    pose proof (store_stats_spec _ _ _ _ _ Hk Hg Hst) as (_ & _ & Hframe1).
    split; [eapply add_methods_good; eauto|]. split; [|split; [|split]].
    + intros Hco. apply (coherent_frame k st1); [exact Hk| |reflexivity|].
      * intros m. cbn [st_disk]. apply Hframe; [|rewrite length_app; cbn; lia].
        intros E. apply snoc_inj in E. symmetry in E. now apply methods_is_no_stats in E.
      * eapply coherent_store; eauto.
    + discriminate.
    + intros K Hlen HK. destruct (HK eq_refl) as [HK1 HK2].
      rewrite Hframe by assumption. now apply Hframe1.
    + intros Hdir. eapply add_methods_keeps_dir; eauto. eapply store_keeps_dir; eauto.
  - destruct e; try discriminate.
    cbn [mbind res_bind]. intros [= <- <-]. repeat split; auto.
Qed.

Lemma visit_loop_spec (u : updater) (k : list string) (files : list string)
    (hc hc' : bool) (st st' : store) :
  good_names k -> good_names files -> good_disk (st_disk st) ->
  for_each (StatsUpdater.visit_one u (dir_of k)) files (hc, st) = Ok (hc', st') ->
  good_disk (st_disk st') /\
  (coherent_dir k st -> coherent_dir k st') /\
  (hc' = false -> hc = false /\ st' = st) /\
  (forall K, S (List.length k) <= List.length K ->
             (forall g, g ∈ files -> analysed u k g ->
                        K <> k ++ [g +:+ ".stats.yaml"] /\ K <> k ++ [g +:+ ".methods.yaml"]) ->
             st_disk st' !! K = st_disk st !! K) /\
  (FileSystem.lookup_entry (st_disk st) k = Some EDir ->
   FileSystem.lookup_entry (st_disk st') k = Some EDir).
Proof.
  intros Hk Hfiles. revert hc st.
  induction Hfiles as [|g files Hg Hfiles IH]; intros hc st Hd; cbn [for_each].
  - intros [= <- <-]. repeat split; auto.
  - intros H. apply bind_ok in H as ([hc1 st1] & H1 & H).
    apply visit_one_spec in H1 as (Hd1 & Hco1 & Hhc1 & Hf1 & Hdir1); [|assumption..].
    apply IH in H as (Hd' & Hco' & Hhc' & Hf' & Hdir'); [|assumption].
    split; [exact Hd'|]. split; [auto|]. split; [|split; [|auto]].
    + intros E. destruct (Hhc' E) as [-> ->]. now apply Hhc1.
    + intros K Hlen HK. rewrite Hf'.
      * apply Hf1; [exact Hlen|]. intros Ha. apply (HK g); [apply list_elem_of_here | exact Ha].
      * exact Hlen.
      * intros g' Hin. apply HK. now apply list_elem_of_further.
Qed.

(** A file whose analysis fails counts for nothing in the loop. *)
Lemma visit_loop_skips (u : updater) (dir_path f : string) (files : list string)
    (acc : bool * store) :
  _analyze_file_internal u (FileSystem.join_parts [dir_path; f]) = Raise AnalysisFailed ->
  for_each (StatsUpdater.visit_one u dir_path) files acc
  = for_each (StatsUpdater.visit_one u dir_path)
             (List.filter (fun g => negb (String.eqb g f)) files) acc.
Proof.
  intros Hf. revert acc. induction files as [|g files IH]; intros acc; [reflexivity|].
  cbn [for_each List.filter]. destruct (String.eqb_spec g f) as [->|Hne]; cbn [negb].
  - rewrite visit_one_failed by assumption. cbn [mbind res_bind]. apply IH.
  - cbn [for_each]. destruct (StatsUpdater.visit_one u dir_path g acc); [|reflexivity].
    cbn [mbind res_bind]. apply IH.
Qed.

Lemma remove_loop_spec (k : list string) (stale : list string) (st st' : store) :
  good_names k -> good_names stale -> good_disk (st_disk st) ->
  for_each (fun stale_file => StatsUpdater._remove_stats_file [dir_of k; stale_file]) stale st
  = Ok st' ->
  good_disk (st_disk st') /\
  (coherent_dir k st -> coherent_dir k st') /\
  (forall K, (forall g, g ∈ stale -> K <> k ++ [g +:+ ".stats.yaml"]) ->
             st_disk st' !! K = st_disk st !! K) /\
  (forall K, st_disk st !! K = None -> st_disk st' !! K = None) /\
  (forall g, g ∈ stale -> st_disk st' !! (k ++ [g +:+ ".stats.yaml"]) = None) /\
  (FileSystem.lookup_entry (st_disk st) k = Some EDir ->
   FileSystem.lookup_entry (st_disk st') k = Some EDir).
Proof.
  intros Hk Hstale. revert st.
  induction Hstale as [|g stale Hg Hstale IH]; intros st Hd; cbn [for_each].
  - intros [= <-]. repeat split; auto. intros g Hg. now apply not_elem_of_nil in Hg.
  - intros H. apply bind_ok in H as (st1 & H1 & H).
    pose proof (remove_stats_file_spec _ _ _ _ Hk Hg H1) as [Hd1 _].
    pose proof (remove_keeps_dir _ _ _ _ Hk Hg H1) as Hdir1.
    assert (Hgood1 : good_disk (st_disk st1)) by (rewrite Hd1; now apply good_disk_delete).
    apply IH in H as (Hd' & Hco' & Hf' & Hn' & Hg' & Hdir'); [|assumption].
    split; [exact Hd'|]. split; [|split; [|split; [|split; [|auto]]]].
    + intros Hco. apply Hco'. eapply coherent_remove; eauto.
    + intros K HK. rewrite Hf' by (intros g' Hin; apply HK; now apply list_elem_of_further).
      rewrite Hd1. apply lookup_delete_ne. apply not_eq_sym, HK, list_elem_of_here.
    + intros K HK. apply Hn'. rewrite Hd1. rewrite lookup_delete. case_decide; auto.
    + intros g' [->|Hin]%elem_of_cons; [|now apply Hg'].
      apply Hn'. rewrite Hd1. apply lookup_delete_eq.
Qed.
(** ** The names of the listings *)

Lemma endswith_py_name (n : string) :
  PyStr.endswith n ".py" = true -> n <> "" /\ n <> ".".
Proof. intros H. split; intros ->; discriminate. Qed.

Lemma contains_replace_go (c : ascii) (old : string) (skip : nat) (s : string) :
  PyStr.contains c (PyStr.replace_go old "" skip s) = true -> PyStr.contains c s = true.
Proof.
  revert skip. induction s as [|x s IH]; intros skip; cbn [PyStr.replace_go]; [easy|].
  destruct skip as [|skip].
  - destruct (String.prefix old (String x s)).
    + rewrite append_nil_l. intros H%IH. cbn [PyStr.contains]. rewrite H. now destruct (Ascii.eqb c x).
    + cbn [PyStr.contains]. destruct (Ascii.eqb c x); [easy|]. apply IH.
  - intros H%IH. cbn [PyStr.contains]. rewrite H. now destruct (Ascii.eqb c x).
Qed.

Lemma good_py_name (n : string) :
  PyStr.contains OsPath.sep n = false -> PyStr.endswith n ".py" = true -> good_name n = true.
Proof.
  intros Hsep [H1 H2]%endswith_py_name. unfold good_name. rewrite Hsep.
  destruct (String.eqb_spec n ""); [congruence|].
  destruct (String.eqb_spec n "."); [congruence|]. reflexivity.
Qed.

Lemma good_name_no_sep (n : string) : good_name n = true -> PyStr.contains OsPath.sep n = false.
Proof. intros H. now apply good_name_parts in H. Qed.

Lemma ls_files_names (k : list string) (d : disk) (l : list string) (n : string) :
  good_names k -> FileSystem.ls_files (dir_of k) d = Ok l -> n ∈ l ->
  exists e, d !! (k ++ [n]) = Some e.
Proof.
  intros Hk. unfold FileSystem.ls_files, FileSystem.scandir.
  rewrite resolve_dir_of by assumption.
  destruct (FileSystem.exists_ d (dir_of k)); [|intros [= <-] Hin; now apply not_elem_of_nil in Hin].
  destruct (FileSystem.lookup_entry d k) as [[c|]|]; try discriminate.
  cbn [mbind res_bind]. intros [= <-] Hin.
  apply list_elem_of_fmap in Hin as ([n' e] & -> & Hin). exists e.
  now apply elem_of_children in Hin.
Qed.

Lemma good_entry_name {V} (d : gmap (list string) V) (k : list string) (n : string) (e : V) :
  good_disk d -> d !! (k ++ [n]) = Some e -> good_name n = true.
Proof.
  intros Hd H. apply Hd in H. apply Forall_app in H as [_ H]. now inversion H.
Qed.

Lemma py_stats_files_good (k : list string) (st : store) (files : list string) :
  good_names k -> good_disk (st_disk st) ->
  StatsUpdater._py_stats_files [dir_of k] st = Ok files -> good_names files.
Proof.
  intros Hk Hd. unfold StatsUpdater._py_stats_files, CachedStatsFSAdapter.ls, StatsFSAdapter.ls.
  cbn [FileSystem.join_parts OsPath.join fold_left].
  intros H. apply bind_ok in H as (l & H & Hf). apply bind_ok in H as (fs & Hls & H).
  injection H as <-. injection Hf as <-.
  apply Forall_forall. intros m Hm.
  apply list_elem_of_In, List.filter_In in Hm as [Hm Hpy].
  apply List.in_map_iff in Hm as (n & <- & Hn).
  apply List.filter_In in Hn as [Hn _]. apply list_elem_of_In in Hn.
  destruct (ls_files_names k _ _ n Hk Hls Hn) as [e He].
  apply good_py_name; [|exact Hpy].
  destruct (PyStr.contains OsPath.sep (PyStr.replace n ".stats.yaml" "")) eqn:E; [|reflexivity].
  apply contains_replace_go in E.
  now rewrite (good_name_no_sep n (good_entry_name _ _ _ _ Hd He)) in E.
Qed.

Lemma py_method_files_good (k : list string) (st : store) (files : list string) :
  good_names k -> good_disk (st_disk st) ->
  StatsUpdater._py_method_files [dir_of k] st = Ok files -> good_names files.
Proof.
  intros Hk Hd. unfold StatsUpdater._py_method_files.
  cbn [FileSystem.join_parts OsPath.join fold_left].
  intros H. apply bind_ok in H as (fs & Hls & H). injection H as <-.
  apply Forall_forall. intros n Hn.
  apply list_elem_of_In, List.filter_In in Hn as [Hn _]. apply list_elem_of_In in Hn.
  destruct (ls_files_names k _ _ n Hk Hls Hn) as [e He].
  exact (good_entry_name _ _ _ _ Hd He).
Qed.

Lemma files_to_analyze_good (u : updater) (k : list string)
    (changed_files paths : option (list string)) (ignore_patterns : list pattern)
    (files : list string) :
  good_names k -> good_disk (_source_root u) -> base_names changed_files ->
  StatsUpdater.files_to_analyze u (dir_of k) changed_files paths ignore_patterns = Ok files ->
  good_names files.
Proof.
  intros Hk Hsrc Hch. unfold StatsUpdater.files_to_analyze.
  intros H. apply bind_ok in H as (cands & Hc & H). injection H as <-.
  apply Forall_forall. intros n Hn.
  apply list_elem_of_In, List.filter_In in Hn as [Hn Hpy].
  apply andb_prop in Hpy as [Hpy _]. apply andb_prop in Hpy as [Hpy _].
  apply good_py_name; [|exact Hpy].
  destruct changed_files as [fs|].
  - injection Hc as <-. apply List.filter_In in Hn as [Hn _].
    cbn in Hch. rewrite Forall_forall in Hch. now apply Hch, list_elem_of_In.
  - apply bind_ok in Hc as (es & Hes & Hc). injection Hc as <-.
    unfold src_scandir in Hes. rewrite resolve_dir_of in Hes by assumption.
    destruct (src_lookup (_source_root u) k) as [[t|]|]; try discriminate.
    injection Hes as <-. apply List.in_map_iff in Hn as ([n' e] & <- & Hn).
    apply list_elem_of_In, elem_of_children in Hn.
    exact (good_name_no_sep _ (good_entry_name _ _ _ _ Hsrc Hn)).
Qed.

(** ** The visit of a directory *)

Lemma failed_source_exists (u : updater) (parts : list string) :
  _analyze_file_internal u (FileSystem.join_parts parts) = Raise AnalysisFailed ->
  StatsUpdater._source_exists u parts = true.
Proof.
  unfold _analyze_file_internal, StatsUpdater._source_exists.
  destruct (src_lookup _ _) as [[text|]|]; try discriminate.
  intros _. now apply bool_decide_eq_true_2.
Qed.

Lemma visit_files_spec (u : updater) (k : list string)
    (changed_files paths : option (list string)) (ignore_patterns : list pattern)
    (st st' : store) (hc : bool) :
  good_names k -> good_disk (_source_root u) -> base_names changed_files ->
  good_disk (st_disk st) ->
  StatsUpdater._visit_files_in_dir u (dir_of k) changed_files paths ignore_patterns st
  = Ok (hc, st') ->
  good_disk (st_disk st') /\
  (coherent_dir k st -> coherent_dir k st') /\
  (hc = false -> st' = st) /\
  (forall K, S (List.length k) <= List.length K ->
             (forall g, good_name g = true -> analysed u k g ->
                        K <> k ++ [g +:+ ".stats.yaml"] /\ K <> k ++ [g +:+ ".methods.yaml"]) ->
             (forall g, good_name g = true -> StatsUpdater._source_exists u [dir_of k; g] = false ->
                        K <> k ++ [g +:+ ".stats.yaml"]) ->
             st_disk st' !! K = st_disk st !! K) /\
  (FileSystem.lookup_entry (st_disk st) k = Some EDir ->
   FileSystem.lookup_entry (st_disk st') k = Some EDir).
Proof.
  intros Hk Hsrc Hch Hd. unfold StatsUpdater._visit_files_in_dir.
  intros H. apply bind_ok in H as (files & Hfiles & H).
  apply bind_ok in H as ([hc1 st1] & Hloop & H).
  apply bind_ok in H as (stale & Hstale & H).
  apply bind_ok in H as (st2 & Hrm & H). injection H as <- <-.
  pose proof (files_to_analyze_good _ _ _ _ _ _ Hk Hsrc Hch Hfiles) as Hgf.
  apply visit_loop_spec in Hloop as (Hd1 & Hco1 & Hhc1 & Hf1 & Hdir1); [|assumption..].
  assert (Hgs : good_names stale).
  { unfold StatsUpdater.stale_stats_files in Hstale.
    apply bind_ok in Hstale as (sf & Hsf & Hstale).
    apply bind_ok in Hstale as (mf & Hmf & Hstale). injection Hstale as <-.
    apply Forall_forall. intros n Hn.
    apply list_elem_of_In, List.filter_In in Hn as [Hn _].
    apply list_elem_of_In, elem_of_app in Hn as [Hn|Hn].
    - pose proof (py_stats_files_good _ _ _ Hk Hd1 Hsf) as G.
      rewrite Forall_forall in G. now apply G.
    - pose proof (py_method_files_good _ _ _ Hk Hd1 Hmf) as G.
      rewrite Forall_forall in G. now apply G. }
  assert (Hns : forall g, g ∈ stale -> StatsUpdater._source_exists u [dir_of k; g] = false).
  { unfold StatsUpdater.stale_stats_files in Hstale.
    apply bind_ok in Hstale as (sf & Hsf & Hstale).
    apply bind_ok in Hstale as (mf & Hmf & Hstale). injection Hstale as <-.
    intros g Hg. apply list_elem_of_In, List.filter_In in Hg as [_ Hg].
    apply andb_prop in Hg as [_ Hg]. now apply negb_true_iff in Hg. }
  pose proof (remove_loop_spec _ _ _ _ Hk Hgs Hd1 Hrm) as (Hd2 & Hco2 & Hf2 & _ & _ & Hdir2).
  split; [exact Hd2|]. split; [auto|]. split; [|split; [|auto]].
  - intros E. apply orb_false_elim in E as [E1 E2].
    apply negb_false_iff, bool_decide_eq_true in E2. subst stale.
    destruct (Hhc1 E1) as [_ <-]. cbn [for_each] in Hrm. now injection Hrm as <-.
  - intros K Hlen Hwritten Hstale'. rewrite Hf2.
    + apply Hf1; [exact Hlen|]. intros g Hin. apply Hwritten.
      rewrite Forall_forall in Hgf. now apply Hgf.
    + intros g Hin. apply Hstale'; [|now apply Hns].
      rewrite Forall_forall in Hgs. now apply Hgs.
Qed.

(** The record of a file whose analysis fails is where it was after the
    visit of its directory. *)
Lemma visit_keeps_failed_record (u : updater) (k : list string) (f : string)
    (changed_files paths : option (list string)) (ignore_patterns : list pattern)
    (st st' : store) (hc : bool) :
  good_names k -> good_disk (_source_root u) -> base_names changed_files ->
  good_disk (st_disk st) ->
  _analyze_file_internal u (FileSystem.join_parts [dir_of k; f]) = Raise AnalysisFailed ->
  StatsUpdater._visit_files_in_dir u (dir_of k) changed_files paths ignore_patterns st
  = Ok (hc, st') ->
  st_disk st' !! (k ++ [f +:+ ".stats.yaml"]) = st_disk st !! (k ++ [f +:+ ".stats.yaml"]).
Proof.
  intros Hk Hsrc Hch Hd Hf Hvisit.
  apply visit_files_spec in Hvisit as (_ & _ & _ & Hframe & _); [|assumption..].
  apply Hframe.
  - rewrite length_app. cbn. lia.
  - intros g Hg Ha. split.
    + intros E. apply stats_key_inj in E. subst g. unfold analysed in Ha.
      rewrite Hf in Ha. discriminate.
    + intros E. apply snoc_inj in E. symmetry in E. now apply methods_is_no_stats in E.
  - intros g Hg Hns E. apply stats_key_inj in E. subst g.
    rewrite (failed_source_exists u [dir_of k; f] Hf) in Hns. discriminate.
Qed.
(** ** The totals of a directory *)

Lemma totals_after_cons (u : updater) (acc : option StatsUpdater.totals) (m : string) (s : series)
    (recs : list (string * series)) :
  totals_after u acc ((m, s) :: recs)
  = totals_after u
      (Some (add_record u (default (first_totals s) acc)
                        (m, s)))
      recs.
Proof. destruct recs as [|[m' s'] recs]; reflexivity. Qed.

Lemma fold_add_record (u : updater) (recs : list (string * series)) (t : StatsUpdater.totals) :
  StatsUpdater.TOTAL (fold_left (add_record u) recs t) = fold_left series_add_fill0 recs.*2 (StatsUpdater.TOTAL t) /\
  StatsUpdater.TOTAL_TEST (fold_left (add_record u) recs t)
  = fold_left series_add_fill0 (test_records u recs) (StatsUpdater.TOTAL_TEST t) /\
  StatsUpdater.TOTAL_NON_TEST (fold_left (add_record u) recs t)
  = fold_left series_add_fill0 (non_test_records u recs) (StatsUpdater.TOTAL_NON_TEST t).
Proof.
  revert t. induction recs as [|[m s] recs IH]; intros t; [easy|].
  cbn [fold_left]. destruct (IH (add_record u t (m, s))) as (-> & -> & ->).
  unfold test_records, non_test_records, add_record. cbn [List.filter fst snd].
  destruct (StatsUpdater.is_test u m); cbn; auto.
Qed.

(** What a successful turn of the loop has loaded is what the disk
    holds. *)
Lemma aggregate_one_spec (u : updater) (k : list string) (m : string)
    (acc acc' : option StatsUpdater.totals) (st st' : store) :
  good_names k -> good_name m = true -> coherent_dir k st ->
  StatsUpdater.aggregate_one u (dir_of k) m (acc, st) = Ok (acc', st') ->
  st_disk st' = st_disk st /\ coherent_dir k st' /\
  exists s,
    (forall c, st_disk st !! (k ++ [m +:+ ".stats.yaml"]) = Some (EFile c) -> c = CStats s) /\
    acc' = totals_after u acc [(m, s)].
Proof.
  intros Hk Hm Hco. unfold StatsUpdater.aggregate_one. cbn [fst snd].
  intros H. apply bind_ok in H as ([v st1] & Hload & H).
  pose proof (coherent_load _ _ _ _ _ Hk Hm Hco Hload) as Hco1.
  pose proof (load_stats_spec _ _ _ _ _ Hk Hm Hload) as [Hd Hc].
  destruct v as [s|].
  2:{ destruct acc; discriminate. }
  assert (Hget : forall c, st_disk st !! (k ++ [m +:+ ".stats.yaml"]) = Some (EFile c) ->
                           StatsFSAdapter.get (key_of (k ++ [m])) None (st_disk st) = Ok (Some s)).
  { intros c Hdisk. destruct (st_cache st !! key_of (k ++ [m])) as [cv|] eqn:E.
    - destruct Hc as [-> _]. now apply (Hco m c).
    - now destruct Hc as [Hget _]. }
  assert (Hrec : forall c, st_disk st !! (k ++ [m +:+ ".stats.yaml"]) = Some (EFile c) ->
                           c = CStats s).
  { intros c Hdisk. specialize (Hget c Hdisk). rewrite plain_get_at, Hdisk in Hget by assumption.
    destruct c as [s'| | | |t]; cbn in Hget; try discriminate.
    - now injection Hget as ->.
    - destruct t; discriminate. }
  assert (E : acc' = totals_after u acc [(m, s)] /\ st' = st1).
  { unfold totals_after, add_record. cbn [fold_left fst snd].
    destruct acc as [t|]; cbn [mbind res_bind default] in H |- *;
      destruct (StatsUpdater.is_test u m); now injection H as <- <-. }
  destruct E as [-> ->]. split; [exact Hd|]. split; [exact Hco1|]. now exists s.
Qed.

Lemma aggregate_loop_spec (u : updater) (k : list string) (files : list string)
    (acc acc' : option StatsUpdater.totals) (st st' : store) :
  good_names k -> good_names files -> coherent_dir k st ->
  for_each (StatsUpdater.aggregate_one u (dir_of k)) files (acc, st) = Ok (acc', st') ->
  st_disk st' = st_disk st /\ coherent_dir k st' /\
  exists recs,
    Forall2 (fun m s => forall c, st_disk st !! (k ++ [m +:+ ".stats.yaml"]) = Some (EFile c) ->
                                  c = CStats s) files recs /\
    acc' = totals_after u acc (zip files recs).
Proof.
  intros Hk Hfiles. revert acc st.
  induction Hfiles as [|m files Hm Hfiles IH]; intros acc st Hco; cbn [for_each].
  - intros [= <- <-]. split; [reflexivity|]. split; [exact Hco|]. exists []. split; constructor.
  - intros H. apply bind_ok in H as ([acc1 st1] & H1 & H).
    apply aggregate_one_spec in H1 as (Hd1 & Hco1 & s & Hs & E1); [|assumption..].
    apply IH in H as (Hd' & Hco' & recs & Hrecs & E'); [|assumption].
    split; [congruence|]. split; [exact Hco'|]. exists (s :: recs). split.
    + constructor; [exact Hs|]. now rewrite Hd1 in Hrecs.
    + change (zip (m :: files) (s :: recs)) with ((m, s) :: zip files recs).
      rewrite E', E1. exact (eq_sym (totals_after_cons u acc m s (zip files recs))).
Qed.

Lemma total_name_good (name : string) :
  name ∈ StatsUpdater.total_names -> good_name name = true.
Proof.
  unfold StatsUpdater.total_names. rewrite !elem_of_cons, elem_of_nil.
  intros [->|[->|[->|[]]]]; reflexivity.
Qed.

Lemma total_name_not_py (name : string) :
  name ∈ StatsUpdater.total_names -> PyStr.endswith name ".py" = false.
Proof.
  unfold StatsUpdater.total_names. rewrite !elem_of_cons, elem_of_nil.
  intros [->|[->|[->|[]]]]; reflexivity.
Qed.

Lemma stored_at (d : disk) (k : list string) (name : string) (s : series) :
  d !! (k ++ [name +:+ ".stats.yaml"]) = Some (EFile (CStats s)) -> stored d k name = Some s.
Proof. unfold stored. now intros ->. Qed.

Lemma aggregate_dir_spec (u : updater) (k : list string) (st st' : store) :
  good_names k -> good_disk (st_disk st) -> coherent_dir k st ->
  StatsUpdater._aggregate_dir u (dir_of k) st = Ok st' ->
  exists files,
    StatsUpdater._py_stats_files [dir_of k] st = Ok files /\
    (forall K, S (List.length k) <= List.length K ->
               (forall name, name ∈ StatsUpdater.total_names ->
                             K <> k ++ [name +:+ ".stats.yaml"]) ->
               st_disk st' !! K = st_disk st !! K) /\
    match files with
    | [] =>
        Forall (fun name => st_disk st' !! (k ++ [name +:+ ".stats.yaml"]) = None)
               StatsUpdater.total_names
    | _ :: _ =>
        exists recs,
          Forall2 (fun m s => forall c, st_disk st !! (k ++ [m +:+ ".stats.yaml"])
                                        = Some (EFile c) -> c = CStats s) files recs /\
          stored (st_disk st') k "TOTAL" = Some (sum_from (hd ∅ recs) recs) /\
          stored (st_disk st') k "TOTAL_TEST"
          = Some (sum_from (hd ∅ recs) (test_records u (zip files recs))) /\
          stored (st_disk st') k "TOTAL_NON_TEST"
          = Some (sum_from (hd ∅ recs) (non_test_records u (zip files recs)))
    end.
Proof.
  intros Hk Hd Hco. unfold StatsUpdater._aggregate_dir.
  intros H. apply bind_ok in H as (files & Hfiles & H). exists files. split; [exact Hfiles|].
  apply bind_ok in H as ([tot st1] & Hloop & H).
  pose proof (py_stats_files_good _ _ _ Hk Hd Hfiles) as Hgf.
  apply aggregate_loop_spec in Hloop as (Hd1 & Hco1 & recs & Hrecs & ->); [|assumption..].
  destruct files as [|m files].
  - assert (Hgt : good_names StatsUpdater.total_names).
    { apply Forall_forall. intros name. apply total_name_good. }
    rewrite <- Hd1 in Hd.
    pose proof (remove_loop_spec _ _ _ _ Hk Hgt Hd H) as (_ & _ & Hf & _ & Hgone & _).
    rewrite Hd1 in Hf. split.
    + intros K _ HK. now apply Hf.
    + now apply Forall_forall.
  - inversion Hrecs as [|m' s files' recs' Hs Hrecs' E1 E2]. subst.
    change (zip (m :: files) (s :: recs')) with ((m, s) :: zip files recs') in *.
    cbn [totals_after default] in H.
    set (recs := (m, s) :: zip files recs') in *.
    set (t := fold_left (add_record u) recs _) in H.
    apply bind_ok in H as (st2 & H2 & H). apply bind_ok in H as (st3 & H3 & H4).
    apply store_stats_spec in H2 as (_ & N2 & F2); [|assumption || reflexivity..].
    apply store_stats_spec in H3 as (_ & N3 & F3); [|assumption || reflexivity..].
    apply store_stats_spec in H4 as (_ & N4 & F4); [|assumption || reflexivity..].
    assert (Hlen : forall name, S (List.length k) <= List.length (k ++ [name +:+ ".stats.yaml"])).
    { intros name. rewrite length_app. cbn. lia. }
    split.
    + intros K HlenK HK. rewrite F4, F3, F2, Hd1; auto; apply HK; set_solver.
    + exists (s :: recs'). split; [exact Hrecs|].
      destruct (fold_add_record u recs (first_totals s)) as (T1 & T2 & T3). fold t in T1, T2, T3. cbn [StatsUpdater.TOTAL StatsUpdater.TOTAL_TEST
        StatsUpdater.TOTAL_NON_TEST] in T1, T2, T3.
      assert (Esnd : recs.*2 = s :: recs').
      { unfold recs. cbn [fmap list_fmap snd]. f_equal. apply snd_zip.
        apply Forall2_length in Hrecs'. lia. }
      rewrite Esnd in T1. unfold sum_from. cbn [hd].
      split; [|split].
      * apply stored_at. rewrite F4, F3, N2, T1; auto.
        -- intros E%stats_key_inj. discriminate.
        -- intros E%stats_key_inj. discriminate.
      * apply stored_at. rewrite F4, N3, T2; auto.
        intros E%stats_key_inj. discriminate.
      * apply stored_at. rewrite N4, T3; auto.
Qed.


(** ** The sums of the code and the sum of StatValues *)

Lemma fill_add_assoc (x y z : option num) :
  fill_add (fill_add x y) z = fill_add x (fill_add y z).
Proof.
  destruct x as [[a|]|], y as [[b|]|], z as [[c|]|]; cbn; try reflexivity;
    do 2 f_equal; lia.
Qed.

Lemma lookup_add_fill0 (a b : series) (i : string * string) :
  series_add_fill0 a b !! i = fill_add (a !! i) (b !! i).
Proof.
  unfold series_add_fill0. rewrite lookup_merge.
  now destruct (a !! i), (b !! i).
Qed.

Lemma series_add_fill0_assoc (a b c : series) :
  series_add_fill0 (series_add_fill0 a b) c = series_add_fill0 a (series_add_fill0 b c).
Proof. apply map_eq. intros i. rewrite !lookup_add_fill0. apply fill_add_assoc. Qed.

Lemma series_add_fill0_empty (a : series) : series_add_fill0 a ∅ = a.
Proof.
  apply map_eq. intros i. rewrite lookup_add_fill0, lookup_empty.
  destruct (a !! i) as [[x|]|]; cbn; try reflexivity. do 2 f_equal. lia.
Qed.

Lemma fold_left_stat_sum (l : list series) (a : series) :
  fold_left series_add_fill0 l a = series_add_fill0 a (stat_sum l).
Proof.
  revert a. induction l as [|x l IH]; intros a; cbn [fold_left stat_sum fold_right].
  - now rewrite series_add_fill0_empty.
  - rewrite IH. apply series_add_fill0_assoc.
Qed.

(** A total of the code is the sum of its records, on top of the zeros of
    the first record of the directory. *)
Lemma sum_from_stat_sum (first : series) (l : list series) :
  sum_from first l = series_add_fill0 (zero_series first) (stat_sum l).
Proof. apply fold_left_stat_sum. Qed.

Lemma no_nan_lookup (s : series) (i : string * string) :
  has_nan s = false -> s !! i <> Some NaN.
Proof.
  unfold has_nan. intros H E. apply bool_decide_eq_false in H. apply H.
  apply Exists_exists. exists (i, NaN). split; [|reflexivity].
  now apply elem_of_map_to_list.
Qed.

Lemma zero_series_add (s : series) :
  has_nan s = false -> series_add_fill0 (zero_series s) s = s.
Proof.
  intros H. apply map_eq. intros i. unfold zero_series.
  rewrite lookup_add_fill0, lookup_fmap.
  pose proof (no_nan_lookup s i H) as Hi.
  destruct (s !! i) as [[x|]|]; cbn; try reflexivity; congruence.
Qed.

(** [TOTAL] is the sum of the records of the directory. *)
Lemma sum_from_first (s : series) (rest : list series) :
  has_nan s = false -> sum_from s (s :: rest) = stat_sum (s :: rest).
Proof.
  intros H. unfold sum_from. cbn [fold_left]. rewrite zero_series_add by assumption.
  rewrite fold_left_stat_sum. reflexivity.
Qed.

(** ** The listing of the records *)

Lemma endswith_refl (s : string) : PyStr.endswith s s = true.
Proof. destruct s; cbn [PyStr.endswith]; now rewrite String.eqb_refl. Qed.

Lemma endswith_app (a s : string) : PyStr.endswith (a +:+ s) s = true.
Proof.
  induction a as [|c a IH]; [rewrite append_nil_l; apply endswith_refl|].
  rewrite append_cons. cbn [PyStr.endswith].
  destruct (String.eqb _ _); [reflexivity | exact IH].
Qed.

Lemma py_stats_files_py (path : list string) (st : store) (files : list string) (m : string) :
  StatsUpdater._py_stats_files path st = Ok files -> m ∈ files ->
  PyStr.endswith m ".py" = true.
Proof.
  unfold StatsUpdater._py_stats_files. intros H. apply bind_ok in H as (l & _ & H).
  injection H as <-. intros Hm. now apply list_elem_of_In, List.filter_In in Hm.
Qed.

(** A record on disk whose name holds [.stats.yaml] at its end only is in
    the listing. *)
Lemma record_is_listed (k : list string) (st : store) (f : string) (files : list string) :
  good_names k ->
  FileSystem.lookup_entry (st_disk st) k = Some EDir ->
  is_Some (st_disk st !! (k ++ [f +:+ ".stats.yaml"])) ->
  PyStr.replace (f +:+ ".stats.yaml") ".stats.yaml" "" = f ->
  PyStr.endswith f ".py" = true ->
  StatsUpdater._py_stats_files [dir_of k] st = Ok files -> f ∈ files.
Proof.
  intros Hk Hdir [e He] Hrep Hpy.
  unfold StatsUpdater._py_stats_files, CachedStatsFSAdapter.ls, StatsFSAdapter.ls,
    FileSystem.ls_files, FileSystem.exists_, FileSystem.scandir.
  cbn [FileSystem.join_parts OsPath.join fold_left].
  rewrite resolve_dir_of, Hdir by assumption.
  rewrite bool_decide_eq_true_2 by eauto. cbn [mbind res_bind]. intros [= <-].
  apply list_elem_of_In, List.filter_In. split; [|exact Hpy].
  apply List.in_map_iff. exists (f +:+ ".stats.yaml"). split; [exact Hrep|].
  apply List.filter_In. split; [|apply endswith_app].
  apply List.in_map_iff. exists (f +:+ ".stats.yaml", e). split; [reflexivity|].
  now apply list_elem_of_In, elem_of_children.
Qed.

Lemma coherent_empty_cache (k : list string) (d : disk) : coherent_dir k (mkStore d ∅).
Proof. intros m c cv _ _ H. cbn in H. now rewrite lookup_empty in H. Qed.

Lemma good_disk_check {V} (d : gmap (list string) V) :
  map_Forall (fun key _ => good_names key) d -> good_disk d.
Proof. intros H key e He. exact (H key e He). Qed.

(** One turn of [update] on a directory with a failing analysis. A file
    [f] of the directory [k] whose analysis raises [AnalysisFailed] is
    skipped: [_analyze_file] returns [None] for it and
    the loop over the analysed files runs as if [f] were not among them, so
    the failure stops nothing and writes no record. When the turn of
    [update] for [k] returns, the record of [f] on disk is what it was
    before. If the visit found no change, the store is as it was, totals
    and all; otherwise [_aggregate_dir] has run over the listing of the
    records that exist, which names the record of [f] if the directory
    held one (under a name with [.stats.yaml] at its end only), has left
    the listed records alone, and the three totals that it stored are the
    sums of the listed records as they are on disk (with none listed, no
    total is left).

    The names are names of entries ([good_names], [good_disk],
    [base_names]), and the cache of the adapter agrees with the disk on
    the directory ([coherent_dir]), as it does when the updater is new
    ([coherent_empty_cache]) and after each visit ([visit_files_spec]). *)
Lemma failed_analysis_is_skipped_in_a_turn (u : updater) (k : list string) (f : string)
    (changed_files paths : option (list string)) (ignore_patterns : list pattern)
    (dirty_dirs : list string) (st : store) (r : list string * store) :
  good_names k -> good_disk (_source_root u) -> base_names changed_files ->
  good_disk (st_disk st) -> coherent_dir k st ->
  PyStr.endswith f ".py" = true ->
  _analyze_file_internal u (FileSystem.join_parts [dir_of k; f]) = Raise AnalysisFailed ->
  StatsUpdater.update_dir u paths ignore_patterns (dir_of k, changed_files) (dirty_dirs, st)
  = Ok r ->
  (_analyze_file u (FileSystem.join_parts [dir_of k; f]) = Ok None /\
   forall files acc,
     for_each (StatsUpdater.visit_one u (dir_of k)) files acc
     = for_each (StatsUpdater.visit_one u (dir_of k))
                (List.filter (fun g => negb (String.eqb g f)) files) acc) /\
  st_disk r.2 !! (k ++ [f +:+ ".stats.yaml"]) = st_disk st !! (k ++ [f +:+ ".stats.yaml"]) /\
  exists hc st1,
    StatsUpdater._visit_files_in_dir u (dir_of k) changed_files paths ignore_patterns st
    = Ok (hc, st1) /\
    if hc then
      exists files,
        StatsUpdater._py_stats_files [dir_of k] st1 = Ok files /\
        (FileSystem.lookup_entry (st_disk st) k = Some EDir ->
         is_Some (st_disk st !! (k ++ [f +:+ ".stats.yaml"])) ->
         PyStr.replace (f +:+ ".stats.yaml") ".stats.yaml" "" = f -> f ∈ files) /\
        (forall m, m ∈ files ->
                   st_disk r.2 !! (k ++ [m +:+ ".stats.yaml"])
                   = st_disk st1 !! (k ++ [m +:+ ".stats.yaml"])) /\
        match files with
        | [] =>
            Forall (fun name => st_disk r.2 !! (k ++ [name +:+ ".stats.yaml"]) = None)
                   StatsUpdater.total_names
        | _ :: _ =>
            exists recs,
              Forall2 (fun m s => forall c, st_disk r.2 !! (k ++ [m +:+ ".stats.yaml"])
                                            = Some (EFile c) -> c = CStats s) files recs /\
              stored (st_disk r.2) k "TOTAL" = Some (sum_from (hd ∅ recs) recs) /\
              stored (st_disk r.2) k "TOTAL_TEST"
              = Some (sum_from (hd ∅ recs) (test_records u (zip files recs))) /\
              stored (st_disk r.2) k "TOTAL_NON_TEST"
              = Some (sum_from (hd ∅ recs) (non_test_records u (zip files recs)))
        end
    else r.2 = st.
Proof.
  intros Hk Hsrc Hch Hd Hco Hpy Hfail Hrun.
  split; [split|].
  { now apply analysis_failed_skipped. }
  { intros files acc. now apply visit_loop_skips. }
  unfold StatsUpdater.update_dir in Hrun. cbn [fst snd] in Hrun.
  apply bind_ok in Hrun as ([hc st1] & Hvisit & Hrun). cbn [fst snd] in Hrun.
  pose proof (visit_keeps_failed_record _ _ _ _ _ _ _ _ _ Hk Hsrc Hch Hd Hfail Hvisit) as Hkept.
  pose proof (visit_files_spec _ _ _ _ _ _ _ _ Hk Hsrc Hch Hd Hvisit)
    as (Hd1 & Hco1 & Hsame & _ & Hdir1).
  destruct hc.
  - apply bind_ok in Hrun as (st2 & Hagg & Hrun). injection Hrun as <-. cbn [snd].
    apply aggregate_dir_spec in Hagg as (files & Hfiles & Hframe & Htotals); auto.
    assert (Hrec : forall m, PyStr.endswith m ".py" = true ->
                             st_disk st2 !! (k ++ [m +:+ ".stats.yaml"])
                             = st_disk st1 !! (k ++ [m +:+ ".stats.yaml"])).
    { intros m Hm. apply Hframe; [rewrite length_app; cbn; lia|].
      intros name Hname E. apply stats_key_inj in E. subst m.
      rewrite (total_name_not_py name Hname) in Hm. discriminate. }
    split; [now rewrite Hrec|].
    exists true, st1. split; [exact Hvisit|]. exists files. split; [exact Hfiles|].
    split; [|split].
    + intros Hdir Hsome Hrep. apply (record_is_listed k st1); auto. now rewrite Hkept.
    + intros m Hm. apply Hrec. eapply py_stats_files_py; eauto.
    + destruct files as [|m files]; [exact Htotals|].
      destruct Htotals as (recs & Hrecs & Ht). exists recs. split; [|exact Ht].
      assert (Hall : Forall (fun m => PyStr.endswith m ".py" = true) (m :: files)).
      { apply Forall_forall. intros m' Hm'. eapply py_stats_files_py; eauto. }
      clear Hfiles Ht. revert Hall. induction Hrecs as [|m' s fs rs Hs Hrecs IH]; intros Hall.
      * constructor.
      * inversion Hall; subst. constructor; [|auto].
        intros c Hc. apply Hs. now rewrite <- Hrec.
  - injection Hrun as <-. cbn [snd]. split; [exact Hkept|].
    exists false, st1. split; [exact Hvisit|]. now apply Hsame.
Qed.

(** The turn on the sample tree: the old record of [bad.py] is on disk
    after the turn, and the visit has found the change of [ok.py]. *)
Lemma failed_analysis_is_skipped_on_the_sample :
  st_disk (outcome ([], empty_store) root_update).2 !! ["bad.py.stats.yaml"]
  = Some (EFile (CStats (loc 12))) /\
  exists hc st1,
    StatsUpdater._visit_files_in_dir updater_bad "." None None [] (mkStore disk_old_record ∅)
    = Ok (hc, st1).
Proof.
  destruct (failed_analysis_is_skipped_in_a_turn updater_bad [] "bad.py" None None [] []
              (mkStore disk_old_record ∅) (outcome ([], empty_store) root_update))
    as (_ & Hkept & hc & st1 & Hvisit & _).
  - constructor.
  - apply good_disk_check. by_evaluation.
  - exact I.
  - apply good_disk_check. by_evaluation.
  - apply coherent_empty_cache.
  - reflexivity.
  - reflexivity.
  - apply outcome_ok. vm_compute. reflexivity.
  - split; [|now exists hc, st1]. etransitivity; [exact Hkept|]. vm_compute. reflexivity.
Defined.

(** The sample turn in full: the record of [bad.py] is kept, [ok.py] has
    its record, and [TOTAL] is the sum of the two. *)
Example root_update_values :
  holds_after root_update
    (fun r =>
       stored (st_disk r.2) [] "bad.py" = Some (loc 12) /\
       stored (st_disk r.2) [] "ok.py" = Some (loc 4) /\
       stored (st_disk r.2) [] "TOTAL" = Some (loc 16) /\
       total_holds (st_disk r.2) [] = true).
Proof. by_evaluation. Qed.

(** * More of the code

    Properties of the functions around the ones above: what the file
    system and the adapters do on every path, sums of Series, the loops of
    the updater, and the replay. *)

(** ** Normalised paths name the same file *)

Lemma split_nonempty (c : ascii) (s : string) : exists w ws, PyStr.split c s = w :: ws.
Proof.
  induction s as [|x s (w & ws & IH)]; cbn [PyStr.split]; [eauto|].
  destruct (Ascii.eqb c x); [eauto|]. rewrite IH. eauto.
Qed.

Lemma split_sep_cons (s : string) :
  PyStr.split OsPath.sep (String OsPath.sep s) = "" :: PyStr.split OsPath.sep s.
Proof. reflexivity. Qed.

Lemma split_other_cons (x : ascii) (s w : string) (ws : list string) :
  Ascii.eqb OsPath.sep x = false -> PyStr.split OsPath.sep s = w :: ws ->
  PyStr.split OsPath.sep (String x s) = String x w :: ws.
Proof. intros Hx Hs. cbn [PyStr.split]. now rewrite Hx, Hs. Qed.

Lemma prefix_cons_inv (a : ascii) (s1 s2 : string) :
  String.prefix (String a s1) s2 = true ->
  exists s2', s2 = String a s2' /\ String.prefix s1 s2' = true.
Proof.
  destruct s2 as [|b s2]; cbn [String.prefix]; [discriminate|].
  destruct (ascii_dec a b) as [->|]; [eauto | discriminate].
Qed.

Lemma replace_go_cons (old new : string) (c : ascii) (s : string) :
  PyStr.replace_go old new 0 (String c s)
  = if String.prefix old (String c s)
    then new +:+ PyStr.replace_go old new (String.length old - 1) s
    else String c (PyStr.replace_go old new 0 s).
Proof. reflexivity. Qed.

Lemma replace_go_skip (old new : string) (k : nat) (c : ascii) (s : string) :
  PyStr.replace_go old new (S k) (String c s) = PyStr.replace_go old new k s.
Proof. reflexivity. Qed.

Lemma prefix_app (a s : string) : String.prefix a (a +:+ s) = true.
Proof.
  induction a as [|c a IH]; [now destruct s|].
  rewrite append_cons. cbn [String.prefix]. destruct (ascii_dec c c); [exact IH | congruence].
Qed.

Lemma replace_go_dot_match (s : string) :
  PyStr.replace_go "/./" "/" 0 (String "/" (String "." (String "/" s)))
  = String "/" (PyStr.replace_go "/./" "/" 0 s).
Proof.
  rewrite replace_go_cons.
  change (String "/" (String "." (String "/" s))) with ("/./" +:+ s) at 1.
  rewrite prefix_app. change (String.length "/./" - 1) with 2.
  now rewrite !replace_go_skip.
Qed.

(** The first substitution of [_normalize_path] leaves the first component
    alone and drops components that are ["."]. *)
Lemma replace_dot_split (n : nat) (s : string) :
  String.length s <= n ->
  exists w ws ws',
    PyStr.split OsPath.sep s = w :: ws /\
    PyStr.split OsPath.sep (PyStr.replace_go "/./" "/" 0 s) = w :: ws' /\
    List.filter kept ws = List.filter kept ws'.
Proof.
  revert s. induction n as [|n IH]; intros s Hn.
  - destruct s; [|cbn in Hn; lia]. exists "", [], []. repeat split.
  - destruct s as [|x s]; [exists "", [], []; repeat split|].
    cbn [String.length] in Hn.
    destruct (String.prefix "/./" (String x s)) eqn:Hp.
    + apply prefix_cons_inv in Hp as (s1 & [= -> ->] & Hp).
      apply prefix_cons_inv in Hp as (s2 & -> & Hp).
      apply prefix_cons_inv in Hp as (s & -> & _).
      destruct (IH s) as (w & ws & ws' & H1 & H2 & H3); [cbn in Hn; lia|].
      exists "", ("." :: w :: ws), (w :: ws').
      rewrite replace_go_dot_match.
      split; [|split].
      * change (PyStr.split OsPath.sep (String "/" (String "." (String "/" s))))
          with ("" :: match PyStr.split OsPath.sep (String "/" s) with
                      | w :: ws => String "." w :: ws
                      | [] => ["."]
                      end).
        rewrite split_sep_cons, H1. reflexivity.
      * rewrite split_sep_cons, H2. reflexivity.
      * cbn [List.filter]. cbn. now rewrite H3.
    + destruct (IH s) as (w & ws & ws' & H1 & H2 & H3); [lia|].
      assert (E : PyStr.replace_go "/./" "/" 0 (String x s)
                  = String x (PyStr.replace_go "/./" "/" 0 s)).
      { cbn [PyStr.replace_go]. now rewrite Hp. }
      rewrite E. destruct (Ascii.eqb OsPath.sep x) eqn:Hx.
      * apply Ascii.eqb_eq in Hx. subst x. exists "", (w :: ws), (w :: ws').
        rewrite !split_sep_cons, H1, H2. repeat split. cbn [List.filter]. now rewrite H3.
      * exists (String x w), ws, ws'.
        rewrite (split_other_cons x s w ws Hx H1),
                (split_other_cons x _ w ws' Hx H2). auto.
Qed.

Lemma resolve_replace_dot (s : string) :
  OsPath.resolve (PyStr.replace s "/./" "/") = OsPath.resolve s.
Proof.
  destruct (replace_dot_split (String.length s) s (le_n _)) as (w & ws & ws' & H1 & H2 & H3).
  unfold OsPath.resolve, PyStr.replace. rewrite H1, H2. cbn [List.filter]. now rewrite H3.
Qed.

Lemma resolve_drop_dot_slash (s : string) :
  PyStr.startswith s "./" = true -> OsPath.resolve (PyStr.drop 2 s) = OsPath.resolve s.
Proof.
  unfold PyStr.startswith. intros Hp.
  apply prefix_cons_inv in Hp as (s1 & -> & Hp).
  apply prefix_cons_inv in Hp as (s' & -> & _). rename s' into s.
  cbn [PyStr.drop]. unfold OsPath.resolve.
  destruct (split_nonempty OsPath.sep s) as (w & ws & Hs).
  change (PyStr.split OsPath.sep (String "." (String "/" s)))
    with (match PyStr.split OsPath.sep (String "/" s) with
          | w :: ws => String "." w :: ws
          | [] => ["."]
          end).
  rewrite split_sep_cons. reflexivity.
Qed.

Lemma resolve_normalize (p : string) : OsPath.resolve (_normalize_path p) = OsPath.resolve p.
Proof.
  unfold _normalize_path.
  destruct (PyStr.startswith (PyStr.replace p "/./" "/") "./") eqn:E.
  - rewrite resolve_drop_dot_slash by exact E. apply resolve_replace_dot.
  - apply resolve_replace_dot.
Qed.

Lemma prefix_empty (s : string) : String.prefix "" s = true.
Proof. now destruct s. Qed.

(** The first substitution keeps the first character. *)
Lemma replace_dot_first (p : string) :
  PyStr.startswith (PyStr.replace p "/./" "/") "/" = PyStr.startswith p "/" /\
  (PyStr.startswith (PyStr.replace p "/./" "/") "./" = true -> PyStr.startswith p "/" = false).
Proof.
  unfold PyStr.replace, PyStr.startswith. destruct p as [|c p]; [split; [reflexivity | discriminate]|].
  rewrite replace_go_cons. destruct (String.prefix "/./" (String c p)) eqn:E.
  - apply prefix_cons_inv in E as (p' & [= -> ->] & _).
    change ("/" +:+ ?x) with (String "/" x). cbn [String.prefix].
    destruct (ascii_dec "/" "/"); [|congruence].
    destruct (ascii_dec "." "/"); [discriminate|].
    split; [now rewrite !prefix_empty | discriminate].
  - cbn [String.prefix].
    split; [destruct (ascii_dec "/" c); [now rewrite !prefix_empty | reflexivity]|].
    destruct (ascii_dec "." c) as [<-|]; [reflexivity | discriminate].
Qed.

(** A relative path can be normalised to an absolute one. *)
Example normalize_makes_absolute : _normalize_path ".//etc/passwd" = "/etc/passwd".
Proof. reflexivity. Qed.

(** X1. The normal form of a path has the name components of the path
    (its components other than the empty ones and [.]), and it is
    absolute exactly when the path is absolute or the path, once [/./] is
    replaced, begins with [.//]. So [_normalize_path] keeps the file that
    a path names below the work root, except that it turns a relative
    path such as [.//etc/passwd] into the absolute [/etc/passwd]. *)
Theorem X1_normalize_path_keeps_the_components (p : string) :
  OsPath.resolve (_normalize_path p) = OsPath.resolve p /\
  PyStr.startswith (_normalize_path p) "/"
  = PyStr.startswith p "/" || PyStr.startswith (PyStr.replace p "/./" "/") ".//".
Proof.
  destruct (replace_dot_first p) as [Hfirst Hrel].
  unfold _normalize_path.
  destruct (PyStr.startswith (PyStr.replace p "/./" "/") "./") eqn:E.
  - split.
    + rewrite resolve_drop_dot_slash by exact E. apply resolve_replace_dot.
    + rewrite (Hrel eq_refl). cbn [orb]. unfold PyStr.startswith in *.
      apply prefix_cons_inv in E as (q1 & -> & E).
      apply prefix_cons_inv in E as (q & -> & _).
      cbn [PyStr.drop String.prefix].
      destruct (ascii_dec "." "."); [|congruence].
      destruct (ascii_dec "/" "/"); [|congruence].
      destruct q as [|c q]; [reflexivity|]. cbn [String.prefix].
      destruct (ascii_dec "/" c); [|reflexivity]. now rewrite !prefix_empty.
  - split; [apply resolve_replace_dot|].
    rewrite Hfirst.
    assert (H : PyStr.startswith (PyStr.replace p "/./" "/") ".//" = false).
    { unfold PyStr.startswith in *.
      destruct (String.prefix ".//" (PyStr.replace p "/./" "/")) eqn:E'; [|reflexivity].
      apply prefix_cons_inv in E' as (q1 & Eq & E'). rewrite Eq in E.
      apply prefix_cons_inv in E' as (q & -> & _).
      cbn [String.prefix] in E.
      destruct (ascii_dec "." "."); [|congruence].
      destruct (ascii_dec "/" "/"); [|congruence].
      now destruct q. }
    rewrite H. now rewrite orb_false_r.
Qed.

(** ** The file system: writing and reading *)

Lemma makedirs_frame_list (l : list (list string)) (d d1 : disk) :
  for_each (fun a d => match d !! a with
                       | None => Ok (<[a := EDir]> d)
                       | Some EDir => Ok d
                       | Some (EFile _) => Raise OSError
                       end) l d = Ok d1 ->
  forall K, d1 !! K = d !! K \/ d !! K = None /\ d1 !! K = Some EDir /\ K ∈ l.
Proof.
  revert d. induction l as [|a l IH]; intros d H K; cbn [for_each] in H.
  - injection H as <-. now left.
  - apply bind_ok in H as (s1 & Hstep & H).
    destruct (IH s1 H K) as [E|(E1 & E2 & Hin)].
    + rewrite E. destruct (d !! a) as [[c|]|] eqn:Ea; try discriminate; injection Hstep as <-;
        [now left|].
      destruct (decide (K = a)) as [->|Hne].
      * right. rewrite lookup_insert_eq in E. rewrite lookup_insert_eq. repeat split; auto.
        apply list_elem_of_here.
      * left. now rewrite lookup_insert_ne.
    + right. split; [|split; [exact E2 | now apply list_elem_of_further]].
      destruct (d !! a) as [[c|]|] eqn:Ea; try discriminate; injection Hstep as <-;
        [exact E1|].
      destruct (decide (K = a)) as [->|Hne]; [now rewrite lookup_insert_eq in E1|].
      now rewrite lookup_insert_ne in E1.
Qed.

Lemma makedirs_dirs (key : list string) (d d1 : disk) :
  FileSystem.makedirs key d = Ok d1 ->
  forall a, a ∈ FileSystem.ancestors key -> d1 !! a = Some EDir.
Proof.
  unfold FileSystem.makedirs. generalize (FileSystem.ancestors key) as l.
  intros l. revert d. induction l as [|a l IH]; intros d H b Hb; [now apply not_elem_of_nil in Hb|].
  cbn [for_each] in H. apply bind_ok in H as (s1 & Hstep & H).
  apply elem_of_cons in Hb as [->|Hb]; [|now apply (IH s1)].
  assert (Ha : s1 !! a = Some EDir).
  { destruct (d !! a) as [[c|]|] eqn:E; try discriminate; injection Hstep as <-;
      [exact E | apply lookup_insert_eq]. }
  pose proof (makedirs_frame_list l s1 d1 H a) as [->|[E _]]; congruence.
Qed.

Lemma add_file_key_nonempty (parts : list string) (body : res content) (d d' : disk) :
  FileSystem.add_file parts body d = Ok d' ->
  OsPath.resolve (_normalize_path (FileSystem.join_parts parts)) <> [].
Proof.
  unfold FileSystem.add_file. intros H E. rewrite E in H.
  apply bind_ok in H as (d1 & _ & H). discriminate H.
Qed.

Lemma read_after_add_file (parts : list string) (body : res content) (d d' : disk) :
  FileSystem.add_file parts body d = Ok d' ->
  exists c, body = Ok c /\ FileSystem.read parts d' = Ok (Some c).
Proof.
  intros H. pose proof (add_file_key_nonempty _ _ _ _ H) as Hne.
  apply add_file_spec in H as (c & Hc & Hnew & _). exists c. split; [exact Hc|].
  unfold FileSystem.read. rewrite resolve_normalize in Hnew, Hne.
  destruct (OsPath.resolve (FileSystem.join_parts parts)) as [|x k]; [congruence|].
  cbn [FileSystem.lookup_entry]. now rewrite Hnew.
Qed.

(** X2. What [add_file] writes, [read] reads back, whatever the parts of
    the path are: [add_file] normalises the path and [read] does not, and
    both reach the same file. *)
Theorem X2_read_after_add_file (parts : list string) (c : content) (d d' : disk) :
  FileSystem.add_file parts (Ok c) d = Ok d' ->
  FileSystem.read parts d' = Ok (Some c).
Proof.
  intros H. apply read_after_add_file in H as (c' & [= <-] & H). exact H.
Qed.

Lemma X2_read_after_add_file_witness :
  FileSystem.read ["."; "e"; "./x.yaml"]
    (outcome ∅ (FileSystem.add_file ["."; "e"; "./x.yaml"] (Ok (CText "v")) disk_d_e))
  = Ok (Some (CText "v")).
Proof.
  apply (X2_read_after_add_file _ _ disk_d_e). apply outcome_ok. vm_compute. reflexivity.
Defined.

(** X3. After [add_file] every directory above the new file exists, and
    nothing else has changed: every other entry is what it was, or is one
    of those directories, newly made. *)
Theorem X3_add_file_makes_the_parents (parts : list string) (body : res content) (d d' : disk) :
  FileSystem.add_file parts body d = Ok d' ->
  let key := OsPath.resolve (_normalize_path (FileSystem.join_parts parts)) in
  (forall n, 0 < n < List.length key -> d' !! take n key = Some EDir) /\
  (forall K, K <> key ->
             d' !! K = d !! K \/
             d !! K = None /\ d' !! K = Some EDir /\
             exists n, 0 < n < List.length key /\ K = take n key).
Proof.
  intros H key. unfold FileSystem.add_file in H. fold key in H.
  apply bind_ok in H as (d1 & Hmk & H).
  assert (E : d' = <[key := match body with Ok c => EFile c | Raise _ => EDir end]> d1).
  { destruct (FileSystem.lookup_entry d1 key) as [[c|]|]; try discriminate;
      destruct body; try discriminate; now injection H as <-. }
  assert (Hanc : forall a, a ∈ FileSystem.ancestors key <->
                           exists n, 0 < n < List.length key /\ a = take n key).
  { intros a. unfold FileSystem.ancestors. rewrite list_elem_of_fmap. split.
    - intros (n & -> & Hn). exists n. split; [|reflexivity].
      apply list_elem_of_In, List.in_seq in Hn. lia.
    - intros (n & Hn & ->). exists n. split; [reflexivity|].
      apply list_elem_of_In, List.in_seq. lia. }
  split.
  - intros n Hn. subst d'. rewrite lookup_insert_ne.
    + apply (makedirs_dirs key d d1 Hmk). apply Hanc. eauto.
    + intros E. apply (f_equal List.length) in E. rewrite length_take in E. lia.
  - intros K HK. subst d'. rewrite lookup_insert_ne by congruence.
    destruct (makedirs_frame_list _ _ _ Hmk K) as [->|(E1 & E2 & Hin)]; [now left|].
    right. repeat split; auto. now apply Hanc.
Qed.

Lemma X3_add_file_makes_the_parents_witness :
  outcome ∅ (FileSystem.add_file ["p/q"; "x.yaml"] (Ok (CText "v")) ∅) !! ["p"; "q"]
  = Some EDir.
Proof.
  destruct (X3_add_file_makes_the_parents ["p/q"; "x.yaml"] (Ok (CText "v")) ∅
              (outcome ∅ (FileSystem.add_file ["p/q"; "x.yaml"] (Ok (CText "v")) ∅)))
    as [Hdirs _].
  - apply outcome_ok. vm_compute. reflexivity.
  - apply (Hdirs 2). vm_compute. lia.
Defined.

Lemma makedirs_file_above (l : list (list string)) (a : list string) (c : content) (d : disk) :
  a ∈ l -> d !! a = Some (EFile c) ->
  for_each (fun a d => match d !! a with
                       | None => Ok (<[a := EDir]> d)
                       | Some EDir => Ok d
                       | Some (EFile _) => Raise OSError
                       end) l d = Raise OSError.
Proof.
  revert d. induction l as [|b l IH]; intros d Hin Ha; [now apply not_elem_of_nil in Hin|].
  cbn [for_each]. destruct (decide (b = a)) as [->|Hne]; [now rewrite Ha|].
  apply elem_of_cons in Hin as [->|Hin]; [congruence|].
  destruct (d !! b) as [[c'|]|] eqn:Eb; cbn [mbind res_bind]; [reflexivity| |].
  - now apply IH.
  - apply IH; [exact Hin|]. now rewrite lookup_insert_ne.
Qed.

(** X4. [add_file] raises [OSError] when the path names a directory, and
    when something above the file is a file. *)
Theorem X4_add_file_refuses (parts : list string) (body : res content) (d : disk) :
  let key := OsPath.resolve (_normalize_path (FileSystem.join_parts parts)) in
  FileSystem.lookup_entry d key = Some EDir \/
  (exists n c, 0 < n < List.length key /\ d !! take n key = Some (EFile c)) ->
  FileSystem.add_file parts body d = Raise OSError.
Proof.
  intros key H. unfold FileSystem.add_file. fold key.
  destruct H as [Hdir|(n & c & Hn & Hfile)].
  - destruct (FileSystem.makedirs key d) as [d1|e] eqn:Hmk.
    + cbn [mbind res_bind].
      assert (E : FileSystem.lookup_entry d1 key = Some EDir).
      { destruct key as [|x k]; [reflexivity|]. cbn [FileSystem.lookup_entry] in *.
        now rewrite (makedirs_lookup _ _ _ Hmk). }
      now rewrite E.
    + cbn [mbind res_bind]. f_equal. revert Hmk. unfold FileSystem.makedirs.
      generalize (FileSystem.ancestors key) as l. intros l. clear Hdir. revert d.
      induction l as [|a l IH]; intros d Hmk; [discriminate|].
      cbn [for_each] in Hmk. destruct (d !! a) as [[c|]|]; cbn [mbind res_bind] in Hmk.
      * now injection Hmk.
      * now apply (IH d).
      * now apply (IH (<[a:=EDir]> d)).
  - unfold FileSystem.makedirs. rewrite (makedirs_file_above _ (take n key) c); auto.
    unfold FileSystem.ancestors. apply list_elem_of_fmap. exists n. split; [reflexivity|].
    apply list_elem_of_In, List.in_seq. lia.
Qed.

Lemma X4_add_file_refuses_witness :
  FileSystem.add_file ["e/notes.txt"; "x.yaml"] (Ok (CText "v")) disk_d_e = Raise OSError /\
  FileSystem.add_file ["./e"] (Ok (CText "v")) disk_d_e = Raise OSError.
Proof.
  split.
  - apply X4_add_file_refuses. right. exists 2, (CText "x"). vm_compute. split; [lia | reflexivity].
  - apply (X4_add_file_refuses ["./e"]). left. reflexivity.
Defined.

(** ** The file system: removing and listing *)

(** X5. [rm] succeeds on what is no directory only; the path then names
    nothing, and every other entry is what it was. *)
Theorem X5_rm_removes_the_file_alone (path : string) (d d' : disk) :
  FileSystem.rm path d = Ok d' ->
  FileSystem.lookup_entry d (OsPath.resolve path) <> Some EDir /\
  FileSystem.exists_ d' path = false /\
  FileSystem.read [path] d' = Ok None /\
  forall K, K <> OsPath.resolve path -> d' !! K = d !! K.
Proof.
  intros H. apply rm_spec in H as [Hnd ->]. split; [exact Hnd|].
  assert (E : FileSystem.lookup_entry (delete (OsPath.resolve path) d) (OsPath.resolve path)
              = None).
  { destruct (OsPath.resolve path) as [|x k]; [now destruct Hnd|].
    cbn [FileSystem.lookup_entry]. apply lookup_delete_eq. }
  split; [|split].
  - unfold FileSystem.exists_. rewrite E. apply bool_decide_eq_false_2. now intros [? ?].
  - unfold FileSystem.read. cbn [FileSystem.join_parts OsPath.join fold_left]. now rewrite E.
  - intros K HK. now apply lookup_delete_ne.
Qed.

Lemma X5_rm_removes_the_file_alone_witness :
  FileSystem.read ["e/./notes.txt"]
    (outcome ∅ (FileSystem.rm "e/./notes.txt" disk_d_e)) = Ok None.
Proof.
  apply (X5_rm_removes_the_file_alone "e/./notes.txt" disk_d_e).
  apply outcome_ok. vm_compute. reflexivity.
Defined.

(** X6. [rmdir] on a path below the root never raises and removes at most
    the entry at the path, and that only when it is an empty directory:
    files, directories that hold anything, and all other entries stay. *)
Theorem X6_rmdir_removes_empty_directories_only (path : string) (d : disk) (K : list string) :
  OsPath.resolve path <> [] ->
  FileSystem.rmdir path d !! K
  = if bool_decide (K = OsPath.resolve path /\ d !! K = Some EDir
                    /\ FileSystem.children d K = [])
    then None else d !! K.
Proof.
  intros Hne. unfold FileSystem.rmdir.
  destruct (OsPath.resolve path) as [|x k] eqn:Ek; [congruence|].
  destruct (d !! (x :: k)) as [[c|]|] eqn:E.
  - rewrite bool_decide_eq_false_2; [reflexivity|]. intros (-> & ? & _). congruence.
  - destruct (FileSystem.children d (x :: k)) eqn:Ec.
    + case_bool_decide as Hc.
      * destruct Hc as (-> & _). apply lookup_delete_eq.
      * apply lookup_delete_ne. intros <-. apply Hc. auto.
    + rewrite bool_decide_eq_false_2; [reflexivity|]. intros (-> & _ & ?). congruence.
  - rewrite bool_decide_eq_false_2; [reflexivity|]. intros (-> & ? & _). congruence.
Qed.

Lemma X6_rmdir_removes_empty_directories_only_witness :
  FileSystem.rmdir "./d" disk_d_e !! ["d"] = None /\
  FileSystem.rmdir "./e" disk_d_e !! ["e"] = Some EDir.
Proof.
  split.
  - rewrite (X6_rmdir_removes_empty_directories_only "./d" disk_d_e ["d"]) by (vm_compute; discriminate).
    reflexivity.
  - rewrite (X6_rmdir_removes_empty_directories_only "./e" disk_d_e ["e"]) by (vm_compute; discriminate).
    reflexivity.
Defined.

Lemma scandir_names (p : string) (d : disk) (es : list (string * entry)) :
  FileSystem.scandir d p = Ok es ->
  forall n e, (n, e) ∈ es <-> d !! (OsPath.resolve p ++ [n]) = Some e.
Proof.
  unfold FileSystem.scandir.
  destruct (FileSystem.lookup_entry d (OsPath.resolve p)) as [[c|]|]; try discriminate.
  intros [= <-] n e. apply elem_of_children.
Qed.

(** X7. [ls_dirs] lists exactly the directories in the directory whose
    names do not begin with a dot, and each of them is in [ls_files] of
    the same path. *)
Theorem X7_ls_dirs_lists_the_visible_directories (p : string) (d : disk) (l : list string) :
  FileSystem.ls_dirs p d = Ok l ->
  (forall s, s ∈ l <->
             d !! (OsPath.resolve p ++ [s]) = Some EDir /\ PyStr.startswith s "." = false) /\
  exists l', FileSystem.ls_files p d = Ok l' /\ l ⊆ l'.
Proof.
  unfold FileSystem.ls_dirs, FileSystem.ls_files, FileSystem.exists_.
  intros H. apply bind_ok in H as (es & Hes & H). injection H as <-.
  pose proof (scandir_names _ _ _ Hes) as Hn.
  assert (Hl : forall s, s ∈ (List.filter (fun ne : string * entry =>
                 bool_decide (ne.2 = EDir) && negb (PyStr.startswith ne.1 ".")) es).*1 <->
               d !! (OsPath.resolve p ++ [s]) = Some EDir /\ PyStr.startswith s "." = false).
  { intros s. rewrite list_elem_of_fmap. split.
    - intros ([n e] & -> & Hin). apply list_elem_of_In, List.filter_In in Hin as [Hin Hf].
      apply list_elem_of_In, Hn in Hin. apply andb_prop in Hf as [He Hs].
      apply bool_decide_eq_true in He. cbn [fst snd] in *. subst e.
      split; [exact Hin | now apply negb_true_iff in Hs].
    - intros [Hd Hs]. exists (s, EDir). split; [reflexivity|].
      apply list_elem_of_In, List.filter_In. split; [now apply list_elem_of_In, Hn|].
      cbn [fst snd]. rewrite Hs. now rewrite bool_decide_eq_true_2. }
  split; [exact Hl|].
  assert (Hex : is_Some (FileSystem.lookup_entry d (OsPath.resolve p))).
  { unfold FileSystem.scandir in Hes.
    destruct (FileSystem.lookup_entry d (OsPath.resolve p)); [eauto | discriminate]. }
  rewrite bool_decide_eq_true_2 by exact Hex. rewrite Hes. cbn [mbind res_bind].
  eexists. split; [reflexivity|]. intros s Hs. apply Hl in Hs as [Hs _].
  apply list_elem_of_fmap. exists (s, EDir). split; [reflexivity | now apply Hn].
Qed.

Lemma X7_ls_dirs_lists_the_visible_directories_witness :
  "e" ∈ outcome [] (FileSystem.ls_dirs "./" disk_d_e).
Proof.
  destruct (X7_ls_dirs_lists_the_visible_directories "./" disk_d_e
              (outcome [] (FileSystem.ls_dirs "./" disk_d_e))) as [H _].
  - apply outcome_ok. vm_compute. reflexivity.
  - apply H. vm_compute. split; reflexivity.
Defined.

(** X8. On a path that does not exist [ls_files] gives the empty list,
    where [ls_dirs] raises [OSError]; on a file both raise it. *)
Theorem X8_listing_what_is_no_directory (p : string) (d : disk) :
  FileSystem.lookup_entry d (OsPath.resolve p) <> Some EDir ->
  FileSystem.ls_dirs p d = Raise OSError /\
  FileSystem.ls_files p d
  = if FileSystem.exists_ d p then Raise OSError else Ok [].
Proof.
  intros H. unfold FileSystem.ls_dirs, FileSystem.ls_files, FileSystem.exists_, FileSystem.scandir.
  destruct (FileSystem.lookup_entry d (OsPath.resolve p)) as [[c|]|]; [|congruence|].
  - rewrite bool_decide_eq_true_2 by eauto. split; reflexivity.
  - rewrite bool_decide_eq_false_2 by (now intros [? ?]). split; reflexivity.
Qed.

Lemma X8_listing_what_is_no_directory_witness :
  FileSystem.ls_dirs "nowhere" disk_d_e = Raise OSError /\
  FileSystem.ls_files "nowhere" disk_d_e = Ok [].
Proof.
  destruct (X8_listing_what_is_no_directory "nowhere" disk_d_e) as [H1 H2].
  - vm_compute. discriminate.
  - split; [exact H1 | exact H2].
Defined.

(** ** The stats adapters *)

(** X9. What the plain adapter stores under a path it loads from that
    path. (An empty Series is left out: pandas makes no Series of the empty
    dict that the file then holds.) *)
Theorem X9_get_after_set (path : string) (s : series) (dflt : option series) (d d' : disk) :
  s <> ∅ ->
  StatsFSAdapter.set path s d = Ok d' ->
  StatsFSAdapter.get path dflt d' = Ok (Some s).
Proof.
  intros _ H. unfold StatsFSAdapter.set in H. unfold StatsFSAdapter.get.
  apply read_after_add_file in H as (c & Hc & ->). cbn [mbind res_bind].
  unfold series_to_dict in Hc. destruct (has_nan s); [discriminate|]. injection Hc as <-.
  reflexivity.
Qed.

Lemma X9_get_after_set_witness :
  StatsFSAdapter.get "./a//b" None
    (outcome ∅ (StatsFSAdapter.set "./a//b" (loc 7) disk_d_e)) = Ok (Some (loc 7)).
Proof.
  apply (X9_get_after_set "./a//b" (loc 7) None disk_d_e).
  - by_evaluation.
  - apply outcome_ok. vm_compute. reflexivity.
Defined.

(** *** The caching adapter on clean paths *)

Lemma split_elems_no_sep (c : ascii) (s w : string) :
  w ∈ PyStr.split c s -> PyStr.contains c w = false.
Proof.
  revert w. induction s as [|x s IH]; intros w; cbn [PyStr.split].
  - intros ->%list_elem_of_singleton. reflexivity.
  - destruct (Ascii.eqb c x) eqn:Hx.
    + intros [->|Hw]%elem_of_cons; [reflexivity | now apply IH].
    + destruct (split_nonempty c s) as (w0 & ws & Hs). rewrite Hs in IH |- *.
      intros [->|Hw]%elem_of_cons.
      * cbn [PyStr.contains]. rewrite Hx. apply IH, list_elem_of_here.
      * apply IH. now apply list_elem_of_further.
Qed.

Lemma resolve_good (p : string) : good_names (OsPath.resolve p).
Proof.
  apply Forall_forall. intros w Hw. unfold OsPath.resolve in Hw.
  apply list_elem_of_In, List.filter_In in Hw as [Hw Hk].
  apply list_elem_of_In, split_elems_no_sep in Hw.
  unfold good_name. now rewrite Hw, Hk.
Qed.

Lemma clean_path_inv (p : string) :
  clean_path p = true ->
  exists k m, good_names k /\ good_name m = true /\ p = key_of (k ++ [m]).
Proof.
  unfold clean_path. intros [H1 H2]%andb_prop.
  apply bool_decide_eq_true in H1. apply negb_true_iff, bool_decide_eq_false in H2.
  pose proof (resolve_good p) as Hg.
  destruct (List.exists_last H2) as (k & m & E). rewrite E in *.
  apply Forall_app in Hg as [Hk Hm]. exists k, m. repeat split; auto. now inversion Hm.
Qed.

Lemma clean_normalize (p : string) : clean_path p = true -> _normalize_path p = p.
Proof.
  intros (k & m & Hk & Hm & ->)%clean_path_inv.
  apply normalize_key_of. now apply good_names_snoc.
Qed.

Lemma clean_key_inj (k k' : list string) (m m' : string) :
  good_names k -> good_name m = true -> good_names k' -> good_name m' = true ->
  k ++ [m +:+ ".stats.yaml"] = k' ++ [m' +:+ ".stats.yaml"] ->
  key_of (k ++ [m]) = key_of (k' ++ [m']).
Proof.
  intros _ _ _ _ E. apply app_inj_tail in E as [-> E]. now apply append_cancel_r in E as ->.
Qed.

Lemma plain_set_spec (k : list string) (m : string) (s : series) (d d' : disk) :
  good_names k -> good_name m = true ->
  StatsFSAdapter.set (key_of (k ++ [m])) s d = Ok d' ->
  d' !! (k ++ [m +:+ ".stats.yaml"]) = Some (EFile (CStats s)) /\
  forall K, K <> k ++ [m +:+ ".stats.yaml"] ->
            d' !! K = d !! K \/ d !! K = None /\ d' !! K = Some EDir.
Proof.
  intros Hk Hm H. unfold StatsFSAdapter.set in H.
  pose proof (add_file_frame _ _ _ _ H) as Hframe.
  apply add_file_spec in H as (c & Hc & Hnew & _).
  cbn [FileSystem.join_parts OsPath.join fold_left] in Hnew, Hframe.
  rewrite resolve_key_app in Hnew, Hframe by (auto using stats_suffix_no_sep).
  unfold series_to_dict in Hc. destruct (has_nan s); [discriminate|]. injection Hc as <-.
  auto.
Qed.

Lemma plain_rm_spec (k : list string) (m : string) (d d' : disk) :
  good_names k -> good_name m = true ->
  StatsFSAdapter.rm (key_of (k ++ [m])) d = Ok d' ->
  d' = delete (k ++ [m +:+ ".stats.yaml"]) d.
Proof.
  intros Hk Hm H. unfold StatsFSAdapter.rm in H. apply rm_spec in H as [_ ->].
  now rewrite resolve_stats_key.
Qed.

Lemma cache_agrees_set (p : string) (s : series) (st st' : store) :
  clean_path p = true -> cache_agrees st ->
  CachedStatsFSAdapter.set p s st = Ok st' -> cache_agrees st'.
Proof.
  intros Hp Hag H. unfold CachedStatsFSAdapter.set in H.
  rewrite (clean_normalize p Hp) in H.
  apply bind_ok in H as (d' & Hset & H). injection H as <-.
  destruct (clean_path_inv p Hp) as (k & m & Hk & Hm & ->).
  destruct (plain_set_spec _ _ _ _ _ Hk Hm Hset) as [Hnew Hframe].
  intros q cv v Hq Hc Hget. cbn [st_disk st_cache] in *.
  destruct (clean_path_inv q Hq) as (k' & m' & Hk' & Hm' & ->).
  destruct (decide (key_of (k' ++ [m']) = key_of (k ++ [m]))) as [E|Hne].
  - rewrite E in *. rewrite lookup_insert_eq in Hc. injection Hc as <-.
    rewrite plain_get_at, Hnew in Hget by assumption. cbn in Hget. now injection Hget as <-.
  - rewrite lookup_insert_ne in Hc by congruence.
    rewrite plain_get_at in Hget by assumption.
    destruct (Hframe (k' ++ [m' +:+ ".stats.yaml"])) as [E|[_ E]].
    + intros E. apply Hne. now apply clean_key_inj.
    + rewrite E in Hget. apply (Hag _ cv v Hq Hc). now rewrite plain_get_at.
    + rewrite E in Hget. discriminate.
Qed.

Lemma cache_agrees_rm (p : string) (st st' : store) :
  clean_path p = true -> cache_agrees st ->
  CachedStatsFSAdapter.rm p st = Ok st' -> cache_agrees st'.
Proof.
  intros Hp Hag H. unfold CachedStatsFSAdapter.rm in H.
  apply bind_ok in H as (d' & Hrm & H). injection H as <-.
  destruct (clean_path_inv p Hp) as (k & m & Hk & Hm & ->).
  apply plain_rm_spec in Hrm; [|assumption..]. subst d'.
  intros q cv v Hq Hc Hget. cbn [st_disk st_cache] in *.
  destruct (clean_path_inv q Hq) as (k' & m' & Hk' & Hm' & ->).
  rewrite plain_get_at in Hget by assumption.
  destruct (decide (key_of (k' ++ [m']) = key_of (k ++ [m]))) as [E|Hne].
  - rewrite E in *. rewrite lookup_insert_eq in Hc. injection Hc as <-.
    apply key_of_inj in E; [|now apply good_names_snoc..].
    apply app_inj_tail in E as [-> ->]. rewrite lookup_delete_eq in Hget.
    now injection Hget as <-.
  - rewrite lookup_insert_ne in Hc by congruence.
    rewrite lookup_delete_ne in Hget.
    + apply (Hag _ cv v Hq Hc). now rewrite plain_get_at.
    + intros E. apply Hne. symmetry. now apply clean_key_inj.
Qed.

Lemma cached_get_spec (p : string) (st st' : store) (v v' : option series) :
  clean_path p = true -> cache_agrees st ->
  StatsFSAdapter.get p None (st_disk st) = Ok v ->
  CachedStatsFSAdapter.get p None st = Ok (v', st') ->
  v' = v /\ st_disk st' = st_disk st /\ cache_agrees st'.
Proof.
  intros Hp Hag Hplain H. unfold CachedStatsFSAdapter.get in H.
  rewrite (clean_normalize p Hp) in H.
  destruct (st_cache st !! p) as [cv|] eqn:E.
  - assert (Hv : v = cached cv) by (eapply Hag; eauto).
    destruct cv as [|w]; injection H as <- <-; auto.
  - rewrite Hplain in H. injection H as <- <-. repeat split; auto.
    intros q cv w Hq Hc Hget. cbn [st_disk st_cache] in *.
    destruct (decide (q = p)) as [->|Hne].
    + rewrite lookup_insert_eq in Hc. injection Hc as <-. cbn. congruence.
    + rewrite lookup_insert_ne in Hc by congruence. eapply Hag; eauto.
Qed.

Lemma cached_get_ok (p : string) (st : store) (v : option series) :
  StatsFSAdapter.get (_normalize_path p) None (st_disk st) = Ok v ->
  is_ok (CachedStatsFSAdapter.get p None st) = true.
Proof.
  intros H. unfold CachedStatsFSAdapter.get.
  destruct (st_cache st !! _normalize_path p) as [[|w]|]; try reflexivity. now rewrite H.
Qed.

Lemma cache_agrees_empty (d : disk) : cache_agrees (mkStore d ∅).
Proof. intros q cv v _ H. cbn in H. now rewrite lookup_empty in H. Qed.

(** X10. On clean paths the cache of the adapter cannot be seen: a run of
    [set], [get] (with the default [None]) and [rm] calls that the plain
    adapter completes, the caching adapter completes with the same
    results, from any cache that agrees with the disk, the empty one among
    them. *)
Theorem X10_cache_is_transparent_on_clean_paths (ops : list adapter_op) (st : store)
    (vs : list (option series)) :
  cache_agrees st -> Forall clean_op ops ->
  run_plain ops (st_disk st) = Ok vs -> run_cached ops st = Ok vs.
Proof.
  intros Hag Hops. revert st vs Hag.
  induction Hops as [|op ops Hop Hops IH]; intros st vs Hag; [easy|].
  destruct op as [p s|p dflt|p]; cbn [run_plain run_cached clean_op] in *.
  - intros H. apply bind_ok in H as (d' & Hset & H).
    assert (Hc : CachedStatsFSAdapter.set p s st
                 = Ok (mkStore d' (<[p := Pickled (Some s)]> (st_cache st)))).
    { unfold CachedStatsFSAdapter.set. rewrite (clean_normalize p Hop), Hset. reflexivity. }
    rewrite Hc. cbn [mbind res_bind]. apply IH; [|exact H].
    eapply cache_agrees_set; eauto.
  - destruct Hop as [Hp ->]. intros H. apply bind_ok in H as (v & Hget & H).
    apply bind_ok in H as (vs' & Hrest & H). injection H as <-.
    pose proof (cached_get_ok p st v) as Hok. rewrite (clean_normalize p Hp) in Hok.
    specialize (Hok Hget).
    destruct (CachedStatsFSAdapter.get p None st) as [[v' st']|] eqn:Hc; [|discriminate].
    destruct (cached_get_spec _ _ _ _ _ Hp Hag Hget Hc) as (-> & Hd & Hag').
    cbn [mbind res_bind]. rewrite <- Hd in Hrest. now rewrite (IH st' vs' Hag' Hrest).
  - intros H. apply bind_ok in H as (d' & Hrm & H).
    assert (Hc : CachedStatsFSAdapter.rm p st
                 = Ok (mkStore d' (<[p := CacheNone]> (st_cache st)))).
    { unfold CachedStatsFSAdapter.rm. now rewrite Hrm. }
    rewrite Hc. cbn [mbind res_bind]. apply IH; [|exact H].
    eapply cache_agrees_rm; eauto.
Qed.

Lemma X10_cache_is_transparent_on_clean_paths_witness :
  run_cached [OpSet "a/b" (loc 1); OpGet "a/b" None; OpRm "a/b"; OpGet "a/b" None;
              OpGet "c" None; OpSet "c" (loc 2); OpGet "c" None] empty_store
  = Ok [Some (loc 1); None; None; Some (loc 2)].
Proof.
  apply X10_cache_is_transparent_on_clean_paths.
  - apply cache_agrees_empty.
  - repeat constructor.
  - by_evaluation.
Defined.

(** ** Sums of Series *)

Lemma has_nan_true (s : series) (i : string * string) :
  s !! i = Some NaN -> has_nan s = true.
Proof.
  intros H. destruct (has_nan s) eqn:E; [reflexivity|].
  now apply (no_nan_lookup s i) in E.
Qed.

Lemma has_nan_false (s : series) :
  (forall i, s !! i <> Some NaN) -> has_nan s = false.
Proof.
  intros H. unfold has_nan. apply bool_decide_eq_false_2.
  intros ([i v] & Hin & Hv)%Exists_exists. cbn in Hv. subst v.
  apply elem_of_map_to_list in Hin. now apply (H i).
Qed.

Lemma lookup_series_plus (a b : series) (i : string * string) :
  series_plus a b !! i = align_op Z.add (a !! i) (b !! i).
Proof.
  unfold series_plus. rewrite lookup_merge. now destruct (a !! i), (b !! i).
Qed.

Lemma lookup_int_plus_series (s : series) (i : string * string) :
  int_plus_series 0 s !! i = s !! i.
Proof.
  unfold int_plus_series. rewrite lookup_fmap.
  destruct (s !! i) as [[x|]|]; reflexivity.
Qed.

Lemma int_plus_series_0 (s : series) : int_plus_series 0 s = s.
Proof. apply map_eq, lookup_int_plus_series. Qed.

(** X13. The builtin [sum] of two Series of different shapes holds a NaN
    where a key is on one side only, and [series_to_dict] raises
    [ValueError] on it: such a subtree total is never stored. *)
Theorem X13_sum_of_different_shapes_is_not_stored (a b : series) (i : string * string) :
  (is_Some (a !! i) /\ b !! i = None) \/ (a !! i = None /\ is_Some (b !! i)) ->
  exists t, py_sum [a; b] = SumSeries t /\ t !! i = Some NaN /\
            series_to_dict t = Raise ValueError.
Proof.
  intros H. exists (series_plus a b). unfold py_sum. cbn [fold_left].
  rewrite int_plus_series_0. split; [reflexivity|].
  assert (E : series_plus a b !! i = Some NaN).
  { rewrite lookup_series_plus.
    destruct H as [[[x Hx] Hb]|[Ha [y Hy]]].
    - rewrite Hx, Hb. now destruct x.
    - rewrite Ha, Hy. now destruct y. }
  split; [exact E|]. unfold series_to_dict. now rewrite (has_nan_true _ i E).
Qed.

Lemma X13_sum_of_different_shapes_is_not_stored_witness :
  exists t, py_sum [loc 5; {[ ("stats", "lloc") := Num 1 ]}] = SumSeries t /\
            series_to_dict t = Raise ValueError.
Proof.
  destruct (X13_sum_of_different_shapes_is_not_stored (loc 5)
              {[ ("stats", "lloc") := Num 1 ]} ("stats", "loc")) as (t & H1 & _ & H2).
  - left. split; [eexists|]; reflexivity.
  - now exists t.
Defined.

(** ** The loop of [_aggregate_subtrees] *)

(** *** Errors of the model and errors of the code *)

Lemma bind_no_fuel {A B} (m : res A) (f : A -> res B) :
  m <> Raise OutOfFuel -> (forall a, f a <> Raise OutOfFuel) -> (m ≫= f) <> Raise OutOfFuel.
Proof.
  intros Hm Hf. destruct m as [a|e]; simpl; [apply Hf|].
  intros E. apply Hm. now injection E as ->.
Qed.

Lemma for_each_no_fuel {A S} (body : A -> S -> res S) (l : list A) (s : S) :
  (forall x s, body x s <> Raise OutOfFuel) -> for_each body l s <> Raise OutOfFuel.
Proof.
  intros H. revert s. induction l as [|x l IH]; intros s; cbn [for_each]; [discriminate|].
  apply bind_no_fuel; auto.
Qed.

Lemma add_file_no_fuel (parts : list string) (body : res content) (d : disk) :
  body <> Raise OutOfFuel -> FileSystem.add_file parts body d <> Raise OutOfFuel.
Proof.
  intros Hb. unfold FileSystem.add_file, FileSystem.makedirs. apply bind_no_fuel.
  - apply for_each_no_fuel. intros a s. destruct (s !! a) as [[c|]|]; discriminate.
  - intros d1. destruct (FileSystem.lookup_entry d1 _) as [[c|]|]; try discriminate;
      (apply bind_no_fuel; [exact Hb | discriminate]).
Qed.

Lemma ls_files_no_fuel (path : string) (d : disk) :
  FileSystem.ls_files path d <> Raise OutOfFuel.
Proof.
  unfold FileSystem.ls_files, FileSystem.scandir.
  destruct (FileSystem.exists_ d path); [|discriminate].
  destruct (FileSystem.lookup_entry d _) as [[c|]|]; discriminate.
Qed.

Lemma load_stats_no_fuel (path : list string) (st : store) :
  StatsUpdater._load_stats path st <> Raise OutOfFuel.
Proof.
  unfold StatsUpdater._load_stats, CachedStatsFSAdapter.get, StatsFSAdapter.get, FileSystem.read.
  destruct (st_cache st !! _) as [[|v]|]; try discriminate.
  apply bind_no_fuel; [|discriminate]. apply bind_no_fuel.
  - destruct (FileSystem.lookup_entry _ _) as [[c|]|]; discriminate.
  - intros [c|]; [|discriminate]. destruct (content_truthy c); [|discriminate].
    destruct c; discriminate.
Qed.

Lemma store_stats_no_fuel (s : series) (path : list string) (st : store) :
  StatsUpdater._store_stats s path st <> Raise OutOfFuel.
Proof.
  unfold StatsUpdater._store_stats, CachedStatsFSAdapter.set, StatsFSAdapter.set.
  apply bind_no_fuel; [|discriminate]. apply add_file_no_fuel.
  unfold series_to_dict. destruct (has_nan s); discriminate.
Qed.

Lemma remove_stats_file_no_fuel (path : list string) (st : store) :
  StatsUpdater._remove_stats_file path st <> Raise OutOfFuel.
Proof.
  unfold StatsUpdater._remove_stats_file, CachedStatsFSAdapter.rm, StatsFSAdapter.rm, FileSystem.rm.
  apply bind_no_fuel; [|discriminate].
  destruct (FileSystem.lookup_entry _ _) as [[c|]|]; discriminate.
Qed.

Lemma aggregate_subtree_no_fuel (dir_path : string) (st : store) :
  StatsUpdater._aggregate_subtree dir_path st <> Raise OutOfFuel.
Proof.
  unfold StatsUpdater._aggregate_subtree. apply bind_no_fuel.
  { unfold StatsUpdater._stats_dirs, FileSystem.ls_dirs, FileSystem.scandir.
    destruct (FileSystem.lookup_entry _ _) as [[c|]|]; discriminate. }
  intros subdirs. apply bind_no_fuel.
  { unfold StatsUpdater._non_py_stats_files, CachedStatsFSAdapter.ls, StatsFSAdapter.ls.
    apply bind_no_fuel; [|discriminate]. apply bind_no_fuel; [|discriminate].
    apply ls_files_no_fuel. }
  intros existing. apply bind_no_fuel; [|intros [found st1]; discriminate].
  apply for_each_no_fuel. intros name [found st0].
  unfold StatsUpdater.aggregate_subtree_name. apply bind_no_fuel.
  - apply for_each_no_fuel. intros sp [[ss fs] st1]. unfold StatsUpdater.load_subtotal.
    apply bind_no_fuel; [apply load_stats_no_fuel|]. intros [[s|] st2]; discriminate.
  - intros [[ss fs] st1]. destruct (py_sum ss).
    + case_bool_decide; [|discriminate].
      apply bind_no_fuel; [apply remove_stats_file_no_fuel | discriminate].
    + apply bind_no_fuel; [apply store_stats_no_fuel | discriminate].
Qed.

(** *** The paths above a path get shorter *)

Lemma head_prefix (p : string) : exists t, p = OsPath.head p +:+ t.
Proof.
  induction p as [|c p [t IH]]; [now exists ""|]. cbn [OsPath.head].
  destruct (PyStr.contains OsPath.sep p).
  - exists t. rewrite append_cons. now rewrite <- IH.
  - destruct (Ascii.eqb c OsPath.sep).
    + exists p. now rewrite append_cons, append_nil_l.
    + exists (String c p). now rewrite append_nil_l.
Qed.

Lemma rstrip_prefix (c : ascii) (s : string) : exists t, s = PyStr.rstrip c s +:+ t.
Proof.
  induction s as [|x s [t IH]]; [now exists ""|]. cbn [PyStr.rstrip].
  destruct (PyStr.rstrip c s) as [|y r] eqn:E.
  - rewrite append_nil_l in IH. subst t. destruct (Ascii.eqb c x).
    + exists (String x s). now rewrite append_nil_l.
    + exists s. now rewrite append_cons, append_nil_l.
  - exists t. rewrite append_cons. now rewrite <- IH.
Qed.

Lemma dirname_prefix (p : string) : exists t, p = OsPath.dirname p +:+ t.
Proof.
  unfold OsPath.dirname. destruct (head_prefix p) as [t Ht].
  destruct (negb _ && negb _); [|eauto].
  destruct (rstrip_prefix OsPath.sep (OsPath.head p)) as [t' Ht'].
  exists (t' +:+ t). rewrite <- append_assoc. now rewrite <- Ht'.
Qed.

Lemma dirname_length (p : string) :
  String.length (OsPath.dirname p) <= String.length p /\
  (String.length (OsPath.dirname p) = String.length p -> OsPath.dirname p = p).
Proof.
  destruct (dirname_prefix p) as [t Ht].
  assert (E : String.length p = String.length (OsPath.dirname p) + String.length t).
  { rewrite Ht at 1. apply length_append. }
  split; [lia|]. intros H. destruct t; [|cbn in E; lia].
  rewrite append_nil_r in Ht. congruence.
Qed.

Lemma parent_path_not_empty (p : string) : StatsUpdater.parent_path p <> "".
Proof. unfold StatsUpdater.parent_path. now destruct (OsPath.dirname p). Qed.

Lemma parent_path_length (p : string) :
  p <> "" -> String.length (StatsUpdater.parent_path p) <= String.length p.
Proof.
  intros Hp. unfold StatsUpdater.parent_path.
  destruct (OsPath.dirname p) as [|c q] eqn:E.
  - destruct p; [congruence | cbn; lia].
  - rewrite <- E. apply dirname_length.
Qed.

Lemma parent_path_rank (p : string) :
  StatsUpdater.parent_path p <> p ->
  StatsUpdater.rank (StatsUpdater.parent_path p) < StatsUpdater.rank p.
Proof.
  intros Hne. unfold StatsUpdater.rank at 2.
  destruct (String.eqb_spec p ".") as [->|Hp]; [now destruct Hne|].
  unfold StatsUpdater.parent_path in *.
  destruct (OsPath.dirname p) as [|c q] eqn:E; [cbn; lia|].
  unfold StatsUpdater.rank. destruct (String.eqb _ "."); [lia|].
  rewrite <- E in *. destruct (dirname_length p) as [H1 H2].
  destruct (decide (String.length (OsPath.dirname p) = String.length p)) as [Heq|]; [|lia].
  now apply H2 in Heq.
Qed.

(** *** The heap *)

Lemma heappush_perm (h : list StatsUpdater.heap_item) (x : StatsUpdater.heap_item) :
  StatsUpdater.heappush h x ≡ₚ x :: h.
Proof.
  induction h as [|y h IH]; cbn [StatsUpdater.heappush]; [reflexivity|].
  destruct (StatsUpdater.item_ltb y x); [|reflexivity].
  rewrite IH. apply Permutation_swap.
Qed.

Lemma list_sum_cons (a : nat) (l : list nat) : list_sum (a :: l) = a + list_sum l.
Proof. reflexivity. Qed.

Lemma heap_cost_push (F : list string) (h : list StatsUpdater.heap_item)
    (x : StatsUpdater.heap_item) :
  heap_cost F (StatsUpdater.heappush h x) = item_cost F x + heap_cost F h.
Proof.
  unfold heap_cost. induction h as [|y h IH]; cbn [StatsUpdater.heappush]; [reflexivity|].
  destruct (StatsUpdater.item_ltb y x); [|reflexivity].
  cbn [List.map]. rewrite !list_sum_cons, IH. lia.
Qed.

Lemma item_cost_mono (F : list string) (p : string) (x : StatsUpdater.heap_item) :
  item_cost (F ++ [p]) x <= item_cost F x.
Proof.
  unfold item_cost. repeat case_bool_decide; try lia.
  exfalso. set_solver.
Qed.

Lemma heap_cost_mono (F : list string) (p : string) (h : list StatsUpdater.heap_item) :
  heap_cost (F ++ [p]) h <= heap_cost F h.
Proof.
  unfold heap_cost. induction h as [|x h IH]; cbn [List.map]; [lia|].
  rewrite !list_sum_cons. pose proof (item_cost_mono F p x). lia.
Qed.

Lemma loop_no_fuel (fuel : nat) (h : list StatsUpdater.heap_item) (F : list string)
    (st : store) :
  heap_cost F h < fuel -> StatsUpdater.subtrees_loop fuel h F st <> Raise OutOfFuel.
Proof.
  revert h F st. induction fuel as [|fuel IH]; intros h F st Hc; [lia|].
  destruct h as [|[k p] rest]; cbn [StatsUpdater.subtrees_loop]; [discriminate|].
  unfold heap_cost in Hc. cbn [List.map] in Hc. rewrite list_sum_cons in Hc.
  fold (heap_cost F rest) in Hc.
  unfold item_cost in Hc. cbn [snd] in Hc.
  case_bool_decide as Hin.
  - apply IH. lia.
  - apply bind_no_fuel; [apply aggregate_subtree_no_fuel|]. intros st1. apply IH.
    rewrite heap_cost_push. pose proof (heap_cost_mono F p rest).
    enough (item_cost (F ++ [p]) (StatsUpdater.heap_key (StatsUpdater.parent_path p))
            <= 2 * StatsUpdater.rank p + 1) by lia.
    unfold item_cost. cbn [StatsUpdater.heap_key snd].
    case_bool_decide as Hq; [lia|].
    assert (Hne : StatsUpdater.parent_path p <> p) by (intros E; apply Hq; rewrite E; set_solver).
    pose proof (parent_path_rank p Hne). lia.
Qed.

Lemma heap_cost_seed (dirs : list string) (h : list StatsUpdater.heap_item) :
  heap_cost [] (fold_left StatsUpdater.heappush (List.map StatsUpdater.heap_key dirs) h)
  = list_sum (List.map (fun p => 2 * StatsUpdater.rank p + 2) dirs) + heap_cost [] h.
Proof.
  revert h. induction dirs as [|p dirs IH]; intros h; cbn [List.map fold_left]; [reflexivity|].
  rewrite list_sum_cons, IH, heap_cost_push. unfold item_cost. cbn [StatsUpdater.heap_key snd].
  rewrite bool_decide_eq_false_2 by apply not_elem_of_nil. lia.
Qed.

(** X14. The loop of [_aggregate_subtrees] comes to an end for every set
    of paths and every store: the bound of the model's loop is never what
    stops it. Each turn either drops a finished path from the heap or
    finishes a path and pushes the path above it, which is shorter or the
    path itself. *)
Theorem X14_aggregate_subtrees_terminates (dir_paths : list string) (st : store) :
  StatsUpdater._aggregate_subtrees dir_paths st <> Raise OutOfFuel.
Proof.
  unfold StatsUpdater._aggregate_subtrees. apply loop_no_fuel.
  rewrite heap_cost_seed. unfold StatsUpdater.loop_bound, heap_cost. cbn. lia.
Qed.

(** *** The order of the turns *)

Lemma item_ltb_key (x y : StatsUpdater.heap_item) :
  (if StatsUpdater.item_ltb y x then y.1 <= x.1 else x.1 <= y.1)%Z.
Proof.
  unfold StatsUpdater.item_ltb.
  destruct (Z.ltb_spec y.1 x.1); cbn [orb]; [lia|].
  destruct (Z.eqb_spec y.1 x.1); cbn [andb]; [|lia].
  destruct (String.ltb y.2 x.2); lia.
Qed.

Lemma heappush_sorted (h : list StatsUpdater.heap_item) (x : StatsUpdater.heap_item) :
  ordered (fun a b => (a.1 <= b.1)%Z) h ->
  ordered (fun a b => (a.1 <= b.1)%Z) (StatsUpdater.heappush h x).
Proof.
  induction h as [|y h IH]; cbn [StatsUpdater.heappush]; [intros _; now repeat constructor|].
  intros [Hy Hs]. pose proof (item_ltb_key x y) as Hk. destruct (StatsUpdater.item_ltb y x).
  - split; [|now apply IH]. rewrite heappush_perm. now constructor.
  - split; [|now split]. constructor; [exact Hk|].
    eapply Forall_impl; [exact Hy|]. cbn. intros z Hz. lia.
Qed.

Lemma elem_of_heappush (h : list StatsUpdater.heap_item) (x y : StatsUpdater.heap_item) :
  y ∈ StatsUpdater.heappush h x <-> y = x \/ y ∈ h.
Proof. rewrite heappush_perm. apply elem_of_cons. Qed.

Lemma elem_of_seed_heap (dirs : list string) (h : list StatsUpdater.heap_item)
    (x : StatsUpdater.heap_item) :
  x ∈ fold_left StatsUpdater.heappush (List.map StatsUpdater.heap_key dirs) h <->
  x ∈ h \/ exists p, p ∈ dirs /\ x = StatsUpdater.heap_key p.
Proof.
  revert h. induction dirs as [|p dirs IH]; intros h; cbn [List.map fold_left].
  - split; [now left|]. intros [H|(p & Hp & _)]; [exact H | now apply not_elem_of_nil in Hp].
  - rewrite IH, elem_of_heappush. split.
    + intros [[->|H]|(q & Hq & ->)]; eauto using list_elem_of_here, list_elem_of_further.
    + intros [H|(q & [->|Hq]%elem_of_cons & ->)]; eauto.
Qed.

Lemma seed_heap_sorted (dirs : list string) (h : list StatsUpdater.heap_item) :
  ordered (fun a b => (a.1 <= b.1)%Z) h ->
  ordered (fun a b => (a.1 <= b.1)%Z)
    (fold_left StatsUpdater.heappush (List.map StatsUpdater.heap_key dirs) h).
Proof.
  revert h. induction dirs as [|p dirs IH]; intros h Hs; cbn [List.map fold_left]; [exact Hs|].
  apply IH. now apply heappush_sorted.
Qed.

Lemma sorted_snoc {A} (R : A -> A -> Prop) (l : list A) (x : A) :
  ordered R l -> Forall (fun y => R y x) l -> ordered R (l ++ [x]).
Proof.
  induction l as [|y l IH]; intros Hs Hx; cbn; [now repeat constructor|].
  destruct Hs as [Hy Hs]. inversion Hx; subst. split; [|auto].
  apply Forall_app. split; [exact Hy | now constructor].
Qed.

Lemma sorted_lookup {A} (R : A -> A -> Prop) (l : list A) (i j : nat) (a b : A) :
  ordered R l -> i < j -> l !! i = Some a -> l !! j = Some b -> R a b.
Proof.
  revert i j. induction l as [|y l IH]; intros i j Hs Hij Ha Hb; [easy|].
  destruct Hs as [Hy Hs]. destruct j as [|j]; [lia|]. cbn in Hb. destruct i as [|i].
  - cbn in Ha. injection Ha as ->. rewrite Forall_forall in Hy.
    apply Hy. eapply list_elem_of_lookup_2; eauto.
  - cbn in Ha. apply (IH i j); auto. lia.
Qed.

Lemma loop_order (fuel : nat) (h : list StatsUpdater.heap_item) (F F' : list string)
    (st st' : store) :
  ordered (fun a b => (a.1 <= b.1)%Z) h ->
  Forall (fun x => x.1 = (- Z.of_nat (String.length x.2))%Z /\ x.2 <> "") h ->
  (forall x y, x ∈ h -> y ∈ F -> String.length x.2 <= String.length y) ->
  ordered (fun p q => String.length q <= String.length p) F ->
  StatsUpdater.subtrees_loop fuel h F st = Ok (F', st') ->
  ordered (fun p q => String.length q <= String.length p) F'.
Proof.
  revert h F st. induction fuel as [|fuel IH]; intros h F st Hs Hk Hb HF.
  - destruct h as [|[k p] rest]; cbn [StatsUpdater.subtrees_loop]; [|discriminate].
    now intros [= <- <-].
  - destruct h as [|[k p] rest]; cbn [StatsUpdater.subtrees_loop]; [now intros [= <- <-]|].
    destruct Hs as [Hmin Hs']. inversion Hk as [|? ? [Hkp Hp] Hk']; subst.
    cbn [fst snd] in *.
    case_bool_decide as Hin.
    + apply IH; auto. intros x y Hx. apply Hb. now apply list_elem_of_further.
    + intros H. apply bind_ok in H as (st1 & _ & H). revert H. apply IH.
      * now apply heappush_sorted.
      * apply Forall_forall. intros x [->|Hx]%elem_of_heappush.
        -- cbn. split; [reflexivity | apply parent_path_not_empty].
        -- rewrite Forall_forall in Hk'. now apply Hk'.
      * assert (Hrest : forall x, x ∈ rest -> String.length x.2 <= String.length p).
        { intros x Hx. rewrite Forall_forall in Hmin, Hk'.
          specialize (Hmin x Hx). destruct (Hk' x Hx) as [E _]. cbn in Hmin. lia. }
        pose proof (parent_path_length p Hp) as Hpar.
        intros x y [->|Hx]%elem_of_heappush [Hy|Hy]%elem_of_app;
          try apply list_elem_of_singleton in Hy as ->; cbn [StatsUpdater.heap_key snd].
        -- specialize (Hb (k, p) y (list_elem_of_here _ _) Hy). cbn in Hb. lia.
        -- exact Hpar.
        -- apply Hb; [now apply list_elem_of_further | exact Hy].
        -- now apply Hrest.
      * apply sorted_snoc; [exact HF|]. apply Forall_forall. intros y Hy.
        apply (Hb (k, p) y); [apply list_elem_of_here | exact Hy].
Qed.

(** X15. [_aggregate_subtrees] finishes the paths from the longest to the
    shortest: a path is never aggregated before a longer one. (The empty
    path is left out of the seeds: the path above it is [.], which is
    longer than it.) *)
Theorem X15_longer_paths_are_aggregated_first (dir_paths finished : list string)
    (st st' : store) (i j : nat) (p q : string) :
  "" ∉ dir_paths ->
  StatsUpdater._aggregate_subtrees dir_paths st = Ok (finished, st') ->
  i < j -> finished !! i = Some p -> finished !! j = Some q ->
  String.length q <= String.length p.
Proof.
  intros Hne Hrun Hij Hp Hq. unfold StatsUpdater._aggregate_subtrees in Hrun.
  apply loop_order in Hrun.
  - exact (sorted_lookup _ _ _ _ _ _ Hrun Hij Hp Hq).
  - apply seed_heap_sorted. exact I.
  - apply Forall_forall. intros x [Hx|(d & Hd & ->)]%elem_of_seed_heap.
    + now apply not_elem_of_nil in Hx.
    + cbn. split; [reflexivity|]. intros ->. contradiction.
  - intros x y _ Hy. now apply not_elem_of_nil in Hy.
  - exact I.
Qed.

Lemma X15_longer_paths_are_aggregated_first_witness :
  String.length "." <= String.length "a/b".
Proof.
  apply (X15_longer_paths_are_aggregated_first ["a/b"] propagated_a_b.1 store_a_b
           propagated_a_b.2 0 2 "a/b" ".").
  - by_evaluation.
  - apply outcome_ok_pair. vm_compute. reflexivity.
  - lia.
  - vm_compute. reflexivity.
  - vm_compute. reflexivity.
Defined.

(** *** Once each, and all the way up *)

Lemma above_parent (p q : string) : above (StatsUpdater.parent_path p) q -> above p q.
Proof. intros [n ->]. exists (S n). now rewrite Nat.iter_succ_r. Qed.

Lemma loop_closure (fuel : nat) (h : list StatsUpdater.heap_item) (F F' : list string)
    (st st' : store) :
  NoDup F ->
  StatsUpdater.subtrees_loop fuel h F st = Ok (F', st') ->
  NoDup F' /\
  (forall p, p ∈ F -> p ∈ F') /\
  (forall x, x ∈ h -> x.2 ∈ F') /\
  (forall p, p ∈ F' -> p ∈ F \/ exists x, x ∈ h /\ above x.2 p) /\
  (forall p, p ∈ F' -> p ∉ F -> StatsUpdater.parent_path p ∈ F').
Proof.
  revert h F st. induction fuel as [|fuel IH]; intros h F st HF.
  - destruct h as [|[k p] rest]; cbn [StatsUpdater.subtrees_loop]; [|discriminate].
    intros [= <- <-]. repeat split; auto.
    + intros x Hx. now apply not_elem_of_nil in Hx.
    + intros p Hp Hn. contradiction.
  - destruct h as [|[k p] rest]; cbn [StatsUpdater.subtrees_loop].
    { intros [= <- <-]. repeat split; auto.
      - intros x Hx. now apply not_elem_of_nil in Hx.
      - intros p Hp Hn. contradiction. }
    case_bool_decide as Hin.
    + intros H. apply IH in H as (H1 & H2 & H3 & H4 & H5); [|exact HF].
      repeat split; auto.
      * intros x [->|Hx]%elem_of_cons; [now apply H2 | now apply H3].
      * intros q Hq. destruct (H4 q Hq) as [?|(x & Hx & Ha)]; [now left|].
        right. exists x. split; [now apply list_elem_of_further | exact Ha].
    + intros H. apply bind_ok in H as (st1 & _ & H).
      apply IH in H as (H1 & H2 & H3 & H4 & H5).
      2:{ apply NoDup_app. repeat split; [exact HF | | apply NoDup_singleton].
          intros x Hx Hx'. apply list_elem_of_singleton in Hx' as ->. contradiction. }
      repeat split; auto.
      * intros q Hq. apply H2. apply elem_of_app. now left.
      * intros x [->|Hx]%elem_of_cons.
        -- apply H2. apply elem_of_app. right. now apply list_elem_of_singleton.
        -- apply H3. apply elem_of_heappush. now right.
      * intros q Hq. destruct (H4 q Hq) as [[?|Hs]%elem_of_app|(x & Hx & Ha)];
          [|apply list_elem_of_singleton in Hs as ->|].
        -- now left.
        -- right. exists (k, p). split; [apply list_elem_of_here | now exists 0].
        -- right. apply elem_of_heappush in Hx as [->|Hx].
           ++ exists (k, p). split; [apply list_elem_of_here | now apply above_parent].
           ++ exists x. split; [now apply list_elem_of_further | exact Ha].
      * intros q Hq Hn. destruct (decide (q = p)) as [->|Hne].
        -- apply (H3 (StatsUpdater.heap_key (StatsUpdater.parent_path p))).
           apply elem_of_heappush. now left.
        -- apply H5; [exact Hq|]. intros [?|Hs]%elem_of_app; [contradiction|].
           apply list_elem_of_singleton in Hs. contradiction.
Qed.

(** X16. When [_aggregate_subtrees] returns, it has aggregated each
    directory once, and the directories it has aggregated are the seeds
    and all the directories above them, up to the root. *)
Theorem X16_every_ancestor_is_aggregated_once (dir_paths finished : list string)
    (st st' : store) :
  StatsUpdater._aggregate_subtrees dir_paths st = Ok (finished, st') ->
  NoDup finished /\
  forall q, q ∈ finished <-> exists p, p ∈ dir_paths /\ above p q.
Proof.
  intros Hrun. unfold StatsUpdater._aggregate_subtrees in Hrun.
  apply loop_closure in Hrun as (H1 & _ & H3 & H4 & H5); [|constructor].
  split; [exact H1|]. intros q. split.
  - intros Hq. destruct (H4 q Hq) as [Hn|(x & Hx & Ha)]; [now apply not_elem_of_nil in Hn|].
    apply elem_of_seed_heap in Hx as [Hx|(p & Hp & ->)]; [now apply not_elem_of_nil in Hx|].
    now exists p.
  - intros (p & Hp & n & ->). induction n as [|n IH]; cbn [Nat.iter].
    + apply (H3 (StatsUpdater.heap_key p)). apply elem_of_seed_heap. eauto.
    + apply H5; [exact IH | apply not_elem_of_nil].
Qed.

Lemma X16_every_ancestor_is_aggregated_once_witness : "a" ∈ propagated_a_b.1.
Proof.
  destruct (X16_every_ancestor_is_aggregated_once ["a/b"] propagated_a_b.1 store_a_b
              propagated_a_b.2) as [_ H].
  - apply outcome_ok_pair. vm_compute. reflexivity.
  - apply H. exists "a/b". split; [apply list_elem_of_here | now exists 1].
Defined.

(** ** The groups of [_generate_dirs_and_files] *)

Lemma add_to_dir_keys (d b : string) (g : list (string * list string)) :
  NoDup g.*1 -> NoDup (StatsUpdater.add_to_dir d b g).*1 /\
  forall d', d' ∈ (StatsUpdater.add_to_dir d b g).*1 <-> d' = d \/ d' ∈ g.*1.
Proof.
  induction g as [|[d0 fs] g IH]; cbn [StatsUpdater.add_to_dir fmap list_fmap fst].
  - intros _. split; [apply NoDup_singleton|]. intros d'. rewrite elem_of_cons. tauto.
  - intros [Hd0 Hg]%NoDup_cons. destruct (String.eqb_spec d0 d) as [->|Hne];
      cbn [fmap list_fmap fst].
    + split; [now apply NoDup_cons|]. intros d'. rewrite !elem_of_cons. tauto.
    + destruct (IH Hg) as [IH1 IH2]. split.
      * apply NoDup_cons. split; [|exact IH1]. rewrite (IH2 d0). intros [?|?]; congruence.
      * intros d'. rewrite !elem_of_cons, (IH2 d'). tauto.
Qed.

Lemma add_to_dir_groups (d b : string) (g : list (string * list string)) :
  Forall (fun df => NoDup df.2 /\ df.2 <> []) g ->
  Forall (fun df => NoDup df.2 /\ df.2 <> []) (StatsUpdater.add_to_dir d b g) /\
  forall d' b', in_group d' b' (StatsUpdater.add_to_dir d b g) <->
                (d' = d /\ b' = b) \/ in_group d' b' g.
Proof.
  unfold in_group. induction g as [|[d0 fs] g IH]; cbn [StatsUpdater.add_to_dir].
  - intros _. split; [constructor; [split; [apply NoDup_singleton | discriminate] | constructor]|].
    intros d' b'. split.
    + intros (files & Hin%list_elem_of_singleton & Hb). injection Hin as -> ->.
      apply list_elem_of_singleton in Hb. auto.
    + intros [[-> ->]|(files & Hin & _)]; [|now apply not_elem_of_nil in Hin].
      exists [b]. split; apply list_elem_of_here.
  - intros Hg. inversion Hg as [|? ? [Hfs Hne] Hg']; subst. cbn [snd] in *.
    destruct (String.eqb_spec d0 d) as [->|Hd].
    + split.
      * constructor; [|exact Hg']. cbn [snd]. case_bool_decide; [auto|]. split.
        -- apply NoDup_app. repeat split; [exact Hfs| |apply NoDup_singleton].
           intros x Hx Hx'. apply list_elem_of_singleton in Hx' as ->. contradiction.
        -- now destruct fs.
      * intros d' b'. split.
        -- intros (files & [Hin|Hin]%elem_of_cons & Hb).
           ++ injection Hin as -> ->. case_bool_decide.
              ** right. exists fs. split; [apply list_elem_of_here | exact Hb].
              ** apply elem_of_app in Hb as [Hb|Hb].
                 --- right. exists fs. split; [apply list_elem_of_here | exact Hb].
                 --- apply list_elem_of_singleton in Hb. auto.
           ++ right. exists files. split; [now apply list_elem_of_further | exact Hb].
        -- intros [[-> ->]|(files & [Hin|Hin]%elem_of_cons & Hb)].
           ++ eexists. split; [apply list_elem_of_here|]. case_bool_decide; [assumption|].
              apply elem_of_app. right. apply list_elem_of_here.
           ++ injection Hin as -> ->. eexists. split; [apply list_elem_of_here|].
              case_bool_decide; [assumption|]. apply elem_of_app. now left.
           ++ exists files. split; [now apply list_elem_of_further | exact Hb].
    + destruct (IH Hg') as [IH1 IH2]. split; [constructor; auto|].
      intros d' b'. split.
      * intros (files & [Hin|Hin]%elem_of_cons & Hb).
        -- injection Hin as -> ->. right. exists fs. split; [apply list_elem_of_here | exact Hb].
        -- destruct (proj1 (IH2 d' b')) as [?|(fs' & Hin' & Hb')]; [eauto|now left|].
           right. exists fs'. split; [now apply list_elem_of_further | exact Hb'].
      * intros [H|(files & [Hin|Hin]%elem_of_cons & Hb)].
        -- destruct (proj2 (IH2 d' b') (or_introl H)) as (fs' & Hin' & Hb').
           exists fs'. split; [now apply list_elem_of_further | exact Hb'].
        -- injection Hin as -> ->. exists fs. split; [apply list_elem_of_here | exact Hb].
        -- destruct (proj2 (IH2 d' b')) as (fs' & Hin' & Hb'); [right; eauto|].
           exists fs'. split; [now apply list_elem_of_further | exact Hb'].
Qed.

Lemma files_by_dir_spec (changed_files : list string) :
  NoDup (files_by_dir changed_files).*1 /\
  Forall (fun df => NoDup df.2 /\ df.2 <> []) (files_by_dir changed_files) /\
  forall d b, in_group d b (files_by_dir changed_files) <->
              exists f, f ∈ changed_files /\ d = StatsUpdater.parent_path f
                        /\ b = OsPath.basename f.
Proof.
  unfold files_by_dir.
  enough (H : forall g,
             NoDup g.*1 -> Forall (fun df => NoDup df.2 /\ df.2 <> []) g ->
             let g' := fold_left (fun acc f => StatsUpdater.add_to_dir
                                    (StatsUpdater.parent_path f) (OsPath.basename f) acc)
                                 changed_files g in
             NoDup g'.*1 /\ Forall (fun df => NoDup df.2 /\ df.2 <> []) g' /\
             forall d b, in_group d b g' <->
                         in_group d b g \/
                         exists f, f ∈ changed_files /\ d = StatsUpdater.parent_path f
                                   /\ b = OsPath.basename f).
  { destruct (H []) as (H1 & H2 & H3); [constructor..|]. split; [exact H1|]. split; [exact H2|].
    intros d b. rewrite H3. split; [|auto].
    intros [(files & Hin & _)|?]; [now apply not_elem_of_nil in Hin | assumption]. }
  induction changed_files as [|f fs IH]; intros g Hk Hg; cbn [fold_left].
  - repeat split; auto. intros [?|(f & Hf & _)]; [assumption | now apply not_elem_of_nil in Hf].
  - destruct (add_to_dir_keys (StatsUpdater.parent_path f) (OsPath.basename f) g Hk) as [Hk' _].
    destruct (add_to_dir_groups (StatsUpdater.parent_path f) (OsPath.basename f) g Hg)
      as [Hg' Hm].
    destruct (IH _ Hk' Hg') as (H1 & H2 & H3). split; [exact H1|]. split; [exact H2|].
    intros d b. rewrite H3, Hm. split.
    + intros [[[-> ->]|?]|(f' & Hf' & E)]; [right|now left|right].
      * exists f. split; [apply list_elem_of_here | auto].
      * exists f'. split; [now apply list_elem_of_further | exact E].
    + intros [?|(f' & [->|Hf']%elem_of_cons & -> & ->)]; [now left; right|now left; left|].
      right. exists f'. auto.
Qed.

(** X17. With a list of changed files [_generate_dirs_and_files] always
    returns; it yields each directory once, with a set of base names that
    is not empty and has no name twice, and the base name [b] is yielded
    with the directory [d] exactly when some changed file [f] has
    [os.path.dirname(f) or '.'] equal to [d] and base name [b]. *)
Theorem X17_changed_files_are_grouped_by_directory (u : updater) (changed_files : list string) :
  StatsUpdater._generate_dirs_and_files u (Some changed_files)
  = Ok (List.map (fun df => (df.1, Some df.2)) (files_by_dir changed_files)) /\
  NoDup (files_by_dir changed_files).*1 /\
  Forall (fun df => NoDup df.2 /\ df.2 <> []) (files_by_dir changed_files) /\
  forall d b, in_group d b (files_by_dir changed_files) <->
              exists f, f ∈ changed_files /\ d = StatsUpdater.parent_path f
                        /\ b = OsPath.basename f.
Proof. split; [reflexivity | apply files_by_dir_spec]. Qed.

(** ** What a visit writes and what it leaves *)

Lemma stale_spec (u : updater) (k : list string) (changed_files : option (list string))
    (st : store) (stale : list string) :
  good_names k -> good_disk (st_disk st) ->
  StatsUpdater.stale_stats_files u (dir_of k) changed_files st = Ok stale ->
  good_names stale /\
  (forall g, g ∈ stale -> StatsUpdater._source_exists u [dir_of k; g] = false) /\
  (forall g files, StatsUpdater._py_stats_files [dir_of k] st = Ok files -> g ∈ files ->
                   StatsUpdater.in_changed changed_files g = true ->
                   StatsUpdater._source_exists u [dir_of k; g] = false -> g ∈ stale).
Proof.
  intros Hk Hd Hstale. unfold StatsUpdater.stale_stats_files in Hstale.
  apply bind_ok in Hstale as (sf & Hsf & Hstale).
  apply bind_ok in Hstale as (mf & Hmf & Hstale). injection Hstale as <-.
  split; [|split].
  - apply Forall_forall. intros n Hn.
    apply list_elem_of_In, List.filter_In in Hn as [Hn _].
    apply list_elem_of_In, elem_of_app in Hn as [Hn|Hn].
    + pose proof (py_stats_files_good _ _ _ Hk Hd Hsf) as G.
      rewrite Forall_forall in G. now apply G.
    + pose proof (py_method_files_good _ _ _ Hk Hd Hmf) as G.
      rewrite Forall_forall in G. now apply G.
  - intros g Hg. apply list_elem_of_In, List.filter_In in Hg as [_ Hg].
    apply andb_prop in Hg as [_ Hg]. now apply negb_true_iff in Hg.
  - intros g files Hfiles Hg Hc Hs. rewrite Hsf in Hfiles. injection Hfiles as <-.
    apply list_elem_of_In, List.filter_In. split.
    + apply list_elem_of_In, elem_of_app. now left.
    + now rewrite Hc, Hs.
Qed.

(** The parts of a visit. *)
Lemma visit_files_parts (u : updater) (k : list string)
    (changed_files paths : option (list string)) (ignore_patterns : list pattern)
    (st st' : store) (hc : bool) :
  good_names k -> good_disk (_source_root u) -> base_names changed_files ->
  good_disk (st_disk st) ->
  StatsUpdater._visit_files_in_dir u (dir_of k) changed_files paths ignore_patterns st
  = Ok (hc, st') ->
  exists files hc1 st1 stale,
    StatsUpdater.files_to_analyze u (dir_of k) changed_files paths ignore_patterns = Ok files /\
    good_names files /\
    for_each (StatsUpdater.visit_one u (dir_of k)) files (false, st) = Ok (hc1, st1) /\
    good_disk (st_disk st1) /\
    StatsUpdater.stale_stats_files u (dir_of k) changed_files st1 = Ok stale /\
    for_each (fun stale_file => StatsUpdater._remove_stats_file [dir_of k; stale_file])
             stale st1 = Ok st' /\
    hc = hc1 || negb (bool_decide (stale = [])).
Proof.
  intros Hk Hsrc Hch Hd. unfold StatsUpdater._visit_files_in_dir.
  intros H. apply bind_ok in H as (files & Hfiles & H).
  apply bind_ok in H as ([hc1 st1] & Hloop & H).
  apply bind_ok in H as (stale & Hstale & H).
  apply bind_ok in H as (st2 & Hrm & H). injection H as <- <-.
  pose proof (files_to_analyze_good _ _ _ _ _ _ Hk Hsrc Hch Hfiles) as Hgf.
  pose proof (visit_loop_spec _ _ _ _ _ _ _ Hk Hgf Hd Hloop) as (Hd1 & _).
  exists files, hc1, st1, stale. repeat split; auto.
Qed.

Lemma methods_key_inj (k : list string) (g g' : string) :
  k ++ [g +:+ ".methods.yaml"] = k ++ [g' +:+ ".methods.yaml"] -> g = g'.
Proof. intros E%snoc_inj. now apply append_cancel_r in E. Qed.

Lemma stats_is_no_methods (k : list string) (g m : string) :
  k ++ [m +:+ ".stats.yaml"] <> k ++ [g +:+ ".methods.yaml"].
Proof. intros E%snoc_inj. symmetry in E. now apply methods_is_no_stats in E. Qed.

Lemma files_to_analyze_excludes (u : updater) (dir_path : string)
    (changed_files paths : option (list string)) (ignore_patterns : list pattern)
    (files : list string) (f : string) :
  StatsUpdater.files_to_analyze u dir_path changed_files paths ignore_patterns = Ok files ->
  f ∈ files ->
  PyStr.endswith f ".py" = true /\
  match paths with
  | None => True
  | Some ps => existsb (PyStr.startswith (OsPath.join dir_path [f])) ps = false
  end /\
  StatsUpdater.any_pattern ignore_patterns (OsPath.join dir_path [f]) = false.
Proof.
  unfold StatsUpdater.files_to_analyze. intros H Hf.
  apply bind_ok in H as (cands & _ & H). injection H as <-.
  apply list_elem_of_In, List.filter_In in Hf as [_ Hf].
  apply andb_prop in Hf as [Hf Hi]. apply andb_prop in Hf as [Hpy Hp].
  split; [exact Hpy|]. split; [|now apply negb_true_iff in Hi].
  destruct paths; [now apply negb_true_iff in Hp | exact I].
Qed.

(** X18. A file that [paths] or [ignore_patterns] keeps out of the
    analysis, and that still is in the source tree, is left alone by the
    visit of its directory: its stats record and its method list in the
    store are what they were. The files kept out by [paths] are those
    whose joined path begins with one of the [paths]. *)
Theorem X18_excluded_files_are_left_alone (u : updater) (k : list string) (f : string)
    (changed_files paths : option (list string)) (ignore_patterns : list pattern)
    (st st' : store) (hc : bool) :
  good_names k -> good_disk (_source_root u) -> base_names changed_files ->
  good_disk (st_disk st) ->
  StatsUpdater._source_exists u [dir_of k; f] = true ->
  (exists ps, paths = Some ps /\
              existsb (PyStr.startswith (OsPath.join (dir_of k) [f])) ps = true) \/
  StatsUpdater.any_pattern ignore_patterns (OsPath.join (dir_of k) [f]) = true ->
  StatsUpdater._visit_files_in_dir u (dir_of k) changed_files paths ignore_patterns st
  = Ok (hc, st') ->
  st_disk st' !! (k ++ [f +:+ ".stats.yaml"]) = st_disk st !! (k ++ [f +:+ ".stats.yaml"]) /\
  st_disk st' !! (k ++ [f +:+ ".methods.yaml"])
  = st_disk st !! (k ++ [f +:+ ".methods.yaml"]).
Proof.
  intros Hk Hsrc Hch Hd Hex Hout Hvisit.
  apply visit_files_parts in Hvisit
    as (files & hc1 & st1 & stale & Hfiles & Hgf & Hloop & Hd1 & Hstale & Hrm & _);
    [|assumption..].
  apply visit_loop_spec in Hloop as (_ & _ & _ & Hf1 & _); [|assumption..].
  destruct (stale_spec _ _ _ _ _ Hk Hd1 Hstale) as (Hgs & Hns & _).
  apply remove_loop_spec in Hrm as (_ & _ & Hf2 & _); [|assumption..].
  assert (Hnot : f ∉ files).
  { intros Hin. destruct (files_to_analyze_excludes _ _ _ _ _ _ _ Hfiles Hin) as (_ & Hp & Hi).
    destruct Hout as [(ps & -> & Hps)|Hign]; congruence. }
  assert (Hlen : forall n, S (List.length k) <= List.length (k ++ [n])).
  { intros n. rewrite length_app. cbn. lia. }
  split.
  - rewrite Hf2, Hf1; auto.
    + intros g Hg _. split; [|apply stats_is_no_methods].
      intros E%stats_key_inj. congruence.
    + intros g Hg E%stats_key_inj. subst g. rewrite (Hns f Hg) in Hex. discriminate.
  - rewrite Hf2, Hf1; auto.
    + intros g Hg _. split; [apply not_eq_sym, stats_is_no_methods|].
      intros E%methods_key_inj. congruence.
    + intros g _. apply not_eq_sym, stats_is_no_methods.
Qed.

(** The source of an analysed file exists. *)
Lemma analysed_source_exists (u : updater) (k : list string) (g : string) :
  analysed u k g -> StatsUpdater._source_exists u [dir_of k; g] = true.
Proof.
  unfold analysed, _analyze_file_internal, StatsUpdater._source_exists.
  destruct (src_lookup _ _) as [[text|]|]; try discriminate.
  intros _. now apply bool_decide_eq_true_2.
Qed.

(** X19. A record of a Python file that is gone from the source tree is
    removed by the visit of its directory, when the file is among the
    changed files or the visit is a full one; the visit then reports a
    change. (The record is in a directory that exists, under a name with
    [.stats.yaml] at its end only.) *)
Theorem X19_stale_record_is_removed (u : updater) (k : list string) (m : string)
    (changed_files paths : option (list string)) (ignore_patterns : list pattern)
    (st st' : store) (hc : bool) :
  good_names k -> good_disk (_source_root u) -> base_names changed_files ->
  good_disk (st_disk st) ->
  FileSystem.lookup_entry (st_disk st) k = Some EDir ->
  is_Some (st_disk st !! (k ++ [m +:+ ".stats.yaml"])) ->
  PyStr.replace (m +:+ ".stats.yaml") ".stats.yaml" "" = m ->
  PyStr.endswith m ".py" = true ->
  StatsUpdater.in_changed changed_files m = true ->
  StatsUpdater._source_exists u [dir_of k; m] = false ->
  StatsUpdater._visit_files_in_dir u (dir_of k) changed_files paths ignore_patterns st
  = Ok (hc, st') ->
  st_disk st' !! (k ++ [m +:+ ".stats.yaml"]) = None /\ hc = true.
Proof.
  intros Hk Hsrc Hch Hd Hdir Hrec Hrep Hpy Hin Hgone Hvisit.
  apply visit_files_parts in Hvisit
    as (files & hc1 & st1 & stale & Hfiles & Hgf & Hloop & Hd1 & Hstale & Hrm & ->);
    [|assumption..].
  apply visit_loop_spec in Hloop as (_ & _ & _ & Hf1 & Hdir1); [|assumption..].
  destruct (stale_spec _ _ _ _ _ Hk Hd1 Hstale) as (Hgs & _ & Hall).
  apply remove_loop_spec in Hrm as (_ & _ & _ & _ & Hrm & _); [|assumption..].
  assert (Hrec1 : st_disk st1 !! (k ++ [m +:+ ".stats.yaml"])
                  = st_disk st !! (k ++ [m +:+ ".stats.yaml"])).
  { apply Hf1; [rewrite length_app; cbn; lia|]. intros g Hg Ha. split.
    - intros E%stats_key_inj. subst g. apply analysed_source_exists in Ha. congruence.
    - apply stats_is_no_methods. }
  destruct (StatsUpdater._py_stats_files [dir_of k] st1) as [listed|e] eqn:Hls.
  2:{ unfold StatsUpdater.stale_stats_files in Hstale. rewrite Hls in Hstale. discriminate. }
  assert (Hm : m ∈ stale).
  { apply (Hall m listed); auto. apply (record_is_listed k st1); auto. now rewrite Hrec1. }
  split; [now apply Hrm|]. destruct stale; [now apply not_elem_of_nil in Hm|].
  rewrite bool_decide_eq_false_2 by discriminate. apply orb_true_r.
Qed.

Lemma X18_excluded_files_are_left_alone_witness :
  st_disk (outcome (false, empty_store) visit_src).2 !! ["src"; "x.py.stats.yaml"]
  = Some (EFile (CStats (loc 9))).
Proof.
  destruct (X18_excluded_files_are_left_alone updater_src ["src"] "x.py" None (Some ["src"]) []
              store_src (outcome (false, empty_store) visit_src).2
              (outcome (false, empty_store) visit_src).1) as [H _].
  - repeat constructor.
  - apply good_disk_check. by_evaluation.
  - exact I.
  - apply good_disk_check. by_evaluation.
  - reflexivity.
  - left. exists ["src"]. split; reflexivity.
  - apply outcome_ok_pair. vm_compute. reflexivity.
  - etransitivity; [exact H|]. vm_compute. reflexivity.
Defined.

Lemma X19_stale_record_is_removed_witness :
  st_disk (outcome (false, empty_store) visit_gone).2 !! ["bad.py.stats.yaml"] = None.
Proof.
  destruct (X19_stale_record_is_removed updater_nothing [] "bad.py" None None []
              (mkStore disk_old_record ∅) (outcome (false, empty_store) visit_gone).2
              (outcome (false, empty_store) visit_gone).1) as [H _].
  - constructor.
  - apply good_disk_check. by_evaluation.
  - exact I.
  - apply good_disk_check. by_evaluation.
  - reflexivity.
  - vm_compute. eauto.
  - reflexivity.
  - reflexivity.
  - reflexivity.
  - reflexivity.
  - apply outcome_ok_pair. vm_compute. reflexivity.
  - exact H.
Defined.

(** ** Changes that are no Python files *)

Lemma filter_none {A} (f : A -> bool) (l : list A) :
  (forall x, List.In x l -> f x = false) -> List.filter f l = [].
Proof.
  induction l as [|x l IH]; intros H; cbn [List.filter]; [reflexivity|].
  rewrite (H x) by now left. apply IH. intros y Hy. apply H. now right.
Qed.

Lemma visit_without_python (u : updater) (dir_path : string) (bases : list string)
    (paths : option (list string)) (ignore_patterns : list pattern) (st : store)
    (r : bool * store) :
  Forall (fun b => PyStr.endswith b ".py" = false) bases ->
  StatsUpdater._visit_files_in_dir u dir_path (Some bases) paths ignore_patterns st = Ok r ->
  r = (false, st).
Proof.
  intros Hb. unfold StatsUpdater._visit_files_in_dir.
  intros H. apply bind_ok in H as (files & Hfiles & H).
  assert (Ef : files = []).
  { unfold StatsUpdater.files_to_analyze in Hfiles. cbn [mbind res_bind] in Hfiles.
    injection Hfiles as <-. apply filter_none.
    intros f Hf. apply List.filter_In in Hf as [Hf _].
    rewrite Forall_forall in Hb. rewrite (Hb f) by now apply list_elem_of_In. reflexivity. }
  subst files. cbn [for_each mbind res_bind] in H.
  apply bind_ok in H as (stale & Hstale & H).
  assert (Es : stale = []).
  { unfold StatsUpdater.stale_stats_files in Hstale.
    apply bind_ok in Hstale as (sf & Hsf & Hstale).
    apply bind_ok in Hstale as (mf & Hmf & Hstale). injection Hstale as <-.
    apply filter_none. intros f Hf.
    assert (Hpy : PyStr.endswith f ".py" = true).
    { apply List.in_app_or in Hf as [Hf|Hf].
      - eapply py_stats_files_py; [exact Hsf | now apply list_elem_of_In].
      - unfold StatsUpdater._py_method_files in Hmf.
        apply bind_ok in Hmf as (l & _ & Hmf). injection Hmf as <-.
        now apply List.filter_In in Hf. }
    cbn [StatsUpdater.in_changed].
    destruct (bool_decide (f ∈ bases)) eqn:Hin; [|reflexivity].
    apply bool_decide_eq_true in Hin.
    rewrite Forall_forall in Hb. rewrite (Hb f Hin) in Hpy. discriminate. }
  subst stale. cbn [for_each mbind res_bind] in H. now injection H as <-.
Qed.

(** X20. An update over changed files none of which has a base name that
    ends in [.py] changes nothing: when it returns, the store is what it
    was and no directory is reported as changed. *)
Theorem X20_update_ignores_other_files (u : updater) (changed_files : list string)
    (paths : option (list string)) (ignore_patterns : list pattern) (st : store)
    (r : list string * store) :
  Forall (fun f => PyStr.endswith (OsPath.basename f) ".py" = false) changed_files ->
  StatsUpdater.update u (Some changed_files) paths ignore_patterns st = Ok r ->
  r = ([], st).
Proof.
  intros Hnp. unfold StatsUpdater.update, StatsUpdater._generate_dirs_and_files.
  cbn [mbind res_bind]. fold (files_by_dir changed_files).
  destruct (files_by_dir_spec changed_files) as (_ & _ & Hgroups).
  assert (Hall : Forall (fun df : string * option (list string) =>
                           exists bases, df.2 = Some bases /\
                             Forall (fun b => PyStr.endswith b ".py" = false) bases)
                        (List.map (fun df => (df.1, Some df.2)) (files_by_dir changed_files))).
  { apply Forall_forall. intros df Hdf.
    apply list_elem_of_In, List.in_map_iff in Hdf as ([d bases] & <- & Hin).
    exists bases. split; [reflexivity|]. apply Forall_forall. intros b Hb.
    destruct (proj1 (Hgroups d b)) as (f & Hf & _ & ->).
    { exists bases. split; [now apply list_elem_of_In | exact Hb]. }
    rewrite Forall_forall in Hnp. now apply Hnp. }
  revert Hall. generalize (List.map (fun df : string * list string => (df.1, Some df.2))
                                    (files_by_dir changed_files)) as groups.
  intros groups Hall H. apply bind_ok in H as ([dirty st1] & Hloop & H).
  assert (E : (dirty, st1) = ([], st)).
  { revert Hloop.
    apply (for_each_inv _ (fun acc => acc = ([], st))); [|reflexivity].
    intros df acc acc' Hdf -> Hstep. rewrite Forall_forall in Hall.
    destruct (Hall df Hdf) as (bases & Hb & Hpy). destruct df as [d o]. cbn in Hb. subst o.
    unfold StatsUpdater.update_dir in Hstep. cbn [fst snd] in Hstep.
    apply bind_ok in Hstep as (visited & Hv & Hstep).
    apply visit_without_python in Hv; [|exact Hpy]. subst visited.
    cbn [fst snd] in Hstep. now injection Hstep as <-. }
  injection E as -> ->. now injection H as <-.
Qed.

Lemma X20_update_ignores_other_files_witness :
  outcome ([], empty_store)
    (StatsUpdater.update updater_src (Some ["README.md"; "src/notes.txt"]) None [] store_src)
  = ([], store_src).
Proof.
  apply (X20_update_ignores_other_files updater_src ["README.md"; "src/notes.txt"] None []).
  - repeat constructor.
  - apply outcome_ok. vm_compute. reflexivity.
Defined.

(** ** The line counts of the delta reconstructor *)

Lemma line_totals_fold (tp : list pattern) (prefix : string)
    (lc : list (string * line_change)) (acc : line_change * line_change * line_change) :
  acc.1.1 = tuple_add acc.1.2 acc.2 ->
  let t :=
    fold_left
      (fun acc ec =>
         if negb (String.eqb prefix "") && negb (PyStr.startswith ec.1 prefix) then acc
         else
           let is_test := StatsUpdater.any_pattern tp (OsPath.basename ec.1) in
           (tuple_add acc.1.1 ec.2,
            if is_test then tuple_add acc.1.2 ec.2 else acc.1.2,
            if is_test then acc.2 else tuple_add acc.2 ec.2))
      lc acc in
  t.1.1 = tuple_add t.1.2 t.2.
Proof.
  revert acc. induction lc as [|ec lc IH]; intros acc Hacc; [exact Hacc|].
  cbn [fold_left]. apply IH. clear IH.
  destruct (negb (String.eqb prefix "") && negb (PyStr.startswith ec.1 prefix));
    [exact Hacc|].
  destruct acc as [[[[a1 a2] a3] [[b1 b2] b3]] [[c1 c2] c3]].
  destruct ec as [e [[x1 x2] x3]].
  unfold tuple_add in *. cbn [fst snd] in *.
  injection Hacc as -> -> ->.
  destruct (StatsUpdater.any_pattern tp (OsPath.basename e)); cbn [fst snd];
    repeat (match goal with |- (_, _) = (_, _) => apply (f_equal2 pair) end); lia.
Qed.

Lemma line_totals_no_tests (prefix : string) (lc : list (string * line_change))
    (acc : line_change * line_change * line_change) :
  (fold_left
     (fun acc ec =>
        if negb (String.eqb prefix "") && negb (PyStr.startswith ec.1 prefix) then acc
        else
          let is_test := StatsUpdater.any_pattern [] (OsPath.basename ec.1) in
          (tuple_add acc.1.1 ec.2,
           if is_test then tuple_add acc.1.2 ec.2 else acc.1.2,
           if is_test then acc.2 else tuple_add acc.2 ec.2))
     lc acc).1.2 = acc.1.2.
Proof.
  revert acc. induction lc as [|ec lc IH]; intros acc; [reflexivity|].
  cbn [fold_left]. rewrite IH.
  destruct (negb (String.eqb prefix "") && negb (PyStr.startswith ec.1 prefix));
    reflexivity.
Qed.

(** X21. The three running totals that the delta reconstructor keeps over
    the line changes of a commit add up: whatever the test patterns, the
    prefix and the entries of [LATEST_CHANGES.yaml], each of the three
    counts (lines, insertions, deletions) of [total] is the sum of the
    count of [total_test] and the count of [total_non_test]; and without
    test patterns [total_test] stays zero. *)
Theorem X21_total_is_test_plus_non_test (tp : list pattern) (prefix : string)
    (lc : list (string * line_change)) :
  (line_totals tp prefix lc).1.1
  = tuple_add (line_totals tp prefix lc).1.2 (line_totals tp prefix lc).2 /\
  (line_totals [] prefix lc).1.2 = (0, 0, 0)%Z.
Proof.
  split.
  - apply (line_totals_fold tp prefix lc). reflexivity.
  - apply (line_totals_no_tests prefix lc).
Qed.

(** ** The snapshot commits of a replay *)

Lemma repo_commit_hexsha (r : git_repo) (sha : string) (c : git_commit) :
  repo_commit r sha = Ok c -> hexsha c = sha.
Proof.
  unfold repo_commit. destruct (List.find _ _) as [c'|] eqn:E; [|discriminate].
  intros [= <-]. apply List.find_some in E as [_ E]. now apply String.eqb_eq in E.
Qed.

Lemma repo_commit_objects (r r' : git_repo) (sha : string) :
  objects r' = objects r -> repo_commit r' sha = repo_commit r sha.
Proof. unfold repo_commit. now intros ->. Qed.

Lemma head_reset_objects (sha : option string) (r r' : git_repo) :
  head_reset sha r = Ok r' -> objects r' = objects r.
Proof. unfold head_reset. intros H. ok_steps H. now injection H as <-. Qed.

Lemma catch_up_spec o (current_sha prev_sha : string) (changed : list string)
    (rf : git_repo * stats_fs) (r1 : git_repo) (fs1 : stats_fs) :
  catch_up o current_sha prev_sha changed rf = Ok (r1, fs1) ->
  objects r1 = objects rf.1 /\
  exists mid,
    fs_log fs1 = mid ++ fs_log rf.2 /\
    List.map sc_message mid = if incremental o then [ignore_message current_sha] else [].
Proof.
  unfold catch_up. destruct (incremental o); intros H.
  - ok_steps H. injection H as <- <-. cbn [GitStatsFileSystem.commit snd fs_log].
    destruct (negb _); ok_steps Hstep; injection Hstep; intros; subst;
      match goal with
      | Hu : run_update _ _ _ _ _ = Ok _ |- _ => apply run_update_log in Hu
      end.
    + split; [eapply head_reset_objects; eassumption|].
      eexists [_]. split; [cbn; f_equal; eassumption | reflexivity].
    + split; [reflexivity|].
      eexists [_]. split; [cbn; f_equal; eassumption | reflexivity].
  - injection H as ->. split; [reflexivity|]. exists []. split; reflexivity.
Qed.

(** The two files of line changes in what [add_file] leaves. *)
Lemma latest_changes_written (fs2 fs3 fs4 : stats_fs) (c : git_commit) :
  GitStatsFileSystem.add_file ["LATEST_CHANGES.yaml"] (CChanges (stats_files c)) fs2
  = Ok fs3 ->
  GitStatsFileSystem.add_file ["LATEST_CHANGES_TOTAL.yaml"]
    (CChangesTotal (stats_total c)) fs3 = Ok fs4 ->
  git_show (st_disk (fs_store fs4)) "LATEST_CHANGES.yaml" = Ok (CChanges (stats_files c)) /\
  git_show (st_disk (fs_store fs4)) "LATEST_CHANGES_TOTAL.yaml"
  = Ok (CChangesTotal (stats_total c)).
Proof.
  unfold GitStatsFileSystem.add_file. intros H3 H4.
  apply bind_ok in H3 as (d3 & Hd3 & H3). apply bind_ok in H4 as (d4 & Hd4 & H4).
  injection H3 as <-. injection H4 as <-. cbn [fs_store st_disk] in *.
  apply add_file_spec in Hd3 as (c3 & [= <-] & Hk3 & _).
  apply add_file_spec in Hd4 as (c4 & [= <-] & Hk4 & Hframe).
  change (OsPath.resolve (_normalize_path (FileSystem.join_parts ["LATEST_CHANGES.yaml"])))
    with ["LATEST_CHANGES.yaml"] in Hk3.
  change (OsPath.resolve
            (_normalize_path (FileSystem.join_parts ["LATEST_CHANGES_TOTAL.yaml"])))
    with ["LATEST_CHANGES_TOTAL.yaml"] in Hk4, Hframe.
  unfold git_show. split.
  - change (OsPath.resolve "LATEST_CHANGES.yaml") with ["LATEST_CHANGES.yaml"].
    rewrite Hframe; [| discriminate | cbn; lia].
    now rewrite Hk3.
  - change (OsPath.resolve "LATEST_CHANGES_TOTAL.yaml") with ["LATEST_CHANGES_TOTAL.yaml"].
    now rewrite Hk4.
Qed.

Lemma yielded_older o r log id sha (more : list snapshot) :
  yielded o r log id sha -> yielded o r (more ++ log) id sha.
Proof.
  intros (c & snap & newer & older & Hc & -> & -> & Hs & Hi).
  exists c, snap, (more ++ newer), older. rewrite <- List.app_assoc. auto.
Qed.

Lemma replay_pair_spec o (sha_pair : string * option string) (rf : git_repo * stats_fs)
    (id : nat) (rf' : git_repo * stats_fs) :
  replay_pair o sha_pair rf = Ok (id, rf') ->
  objects rf'.1 = objects rf.1 /\
  (exists more, fs_log rf'.2 = more ++ fs_log rf.2) /\
  yielded o rf.1 (fs_log rf'.2) id sha_pair.1.
Proof.
  unfold replay_pair. intros H. ok_steps H.
  injection H as <- <-. cbn [fst snd GitStatsFileSystem.commit fs_log].
  match goal with Hc : catch_up _ _ _ _ _ = Ok _ |- _ =>
    apply catch_up_spec in Hc as (Hobj & mid & Hmid & Hmsg) end.
  match goal with Hr : head_reset _ _ = Ok _ |- _ => apply head_reset_objects in Hr as Hobj2 end.
  match goal with Hu : run_update _ _ _ _ _ = Ok _ |- _ => apply run_update_log in Hu as Hlog2 end.
  match goal with
  | H3 : GitStatsFileSystem.add_file ["LATEST_CHANGES.yaml"] _ _ = Ok _,
    H4 : GitStatsFileSystem.add_file ["LATEST_CHANGES_TOTAL.yaml"] _ _ = Ok _ |- _ =>
      pose proof (latest_changes_written _ _ _ _ H3 H4) as [Hl Ht];
      apply add_file_log in H3; apply add_file_log in H4
  end.
  match goal with |- context [st_disk (fs_store ?f)] => rename f into fs4 end.
  assert (Hlog : fs_log fs4 = mid ++ fs_log rf.2) by congruence.
  split; [congruence|]. split.
  - eexists (_ :: mid). rewrite Hlog. reflexivity.
  - match goal with Hc : repo_commit _ _ = Ok ?c |- _ => exists c end.
    eexists _, [], (fs_log fs4). repeat split.
    + eassumption.
    + exact Hl.
    + exact Ht.
    + intros Hinc. rewrite Hinc in Hmsg. rewrite Hlog.
      destruct mid as [|cu [|? ?]]; try discriminate.
      injection Hmsg as Hmsg. exists cu, (fs_log rf.2). auto.
Qed.

Lemma yielded_objects o (r r' : git_repo) log id sha :
  objects r' = objects r -> yielded o r' log id sha -> yielded o r log id sha.
Proof.
  intros Hobj (c & snap & newer & older & Hc & Hrest).
  exists c, snap, newer, older. rewrite <- (repo_commit_objects r r' sha Hobj). auto.
Qed.

Lemma replay_pairs_spec o (pairs : list (string * option string))
    (rf : git_repo * stats_fs) (ids : list nat) (rf' : git_repo * stats_fs) :
  replay_pairs o pairs rf = Ok (ids, rf') ->
  objects rf'.1 = objects rf.1 /\
  (exists more, fs_log rf'.2 = more ++ fs_log rf.2) /\
  Forall2 (yielded o rf.1 (fs_log rf'.2)) ids (List.map fst pairs).
Proof.
  revert rf ids. induction pairs as [|sha_pair pairs IH]; intros rf ids; cbn [replay_pairs].
  - intros [= <- <-]. split; [reflexivity|]. split; [now exists [] | constructor].
  - intros H. apply bind_ok in H as ([id rf1] & Hpair & H).
    apply bind_ok in H as ([ids' rf2] & Hrest & H). injection H as <- <-.
    apply replay_pair_spec in Hpair as (Hobj1 & [more1 Hlog1] & Hy).
    apply IH in Hrest as (Hobj2 & [more2 Hlog2] & Hys).
    split; [congruence|]. split.
    + exists (more2 ++ more1). rewrite Hlog2, Hlog1. now rewrite List.app_assoc.
    + cbn [List.map]. constructor.
      * rewrite Hlog2. now apply yielded_older.
      * eapply Forall2_impl; [exact Hys|]. intros id' sha'. now apply yielded_objects.
Qed.

Lemma seed_objects o (source_shas : list string) (rf rf1 : git_repo * stats_fs) :
  seed o source_shas rf = Ok rf1 -> objects rf1.1 = objects rf.1.
Proof.
  unfold seed. destruct (negb _ && _).
  - destruct source_shas as [|first_sha rest]; [discriminate|]. intros H. ok_steps H.
    injection H as <-. cbn [fst]. eapply head_reset_objects; eassumption.
  - now intros [= <-].
Qed.

Lemma sha_pairs_fst o (r : git_repo) (source_shas : list string)
    (pairs : list (string * option string)) :
  sha_pairs o r source_shas = Ok pairs -> List.map fst pairs = source_shas.
Proof.
  unfold sha_pairs. destruct (reversed o).
  - intros [= <-]. apply fst_zip. rewrite length_app, length_map. cbn.
    destruct source_shas; cbn; lia.
  - destruct source_shas as [|first_sha rest]; [discriminate|]. intros H. ok_steps H.
    injection H as <-.
    match goal with Hp : _get_parent_sha _ _ _ = Ok ?p |- _ =>
      apply (fst_zip (first_sha :: rest) (p :: List.map Some (first_sha :: rest))) end.
    cbn. rewrite length_map. lia.
Qed.

Lemma generate_spec o (fs : stats_fs) (source_repo : git_repo) (source_shas : list string)
    (ids : list nat) (r' : git_repo) (fs' : stats_fs) :
  generate_stats_fs_commits_for_source_commits o fs source_repo source_shas
  = Ok (ids, (r', fs')) ->
  Forall2 (yielded o source_repo (fs_log fs')) ids source_shas.
Proof.
  unfold generate_stats_fs_commits_for_source_commits. intros H.
  apply bind_ok in H as (rf & Hseed & H). apply bind_ok in H as (pairs & Hpairs & H).
  apply seed_objects in Hseed. apply sha_pairs_fst in Hpairs as <-.
  apply replay_pairs_spec in H as (_ & _ & H). cbn [fst snd] in *.
  eapply Forall2_impl; [exact H|]. intros id sha. now apply yielded_objects.
Qed.

Lemma take_word_id (h rest : string) :
  all_word h = true -> take_word (h +:+ nl +:+ rest) = h.
Proof.
  induction h as [|c h IH]; simpl; [reflexivity|].
  intros [Hc Hh]%andb_prop. rewrite Hc. f_equal. now apply IH.
Qed.

Lemma get_sha_from_visible_message (c : git_commit) :
  is_id (hexsha c) = true -> _get_sha_from_message (visible_message c) = Ok (hexsha c).
Proof.
  unfold is_id, _get_sha_from_message, visible_message.
  intros [Hne Hw]%andb_prop. rewrite take_word_id by exact Hw.
  destruct (hexsha c); [discriminate | reflexivity].
Qed.

Lemma outcome_ok_triple {A B C} (dflt : A * (B * C)) (r : res (A * (B * C))) :
  is_ok r = true -> r = Ok ((outcome dflt r).1, ((outcome dflt r).2.1, (outcome dflt r).2.2)).
Proof. destruct r as [[a [b c]]|]; [reflexivity | discriminate]. Qed.

(** X22. The source id is recovered from every commit that the replay
    yields: when [generate_stats_fs_commits_for_source_commits] returns,
    it has yielded one snapshot commit for each source id, in order, and
    [_get_sha_from_message] on the message of that commit gives the source
    id back. In incremental mode the commit just below it is the catch-up
    commit, on whose message [_get_sha_from_message] raises
    [AttributeError]. (Source ids are non-empty strings of word
    characters.) *)
Theorem X22_source_id_is_recovered_from_each_yielded_commit o (fs : stats_fs)
    (source_repo : git_repo) (source_shas : list string)
    (ids : list nat) (r' : git_repo) (fs' : stats_fs) :
  Forall (fun sha => is_id sha = true) source_shas ->
  generate_stats_fs_commits_for_source_commits o fs source_repo source_shas
  = Ok (ids, (r', fs')) ->
  Forall2
    (fun id sha =>
       (exists snap,
          GitStatsFileSystem.lookup_commit fs' id = Some snap /\
          _get_sha_from_message (sc_message snap) = Ok sha) /\
       (incremental o = true ->
        exists id' cu,
          id = S id' /\ GitStatsFileSystem.lookup_commit fs' id' = Some cu /\
          sc_message cu = ignore_message sha /\
          _get_sha_from_message (sc_message cu) = Raise AttributeError))
    ids source_shas.
Proof.
  intros Hids H. apply generate_spec in H.
  induction H as [|id sha ids shas Hy H IH]; [constructor|].
  apply Forall_cons in Hids as [Hid Hids]. constructor; [|now apply IH].
  destruct Hy as (c & snap & newer & older & Hc & Hlog & -> & (Hmsg & _ & _) & Hinc).
  pose proof (repo_commit_hexsha _ _ _ Hc) as Hsha. split.
  - exists snap. split; [now apply (lookup_commit_split fs' newer)|].
    rewrite Hmsg, <- Hsha. apply get_sha_from_visible_message. now rewrite Hsha.
  - intros (cu & older' & -> & Hcu)%Hinc. exists (List.length older'), cu.
    split; [reflexivity|]. split; [|split; [exact Hcu|]].
    + apply (lookup_commit_split fs' (newer ++ [snap])).
      now rewrite <- List.app_assoc.
    + rewrite Hcu. reflexivity.
Qed.

(** X22 on the sample replay of two commits in incremental mode, which
    yields the commits 1 and 3. *)
Lemma X22_source_id_is_recovered_from_each_yielded_commit_witness :
  Forall2
    (fun id sha =>
       (exists snap,
          GitStatsFileSystem.lookup_commit replayed_fs id = Some snap /\
          _get_sha_from_message (sc_message snap) = Ok sha) /\
       (incremental incremental_options = true ->
        exists id' cu,
          id = S id' /\ GitStatsFileSystem.lookup_commit replayed_fs id' = Some cu /\
          sc_message cu = ignore_message sha /\
          _get_sha_from_message (sc_message cu) = Raise AttributeError))
    (outcome ([], (repo_12, empty_stats_fs)) replayed_12).1 ["aaa111"; "bbb222"].
Proof.
  apply (X22_source_id_is_recovered_from_each_yielded_commit incremental_options
           empty_stats_fs repo_12 ["aaa111"; "bbb222"]
           (outcome ([], (repo_12, empty_stats_fs)) replayed_12).1
           (outcome ([], (repo_12, empty_stats_fs)) replayed_12).2.1 replayed_fs).
  - constructor; [reflexivity|]. constructor; [reflexivity|]. constructor.
  - apply (outcome_ok_triple ([], (repo_12, empty_stats_fs)) replayed_12).
    vm_compute. reflexivity.
Defined.

(** X23. The snapshot commit that the replay yields for a source commit
    holds the line counts of that commit: [git show] of
    [LATEST_CHANGES.yaml] in its tree gives [commit.stats.files] and of
    [LATEST_CHANGES_TOTAL.yaml] gives [commit.stats.total], which is what
    the delta reconstructor reads back from the commit. *)
Theorem X23_yielded_commit_holds_the_line_changes o (fs : stats_fs)
    (source_repo : git_repo) (source_shas : list string)
    (ids : list nat) (r' : git_repo) (fs' : stats_fs) :
  generate_stats_fs_commits_for_source_commits o fs source_repo source_shas
  = Ok (ids, (r', fs')) ->
  Forall2
    (fun id sha =>
       exists c snap,
         repo_commit source_repo sha = Ok c /\
         GitStatsFileSystem.lookup_commit fs' id = Some snap /\
         git_show (sc_tree snap) "LATEST_CHANGES.yaml" = Ok (CChanges (stats_files c)) /\
         git_show (sc_tree snap) "LATEST_CHANGES_TOTAL.yaml"
         = Ok (CChangesTotal (stats_total c)))
    ids source_shas.
Proof.
  intros H. apply generate_spec in H.
  eapply Forall2_impl; [exact H|]. intros id sha.
  intros (c & snap & newer & older & Hc & Hlog & -> & (_ & Hl & Ht) & _).
  exists c, snap. split; [exact Hc|]. split; [|split; assumption].
  now apply (lookup_commit_split fs' newer).
Qed.

(** X23 on the sample replay of two commits, which yields the commits 1
    and 3. *)
Lemma X23_yielded_commit_holds_the_line_changes_witness :
  Forall2
    (fun id sha =>
       exists c snap,
         repo_commit repo_12 sha = Ok c /\
         GitStatsFileSystem.lookup_commit replayed_fs id = Some snap /\
         git_show (sc_tree snap) "LATEST_CHANGES.yaml" = Ok (CChanges (stats_files c)) /\
         git_show (sc_tree snap) "LATEST_CHANGES_TOTAL.yaml"
         = Ok (CChangesTotal (stats_total c)))
    (outcome ([], (repo_12, empty_stats_fs)) replayed_12).1 ["aaa111"; "bbb222"].
Proof.
  apply (X23_yielded_commit_holds_the_line_changes incremental_options
           empty_stats_fs repo_12 ["aaa111"; "bbb222"]
           (outcome ([], (repo_12, empty_stats_fs)) replayed_12).1
           (outcome ([], (repo_12, empty_stats_fs)) replayed_12).2.1 replayed_fs).
  apply (outcome_ok_triple ([], (repo_12, empty_stats_fs)) replayed_12).
  vm_compute. reflexivity.
Defined.

(** ** The pairs of the replay loop *)

Lemma zip_lookup_both {A B} (l : list A) (k : list B) (i : nat) (a : A) (b : B) :
  l !! i = Some a -> k !! i = Some b -> zip l k !! i = Some (a, b).
Proof.
  revert k i. induction l as [|x l IH]; intros [|y k] [|i]; try discriminate; cbn.
  - now intros [= ->] [= ->].
  - apply IH.
Qed.

Lemma next_shas_lookup (l : list string) (i : nat) :
  i < List.length l ->
  (List.map Some (List.tl l) ++ [None]) !! i = Some (l !! S i).
Proof.
  destruct l as [|x l]; [cbn; lia|]. cbn [List.tl List.length]. intros Hi.
  change ((x :: l) !! S i) with (l !! i). clear x.
  revert i Hi. induction l as [|y l IH]; intros i Hi.
  - cbn in Hi. now replace i with 0 by lia.
  - destruct i as [|i]; [reflexivity|]. cbn [List.map app]. cbn [List.length] in Hi.
    change ((?a :: ?k) !! S i) with (k !! i). apply IH. lia.
Qed.

(** X24. How the replay loop pairs each source id with a previous id: the
    loop runs once per source id, in order. In forward order the first id
    is paired with its first parent (the id of the empty tree when it has
    none) and every other id with the id listed just before it; in
    reversed order every id is paired with the id listed just after it,
    and the last one with [None]. *)
Theorem X24_each_id_is_paired_with_its_neighbour o (r : git_repo)
    (source_shas : list string) (pairs : list (string * option string)) :
  sha_pairs o r source_shas = Ok pairs ->
  List.length pairs = List.length source_shas /\
  forall i sha,
    source_shas !! i = Some sha ->
    exists prev,
      pairs !! i = Some (sha, prev) /\
      if reversed o then prev = source_shas !! S i
      else match i with
           | O => _get_parent_sha r sha (Some empty_sha) = Ok prev
           | S j => prev = source_shas !! j
           end.
Proof.
  unfold sha_pairs. destruct (reversed o).
  - intros [= <-]. split.
    + rewrite length_zip, length_app, length_map.
      destruct source_shas; cbn [List.tl List.length]; lia.
    + intros i sha Hi. exists (source_shas !! S i). split; [|reflexivity].
      apply zip_lookup_both; [exact Hi|]. apply next_shas_lookup.
      now apply lookup_lt_Some in Hi.
  - destruct source_shas as [|first_sha rest]; [discriminate|]. intros H.
    apply bind_ok in H as (first_prev_sha & Hp & H). injection H as <-. split.
    + cbn [List.length]. f_equal. rewrite length_zip. cbn [List.length].
      rewrite length_map. lia.
    + intros [|j] sha Hi.
      * injection Hi as <-. exists first_prev_sha. split; [reflexivity | exact Hp].
      * pose proof (lookup_lt_Some _ _ _ Hi) as Hlt. cbn [List.length] in Hlt.
        destruct ((first_sha :: rest) !! j) as [p|] eqn:Hj.
        2:{ apply lookup_ge_None in Hj. cbn [List.length] in Hj. lia. }
        exists (Some p). split; [|reflexivity].
        apply (zip_lookup_both (first_sha :: rest)
                 (first_prev_sha :: List.map Some (first_sha :: rest)) (S j));
          [exact Hi|].
        change ((first_prev_sha :: ?k) !! S j) with (k !! j).
        change (List.map Some (first_sha :: rest)) with (Some <$> (first_sha :: rest)).
        now rewrite list_lookup_fmap, Hj.
Qed.

(** X24 on the two ids of the sample history, in forward order. *)
Lemma X24_each_id_is_paired_with_its_neighbour_witness :
  List.length [("aaa111", Some empty_sha); ("bbb222", Some "aaa111")]
  = List.length ["aaa111"; "bbb222"] /\
  forall i sha,
    ["aaa111"; "bbb222"] !! i = Some sha ->
    exists prev,
      [("aaa111", Some empty_sha); ("bbb222", Some "aaa111")] !! i = Some (sha, prev) /\
      if reversed incremental_options then prev = ["aaa111"; "bbb222"] !! S i
      else match i with
           | O => _get_parent_sha repo_12 sha (Some empty_sha) = Ok prev
           | S j => prev = ["aaa111"; "bbb222"] !! j
           end.
Proof.
  apply (X24_each_id_is_paired_with_its_neighbour incremental_options repo_12
           ["aaa111"; "bbb222"] [("aaa111", Some empty_sha); ("bbb222", Some "aaa111")]).
  reflexivity.
Defined.

(** ** The listing caches of [CachedFileSystemMixin] *)

(** *** The directory and the name of a clean path *)

Lemma basename_app_sep (a n : string) :
  PyStr.contains OsPath.sep n = false ->
  OsPath.basename (a +:+ String OsPath.sep n) = n.
Proof.
  intros Hn. induction a as [|c a IH].
  - change ("" +:+ String OsPath.sep n) with (String OsPath.sep n).
    cbn [OsPath.basename]. rewrite Hn. reflexivity.
  - rewrite append_cons. cbn [OsPath.basename].
    rewrite contains_app. cbn [PyStr.contains]. rewrite Ascii.eqb_refl, orb_true_r.
    exact IH.
Qed.

Lemma head_app_sep (a n : string) :
  PyStr.contains OsPath.sep n = false ->
  OsPath.head (a +:+ String OsPath.sep n) = a +:+ "/".
Proof.
  intros Hn. induction a as [|c a IH].
  - change ("" +:+ String OsPath.sep n) with (String OsPath.sep n).
    cbn [OsPath.head]. rewrite Hn. reflexivity.
  - rewrite !append_cons. cbn [OsPath.head].
    rewrite contains_app. cbn [PyStr.contains]. rewrite Ascii.eqb_refl, orb_true_r.
    now rewrite IH.
Qed.

Lemma basename_no_sep (n : string) :
  PyStr.contains OsPath.sep n = false -> OsPath.basename n = n /\ OsPath.head n = "".
Proof.
  destruct n as [|c n]; [now split|]. cbn [PyStr.contains OsPath.basename OsPath.head].
  destruct (Ascii.eqb OsPath.sep c) eqn:E; [discriminate|]. intros ->.
  rewrite Ascii.eqb_sym, E. now split.
Qed.

Lemma rstrip_app_sep (a : string) :
  a <> "" -> PyStr.endswith a "/" = false -> PyStr.rstrip OsPath.sep (a +:+ "/") = a.
Proof.
  induction a as [|c a IH]; [congruence|]. intros _ Hend.
  rewrite append_cons. cbn [PyStr.rstrip].
  destruct a as [|c' a].
  - change ("" +:+ "/") with "/". cbn [PyStr.rstrip].
    cbn [PyStr.endswith] in Hend.
    destruct (Ascii.eqb OsPath.sep c) eqn:E; [|reflexivity].
    apply Ascii.eqb_eq in E as <-. discriminate.
  - rewrite IH; [reflexivity | discriminate |].
    cbn [PyStr.endswith] in Hend.
    destruct (String.eqb (String c (String c' a)) "/"); [discriminate | exact Hend].
Qed.

Lemma all_char_key (c : ascii) (a t : string) :
  c <> OsPath.sep -> PyStr.all_char OsPath.sep (String c a +:+ t) = false.
Proof.
  intros Hc. rewrite append_cons. cbn [PyStr.all_char].
  destruct (Ascii.eqb OsPath.sep c) eqn:E; [|reflexivity].
  apply Ascii.eqb_eq in E. congruence.
Qed.

Lemma key_of_first (x : string) (l : list string) :
  good_name x = true ->
  exists c t, key_of (x :: l) = String c t /\ c <> OsPath.sep.
Proof.
  intros (c & x' & -> & Hc & _)%good_name_first. rewrite key_of_cons.
  destruct l; [now exists c, x'|]. rewrite append_cons. eauto.
Qed.

(** The name and the directory of the path with the components
    [k ++ [n]]. *)
Lemma clean_basename (k : list string) (n : string) :
  good_names k -> good_name n = true ->
  OsPath.basename (key_of (k ++ [n])) = n.
Proof.
  intros Hk Hn. pose proof (good_name_no_sep n Hn) as Hs.
  rewrite key_of_snoc. destruct k as [|x k].
  - now apply basename_no_sep.
  - now apply basename_app_sep.
Qed.

Lemma clean_dirname (k : list string) (n : string) :
  good_names k -> good_name n = true ->
  OsPath.dirname (key_of (k ++ [n])) = key_of k.
Proof.
  intros Hk Hn. pose proof (good_name_no_sep n Hn) as Hs.
  rewrite key_of_snoc. unfold OsPath.dirname. destruct k as [|x k].
  - destruct (basename_no_sep n Hs) as [_ ->]. reflexivity.
  - rewrite head_app_sep by exact Hs.
    destruct (key_of_last (x :: k) Hk) as [Hne Hend]; [discriminate|].
    destruct (key_of_first x k) as (c & t & E & Hc); [now inversion Hk|].
    rewrite E in *. rewrite all_char_key by exact Hc.
    rewrite append_cons. cbn [String.eqb negb andb].
    rewrite <- append_cons. now apply rstrip_app_sep.
Qed.

Lemma clean_dirname_or_dot (k : list string) (n : string) :
  good_names k -> good_name n = true ->
  CachedFileSystemMixin.dirname_or_dot (key_of (k ++ [n])) = dir_of k.
Proof.
  intros Hk Hn. unfold CachedFileSystemMixin.dirname_or_dot.
  rewrite clean_dirname by assumption. destruct k as [|x k]; [reflexivity|].
  cbn [dir_of]. destruct (key_of_first x k) as (c & t & -> & _); [now inversion Hk | reflexivity].
Qed.

Lemma normalize_dir_of (k : list string) :
  good_names k -> _normalize_path (dir_of k) = dir_of k.
Proof. destruct k; [reflexivity|]. apply normalize_key_of. Qed.
(** *** What [_update_cache_to_contain_file] adds *)

Lemma add_if_cached_lookup (dir name key : string) (cache : gmap string (gset string)) :
  CachedFileSystemMixin.add_if_cached dir name cache !! key
  = (fun names => if decide (key = dir) then names ∪ {[name]} else names) <$> cache !! key.
Proof.
  unfold CachedFileSystemMixin.add_if_cached.
  destruct (cache !! dir) as [names|] eqn:E.
  - destruct (decide (key = dir)) as [->|Hne].
    + now rewrite lookup_insert_eq, E.
    + rewrite lookup_insert_ne by congruence. now destruct (cache !! key).
  - destruct (decide (key = dir)) as [->|Hne]; [now rewrite E|].
    now destruct (cache !! key).
Qed.

Lemma grows_refl cache : grows cache cache.
Proof. intros key. destruct (cache !! key); eauto. Qed.

Lemma grows_trans c1 c2 c3 : grows c1 c2 -> grows c2 c3 -> grows c1 c3.
Proof.
  intros H12 H23 key. specialize (H12 key). specialize (H23 key).
  destruct (c1 !! key) as [n1|].
  - destruct H12 as (n2 & E2 & S12). rewrite E2 in H23.
    destruct H23 as (n3 & E3 & S23). exists n3. split; [exact E3 | set_solver].
  - now rewrite H12 in H23.
Qed.

Lemma grows_add_if_cached dir name cache :
  grows cache (CachedFileSystemMixin.add_if_cached dir name cache).
Proof.
  intros key. rewrite add_if_cached_lookup. destruct (cache !! key) as [names|]; [|reflexivity].
  cbn. eexists. split; [reflexivity|]. destruct (decide (key = dir)); set_solver.
Qed.

Lemma clean_key_not_dot (k : list string) (n : string) :
  good_names k -> good_name n = true ->
  key_of (k ++ [n]) <> "" /\ key_of (k ++ [n]) <> ".".
Proof.
  intros Hk Hn. pose proof (good_names_snoc k n Hk Hn) as Hg.
  pose proof (resolve_key_of _ Hg) as Hr.
  split; intros E; rewrite E in Hr; vm_compute in Hr; now destruct k.
Qed.

Lemma key_of_snoc_length (k : list string) (n : string) :
  k <> [] -> String.length (key_of k) < String.length (key_of (k ++ [n])).
Proof.
  intros Hk. rewrite key_of_snoc. destruct k as [|x k]; [congruence|].
  rewrite length_append. cbn [String.length]. lia.
Qed.

(** The loop on a clean path: it ends, the cache grows, and every
    component of the path is entered in the listing of the directory
    above it, when that listing is cached. *)
Lemma update_dirs_cache_clean (k : list string) :
  forall (n : string) (fuel : nat) (dirs_cache : gmap string (gset string)),
    good_names k -> good_name n = true ->
    String.length (key_of (k ++ [n])) <= fuel ->
    exists dirs_cache',
      CachedFileSystemMixin.update_dirs_cache fuel (key_of (k ++ [n])) dirs_cache
      = Ok dirs_cache' /\
      grows dirs_cache dirs_cache' /\
      forall k1 m k2 names,
        k ++ [n] = k1 ++ m :: k2 ->
        dirs_cache !! dir_of k1 = Some names ->
        exists names', dirs_cache' !! dir_of k1 = Some names' /\ m ∈ names'.
Proof.
  induction k as [|n' k IH] using rev_ind; intros n fuel dc Hk Hn Hfuel.
  - destruct (clean_key_not_dot [] n Hk Hn) as [H1 H2].
    apply String.eqb_neq in H1, H2.
    destruct fuel as [|fuel].
    { exfalso. change (key_of ([] ++ [n])) with n in *. destruct n; [discriminate | cbn in Hfuel; lia]. }
    cbn [CachedFileSystemMixin.update_dirs_cache]. rewrite H1, H2.
    rewrite (clean_dirname_or_dot [] n Hk Hn), (clean_basename [] n Hk Hn).
    cbn [dir_of CachedFileSystemMixin.update_dirs_cache].
    destruct fuel; (eexists; split; [reflexivity|]; split; [apply grows_add_if_cached|]);
      intros k1 m k2 names E Hc;
      (destruct k1 as [|y k1]; [injection E as <- <- | destruct k1; discriminate]);
      rewrite add_if_cached_lookup; cbn [dir_of] in *; rewrite Hc; cbn;
      rewrite decide_True by reflexivity; eexists; (split; [reflexivity | set_solver]).
  - apply Forall_app in Hk as Hk'. destruct Hk' as [Hk0 Hn'%Forall_inv].
    destruct (clean_key_not_dot (k ++ [n']) n Hk Hn) as [H1 H2].
    apply String.eqb_neq in H1, H2.
    assert (Hlen : String.length (key_of (k ++ [n']))
                   < String.length (key_of ((k ++ [n']) ++ [n])))
      by (apply key_of_snoc_length; now destruct k).
    destruct fuel as [|fuel]; [lia|].
    cbn [CachedFileSystemMixin.update_dirs_cache]. rewrite H1, H2.
    rewrite (clean_dirname_or_dot _ n Hk Hn), (clean_basename _ n Hk Hn).
    assert (Hd : dir_of (k ++ [n']) = key_of (k ++ [n'])) by now destruct k.
    rewrite Hd.
    destruct (IH n' fuel (CachedFileSystemMixin.add_if_cached (key_of (k ++ [n'])) n dc)
                Hk0 Hn') as (dc' & Hrun & Hgrow & Hin).
    { lia. }
    exists dc'. split; [exact Hrun|]. split.
    { eapply grows_trans; [apply grows_add_if_cached | exact Hgrow]. }
    intros k1 m k2 names E Hc.
    destruct k2 as [|z k2 _] using rev_ind.
    + apply app_inj_tail in E as [<- <-].
      specialize (Hgrow (dir_of (k ++ [n']))).
      rewrite add_if_cached_lookup, Hc in Hgrow. cbn in Hgrow.
      rewrite decide_True in Hgrow by exact Hd.
      destruct Hgrow as (names' & E' & Hsub). exists names'. split; [exact E' | set_solver].
    + change (k1 ++ m :: k2 ++ [z]) with (k1 ++ (m :: k2) ++ [z]) in E.
      rewrite List.app_assoc in E. apply app_inj_tail in E as [E <-].
      pose proof (grows_add_if_cached (key_of (k ++ [n'])) n dc (dir_of k1)) as Hg1.
      rewrite Hc in Hg1. destruct Hg1 as (names1 & E1 & _).
      apply (Hin k1 m k2 names1 E E1).
Qed.
(** *** The disk stays closed *)

Lemma elem_of_ancestors (a key : list string) :
  a ∈ FileSystem.ancestors key <-> a <> [] /\ exists t, t <> [] /\ key = a ++ t.
Proof.
  unfold FileSystem.ancestors. rewrite list_elem_of_fmap. split.
  - intros (i & -> & Hi). apply list_elem_of_In, List.in_seq in Hi. split.
    + intros E. apply (f_equal List.length) in E. rewrite length_take in E.
      cbn in E. lia.
    + exists (drop i key). split; [|now rewrite take_drop].
      intros E. apply (f_equal List.length) in E. rewrite length_drop in E.
      cbn in E. lia.
  - intros (Ha & t & Ht & ->). exists (List.length a). split.
    + now rewrite take_app_length.
    + apply list_elem_of_In, List.in_seq. rewrite length_app.
      destruct a; [congruence|]. destruct t; [congruence|]. cbn. lia.
Qed.

Lemma lookup_entry_ne (d : disk) (k : list string) :
  k <> [] -> FileSystem.lookup_entry d k = d !! k.
Proof. now destruct k. Qed.

Lemma closed_add_file (parts : list string) (body : res content) (d d' : disk) :
  closed_disk d -> FileSystem.add_file parts body d = Ok d' -> closed_disk d'.
Proof.
  intros Hcl H. unfold FileSystem.add_file in H.
  set (key := OsPath.resolve (_normalize_path (FileSystem.join_parts parts))) in H.
  apply bind_ok in H as (d1 & Hmk & H).
  assert (Hkey : FileSystem.lookup_entry d1 key <> Some EDir).
  { intros E. rewrite E in H. discriminate. }
  assert (E : exists c, d' = <[key := EFile c]> d1).
  { destruct (FileSystem.lookup_entry d1 key) as [[c|]|]; try congruence;
      destruct body as [c'|]; try discriminate; injection H as <-; eauto. }
  destruct E as [c ->]. clear H.
  assert (Hdir : forall k, k <> [] -> d1 !! k = Some EDir -> <[key := EFile c]> d1 !! k = Some EDir).
  { intros k Hk Ek. rewrite lookup_insert_ne; [exact Ek|].
    intros <-. apply Hkey. now rewrite lookup_entry_ne. }
  intros k n e Hlook. destruct (decide (k = [])) as [->|Hk]; [reflexivity|].
  rewrite lookup_entry_ne by exact Hk. apply Hdir; [exact Hk|].
  destruct (decide (key = k ++ [n])) as [Ekey|Hne].
  - apply (makedirs_dirs key d d1 Hmk). apply elem_of_ancestors.
    split; [exact Hk|]. exists [n]. split; [discriminate | exact Ekey].
  - rewrite lookup_insert_ne in Hlook by exact Hne.
    destruct (makedirs_frame_list _ _ _ Hmk (k ++ [n])) as [E|(_ & _ & Hin)].
    + rewrite E in Hlook. apply Hcl in Hlook. rewrite lookup_entry_ne in Hlook by exact Hk.
      destruct (makedirs_frame key d d1 Hmk k) as [->|[E' _]]; congruence.
    + apply elem_of_ancestors in Hin as (_ & t & Ht & Ekey).
      apply (makedirs_dirs key d d1 Hmk). apply elem_of_ancestors.
      split; [exact Hk|]. exists (n :: t). split; [discriminate|].
      now rewrite Ekey, <- List.app_assoc.
Qed.

Lemma rmdir_cases (path : string) (d : disk) :
  FileSystem.rmdir path d = d \/
  FileSystem.rmdir path d = delete (OsPath.resolve path) d /\
  OsPath.resolve path <> [] /\
  d !! OsPath.resolve path = Some EDir /\
  forall n, d !! (OsPath.resolve path ++ [n]) = None.
Proof.
  unfold FileSystem.rmdir. destruct (OsPath.resolve path) as [|x k]; [now left|].
  destruct (d !! (x :: k)) as [[c|]|] eqn:E; try now left.
  destruct (FileSystem.children d (x :: k)) eqn:Ec; [|now left].
  right. repeat split; try congruence. now apply children_nil.
Qed.

Lemma closed_rmdir (path : string) (d : disk) :
  closed_disk d -> closed_disk (FileSystem.rmdir path d).
Proof.
  intros Hcl. destruct (rmdir_cases path d) as [->|(-> & Hne & Hdir & Hempty)]; [exact Hcl|].
  intros k n e [Hk Hlook]%lookup_delete_Some.
  pose proof (Hcl k n e Hlook) as Hd.
  destruct (decide (k = [])) as [->|Hkne]; [reflexivity|].
  rewrite lookup_entry_ne in * by exact Hkne.
  rewrite lookup_delete_ne; [exact Hd|].
  intros E. rewrite E in Hempty. now rewrite Hempty in Hlook.
Qed.

(** *** The cached file listings stay complete *)

Lemma plain_ls_files_complete (k : list string) (d : disk) (n : string) (c : content) :
  good_names k -> closed_disk d -> d !! (k ++ [n]) = Some (EFile c) ->
  exists l, FileSystem.ls_files (dir_of k) d = Ok l /\ n ∈ l.
Proof.
  intros Hk Hcl Hfile. pose proof (Hcl _ _ _ Hfile) as Hdir.
  unfold FileSystem.ls_files, FileSystem.exists_, FileSystem.scandir.
  rewrite (resolve_dir_of k Hk), Hdir.
  rewrite bool_decide_eq_true_2 by eauto. cbn. eexists. split; [reflexivity|].
  apply list_elem_of_fmap. exists (n, EFile c). split; [reflexivity|].
  now apply elem_of_children.
Qed.

Lemma mixin_ls_files_spec (path : string) (fs : cached_fs) (l : list string) (fs' : cached_fs) :
  CachedFileSystemMixin.ls_files path fs = Ok (l, fs') ->
  cf_disk fs' = cf_disk fs /\ _dirs_cache fs' = _dirs_cache fs /\
  (_files_cache fs !! _normalize_path path = Some (list_to_set l) /\ fs' = fs \/
   _files_cache fs !! _normalize_path path = None /\
   FileSystem.ls_files (_normalize_path path) (cf_disk fs) = Ok l /\
   _files_cache fs' = <[_normalize_path path := list_to_set l]> (_files_cache fs)).
Proof.
  unfold CachedFileSystemMixin.ls_files.
  destruct (_files_cache fs !! _normalize_path path) as [names|] eqn:E.
  - intros [= <- <-]. repeat split. left. split; [|reflexivity].
    f_equal. apply set_eq. intros x. now rewrite elem_of_list_to_set, elem_of_elements.
  - intros H. apply bind_ok in H as (files & Hls & H). injection H as <- <-.
    repeat split. right. auto.
Qed.

Lemma lists_every_file_ls_files (path : string) (fs : cached_fs) (l : list string)
    (fs' : cached_fs) :
  closed_disk (cf_disk fs) -> lists_every_file fs ->
  CachedFileSystemMixin.ls_files path fs = Ok (l, fs') ->
  lists_every_file fs'.
Proof.
  intros Hcl Hinv (Hd & _ & [[_ ->]|(Hmiss & Hls & Hfc)])%mixin_ls_files_spec; [exact Hinv|].
  intros k names n c Hk Hc Hfile. rewrite Hd in Hfile. rewrite Hfc in Hc.
  destruct (decide (_normalize_path path = dir_of k)) as [E|Hne].
  - rewrite E, lookup_insert_eq in Hc. injection Hc as <-.
    rewrite E in Hls.
    destruct (plain_ls_files_complete k _ n c Hk Hcl Hfile) as (l' & Hl' & Hin).
    rewrite Hls in Hl'. injection Hl' as <-. now apply elem_of_list_to_set.
  - rewrite lookup_insert_ne in Hc by exact Hne. eapply Hinv; eassumption.
Qed.

Lemma mixin_add_file_spec (parts : list string) (body : res content) (fs : cached_fs)
    (d' : disk) (k : list string) (n : string) :
  good_names k -> good_name n = true ->
  _normalize_path (FileSystem.join_parts parts) = key_of (k ++ [n]) ->
  FileSystem.add_file parts body (cf_disk fs) = Ok d' ->
  exists dirs_cache',
    CachedFileSystemMixin.add_file parts body fs
    = Ok (mkCachedFs d' (CachedFileSystemMixin.add_if_cached (dir_of k) n (_files_cache fs))
            dirs_cache') /\
    grows (_dirs_cache fs) dirs_cache' /\
    forall k1 m k2 names,
      k ++ [n] = k1 ++ m :: k2 ->
      _dirs_cache fs !! dir_of k1 = Some names ->
      exists names', dirs_cache' !! dir_of k1 = Some names' /\ m ∈ names'.
Proof.
  intros Hk Hn Hnorm Hadd.
  destruct (update_dirs_cache_clean k n (String.length (key_of (k ++ [n]))) (_dirs_cache fs)
              Hk Hn) as (dc' & Hrun & Hgrow & Hin); [lia|].
  exists dc'. split; [|split; assumption].
  unfold CachedFileSystemMixin.add_file. rewrite Hadd. cbn.
  unfold CachedFileSystemMixin._update_cache_to_contain_file.
  cbn [cf_disk _files_cache _dirs_cache]. rewrite Hnorm, Hrun. cbn.
  now rewrite (clean_dirname_or_dot k n Hk Hn), (clean_basename k n Hk Hn).
Qed.

Lemma lists_every_file_add_file (parts : list string) (body : res content)
    (fs fs' : cached_fs) :
  clean_path (_normalize_path (FileSystem.join_parts parts)) = true ->
  lists_every_file fs ->
  CachedFileSystemMixin.add_file parts body fs = Ok fs' ->
  lists_every_file fs' /\ FileSystem.add_file parts body (cf_disk fs) = Ok (cf_disk fs').
Proof.
  intros (k0 & n0 & Hk0 & Hn0 & Hnorm)%clean_path_inv Hinv H.
  pose proof H as H'. unfold CachedFileSystemMixin.add_file in H'.
  apply bind_ok in H' as (d' & Hadd & _).
  destruct (mixin_add_file_spec parts body fs d' k0 n0 Hk0 Hn0 Hnorm Hadd)
    as (dc' & Hrun & _).
  rewrite Hrun in H. injection H as <-. cbn [cf_disk]. split; [|exact Hadd].
  intros k names n c Hk Hc Hfile. cbn [cf_disk _files_cache] in *.
  rewrite add_if_cached_lookup in Hc.
  destruct (_files_cache fs !! dir_of k) as [names0|] eqn:E0; [|discriminate].
  injection Hc as <-.
  destruct (decide (k ++ [n] = k0 ++ [n0])) as [[-> ->]%app_inj_tail|Hne].
  - rewrite decide_True by reflexivity. set_solver.
  - assert (Hold : cf_disk fs !! (k ++ [n]) = Some (EFile c)).
    { destruct (add_file_frame _ _ _ _ Hadd (k ++ [n])) as [<-|[_ E]]; [| exact Hfile |].
      - rewrite Hnorm, resolve_key_of by now apply good_names_snoc. exact Hne.
      - congruence. }
    pose proof (Hinv k names0 n c Hk E0 Hold). destruct (decide _); set_solver.
Qed.

Lemma mixin_rmdir_spec (path : string) (fs fs' : cached_fs) :
  CachedFileSystemMixin.rmdir path fs = Some fs' ->
  cf_disk fs' = FileSystem.rmdir (_normalize_path path) (cf_disk fs) /\
  _files_cache fs' = _files_cache fs.
Proof.
  unfold CachedFileSystemMixin.rmdir. intros H.
  apply bind_Some in H as (dc & _ & [= <-]). split; reflexivity.
Qed.

(** What holds in every state that is reached. *)
Lemma reached_invariant (d : disk) (fs : cached_fs) :
  closed_disk d -> rtc fs_step (mkCachedFs d ∅ ∅) fs ->
  closed_disk (cf_disk fs) /\ lists_every_file fs.
Proof.
  intros Hcl. revert fs.
  apply (rtc_ind_r (fun fs => closed_disk (cf_disk fs) /\ lists_every_file fs)).
  - split; [exact Hcl|]. intros k names n c _ Hc. cbn in Hc. now rewrite lookup_empty in Hc.
  - intros fs1 fs2 Hrun Hstep [Hcl1 Hinv1].
    destruct Hstep as [parts body fs1 fs2 Hclean H|path l fs1 fs2 H|path l fs1 fs2 H
                       |path fs1 fs2 H].
    + destruct (lists_every_file_add_file _ _ _ _ Hclean Hinv1 H) as [Hinv2 Hadd].
      split; [|exact Hinv2]. eapply closed_add_file; eassumption.
    + pose proof (lists_every_file_ls_files _ _ _ _ Hcl1 Hinv1 H) as Hinv2.
      apply mixin_ls_files_spec in H as (-> & _). now split.
    + unfold CachedFileSystemMixin.ls_dirs in H.
      destruct (_dirs_cache fs1 !! _normalize_path path).
      * injection H as _ <-. now split.
      * apply bind_ok in H as (dirs & _ & H). injection H as _ <-. now split.
    + apply mixin_rmdir_spec in H as [Hd Hfc]. split.
      * rewrite Hd. now apply closed_rmdir.
      * intros k names n c Hk Hc Hfile. rewrite Hfc in Hc. rewrite Hd in Hfile.
        apply (Hinv1 k names n c Hk Hc).
        destruct (rmdir_cases (_normalize_path path) (cf_disk fs1))
          as [E|(E & _)]; rewrite E in Hfile; [exact Hfile|].
        now apply lookup_delete_Some in Hfile as [_ Hfile].
Qed.

(** X25. The cached file listing misses no file. In every state that is
    reached from empty caches by calls of [add_file] (on paths that are
    clean once normalised), [ls_files], [ls_dirs] and [rmdir] of the
    caching file system, [ls_files] of a directory returns, and what it
    returns contains every file that is in the directory on the disk,
    whether the listing is answered from the cache or not. *)
Theorem X25_cached_file_listing_misses_no_file (d : disk) (fs : cached_fs)
    (k : list string) (n : string) (c : content) :
  closed_disk d ->
  rtc fs_step (mkCachedFs d ∅ ∅) fs ->
  good_names k ->
  cf_disk fs !! (k ++ [n]) = Some (EFile c) ->
  exists l fs',
    CachedFileSystemMixin.ls_files (dir_of k) fs = Ok (l, fs') /\ n ∈ l.
Proof.
  intros Hcl Hrun Hk Hfile.
  destruct (reached_invariant d fs Hcl Hrun) as [Hcl' Hinv].
  unfold CachedFileSystemMixin.ls_files. rewrite (normalize_dir_of k Hk).
  destruct (_files_cache fs !! dir_of k) as [names|] eqn:E.
  - exists (elements names), fs. split; [reflexivity|].
    apply elem_of_elements. eapply Hinv; eassumption.
  - destruct (plain_ls_files_complete k _ n c Hk Hcl' Hfile) as (l & Hl & Hin).
    rewrite Hl. cbn. eauto.
Qed.
(** X25 on a run from the empty store: after [a/x.txt] was written, [a]
    was listed and [a/y.txt] was written, the listing of [a] has
    [y.txt]. *)
Lemma X25_cached_file_listing_misses_no_file_witness :
  exists l fs',
    CachedFileSystemMixin.ls_files (dir_of ["a"]) fs_written_twice = Ok (l, fs') /\
    "y.txt" ∈ l.
Proof.
  apply (X25_cached_file_listing_misses_no_file ∅ fs_written_twice ["a"] "y.txt" (CText "y")).
  - intros k n e H. rewrite lookup_empty in H. discriminate.
  - apply (rtc_l _ _ fs_written).
    { apply (step_add_file ["a"; "x.txt"] (Ok (CText "x"))); [reflexivity|].
      apply outcome_ok. vm_compute. reflexivity. }
    apply (rtc_l _ _ fs_listed).
    { apply (step_ls_files "a"
               (outcome ([], fs_empty) (CachedFileSystemMixin.ls_files "a" fs_written)).1).
      apply outcome_ok_pair. vm_compute. reflexivity. }
    apply rtc_once.
    apply (step_add_file ["a"; "y.txt"] (Ok (CText "y"))); [reflexivity|].
    apply outcome_ok. vm_compute. reflexivity.
  - repeat constructor.
  - by_evaluation.
Defined.

(** *** [add_file] and the cached directory listings *)

Lemma good_names_prefix (k1 k2 : list string) : good_names (k1 ++ k2) -> good_names k1.
Proof. now intros [H _]%Forall_app. Qed.

Lemma mixin_ls_dirs_cached (k : list string) (fs : cached_fs) (names : gset string) :
  good_names k -> _dirs_cache fs !! dir_of k = Some names ->
  CachedFileSystemMixin.ls_dirs (dir_of k) fs = Ok (elements names, fs).
Proof.
  intros Hk Hc. unfold CachedFileSystemMixin.ls_dirs.
  now rewrite (normalize_dir_of k Hk), Hc.
Qed.

(** X26. [add_file] of the caching file system returns whenever
    [FileSystem.add_file] does (the loop over the path ends), for a path
    that is clean once normalised. After it, every component of the path
    is in the cached directory listing of the directory above it, where
    that listing was cached: the directories that were made, and also
    the name of the file itself, which [FileSystem.ls_dirs] on the same
    disk does not list. *)
Theorem X26_add_file_enters_the_path_in_the_cached_dir_listings
    (parts : list string) (body : res content) (fs : cached_fs) (d' : disk)
    (k : list string) (n : string) :
  good_names k -> good_name n = true ->
  _normalize_path (FileSystem.join_parts parts) = key_of (k ++ [n]) ->
  FileSystem.add_file parts body (cf_disk fs) = Ok d' ->
  exists fs',
    CachedFileSystemMixin.add_file parts body fs = Ok fs' /\
    cf_disk fs' = d' /\
    (forall k1 m k2,
       k ++ [n] = k1 ++ m :: k2 ->
       is_Some (_dirs_cache fs !! dir_of k1) ->
       exists l, CachedFileSystemMixin.ls_dirs (dir_of k1) fs' = Ok (l, fs') /\ m ∈ l) /\
    (forall l0, FileSystem.ls_dirs (dir_of k) d' = Ok l0 -> n ∉ l0).
Proof.
  intros Hk Hn Hnorm Hadd.
  destruct (mixin_add_file_spec parts body fs d' k n Hk Hn Hnorm Hadd)
    as (dc' & Hrun & _ & Hin).
  eexists. split; [exact Hrun|]. split; [reflexivity|]. split.
  - intros k1 m k2 E [names Hc].
    destruct (Hin k1 m k2 names E Hc) as (names' & Hc' & Hm).
    exists (elements names'). split; [|now apply elem_of_elements].
    apply mixin_ls_dirs_cached; [|exact Hc'].
    apply (good_names_prefix k1 (m :: k2)). rewrite <- E. now apply good_names_snoc.
  - intros l0 Hl0 Hin0. apply (ls_dirs_spec k d' l0 n Hk Hl0) in Hin0 as [Hdir _].
    apply add_file_spec in Hadd as (c & _ & Hfile & _).
    rewrite Hnorm, resolve_key_of in Hfile by now apply good_names_snoc.
    congruence.
Qed.

(** X26 on the store with the directory [a], whose directories were
    listed, and the new file [a/y.txt]. *)
Lemma X26_add_file_enters_the_path_in_the_cached_dir_listings_witness :
  exists fs',
    CachedFileSystemMixin.add_file ["a"; "y.txt"] (Ok (CText "y")) fs_a_dirs_listed = Ok fs' /\
    cf_disk fs'
    = outcome ∅ (FileSystem.add_file ["a"; "y.txt"] (Ok (CText "y")) (cf_disk fs_a_dirs_listed)) /\
    (forall k1 m k2,
       ["a"] ++ ["y.txt"] = k1 ++ m :: k2 ->
       is_Some (_dirs_cache fs_a_dirs_listed !! dir_of k1) ->
       exists l, CachedFileSystemMixin.ls_dirs (dir_of k1) fs' = Ok (l, fs') /\ m ∈ l) /\
    (forall l0,
       FileSystem.ls_dirs (dir_of ["a"])
         (outcome ∅ (FileSystem.add_file ["a"; "y.txt"] (Ok (CText "y"))
                       (cf_disk fs_a_dirs_listed))) = Ok l0 ->
       "y.txt" ∉ l0).
Proof.
  apply (X26_add_file_enters_the_path_in_the_cached_dir_listings
           ["a"; "y.txt"] (Ok (CText "y")) fs_a_dirs_listed _ ["a"] "y.txt").
  - repeat constructor.
  - reflexivity.
  - reflexivity.
  - apply outcome_ok. vm_compute. reflexivity.
Defined.

(** *** [rmdir] and [rm] *)

(** X27. [rmdir] of the caching file system on the path of a directory
    entry [n] of the directory [k], when the directory listing of [k] is
    cached. The disk is left as [FileSystem.rmdir] leaves it. At the top
    level ([k] is the root) the cached listing is not updated: it lists
    what it listed before, also when the directory is gone; the
    directory part of the path is the empty string there, not ['.'].
    Below the top level the name is taken out of the cached listing,
    also when the directory is not empty and stays on the disk; and when
    the name is not in the cached listing, the call fails with the
    [KeyError] of [set.remove]. *)
Theorem X27_rmdir_and_the_cached_dir_listing (fs : cached_fs) (k : list string)
    (n : string) (names : gset string) :
  good_names k -> good_name n = true ->
  _dirs_cache fs !! dir_of k = Some names ->
  _dirs_cache fs !! "" = None ->
  (k = [] ->
   exists fs' l,
     CachedFileSystemMixin.rmdir n fs = Some fs' /\
     cf_disk fs' = FileSystem.rmdir n (cf_disk fs) /\
     CachedFileSystemMixin.ls_dirs "." fs' = Ok (l, fs') /\
     forall m, m ∈ l <-> m ∈ names) /\
  (k <> [] -> n ∈ names ->
   exists fs' l,
     CachedFileSystemMixin.rmdir (key_of (k ++ [n])) fs = Some fs' /\
     cf_disk fs' = FileSystem.rmdir (key_of (k ++ [n])) (cf_disk fs) /\
     CachedFileSystemMixin.ls_dirs (dir_of k) fs' = Ok (l, fs') /\
     (n ∉ l) /\
     forall m, m <> n -> m ∈ l <-> m ∈ names) /\
  (k <> [] -> n ∉ names ->
   CachedFileSystemMixin.rmdir (key_of (k ++ [n])) fs = None).
Proof.
  intros Hk Hn Hc Hroot.
  pose proof (normalize_key_of (k ++ [n]) (good_names_snoc k n Hk Hn)) as Hnorm.
  pose proof (clean_dirname k n Hk Hn) as Hdir.
  pose proof (clean_basename k n Hk Hn) as Hbase.
  split; [|split].
  - intros ->. change (key_of ([] ++ [n])) with n in *. change (key_of []) with "" in Hdir.
    exists (mkCachedFs (FileSystem.rmdir n (cf_disk fs)) (_files_cache fs) (_dirs_cache fs)).
    exists (elements names).
    unfold CachedFileSystemMixin.rmdir. rewrite Hnorm, Hdir, Hroot. cbn.
    split; [reflexivity|]. split; [reflexivity|]. split.
    + unfold CachedFileSystemMixin.ls_dirs. cbn [_dirs_cache].
      change (_normalize_path ".") with ".". cbn [dir_of] in Hc. now rewrite Hc.
    + intros m. apply elem_of_elements.
  - intros Hne Hin. assert (Ed : dir_of k = key_of k) by now destruct k.
    rewrite Ed in *.
    exists (mkCachedFs (FileSystem.rmdir (key_of (k ++ [n])) (cf_disk fs)) (_files_cache fs)
              (<[key_of k := names ∖ {[n]}]> (_dirs_cache fs))).
    exists (elements (names ∖ {[n]})).
    unfold CachedFileSystemMixin.rmdir.
    rewrite Hnorm, Hdir, Hbase, Hc. rewrite decide_True by exact Hin. cbn.
    split; [reflexivity|]. split; [reflexivity|]. split; [|split].
    + unfold CachedFileSystemMixin.ls_dirs. cbn [_dirs_cache].
      rewrite <- Ed, (normalize_dir_of k Hk), Ed. now rewrite lookup_insert_eq.
    + rewrite elem_of_elements. set_solver.
    + intros m Hm. rewrite elem_of_elements. set_solver.
  - intros Hne Hnin. assert (Ed : dir_of k = key_of k) by now destruct k.
    rewrite Ed in *. unfold CachedFileSystemMixin.rmdir.
    rewrite Hnorm, Hdir, Hbase, Hc. now rewrite decide_False by exact Hnin.
Qed.

(** X27 on the store with the directories [a] and [a/b], after the
    directories of [a] were listed. *)
Lemma X27_rmdir_and_the_cached_dir_listing_witness :
  (["a"] = [] ->
   exists fs' l,
     CachedFileSystemMixin.rmdir "b" fs_a_dirs_listed = Some fs' /\
     cf_disk fs' = FileSystem.rmdir "b" (cf_disk fs_a_dirs_listed) /\
     CachedFileSystemMixin.ls_dirs "." fs' = Ok (l, fs') /\
     forall m, m ∈ l <-> m ∈ ({[ "b" ]} : gset string)) /\
  (["a"] <> [] -> "b" ∈ ({[ "b" ]} : gset string) ->
   exists fs' l,
     CachedFileSystemMixin.rmdir (key_of (["a"] ++ ["b"])) fs_a_dirs_listed = Some fs' /\
     cf_disk fs' = FileSystem.rmdir (key_of (["a"] ++ ["b"])) (cf_disk fs_a_dirs_listed) /\
     CachedFileSystemMixin.ls_dirs (dir_of ["a"]) fs' = Ok (l, fs') /\
     ("b" ∉ l) /\
     forall m, m <> "b" -> m ∈ l <-> m ∈ ({[ "b" ]} : gset string)) /\
  (["a"] <> [] -> "b" ∉ ({[ "b" ]} : gset string) ->
   CachedFileSystemMixin.rmdir (key_of (["a"] ++ ["b"])) fs_a_dirs_listed = None).
Proof.
  apply (X27_rmdir_and_the_cached_dir_listing fs_a_dirs_listed ["a"] "b" {[ "b" ]}).
  - repeat constructor.
  - reflexivity.
  - by_evaluation.
  - by_evaluation.
Defined.

(** X28. [rm] of the caching file system, on a clean path whose
    directory has a cached file listing, hands the path to the [rm] of
    the base class and takes the name out of the cached listing: when it
    returns, [ls_files] of the directory does not list the name any more
    and lists the other names as before, whatever the base class has
    done to the disk. *)
Theorem X28_rm_takes_the_name_out_of_the_cached_listing
    (super_rm : string -> disk -> res disk) (fs fs' : cached_fs)
    (k : list string) (n : string) (names : gset string) :
  good_names k -> good_name n = true ->
  _files_cache fs !! dir_of k = Some names ->
  CachedFileSystemMixin.rm super_rm (key_of (k ++ [n])) fs = Ok fs' ->
  super_rm (key_of (k ++ [n])) (cf_disk fs) = Ok (cf_disk fs') /\
  exists l,
    CachedFileSystemMixin.ls_files (dir_of k) fs' = Ok (l, fs') /\
    (n ∉ l) /\
    forall m, m <> n -> m ∈ l <-> m ∈ names.
Proof.
  intros Hk Hn Hc H. unfold CachedFileSystemMixin.rm in H.
  rewrite (normalize_key_of (k ++ [n]) (good_names_snoc k n Hk Hn)) in H.
  rewrite (clean_dirname_or_dot k n Hk Hn), (clean_basename k n Hk Hn), Hc in H.
  apply bind_ok in H as (d' & Hsuper & H). injection H as <-. cbn [cf_disk].
  split; [exact Hsuper|].
  exists (elements (names ∖ {[n]})). split; [|split].
  - unfold CachedFileSystemMixin.ls_files. cbn [_files_cache].
    now rewrite (normalize_dir_of k Hk), lookup_insert_eq.
  - rewrite elem_of_elements. set_solver.
  - intros m Hm. rewrite elem_of_elements. set_solver.
Qed.

(** X28 on the store with the file [a/x.txt], after the files of [a]
    were listed, over a base class whose [rm] removes nothing. *)
Lemma X28_rm_takes_the_name_out_of_the_cached_listing_witness :
  (fun _ d => Ok d) (key_of (["a"] ++ ["x.txt"])) (cf_disk fs_a_files_listed)
  = Ok (cf_disk (outcome fs_empty
                   (CachedFileSystemMixin.rm (fun _ d => Ok d) "a/x.txt" fs_a_files_listed))) /\
  exists l,
    CachedFileSystemMixin.ls_files (dir_of ["a"])
      (outcome fs_empty
         (CachedFileSystemMixin.rm (fun _ d => Ok d) "a/x.txt" fs_a_files_listed))
    = Ok (l, outcome fs_empty
               (CachedFileSystemMixin.rm (fun _ d => Ok d) "a/x.txt" fs_a_files_listed)) /\
    ("x.txt" ∉ l) /\
    forall m, m <> "x.txt" -> m ∈ l <-> m ∈ ({[ "x.txt"; "b" ]} : gset string).
Proof.
  apply (X28_rm_takes_the_name_out_of_the_cached_listing (fun _ d => Ok d)
           fs_a_files_listed _ ["a"] "x.txt" {[ "x.txt"; "b" ]}).
  - repeat constructor.
  - reflexivity.
  - by_evaluation.
  - apply outcome_ok. vm_compute. reflexivity.
Defined.

(** ** [scandirs_depth_first] *)

(** *** The names of a directory *)

Lemma children_names_NoDup {V} (d : gmap (list string) V) (k : list string) :
  NoDup (FileSystem.children d k).*1.
Proof.
  unfold FileSystem.children.
  pose proof (NoDup_fst_map_to_list d) as Hnd.
  induction (map_to_list d) as [|[key v] l IH]; [constructor|].
  cbn [fmap list_fmap fst] in Hnd. apply NoDup_cons in Hnd as [Hkey Hnd].
  change (omap ?f ((key, v) :: l))
    with (match f (key, v) with Some y => y :: omap f l | None => omap f l end).
  cbn [fst snd]. destruct (FileSystem.child_name k key) as [n|] eqn:E; cbn; [|now apply IH].
  apply NoDup_cons. split; [|now apply IH].
  apply child_name_spec in E as ->.
  intros (ne & -> & Hin)%list_elem_of_fmap. apply list_elem_of_omap in Hin as ([key' v'] & Hin & E').
  cbn in E'. destruct (FileSystem.child_name k key') as [n'|] eqn:En; [|discriminate].
  injection E' as <-. apply child_name_spec in En as ->. cbn in Hkey.
  apply Hkey. apply list_elem_of_fmap. now exists (k ++ [n'], v').
Qed.

Lemma filter_fst_NoDup {A B} (P : A * B -> bool) (l : list (A * B)) :
  NoDup l.*1 -> NoDup (List.map fst (List.filter P l)).
Proof.
  induction l as [|x l IH]; [constructor|]. cbn [fmap list_fmap].
  intros [Hx Hl]%NoDup_cons. cbn [List.filter]. destruct (P x); [|now apply IH].
  cbn [List.map]. apply NoDup_cons. split; [|now apply IH].
  intros Hin. apply Hx. apply list_elem_of_In, List.in_map_iff in Hin as (y & E & Hy).
  apply List.filter_In in Hy as [Hy _]. apply list_elem_of_fmap. exists y.
  split; [now symmetry | now apply list_elem_of_In].
Qed.

(** The directories that one turn of the scan goes into. *)
Lemma scanned_names (src : source_tree) (k : list string) (n : string) :
  n ∈ List.map fst
        (List.filter (fun ne : string * sentry =>
                        bool_decide (ne.2 = SDir) && negb (PyStr.startswith ne.1 "."))
                     (FileSystem.children src k))
  <-> src !! (k ++ [n]) = Some SDir /\ PyStr.startswith n "." = false.
Proof.
  rewrite list_elem_of_In, List.in_map_iff. split.
  - intros ([n' e] & <- & [Hin Hp]%List.filter_In). cbn [fst snd] in *.
    apply andb_prop in Hp as [He%bool_decide_eq_true Hdot%negb_true_iff]. subst e.
    split; [|exact Hdot]. now apply elem_of_children, list_elem_of_In.
  - intros [Hdir Hdot]. exists (n, SDir). split; [reflexivity|].
    apply List.filter_In. split.
    + now apply list_elem_of_In, elem_of_children.
    + cbn [fst snd]. rewrite Hdot. now rewrite bool_decide_eq_true_2.
Qed.

(** *** Joining the paths *)

Lemma join2_key_of (k : list string) (n : string) :
  good_names k -> good_name n = true ->
  OsPath.join2 (key_of k) n = key_of (k ++ [n]).
Proof.
  intros Hk Hn. destruct k as [|x k].
  - unfold OsPath.join2. now rewrite (startswith_slash_good n Hn).
  - exact (join2_dir_of (x :: k) n Hk Hn).
Qed.

Lemma join2_name_key (n : string) (k : list string) :
  good_name n = true -> good_names k -> k <> [] ->
  OsPath.join2 n (key_of k) = key_of (n :: k).
Proof.
  intros Hn Hk Hne. destruct k as [|x k]; [congruence|].
  unfold OsPath.join2.
  destruct (key_of_first x k) as (c & t & E & Hc); [now inversion Hk|].
  assert (Hs : PyStr.startswith (key_of (x :: k)) "/" = false).
  { rewrite E. unfold PyStr.startswith. cbn [String.prefix].
    destruct (ascii_dec "/" c) as [<-|]; [now destruct Hc | reflexivity]. }
  rewrite Hs. destruct (good_name_parts n Hn) as (Hn1 & _ & Hn3).
  apply String.eqb_neq in Hn1. rewrite Hn1, (endswith_no_sep n Hn3). cbn [orb].
  rewrite key_of_cons. reflexivity.
Qed.
(** *** Children first *)

Lemma children_first_app (A B : list (list string)) :
  children_first A -> children_first B ->
  (forall k1 k2, k1 ∈ A -> k1 ++ k2 ∈ B -> k2 <> [] -> False) ->
  children_first (A ++ B).
Proof.
  intros HA HB Hcross i j k1 k2 Hi Hj Hk2.
  apply lookup_app_Some in Hi as [Hi|[Hia Hi]];
    apply lookup_app_Some in Hj as [Hj|[Hja Hj]].
  - exact (HA i j k1 k2 Hi Hj Hk2).
  - exfalso. apply (Hcross k1 k2); [| |exact Hk2]; eapply list_elem_of_lookup_2; eassumption.
  - apply lookup_lt_Some in Hj. lia.
  - pose proof (HB _ _ k1 k2 Hi Hj Hk2). lia.
Qed.

Lemma children_first_cons (n : string) (ks : list (list string)) :
  children_first ks -> children_first (List.map (cons n) ks).
Proof.
  intros H i j k1 k2 Hi Hj Hk2.
  change (List.map (cons n) ks) with (cons n <$> ks) in Hi, Hj.
  rewrite list_lookup_fmap in Hi, Hj.
  destruct (ks !! i) as [a|] eqn:Ea; [|discriminate]. injection Hi as <-.
  destruct (ks !! j) as [b|] eqn:Eb; [|discriminate]. injection Hj as ->.
  exact (H i j a k2 Ea Eb Hk2).
Qed.

(** What the scan of the directory [k] is to yield. *)
Lemma seen_from_good (src : source_tree) (k k' : list string) :
  good_disk src -> good_names k -> seen_from src k k' -> good_names k'.
Proof.
  intros Hsrc. revert k. induction k' as [|n k' IH]; intros k Hk; [constructor|].
  intros (Hdir & _ & Hrest). apply Hsrc in Hdir.
  constructor; [|now apply (IH (k ++ [n]))].
  apply Forall_app in Hdir as [_ Hn]. now inversion Hn.
Qed.

Lemma scan_loop (src : source_tree) (depth : nat) (k : list string) :
  good_disk src -> good_names k ->
  forall (L : list string) (acc : list (list string)),
    NoDup L ->
    (forall n, n ∈ L ->
       good_name n = true /\
       exists ks,
         scandirs_depth_first depth src (key_of (k ++ [n])) = Ok (List.map key_of ks) /\
         NoDup ks /\
         (forall k', k' ∈ ks <-> k' <> [] /\ seen_from src (k ++ [n]) k') /\
         children_first ks) ->
    exists kss,
      for_each (fun dir_name acc =>
                  subs ← scandirs_depth_first depth src (OsPath.join2 (key_of k) dir_name);
                  Ok (acc ++ List.map (OsPath.join2 dir_name) subs ++ [dir_name]))
               L (List.map key_of acc)
      = Ok (List.map key_of (acc ++ kss)) /\
      NoDup kss /\
      (forall k', k' ∈ kss <->
                  exists n k'', k' = n :: k'' /\ n ∈ L /\ seen_from src (k ++ [n]) k'') /\
      children_first kss.
Proof.
  intros Hsrc Hk. induction L as [|n L IH]; intros acc Hnd Hall.
  - exists []. rewrite List.app_nil_r. split; [reflexivity|]. split; [constructor|]. split.
    + intros k'. split; [intros Hin; inversion Hin | intros (n & k'' & _ & Hin & _); inversion Hin].
    + intros i j k1 k2 Hi. discriminate.
  - apply NoDup_cons in Hnd as [Hn Hnd].
    destruct (Hall n) as (Hgn & ks & Hscan & Hks & Hmem & Hord); [apply list_elem_of_here|].
    set (block := List.map (cons n) ks ++ [[n]]).
    assert (Hgood : forall k'', k'' ∈ ks -> good_names k'' /\ k'' <> []).
    { intros k'' [Hne Hseen]%Hmem. split; [|exact Hne].
      apply (seen_from_good src (k ++ [n]) k'' Hsrc); [|exact Hseen].
      now apply good_names_snoc. }
    assert (Hblock : List.map (OsPath.join2 n) (List.map key_of ks) ++ [n]
                     = List.map key_of block).
    { unfold block. rewrite List.map_app, !List.map_map. cbn [List.map key_of String.concat].
      f_equal. apply List.map_ext_in. intros k'' Hin%list_elem_of_In.
      destruct (Hgood k'' Hin). now apply join2_name_key. }
    destruct (IH (acc ++ block) Hnd) as (kss & Hrun & Hkss & Hmem' & Hord').
    { intros n' Hn'. apply Hall. now apply list_elem_of_further. }
    exists (block ++ kss). cbn [for_each].
    rewrite (join2_key_of k n Hk Hgn), Hscan. cbn.
    rewrite Hblock, <- List.map_app, Hrun, <- List.app_assoc.
    split; [reflexivity|].
    assert (Hbmem : forall k', k' ∈ block <-> exists k'', k' = n :: k'' /\ seen_from src (k ++ [n]) k'').
    { intros k'. unfold block. rewrite elem_of_app, list_elem_of_singleton.
      change (List.map (cons n) ks) with (cons n <$> ks). rewrite list_elem_of_fmap. split.
      - intros [(k'' & -> & Hin)| ->].
        + exists k''. split; [reflexivity|]. now apply Hmem.
        + exists []. split; [reflexivity | exact I].
      - intros (k'' & -> & Hseen). destruct k'' as [|x k3]; [now right|].
        left. exists (x :: k3). split; [reflexivity|]. apply Hmem. split; [discriminate|].
        exact Hseen. }
    split; [|split].
    + apply NoDup_app. split; [|split; [|exact Hkss]].
      * unfold block. apply NoDup_app. split; [|split; [|apply NoDup_singleton]].
        -- change (List.map (cons n) ks) with (cons n <$> ks).
           apply NoDup_fmap; [|exact Hks]. intros a b [= ->]. reflexivity.
        -- intros k' Hin ->%list_elem_of_singleton.
           change (List.map (cons n) ks) with (cons n <$> ks) in Hin.
           apply list_elem_of_fmap in Hin as (k'' & [= <-] & Hin).
           now apply Hgood in Hin as [_ Hne].
      * intros k' (k'' & -> & _)%Hbmem (n' & k3 & [= <- <-] & Hin & _)%Hmem'.
        now apply Hn.
    + intros k'. rewrite elem_of_app, Hbmem, Hmem'. split.
      * intros [(k'' & -> & Hseen)|(n' & k'' & -> & Hin & Hseen)].
        -- exists n, k''. split; [reflexivity|]. split; [apply list_elem_of_here | exact Hseen].
        -- exists n', k''. split; [reflexivity|]. split; [now apply list_elem_of_further | exact Hseen].
      * intros (n' & k'' & -> & [-> | Hin]%elem_of_cons & Hseen).
        -- left. now exists k''.
        -- right. now exists n', k''.
    + apply children_first_app; [|exact Hord'|].
      * unfold block. apply children_first_app.
        -- now apply children_first_cons.
        -- intros [|i] [|j] k1 k2 Hi Hj Hk2; try discriminate.
           injection Hi as <-. injection Hj as Hj. destruct k2; [congruence | discriminate].
        -- intros k1 k2 Hin Hin2%list_elem_of_singleton Hk2.
           change (List.map (cons n) ks) with (cons n <$> ks) in Hin.
           apply list_elem_of_fmap in Hin as (k'' & -> & Hin).
           apply Hgood in Hin as [_ Hne]. destruct k''; [congruence | discriminate].
      * intros k1 k2 (k'' & -> & _)%Hbmem (n' & k3 & [= <- _] & Hin & _)%Hmem' _.
        now apply Hn.
Qed.

(** The scan of the directory [k], with enough fuel for what is seen
    from it. *)
Lemma scan_spec (src : source_tree) :
  good_disk src ->
  forall (depth : nat) (k : list string),
    good_names k ->
    src_lookup src k = Some SDir ->
    (forall k', seen_from src k k' -> List.length k' < depth) ->
    exists ks,
      scandirs_depth_first depth src (key_of k) = Ok (List.map key_of ks) /\
      NoDup ks /\
      (forall k', k' ∈ ks <-> k' <> [] /\ seen_from src k k') /\
      children_first ks.
Proof.
  intros Hsrc. induction depth as [|depth IH]; intros k Hk Hdir Hdeep.
  - specialize (Hdeep [] I). cbn in Hdeep. lia.
  - cbn [scandirs_depth_first]. unfold src_scandir.
    rewrite (resolve_key_of k Hk), Hdir. cbn.
    set (L := List.map fst (List.filter _ (FileSystem.children src k))).
    assert (HL : forall n, n ∈ L <-> src !! (k ++ [n]) = Some SDir /\ PyStr.startswith n "." = false)
      by apply scanned_names.
    destruct (scan_loop src depth k Hsrc Hk L []) as (kss & Hrun & Hnd & Hmem & Hord).
    { apply filter_fst_NoDup, children_names_NoDup. }
    { intros n [Hn Hdot]%HL. pose proof (Hsrc _ _ Hn) as Hg.
      split; [apply Forall_app in Hg as [_ Hg]; now inversion Hg|].
      apply IH; [exact Hg | now destruct k |].
      intros k' Hseen. specialize (Hdeep (n :: k')). cbn in Hdeep.
      enough (S (List.length k') < S depth) by lia. apply Hdeep. auto. }
    exists kss. split; [exact Hrun|]. split; [exact Hnd|]. split; [|exact Hord].
    intros k'. rewrite Hmem. split.
    + intros (n & k'' & -> & [Hn Hdot]%HL & Hseen). split; [discriminate|]. cbn. auto.
    + intros [Hne Hseen]. destruct k' as [|n k'']; [congruence|].
      destruct Hseen as (Hn & Hdot & Hseen). exists n, k''. split; [reflexivity|].
      split; [now apply HL | exact Hseen].
Qed.
(** *** The depth of the tree *)

Lemma seen_from_keys (src : source_tree) (k k' : list string) (j : nat) :
  seen_from src k k' -> j < List.length k' ->
  src !! (k ++ take (S j) k') = Some SDir.
Proof.
  revert k j. induction k' as [|n k' IH]; intros k j; [cbn; lia|].
  intros (Hdir & _ & Hrest) Hj. destruct j as [|j].
  - cbn [take]. now rewrite take_0.
  - cbn [List.length] in Hj. specialize (IH (k ++ [n]) j Hrest ltac:(lia)).
    now rewrite <- List.app_assoc in IH.
Qed.

(** What is seen from the root is no deeper than the tree has entries. *)
Lemma seen_from_depth (src : source_tree) (k' : list string) :
  seen_from src [] k' -> List.length k' < S (size src).
Proof.
  intros Hseen.
  set (keys := (fun j => take (S j) k') <$> seq 0 (List.length k')).
  assert (Hnd : NoDup keys).
  { apply NoDup_fmap_2_strong; [|apply NoDup_seq].
    intros i j Hi%elem_of_seq Hj%elem_of_seq E.
    apply (f_equal List.length) in E. rewrite !length_take in E. lia. }
  assert (Hin : forall x, x ∈ keys -> x ∈ (map_to_list src).*1).
  { intros x (j & -> & Hj%elem_of_seq)%list_elem_of_fmap.
    apply list_elem_of_fmap. exists (take (S j) k', SDir). split; [reflexivity|].
    apply elem_of_map_to_list. apply (seen_from_keys src [] k' j Hseen). lia. }
  pose proof (submseteq_length _ _ (NoDup_submseteq _ _ Hnd Hin)) as Hlen.
  unfold keys in Hlen. rewrite !length_fmap, length_seq, length_map_to_list in Hlen. lia.
Qed.

(** X29. [scandirs_depth_first] on the source tree returns (the
    recursion is no deeper than the tree), and it yields the joined paths
    of the directories that are seen from the root: those below the root
    that are reached through directories whose names do not start with a
    dot. Each of them is yielded once, and what is below a directory is
    yielded before the directory. *)
Theorem X29_scandirs_depth_first_yields_children_first (src : source_tree) :
  good_disk src ->
  exists ks,
    scandirs_depth_first (S (size src)) src "" = Ok (List.map key_of ks) /\
    NoDup (List.map key_of ks) /\
    (forall k', k' ∈ ks <-> k' <> [] /\ seen_from src [] k') /\
    children_first ks.
Proof.
  intros Hsrc.
  destruct (scan_spec src Hsrc (S (size src)) []) as (ks & Hrun & Hnd & Hmem & Hord).
  - constructor.
  - reflexivity.
  - apply seen_from_depth.
  - exists ks. split; [exact Hrun|]. split; [|split; assumption].
    change (List.map key_of ks) with (key_of <$> ks).
    apply NoDup_fmap_2_strong; [|exact Hnd].
    intros a b [_ Ha]%Hmem [_ Hb]%Hmem. apply key_of_inj.
    + apply (seen_from_good src [] a Hsrc); [constructor | exact Ha].
    + apply (seen_from_good src [] b Hsrc); [constructor | exact Hb].
Qed.

(** X29 on a tree with the directories [a], [a/b], [c] and [.git]. *)
Lemma X29_scandirs_depth_first_yields_children_first_witness :
  exists ks,
    scandirs_depth_first (S (size tree_dirs)) tree_dirs "" = Ok (List.map key_of ks) /\
    NoDup (List.map key_of ks) /\
    (forall k', k' ∈ ks <-> k' <> [] /\ seen_from tree_dirs [] k') /\
    children_first ks.
Proof.
  apply (X29_scandirs_depth_first_yields_children_first tree_dirs).
  apply good_disk_check. by_evaluation.
Defined.

(** What the scan yields on that tree, [scandir] listing in the order of
    the map: [a/b] before [a], and nothing of [.git]. *)
Example scandirs_depth_first_tree_dirs :
  scandirs_depth_first (S (size tree_dirs)) tree_dirs "" = Ok ["c"; "a/b"; "a"].
Proof. by_evaluation. Qed.
